(* ===== verification/_CoqProject ===== *)
-Q . S2P
Prelude.v
Numbers.v
Garnet.v
Failover.v
WebSocket.v
Capability.v
Auth.v
DispatchTypes.v
Usage.v
Json.v
JsonText.v
ChatIr.v
OpenAiFormat.v
AnthropicFormat.v
GeminiFormat.v
ResponsesFormat.v
StreamPipe.v
StreamFormats.v
Forwarder.v
Dispatch.v
GatewayTypes.v
Validation.v
Multipart.v
RequestConversion.v
ResponseConversion.v
GatewayRequest.v
Gateway.v
GatewaySamples.v
GatewayLogic.v
GatewayLease.v
ProtocolConverter.v
GatewayReturns.v
GatewayPolicy.v
GatewayFindings.v
Router.v
HttpServer.v
RealtimeSession.v
Realtime.v
