(* ===== verification/Prelude.v ===== *)
(** * ScalaAPI gateway: a verification development

    The gateway ([src/src]) accepts OpenAI, Anthropic and Gemini requests, has the
    control plane ("Platform") grant a lease on a provider account for each, forwards
    the request, converts and screens the answer, and reports the usage of the lease.
    This library models its C++ sources as executable functions and proves what makes
    them correct.

    ** The program and the files

    A request enters through the HTTP server, is routed, and is handled; the handler
    calls the control plane, the store, the usage outbox and the forwarder, whose pipe
    copies and converts a streamed answer.

    - [Numbers]: integers as text ([std::to_string], [strtol], [atoll], [stoull]).
    - [HttpServer]: [server/http_server.cpp]. [http_handler] turns what Photon hands
      over into the calls made on its response; trusted proxies, body limits, upgrades.
    - [Router]: [server/router.cpp]. Probes, metrics, the public catalogue, refusals.
    - [Capability]: [server/capability_registry.cpp]. The route table and the checks of
      path segments and query strings.
    - [WebSocket]: [server/websocket.cpp]. Upgrade detection, SHA-1, base64, frames.
    - [GatewayTypes], [GatewayRequest], [Gateway]: [server/gateway_handler.cpp], the
      method [handle], stretch by stretch in the order of the source. The state [Gw] has
      the authentication cache, the usage collector, the metrics, the response, the clock
      and the log of all calls made with their answers.
    - [RealtimeSession], [Realtime]: [bridge_realtime] of the same file; its two threads
      are a step relation on their shared atomics.
    - [Forwarder]: [forwarder/forwarder.cpp] and [forwarder/connection_pool.cpp]; one
      exchange with a provider, header policies, usage of a JSON body.
    - [StreamPipe]: [forwarder/stream_pipe.cpp]; both pipe loops, the content policy, usage
      and terminal events, keepalives.
    - [Failover]: [forwarder/retry_policy.cpp], [forwarder/failover.cpp].
    - [DispatchTypes], [Dispatch]: [dispatch/capnp_dispatch_client.cpp]; framing,
      reconnection, every call and the reading of its answer.
    - [Auth]: [auth/], the cache of key snapshots and its invalidation.
    - [Usage]: [usage/], the collector (SQLite and memory) and the reporter.
    - [Garnet]: [cache/garnet_client.cpp], the RESP client of the store.
    - [Json], [JsonText]: the part of [rapidjson::Value] the sources use, and what is
      read from and printed to text.
    - [ChatIr]: [protocol/chat_ir.h], the form every request and every event of a stream
      takes between two formats.
    - [OpenAiFormat], [AnthropicFormat], [GeminiFormat], [ResponsesFormat]:
      [protocol/openai_format.cpp], [anthropic_format.cpp], [gemini_format.cpp],
      [openai_responses_format.cpp]; each parses and prints requests and stream events.
    - [StreamFormats]: what the pipe asks of the four formats, as one instance.
    - [Validation], [Multipart], [RequestConversion], [ResponseConversion]:
      [protocol/converter.cpp]; the validation of embeddings, catalogues and token counts,
      multipart forms and media usage, the conversion of requests, answers and errors.
    - [ProtocolConverter]: what the handler asks of the converter, as one instance, and
      the handler's theorems at that instance.

    [GatewayLogic] is a weakest-precondition calculus for the handler's monad;
    [GatewayLease], [GatewayPolicy], [GatewayReturns] and [GatewayFindings] hold the
    properties of [handle]; [GatewaySamples] holds concrete environments for witnesses.

    ** How code becomes definitions

    Strings are lists of characters; an integer is a [Z] with its wrap-around written
    out ([u32], [u64], [i32], [i64]) where the source can reach it. Code that may fail
    returns [res]; code that changes state is in [stm] or, for the handler, in [hm],
    which also has the early return. Loops over what a peer sends are structural
    recursions on the list of reads, or run with fuel.

    What is not in the repository is a parameter with the contract the code relies on:
    [RapidJson] (parser and writer), [Capnp] (message encoding), [Environment] (answers
    of the control plane, the provider, the database and the clock to the handler's calls,
    each call numbered so that answers may differ), [Network] and [Peer] (sockets of the
    store), [Probes] and [RealtimePeer]. Nothing is assumed of their answers unless a
    theorem says so. The theorems on formats assume [RapidJsonLaws]: a value whose
    integers fit 64 bits and whose doubles are read back one by one is read back from
    its text, which is one line. [coded_json] is a reader and writer for which the laws
    are proved; the witnesses use it. Reading a member as a type it does not have is an
    assertion of RapidJSON, which a release build does not check: the parsers yield an
    error there, and what the converter then returns to the handler is the parameter
    [PastAssertion].

    Two interfaces separate components of the repository. [StreamCodec] is what the pipe
    needs of the formats, [Converter] what the handler needs of the conversions; the
    pipe and the handler are proved against them, [protocol_codec] and
    [protocol_converter] implement them.

    ** What is shown

    - Leases: every run of [handle] and of [bridge_realtime] is a path of an abstract
      state machine of a lease's life; a provider is contacted only after acknowledged
      evidence, a request is retried only after an explicit refusal before any output,
      and a lease is settled when the handler returns.
    - Content policy: what reaches a chat client was cleared by the policy, for whole
      answers and for every event of a stream.
    - Usage: recorded events are given back, never lost by a flush, unique per lease.
    - Termination: [handle], the pipes, the failover loop and a realtime session end; the
      fuel of the models is enough.
    - Refinement and equivalence: the RESP client implements lookup in the store, the
      chunking of a stream does not matter, CIDR lists mean what the notation means, the
      incremental SHA-1 is SHA-1.
    - Conversions: each of the four formats reads back the requests it prints; a plain
      chat, an answer (text, tool calls, finish reason, usage) and the events of a stream
      keep their meaning between any two formats; content no format knows is refused;
      an error keeps its class. An accepted embeddings answer answers its request, an
      accepted catalogue is complete and without duplicates. With the real converter the
      handler settles its lease for every supported request.
    - Round trips: WebSocket and dispatch frames, quoted strings, multipart forms.
    - Bounds: request bodies, session limits under every interleaving, retry delays.
    - Isolation: a request without a key causes no call but a read of the public
      catalogue; unknown routes are refused.
    - Flaws of the source, each with a theorem that exhibits it.

    ** Bounds and fuel

    [dispatch_fuel] (18) covers eight waits, eight transport retries and the last
    answer; [forwarding_fuel] (36) covers the at most 34 retries that fit into the ten
    seconds of the retry policy with its 300 ms back-off; [realtime_fuel] (10) covers the
    nine calls of the realtime dispatch loop. [handle_returns] and [realtime_returns] prove
    them enough. The search of a multipart field has the length of the body plus one as
    fuel, which [find_part_ends] proves enough. The other loops take the length of their
    input as fuel.

    ** Not modelled

    [main.cpp] and [platform/] (start-up, configuration, thread pinning, logging, fault
    injection) and the starting of the listener are I/O and glue around library calls. *)
From Stdlib Require Export ZArith Ascii String Bool Lia.
From stdpp Require Export base tactics list gmap strings.

(** ** Strings

    [std::string] and [std::string_view] are lists of characters; a literal of
    the source is written as a Rocq string and coerced. *)
Abbreviation str := (list ascii).

Definition lit (s : string) : str := list_ascii_of_string s.
Coercion lit : string >-> list.

(** Only the literal syntax of strings is wanted, not the operators of
    [string_scope]. *)
Declare Scope str_scope.
String Notation string string_of_list_byte list_byte_of_string : str_scope.
#[global] Open Scope str_scope.

Definition LF : ascii := "010"%char.
Definition CR : ascii := "013"%char.
Definition DQ : ascii := "034"%char.
Definition NUL : ascii := "000"%char.

(** [q "{'a':1}"] is the C++ literal in which every apostrophe stands for a
    double quote. *)
Definition q (s : string) : str :=
  (λ c, if (c =? "'")%char then DQ else c) <$> list_ascii_of_string s.

Definition str_eqb (a b : str) : bool := bool_decide (a = b).

Notation "a =$ b" := (str_eqb a b) (at level 70, no associativity) : str_scope.

Lemma str_eqb_eq a b : (a =$ b) = true <-> a = b.
Proof. apply bool_decide_eq_true. Qed.

Lemma str_eqb_neq a b : (a =$ b) = false <-> a <> b.
Proof. apply bool_decide_eq_false. Qed.

Lemma str_eqb_refl a : (a =$ a) = true.
Proof. by apply str_eqb_eq. Qed.

(** ** Character classes (the "C" locale) *)

#[global] Arguments Ascii.eqb : simpl never.

Definition code (c : ascii) : nat := nat_of_ascii c.

Definition in_range (lo hi : ascii) (c : ascii) : bool :=
  (code lo <=? code c) && (code c <=? code hi).

Definition is_lower (c : ascii) : bool := in_range "a" "z" c.
Definition is_upper (c : ascii) : bool := in_range "A" "Z" c.
Definition is_digit (c : ascii) : bool := in_range "0" "9" c.
Definition is_alnum (c : ascii) : bool := is_lower c || is_upper c || is_digit c.

(** [std::isspace]: space, \t, \n, \v, \f, \r. *)
Definition is_space (c : ascii) : bool :=
  (c =? " ")%char || ((9 <=? code c) && (code c <=? 13)).

(** [std::tolower]. *)
Definition tolower (c : ascii) : ascii :=
  if is_upper c then ascii_of_nat (code c + 32) else c.

Definition lower (s : str) : str := tolower <$> s.

(** Facts about all characters are settled by running over the 256 of them. *)
Definition all_chars : list ascii := ascii_of_nat <$> seq 0 256.

Lemma all_chars_complete c : c ∈ all_chars.
Proof.
  unfold all_chars. apply list_elem_of_fmap. exists (code c). split.
  - unfold code. by rewrite ascii_nat_embedding.
  - apply elem_of_seq. unfold code. pose proof (nat_ascii_bounded c). lia.
Qed.

Lemma forall_chars (P : ascii -> bool) :
  forallb P all_chars = true -> forall c, P c = true.
Proof.
  intros H c. rewrite forallb_forall in H. apply H.
  apply list_elem_of_In, all_chars_complete.
Qed.

Ltac by_chars := apply forall_chars; vm_compute; reflexivity.

(** ** [starts_with], [ends_with], [find], [substr] *)

Fixpoint starts_with (s p : str) {struct p} : bool :=
  match p, s with
  | [], _ => true
  | a :: p', b :: s' => (a =? b)%char && starts_with s' p'
  | _ :: _, [] => false
  end.

Definition ends_with (s p : str) : bool :=
  (length p <=? length s) && (drop (length s - length p) s =$ p).

(** [s.find(p)]: the least index at which [p] occurs. *)
Fixpoint sfind (p s : str) : option nat :=
  if starts_with s p then Some 0
  else match s with
       | [] => None
       | _ :: s' => S <$> sfind p s'
       end.

(** [s.find(p, pos)]. *)
Definition sfind_from (p s : str) (pos : nat) : option nat :=
  if pos <=? length s then Nat.add pos <$> sfind p (drop pos s) else None.

Definition contains (s p : str) : bool :=
  match sfind p s with Some _ => true | None => false end.

(** [s.substr(0, i)] where [i] is the result of a [find]: the whole string when
    nothing was found. *)
Definition upto (i : option nat) (s : str) : str :=
  match i with Some n => take n s | None => s end.

Definition empty (s : str) : bool := match s with [] => true | _ => false end.

(** A C string ends at its first NUL: [std::string(p.c_str())]. *)
Fixpoint cstr (s : str) : str :=
  match s with
  | [] => []
  | c :: s' => if (c =? NUL)%char then [] else c :: cstr s'
  end.

Fixpoint drop_while (f : ascii -> bool) (s : str) : str :=
  match s with
  | [] => []
  | c :: s' => if f c then drop_while f s' else s
  end.

Definition drop_while_back (f : ascii -> bool) (s : str) : str :=
  rev (drop_while f (rev s)).

Lemma cstr_no_NUL s : NUL ∉ s -> cstr s = s.
Proof.
  induction s as [|c s IH]; intros H; simpl; [done|]. apply not_elem_of_cons in H as [Hc Hs].
  destruct (Ascii.eqb_spec c NUL); [congruence|]. by rewrite IH.
Qed.

Lemma cstr_NUL s : NUL ∉ cstr s.
Proof.
  induction s as [|c s IH]; simpl; [by apply not_elem_of_nil|].
  destruct (Ascii.eqb_spec c NUL); [by apply not_elem_of_nil|]. by apply not_elem_of_cons.
Qed.

Lemma cstr_idemp s : cstr (cstr s) = cstr s.
Proof. apply cstr_no_NUL, cstr_NUL. Qed.

Lemma empty_true s : empty s = true <-> s = [].
Proof. by destruct s. Qed.

Lemma empty_false s : empty s = false <-> s <> [].
Proof. by destruct s. Qed.

Lemma starts_with_spec s p : starts_with s p = true <-> exists t, s = p ++ t.
Proof.
  revert s. induction p as [|a p IH]; intros s; simpl.
  - split; [by exists s|done].
  - destruct s as [|b s]; simpl.
    + split; [done|]. intros [t Ht]. discriminate.
    + rewrite andb_true_iff, IH, Ascii.eqb_eq. split.
      * intros [-> [t ->]]. by exists t.
      * intros [t Ht]. injection Ht as -> ->. eauto.
Qed.

Lemma starts_with_drop s p :
  starts_with s p = true -> s = p ++ drop (length p) s.
Proof. intros [t ->]%starts_with_spec. by rewrite drop_app_length. Qed.

Lemma starts_with_app p t : starts_with (p ++ t) p = true.
Proof. apply starts_with_spec. by exists t. Qed.

Lemma starts_with_weaken s t p : starts_with s p = true -> starts_with (s ++ t) p = true.
Proof.
  intros [u ->]%starts_with_spec. rewrite <- app_assoc. apply starts_with_app.
Qed.

Lemma starts_with_app_inv s t p :
  length p <= length s -> starts_with (s ++ t) p = true -> starts_with s p = true.
Proof.
  revert s. induction p as [|a p IH]; intros [|b s]; simpl; try done; [lia|].
  rewrite !andb_true_iff. intros Hl [? ?]. split; [done|]. apply IH; [lia|done].
Qed.

Lemma ends_with_spec s p : ends_with s p = true <-> exists t, s = t ++ p.
Proof.
  unfold ends_with. rewrite andb_true_iff, Nat.leb_le, str_eqb_eq. split.
  - intros [Hl Hd]. exists (take (length s - length p) s).
    transitivity (take (length s - length p) s ++ drop (length s - length p) s).
    + by rewrite take_drop.
    + by rewrite Hd.
  - intros [t ->]. rewrite length_app. split; [lia|].
    by rewrite Nat.add_sub, drop_app_length.
Qed.

Lemma sfind_Some p s i :
  sfind p s = Some i <->
  starts_with (drop i s) p = true /\ i <= length s /\
  forall j, j < i -> starts_with (drop j s) p = false.
Proof.
  revert i. induction s as [|c s IH]; intros i; cbn [sfind].
  - destruct (starts_with [] p) eqn:E.
    + split.
      * intros [= <-]. split; [done|]. split; [simpl; lia|]. lia.
      * intros (_ & Hi & _). simpl in Hi. f_equal. lia.
    + split; [done|]. intros (H & Hi & _). rewrite drop_nil in H. congruence.
  - destruct (starts_with (c :: s) p) eqn:E.
    + split.
      * intros [= <-]. split; [done|]. split; [simpl; lia|]. lia.
      * intros (_ & _ & Hj). destruct i; [done|].
        specialize (Hj 0 ltac:(lia)). simpl drop in Hj. congruence.
    + destruct i as [|i].
      * split; [by destruct (sfind p s)|]. intros (H & _). simpl drop in H. congruence.
      * transitivity (sfind p s = Some i).
        { destruct (sfind p s); simpl; split; congruence. }
        rewrite IH. simpl. split.
        -- intros (H1 & H2 & H3). split; [done|]. split; [lia|].
           intros [|j] Hj; [done|]. apply H3. lia.
        -- intros (H1 & H2 & H3). split; [done|]. split; [lia|].
           intros j Hj. apply (H3 (S j)). lia.
Qed.

Lemma sfind_None p s :
  sfind p s = None <-> forall j, j <= length s -> starts_with (drop j s) p = false.
Proof.
  induction s as [|c s IH]; cbn [sfind].
  - destruct (starts_with [] p) eqn:E; split; try done.
    + intros H. specialize (H 0 ltac:(done)). simpl drop in H. congruence.
    + intros _ j Hj. by rewrite drop_nil.
  - destruct (starts_with (c :: s) p) eqn:E.
    + split; [done|]. intros H. specialize (H 0 ltac:(simpl; lia)). simpl drop in H. congruence.
    + transitivity (sfind p s = None).
      { destruct (sfind p s); simpl; split; congruence. }
      rewrite IH. simpl. split.
      * intros H [|j] Hj; [done|]. apply H. lia.
      * intros H j Hj. apply (H (S j)). lia.
Qed.

Lemma contains_spec s p : contains s p = true <-> exists a b, s = a ++ p ++ b.
Proof.
  unfold contains. destruct (sfind p s) as [i|] eqn:E; split; try done.
  - intros _. apply sfind_Some in E as (H & Hi & _).
    apply starts_with_spec in H as [b Hb]. exists (take i s), b.
    by rewrite <- Hb, take_drop.
  - intros (a & b & ->). exfalso.
    pose proof (proj1 (sfind_None _ _) E (length a)) as H.
    rewrite drop_app_length, starts_with_app in H.
    rewrite length_app in H. assert (true = false) by (apply H; lia). done.
Qed.

Lemma sfind_char_None c s : sfind [c] s = None <-> c ∉ s.
Proof.
  induction s as [|d s IH]; cbn [sfind starts_with].
  - simpl. split; [intros _; apply not_elem_of_nil|done].
  - rewrite andb_true_r, not_elem_of_cons. destruct (Ascii.eqb_spec c d) as [->|Hne].
    + split; [done|]. intros [? _]. done.
    + transitivity (sfind [c] s = None).
      { destruct (sfind [c] s); simpl; split; congruence. }
      rewrite IH. naive_solver.
Qed.

Lemma sfind_char_first c a b : c ∉ a -> sfind [c] (a ++ c :: b) = Some (length a).
Proof.
  induction a as [|d a IH]; intros Hc; cbn [sfind starts_with app length].
  - by rewrite Ascii.eqb_refl.
  - apply not_elem_of_cons in Hc as [Hd Ha]. destruct (Ascii.eqb_spec c d); [done|]. cbn [andb].
    by rewrite IH.
Qed.

Lemma drop_while_none f s : Forall (λ c, f c = false) s -> drop_while f s = s.
Proof. intros H. destruct s as [|c s]; [done|]. apply Forall_cons in H as [Hc _]. simpl. by rewrite Hc. Qed.

Lemma drop_while_back_none f s : Forall (λ c, f c = false) s -> drop_while_back f s = s.
Proof.
  intros H. unfold drop_while_back. rewrite drop_while_none; [apply rev_involutive|]. by apply Forall_rev.
Qed.

(** ** Machine integers *)

Definition u8 (z : Z) : Z := z mod 2 ^ 8.
Definition u32 (z : Z) : Z := z mod 2 ^ 32.
Definition u64 (z : Z) : Z := z mod 2 ^ 64.

(** A C++20 conversion to [int]: two's complement wrap-around. *)
Definition i32 (z : Z) : Z := (z + 2 ^ 31) mod 2 ^ 32 - 2 ^ 31.

(** The same to [int64_t]. *)
Definition i64 (z : Z) : Z := (z + 2 ^ 63) mod 2 ^ 64 - 2 ^ 63.

Lemma u32_small z : (0 <= z < 2 ^ 32)%Z -> u32 z = z.
Proof. apply Z.mod_small. Qed.

Lemma u64_small z : (0 <= z < 2 ^ 64)%Z -> u64 z = z.
Proof. apply Z.mod_small. Qed.

Lemma i32_small z : (- 2 ^ 31 <= z < 2 ^ 31)%Z -> i32 z = z.
Proof. intros H. unfold i32. rewrite Z.mod_small; lia. Qed.

Lemma i32_range z : (- 2 ^ 31 <= i32 z < 2 ^ 31)%Z.
Proof. unfold i32. pose proof (Z.mod_pos_bound (z + 2 ^ 31) (2 ^ 32)). lia. Qed.

(** ** Faults and the error monad

    What leaves a C++ function other than by a return: a failed
    [RAPIDJSON_ASSERT], or an exception. *)
Inductive fault :=
| AssertFail
| LengthError
| OutOfRange
| RuntimeError (what : str).

Inductive res (A : Type) :=
| Ok (a : A)
| Err (e : fault).
Arguments Ok {A} a.
Arguments Err {A} e.

#[global] Instance res_ret : MRet res := λ A a, Ok a.
#[global] Instance res_bind : MBind res := λ A B f m,
  match m with Ok a => f a | Err e => Err e end.

Definition is_ok {A} (m : res A) : bool :=
  match m with Ok _ => true | Err _ => false end.

(** [for (auto& x : l) body], where the body changes [acc] and may fail. *)
Fixpoint fold_res {A B} (body : A -> B -> res A) (acc : A) (l : list B) : res A :=
  match l with
  | [] => Ok acc
  | x :: l' => acc' ← body acc x; fold_res body acc' l'
  end.

(** Code that changes state and may throw: the state reached is there also when
    an exception leaves the function. *)
Definition stm (S A : Type) : Type := S -> S * res A.

#[global] Instance stm_ret S : MRet (stm S) := λ A a s, (s, Ok a).
#[global] Instance stm_bind S : MBind (stm S) := λ A B f m s,
  match m s with
  | (s', Ok a) => f a s'
  | (s', Err e) => (s', Err e)
  end.

Definition sget {S} : stm S S := λ s, (s, Ok s).
Definition smod {S} (f : S -> S) : stm S unit := λ s, (f s, Ok tt).
Definition sthrow {S A} (e : fault) : stm S A := λ s, (s, Err e).

(** [for (auto& x : l) body(x);] *)
Fixpoint for_each {S A} (body : A -> stm S unit) (l : list A) : stm S unit :=
  match l with
  | [] => mret ()
  | x :: l' => body x ≫= λ _, for_each body l'
  end.

Lemma stm_bind_Ok {S A B} (m : stm S A) (f : A -> stm S B) s s' a :
  m s = (s', Ok a) -> (m ≫= f) s = f a s'.
Proof. unfold mbind, stm_bind. by intros ->. Qed.

Lemma stm_bind_Err {S A B} (m : stm S A) (f : A -> stm S B) s s' e :
  m s = (s', Err e) -> (m ≫= f) s = (s', Err e).
Proof. unfold mbind, stm_bind. by intros ->. Qed.

(** An invariant of the state, whatever the outcome. *)
Definition preserves {S A} (I : S -> Prop) (m : stm S A) : Prop :=
  forall s, I s -> I (m s).1.

Lemma preserves_bind {S A B} (I : S -> Prop) (m : stm S A) (f : A -> stm S B) :
  preserves I m -> (forall a, preserves I (f a)) -> preserves I (m ≫= f).
Proof.
  intros Hm Hf s Hs. unfold mbind, stm_bind. specialize (Hm s Hs).
  destruct (m s) as [s' [a|e]]; [by apply Hf|done].
Qed.

Lemma preserves_for_each {S A} (I : S -> Prop) (body : A -> stm S unit) l :
  (forall x, x ∈ l -> preserves I (body x)) -> preserves I (for_each body l).
Proof.
  induction l as [|x l IH]; intros H; simpl; [by intros s Hs|].
  apply preserves_bind; [apply H; by left|]. intros _. apply IH. intros y Hy. apply H. by right.
Qed.

(** ** Automation *)

Create HintDb gw discriminated.
Create Rewrite HintDb gwb.
#[export] Hint Rewrite andb_true_iff orb_true_iff negb_true_iff negb_false_iff
  str_eqb_eq str_eqb_neq Nat.leb_le Nat.ltb_lt Nat.eqb_eq
  Z.leb_le Z.ltb_lt Z.eqb_eq Z.geb_le Z.gtb_lt : gwb.

(** Turns the boolean tests of the code into the propositions they decide. *)
Ltac breflect := autorewrite with gwb in *.

(** Case analysis on the innermost [if]/[match] scrutinee of the goal or of
    the hypotheses, keeping its equation. *)
Ltac split_if :=
  match goal with
  | |- context [if ?b then _ else _] =>
      lazymatch b with context [if _ then _ else _] => fail | _ => destruct b eqn:? end
  | H : context [if ?b then _ else _] |- _ =>
      lazymatch b with context [if _ then _ else _] => fail | _ => destruct b eqn:? end
  end.

Ltac split_match :=
  match goal with
  | |- context [match ?b with _ => _ end] =>
      lazymatch b with context [match _ with _ => _ end] => fail | _ => destruct b eqn:? end
  | H : context [match ?b with _ => _ end] |- _ =>
      lazymatch b with context [match _ with _ => _ end] => fail | _ => destruct b eqn:? end
  end.

(** ** Lists *)

Lemma forallb_Forall {A} (f : A -> bool) l :
  forallb f l = true <-> Forall (λ x, f x = true) l.
Proof. induction l; simpl; [done|]. rewrite andb_true_iff, Forall_cons. naive_solver. Qed.

Lemma forallb_app_iff {A} (f : A -> bool) l k :
  forallb f (l ++ k) = true <-> forallb f l = true /\ forallb f k = true.
Proof. rewrite forallb_app. apply andb_true_iff. Qed.

(** Facts about a small range of integers are settled by running over it. *)
Lemma forall_seqZ (P : Z -> bool) lo n :
  forallb P (seqZ lo n) = true -> forall z, (lo <= z < lo + n)%Z -> P z = true.
Proof.
  intros H z Hz. rewrite forallb_forall in H. apply H.
  apply list_elem_of_In, elem_of_seqZ. lia.
Qed.
