(* ===== verification/Numbers.v ===== *)
(** * Integers as text

    The conversions of the C and C++ libraries the sources use: [std::to_string]
    (and [std::format] of an integer), [std::strtol], [std::atoll], [std::atoi] and
    [std::stoull], with the facts that make a printed number readable again. *)
From stdpp Require Import pretty.
From S2P Require Import Prelude.
#[local] Open Scope Z_scope.

(** [std::to_string]. *)
Definition to_string (n : Z) : str := lit (pretty n).

(** ** [std::strtol(s, &end, 10)]

    Leading white space, a sign, digits, saturation at the bounds of [long]; the
    unparsed tail. *)
Fixpoint digits (acc : Z) (seen : bool) (s : str) : option Z * str :=
  match s with
  | c :: s' =>
      if is_digit c then digits (acc * 10 + (Z.of_nat (code c) - 48)) true s'
      else (if seen then Some acc else None, s)
  | [] => (if seen then Some acc else None, [])
  end.

Definition sign (s : str) : bool * str :=
  match s with
  | c :: s' => if (c =? "-")%char then (true, s') else if (c =? "+")%char then (false, s') else (false, s)
  | [] => (false, s)
  end.

Definition strtol (s : str) : Z * str :=
  let '(negative, t) := sign (drop_while is_space s) in
  match digits 0 false t with
  | (Some n, rest) =>
      (Z.max (- 2 ^ 63) (Z.min (2 ^ 63 - 1) (if negative then - n else n)), rest)
  | (None, _) => (0, s)
  end.

(** [std::atoll(s.c_str())] and [std::atoi(s.c_str())]. *)
Definition atoll (s : str) : Z := (strtol (cstr s)).1.
Definition atoi (s : str) : Z := i32 (strtol (cstr s)).1.

(** [std::stoull]: what cannot be read is [std::invalid_argument], what does not
    fit [std::out_of_range]; a minus sign negates modulo 2^64. *)
Definition stoull (s : str) : res Z :=
  let '(negative, t) := sign (drop_while is_space (cstr s)) in
  match digits 0 false t with
  | (Some n, _) =>
      if n <? 2 ^ 64 then Ok (if negative then u64 (- n) else n) else Err OutOfRange
  | (None, _) => Err (RuntimeError "stoull")
  end.

(** ** Printed numbers *)

Definition printed (s : str) : Prop := s <> [] /\ Forall (λ c, is_digit c = true) s.

(** The value of a run of digits read after [acc]. *)
Definition value (acc : Z) (s : str) : Z :=
  fold_left (λ a c, a * 10 + (Z.of_nat (code c) - 48)) s acc.

Lemma digits_run acc seen s rest :
  Forall (λ c, is_digit c = true) s -> (match rest with [] => True | c :: _ => is_digit c = false end) ->
  (seen = true \/ s <> []) ->
  digits acc seen (s ++ rest) = (Some (value acc s), rest).
Proof.
  intros Hs Hr. revert acc seen. induction Hs as [|c s Hc Hs IH]; intros acc seen Hne; simpl.
  - destruct Hne as [->|]; [|done]. destruct rest as [|c rest]; simpl; [done|]. by rewrite Hr.
  - rewrite Hc. apply IH. by left.
Qed.

Lemma pretty_N_char_digit x : (x < 10)%N -> is_digit (pretty_N_char x) = true.
Proof. intros H. destruct x as [|p]; [done|]. do 4 (destruct p as [p|p|]; try done; try lia). Qed.

Lemma pretty_N_char_value x : (x < 10)%N -> Z.of_nat (code (pretty_N_char x)) - 48 = Z.of_N x.
Proof. intros H. destruct x as [|p]; [done|]. do 4 (destruct p as [p|p|]; try done; try lia). Qed.

Lemma pretty_N_go_read x s :
  Forall (λ c, is_digit c = true) (lit s) ->
  exists d, lit (pretty_N_go x s) = d ++ lit s /\ Forall (λ c, is_digit c = true) d
    /\ ((0 < x)%N -> d <> []) /\ value 0 d = Z.of_N x.
Proof.
  revert s. induction (N.lt_wf_0 x) as [x _ IH]; intros s Hs.
  destruct (decide (x = 0%N)) as [->|Hx].
  - exists []. rewrite pretty_N_go_0. repeat split; done.
  - assert (x `mod` 10 < 10)%N as Hm by (apply N.mod_lt; lia).
    rewrite pretty_N_go_step by lia.
    destruct (IH (x `div` 10)%N ltac:(apply N.div_lt; lia)
                (String (pretty_N_char (x `mod` 10)) s)) as (d & E & Hd & _ & Hv).
    { simpl. constructor; [by apply pretty_N_char_digit|done]. }
    exists (d ++ [pretty_N_char (x `mod` 10)]). split; [|split; [|split]].
    + rewrite E. simpl. by rewrite <- app_assoc.
    + apply Forall_app. split; [done|]. constructor; [by apply pretty_N_char_digit|done].
    + intros _. by destruct d.
    + unfold value in *. rewrite fold_left_app. simpl. rewrite Hv, pretty_N_char_value by done.
      pose proof (N.div_mod' x 10). lia.
Qed.

Lemma to_string_printed n : 0 <= n -> printed (to_string n) /\ value 0 (to_string n) = n.
Proof.
  intros Hn. unfold to_string. destruct n as [|p|p]; [|clear Hn|lia].
  - split; [|done]. split; [done|]. by repeat constructor.
  - change (pretty (Z.pos p)) with (pretty_N (N.pos p)).
    unfold pretty_N. rewrite decide_False by done.
    destruct (pretty_N_go_read (N.pos p) "" ltac:(constructor)) as (d & E & Hd & Hne & Hv).
    rewrite E. simpl. rewrite app_nil_r. split; [split; [by apply Hne|done]|done].
Qed.

Lemma digit_not_space c : is_digit c = true -> is_space c = false.
Proof.
  intros H. generalize (forall_chars (λ c, implb (is_digit c) (negb (is_space c))) eq_refl c).
  rewrite H. simpl. by destruct (is_space c).
Qed.

Lemma digit_not c d : is_digit c = true -> is_digit d = false -> (c =? d)%char = false.
Proof. intros H1 H2. destruct (Ascii.eqb_spec c d); congruence. Qed.

Lemma printed_sign s rest : printed s -> sign (drop_while is_space (s ++ rest)) = (false, s ++ rest).
Proof.
  intros [Hne Hd]. destruct s as [|c s]; [done|]. apply Forall_cons in Hd as [Hc _]. simpl.
  rewrite digit_not_space by done. simpl. by rewrite !digit_not.
Qed.

Lemma printed_cstr s : Forall (λ c, is_digit c = true) s -> cstr s = s.
Proof. induction 1 as [|c s Hc _ IH]; simpl; [done|]. rewrite digit_not by done. by rewrite IH. Qed.

Lemma atoll_to_string n : 0 <= n < 2 ^ 63 -> atoll (to_string n) = n.
Proof.
  intros Hn. destruct (to_string_printed n ltac:(lia)) as [Hp Hv]. unfold atoll, strtol.
  rewrite printed_cstr by apply Hp. rewrite <- (app_nil_r (to_string n)), printed_sign by done.
  rewrite digits_run; [|apply Hp|done|right; apply Hp]. rewrite Hv. simpl fst. lia.
Qed.

Lemma stoull_to_string n : 0 <= n < 2 ^ 64 -> stoull (to_string n) = Ok n.
Proof.
  intros Hn. destruct (to_string_printed n ltac:(lia)) as [Hp Hv]. unfold stoull.
  rewrite printed_cstr by apply Hp. rewrite <- (app_nil_r (to_string n)), printed_sign by done.
  rewrite digits_run; [|apply Hp|done|right; apply Hp]. rewrite Hv.
  rewrite (proj2 (Z.ltb_lt n (2 ^ 64))) by lia. done.
Qed.

(** No character of a printed number is another character of the protocol. *)
Lemma printed_not_in c s : is_digit c = false -> Forall (λ c, is_digit c = true) s -> c ∉ s.
Proof. intros Hc Hs Hin. rewrite Forall_forall in Hs. apply Hs in Hin. congruence. Qed.
