(* ===== verification/Garnet.v ===== *)
(** * The client of the Garnet store

    [cache/garnet_client.{h,cpp}]: one connection, opened on demand, over which a
    command is sent and a RESP reply read; a command whose exchange fails is tried
    once more on a new connection.

    The resolver, the sockets, OpenSSL and the server are outside the repository:
    [Network] gives what each attempt to connect meets, and a [Peer] what the
    server makes available to read after the bytes it has received.  A read that
    has nothing to return fails after the three seconds of [SO_RCVTIMEO]. *)
From S2P Require Import Prelude Numbers.
#[local] Open Scope Z_scope.

Definition CRLF : str := [CR; LF].

Record GarnetResponse := mkGarnet { ga_found : bool; ga_error : bool; ga_value : str }.

(** ** The network *)

(** The results of the OpenSSL calls of [start_tls], in their order. *)
Record TlsCalls := mkTlsCalls {
  tc_context : bool;
  tc_trust_loaded : str -> bool;
  tc_session : bool;
  tc_set_fd : bool;
  tc_sni : str -> bool;
  tc_host : str -> bool;
  (** [SSL_connect], with the host name the certificate is checked against. *)
  tc_connect : str -> bool;
}.

(** The server at the other end: the reads ([read_bytes] results) it has made
    available once it has received these bytes, how many bytes the n-th write
    takes, and its TLS. *)
Record Peer := mkPeer {
  p_available : str -> list str;
  p_accepts : nat -> Z;
  p_tls : TlsCalls;
}.

Inductive Address :=
| NoSocket
| Refused
| Accepted (peer : Peer).

(** What [getaddrinfo] yields at the n-th attempt to connect. *)
Class Network := n_resolve : nat -> option (list Address).

(** ** The connection *)

Record Connection := mkConnection {
  c_peer : Peer;
  c_sent : str;
  c_writes : nat;
  c_taken : nat;
  (** The host name a TLS session has verified. *)
  c_tls : option str;
}.

Record Impl := mkImpl {
  i_host : str;
  i_password : str;
  i_use_tls : bool;
  i_server_name : str;
  i_ca_cert_path : str;
  (** [None] is [fd = -1]. *)
  i_connection : option Connection;
  i_accum : str;
  (** The calls of [getaddrinfo] so far. *)
  i_attempts : nat;
}.

Definition set_connection (c : option Connection) (i : Impl) : Impl :=
  mkImpl (i_host i) (i_password i) (i_use_tls i) (i_server_name i) (i_ca_cert_path i) c (i_accum i)
    (i_attempts i).
Definition set_accum (a : str) (i : Impl) : Impl :=
  mkImpl (i_host i) (i_password i) (i_use_tls i) (i_server_name i) (i_ca_cert_path i) (i_connection i) a
    (i_attempts i).
Definition next_attempt (i : Impl) : Impl :=
  mkImpl (i_host i) (i_password i) (i_use_tls i) (i_server_name i) (i_ca_cert_path i) (i_connection i)
    (i_accum i) (S (i_attempts i)).

Definition disconnect (i : Impl) : Impl := set_accum [] (set_connection None i).

Definition expected_name (i : Impl) : str :=
  if empty (i_server_name i) then i_host i else i_server_name i.

(** The session of a successful handshake: [SSL_VERIFY_PEER] is set before. *)
Definition start_tls (i : Impl) (t : TlsCalls) : option str :=
  if negb (tc_context t) then None
  else if negb (tc_trust_loaded t (i_ca_cert_path i)) then None
  else if negb (tc_session t) then None
  else
    let name := expected_name i in
    if tc_set_fd t && tc_sni t name && tc_host t name && tc_connect t name then Some name else None.

(** ** Writing *)

(** The loop of [send_command]: each round sends at least one of the bytes left,
    so that as many rounds as bytes are enough. *)
Fixpoint send_loop (fuel : nat) (c : Connection) (rest : str) : Connection * bool :=
  match rest, fuel with
  | [], _ => (c, true)
  | _, O => (c, false)
  | _, S fuel' =>
      let n := p_accepts (c_peer c) (c_writes c) in
      let c := mkConnection (c_peer c) (c_sent c) (S (c_writes c)) (c_taken c) (c_tls c) in
      if n <=? 0 then (c, false)
      else
        let k := Nat.min (Z.to_nat n) (length rest) in
        send_loop fuel'
          (mkConnection (c_peer c) (c_sent c ++ take k rest) (c_writes c) (c_taken c) (c_tls c))
          (drop k rest)
  end.

(** [send_command] on an open connection. *)
Definition send_open (c : Connection) (cmd : str) : Connection * bool := send_loop (length cmd) c cmd.

(** ** Reading *)

(** The reads that are there to be taken. *)
Definition pending (c : Connection) : list str := drop (c_taken c) (p_available (c_peer c) (c_sent c)).

Definition take_reads (n : nat) (c : Connection) : Connection :=
  mkConnection (c_peer c) (c_sent c) (c_writes c) (c_taken c + n) (c_tls c).

(** [while (!enough(accum)) { read; append }]: whether it was enough, the
    accumulated bytes and the number of reads.  A read of no bytes is the end of
    the connection. *)
Fixpoint fill (enough : str -> bool) (accum : str) (reads : list str) : bool * str * nat :=
  if enough accum then (true, accum, 0%nat)
  else match reads with
       | [] => (false, accum, 0%nat)
       | r :: reads' =>
           if empty r then (false, accum, 1%nat)
           else let '(b, a, n) := fill enough (accum ++ r) reads' in (b, a, S n)
       end.

Definition run_fill (enough : str -> bool) (c : Connection) (accum : str) : Connection * str * bool :=
  let '(b, a, n) := fill enough accum (pending c) in (take_reads n c, a, b).

Definition fill_until (need : Z) : Connection -> str -> Connection * str * bool :=
  run_fill (λ a, need <=? Z.of_nat (length a)).

Definition fill_until_crlf : Connection -> str -> Connection * str * bool :=
  run_fill (λ a, contains a CRLF).

(** [read_response] on an open connection: the reply (empty when there is none)
    and what stays in [accum]. *)
Definition read_open (c : Connection) : Connection * str * str :=
  let '(c, accum, ok) := fill_until_crlf c [] in
  if negb ok then (c, accum, [])
  else
    let crlf := default 0%nat (sfind CRLF accum) in
    if starts_with accum "$" then
      let len := atoll (take (crlf - 1) (drop 1 accum)) in
      if len <? 0 then (c, drop (crlf + 2) accum, "$-1" ++ CRLF)
      else
        let total_needed := u64 (Z.of_nat crlf + 2 + len + 2) in
        let '(c, accum, ok) := fill_until total_needed c accum in
        if negb ok then (c, accum, [])
        else (c, drop (Z.to_nat total_needed) accum, take (Z.to_nat total_needed) accum)
    else (c, drop (crlf + 2) accum, take (crlf + 2) accum).

(** ** Commands *)

Definition bulk (s : str) : str := "$" ++ to_string (Z.of_nat (length s)) ++ CRLF ++ s ++ CRLF.
Definition auth_command (password : str) : str := "*2" ++ CRLF ++ "$4" ++ CRLF ++ "AUTH" ++ CRLF ++ bulk password.
Definition get_command (key : str) : str := "*2" ++ CRLF ++ "$3" ++ CRLF ++ "GET" ++ CRLF ++ bulk key.
Definition ping_command : str := "*1" ++ CRLF ++ "$4" ++ CRLF ++ "PING" ++ CRLF.

(** ** Connecting *)

(** The loop over the addresses: the first that accepts. *)
Fixpoint connect_first (addresses : list Address) : option Peer :=
  match addresses with
  | [] => None
  | Accepted p :: _ => Some p
  | _ :: addresses' => connect_first addresses'
  end.

Section Client.
Context {N : Network}.

Definition authenticate (i : Impl) (c : Connection) : Impl * bool :=
  if empty (i_password i) then (set_connection (Some c) i, true)
  else
    let '(c, sent) := send_open c (auth_command (i_password i)) in
    if negb sent then (disconnect i, false)
    else
      let '(c, accum, reply) := read_open c in
      if negb (starts_with reply "+OK") then (disconnect i, false)
      else (set_accum accum (set_connection (Some c) i), true).

Definition ensure_connected (i : Impl) : Impl * bool :=
  match i_connection i with
  | Some _ => (i, true)
  | None =>
      let addresses := n_resolve (i_attempts i) in
      let i := next_attempt i in
      match addresses with
      | None => (i, false)
      | Some addresses =>
          (* every address that fails disconnects, which clears [accum] *)
          let i := match addresses with
                   | (NoSocket | Refused) :: _ => disconnect i
                   | _ => i
                   end in
          match connect_first addresses with
          | None => (i, false)
          | Some peer =>
              let c := mkConnection peer [] 0 0 None in
              if i_use_tls i then
                match start_tls i (p_tls peer) with
                | None => (disconnect i, false)
                | Some name => authenticate i (mkConnection peer [] 0 0 (Some name))
                end
              else authenticate i c
          end
      end
  end.

Definition send_command (i : Impl) (cmd : str) : Impl * bool :=
  match ensure_connected i with
  | (i, false) => (i, false)
  | (i, true) =>
      match i_connection i with
      | None => (i, false)
      | Some c => let '(c, ok) := send_open c cmd in (set_connection (Some c) i, ok)
      end
  end.

Definition read_response (i : Impl) : Impl * str :=
  match i_connection i with
  | None => (i, [])
  | Some c =>
      let '(c, accum, reply) := read_open c in (set_accum accum (set_connection (Some c) i), reply)
  end.

(** One round of the loop of [execute]. *)
Definition execute_once (i : Impl) (command : str) : Impl * str :=
  let '(i, sent) := send_command i command in
  let '(i, response) := if sent then read_response i else (i, []) in
  if empty response then (disconnect i, []) else (i, response).

Definition execute (i : Impl) (command : str) : Impl * str :=
  let '(i, response) := execute_once i command in
  if empty response then execute_once i command else (i, response).

(** What [get] makes of the reply. *)
Definition get_reply (raw : str) : GarnetResponse :=
  match raw with
  | [] => mkGarnet false true []
  | c :: tail =>
      if (c =? "$")%char then
        if (3 <=? length raw)%nat && starts_with tail "-" then mkGarnet false false []
        else match sfind CRLF raw with
             | None => mkGarnet false true []
             | Some crlf =>
                 let data := drop (crlf + 2) raw in
                 mkGarnet true false
                   (if ends_with data CRLF then take (length data - 2) data else data)
             end
      else mkGarnet false true []
  end.

Definition get (i : Impl) (key : str) : Impl * GarnetResponse :=
  let '(i, raw) := execute i (get_command key) in (i, get_reply raw).

Fixpoint mget (i : Impl) (keys : list str) : Impl * list GarnetResponse :=
  match keys with
  | [] => (i, [])
  | k :: keys' =>
      let '(i, r) := get i k in
      let '(i, rs) := mget i keys' in (i, r :: rs)
  end.

Definition ping (i : Impl) : Impl * bool :=
  let '(i, reply) := execute i ping_command in (i, starts_with reply "+PONG").

(** [GarnetClient::connect]: a client is returned also when the store cannot be
    reached yet. *)
Definition connect (host password : str) (use_tls : bool) (server_name ca_cert_path : str) : Impl :=
  (ensure_connected (mkImpl host password use_tls server_name ca_cert_path None [] 0)).1.
End Client.

(** ** Replies *)

(** A bulk string, or the null bulk string. *)
Definition reply_of (o : option str) : str :=
  match o with Some v => bulk v | None => "$-1" ++ CRLF end.

Definition answer_of (o : option str) : GarnetResponse :=
  match o with Some v => mkGarnet true false v | None => mkGarnet false false [] end.

(** What the store may hold: a value whose encoding a [std::string] can hold. *)
Definition storable (o : option str) : Prop :=
  match o with Some v => Z.of_nat (length (bulk v)) < 2 ^ 63 | None => True end.

(** The replies of a server that holds [store], for a sequence of [GET]s after the
    bytes [sent], however it cuts them into reads. *)
Fixpoint serves (p : Peer) (store : gmap str str) (sent : str) (keys : list str) : Prop :=
  match keys with
  | [] => True
  | k :: keys' =>
      (exists cs, Forall (λ r, r <> []) cs
        /\ p_available p (sent ++ get_command k) = p_available p sent ++ cs
        /\ concat cs = reply_of (store !! k))
      /\ storable (store !! k)
      /\ serves p store (sent ++ get_command k) keys'
  end.

(** No reply is outstanding, and the server takes what is written. *)
Definition idle (c : Connection) : Prop :=
  c_taken c = length (p_available (c_peer c) (c_sent c)) /\ (forall n, 0 < p_accepts (c_peer c) n).

Lemma send_loop_all fuel c s :
  (forall n, 0 < p_accepts (c_peer c) n) -> (length s <= fuel)%nat ->
  exists w, send_loop fuel c s = (mkConnection (c_peer c) (c_sent c ++ s) w (c_taken c) (c_tls c), true).
Proof.
  intros Ha. revert c s Ha. induction fuel as [|fuel IH]; intros c s Ha Hl.
  - destruct s; [|simpl in Hl; lia]. exists (c_writes c). rewrite app_nil_r. by destruct c.
  - destruct s as [|x s]; [exists (c_writes c); rewrite app_nil_r; by destruct c|].
    cbn [send_loop]. specialize (Ha (c_writes c)) as Hn. rewrite (proj2 (Z.leb_gt _ _)) by lia.
    set (k := Nat.min _ _).
    edestruct (IH (mkConnection (c_peer c) (c_sent c ++ take k (x :: s)) (S (c_writes c)) (c_taken c)
      (c_tls c)) (drop k (x :: s))) as [w E]; [done| |].
    + rewrite length_drop. unfold k. simpl in *. lia.
    + exists w. cbn in E |- *. rewrite E. by rewrite <- app_assoc, take_drop.
Qed.

(** ** Filling the buffer *)

Lemma fill_chunks enough cs : forall accum,
  Forall (λ r, r <> []) cs -> enough (accum ++ concat cs) = true ->
  exists n, fill enough accum cs = (true, accum ++ concat (take n cs), n)
    /\ (n <= length cs)%nat /\ enough (accum ++ concat (take n cs)) = true.
Proof.
  induction cs as [|r cs IH]; intros accum Hne He; simpl in *.
  - rewrite app_nil_r in He. exists 0%nat. rewrite He, !app_nil_r. done.
  - apply Forall_cons in Hne as [Hr Hne]. destruct (enough accum) eqn:E.
    + exists 0%nat. simpl. rewrite app_nil_r. split; [done|]. split; [lia|done].
    + destruct (IH (accum ++ r) Hne) as (n & -> & Hn & Hen); [by rewrite <- app_assoc|].
      exists (S n). destruct r; [done|]. simpl. rewrite <- app_assoc in *. split; [done|]. split; [lia|done].
Qed.

Lemma contains_CRLF d x : CR ∉ d -> sfind CRLF (d ++ CRLF ++ x) = Some (length d).
Proof.
  intros Hd. apply sfind_Some. rewrite drop_app_length. split; [done|].
  split; [rewrite length_app; lia|]. intros j Hj.
  destruct (starts_with _ _) eqn:E; [|done]. exfalso. apply Hd.
  rewrite drop_app_le in E by lia. destruct (drop j d) as [|y r] eqn:Ed.
  - apply (f_equal length) in Ed. rewrite length_drop in Ed. simpl in Ed. lia.
  - simpl in E. apply andb_true_iff in E as [->%Ascii.eqb_eq _].
    rewrite <- (take_drop j d), Ed. apply elem_of_app. right. by left.
Qed.

(** Two bytes strings, one cut short before its end of line, have none. *)
Lemma prefix_CRLF d x a : CR ∉ d -> a `prefix_of` d ++ CRLF ++ x -> contains a CRLF = true ->
  exists y, a = d ++ CRLF ++ y /\ y `prefix_of` x.
Proof.
  intros Hd [t Ht] Hc. apply contains_spec in Hc as (u & v & ->).
  assert (sfind CRLF ((u ++ CRLF ++ v) ++ t) = Some (length d)) as Hs.
  { rewrite <- Ht. by apply contains_CRLF. }
  assert (length d <= length u)%nat as Hl.
  { apply sfind_Some in Hs as (_ & _ & Hs). destruct (decide (length u < length d)%nat); [|lia].
    specialize (Hs (length u) ltac:(done)).
    rewrite <- app_assoc, drop_app_length, <- app_assoc, starts_with_app in Hs. done. }
  assert (u = d ++ drop (length d) u) as Hu.
  { rewrite <- (take_drop (length d) u) at 1. f_equal.
    apply (f_equal (take (length d))) in Ht. rewrite take_app_length in Ht.
    rewrite <- app_assoc, take_app_le in Ht by done. done. }
  rewrite Hu in Ht. rewrite <- !app_assoc in Ht. apply app_inv_head in Ht.
  destruct (drop (length d) u) as [|y1 [|y2 r]] eqn:Ed.
  - simpl in Ht. injection Ht as Ht. exists v. rewrite Hu, app_nil_r. split; [done|].
    exists t. done.
  - simpl in Ht. injection Ht as _ Hbad _. unfold LF, CR in Hbad. discriminate.
  - simpl in Ht. injection Ht as <- <- Ht. exists (r ++ CRLF ++ v). rewrite Hu, <- app_assoc.
    split; [done|]. exists t. rewrite Ht, <- !app_assoc. done.
Qed.

Lemma drop_line (d y : str) : drop (length d + 2) (d ++ CRLF ++ y) = y.
Proof. rewrite <- drop_drop, drop_app_length. done. Qed.

Lemma take_behind (z k : str) : take (length ("$" ++ z) - 1) (drop 1 (("$" ++ z) ++ k)) = z.
Proof. simpl. rewrite Nat.sub_0_r. apply take_app_length. Qed.

Lemma concat_take_all n (cs : list str) : Forall (λ r, r <> []) cs -> (n <= length cs)%nat ->
  concat (take n cs) = concat cs -> n = length cs.
Proof.
  intros Hne Hn E. rewrite <- (take_drop n cs) in E at 2. rewrite concat_app in E.
  rewrite <- (app_nil_r (concat (take n cs))) in E at 1. apply app_inv_head in E.
  destruct (drop n cs) as [|r rs] eqn:Ed.
  - apply (f_equal length) in Ed. rewrite length_drop in Ed. simpl in Ed. lia.
  - exfalso. apply (Forall_drop _ n) in Hne. rewrite Ed in Hne. apply Forall_cons in Hne as [Hr _].
    by destruct r.
Qed.

(** When only all of the bytes are enough, all of the reads are taken. *)
Lemma fill_all enough accum cs : Forall (λ r, r <> []) cs -> enough (accum ++ concat cs) = true ->
  (forall n, enough (accum ++ concat (take n cs)) = true -> concat (take n cs) = concat cs) ->
  fill enough accum cs = (true, accum ++ concat cs, length cs).
Proof.
  intros Hne He Hall. destruct (fill_chunks enough cs accum Hne He) as (n & -> & Hn & Hen).
  apply Hall in Hen. rewrite Hen. f_equal. by apply concat_take_all.
Qed.

Lemma concat_take_prefix n (cs : list str) : concat (take n cs) `prefix_of` concat cs.
Proof. exists (concat (drop n cs)). by rewrite <- concat_app, take_drop. Qed.

Lemma contains_CRLF_true d x : contains (d ++ CRLF ++ x) CRLF = true.
Proof. apply contains_spec. by exists d, x. Qed.

(** A reply of one line is read whole. *)
Lemma read_line c cs d : pending c = cs -> Forall (λ r, r <> []) cs -> concat cs = d ++ CRLF ->
  CR ∉ d -> (starts_with d "$" = true -> d = "$-1") ->
  read_open c = (take_reads (length cs) c, [], d ++ CRLF).
Proof.
  intros Hp Hne Hc Hd Hneg. unfold read_open, fill_until_crlf, run_fill. rewrite Hp, fill_all; [|done| |].
  - cbn [negb app]. rewrite Hc. pose proof (contains_CRLF d [] Hd) as E. rewrite app_nil_r in E.
    rewrite E. simpl default. assert (length (d ++ CRLF) = length d + 2)%nat as Hl by (by rewrite length_app).
    assert (drop (length d + 2) (d ++ CRLF) = []) as -> by (apply drop_ge; lia).
    assert (take (length d + 2) (d ++ CRLF) = d ++ CRLF) as -> by (apply take_ge; lia).
    destruct (starts_with (d ++ CRLF) "$") eqn:Es; [|done].
    rewrite Hneg; [done|]. destruct d as [|x d]; [done|]. simpl in *. by rewrite Es.
  - cbn [app]. rewrite Hc. rewrite <- (app_nil_r CRLF). apply contains_CRLF_true.
  - intros n Hn. pose proof (concat_take_prefix n cs) as Hpre. rewrite Hc in Hpre |- *.
    rewrite <- (app_nil_r CRLF) in Hpre.
    destruct (prefix_CRLF d [] _ Hd Hpre Hn) as (y & -> & ->%prefix_nil_inv). by rewrite app_nil_r.
Qed.

Lemma printed_no_CR n : 0 <= n -> CR ∉ ("$" ++ to_string n).
Proof.
  intros Hn Hin. apply elem_of_app in Hin as [Hin|Hin].
  - by apply list_elem_of_singleton in Hin.
  - revert Hin. apply printed_not_in; [done|]. apply to_string_printed. done.
Qed.

(** A bulk string is read whole, whatever its bytes: the first end of line ends
    its length. *)
Lemma read_bulk c cs v : pending c = cs -> Forall (λ r, r <> []) cs -> concat cs = bulk v ->
  Z.of_nat (length (bulk v)) < 2 ^ 63 ->
  read_open c = (take_reads (length cs) c, [], bulk v).
Proof.
  intros Hp Hne Hc Hv.
  set (d := "$" ++ to_string (Z.of_nat (length v))). set (x := v ++ CRLF).
  assert (bulk v = d ++ CRLF ++ x) as Hb by (unfold bulk, d, x; by rewrite <- !app_assoc).
  assert (CR ∉ d) as Hd by (apply printed_no_CR; lia).
  assert (length (bulk v) = length d + 2 + length v + 2)%nat as Hlen
    by (rewrite Hb; unfold x; rewrite !length_app; simpl; lia).
  assert (contains (concat cs) CRLF = true) as Hct by (rewrite Hc, Hb; apply contains_CRLF_true).
  unfold read_open, fill_until_crlf, run_fill. rewrite Hp.
  destruct (fill_chunks (λ a, contains a CRLF) cs [] Hne Hct) as (n & -> & Hn & Hen). cbn [app negb] in *.
  pose proof (concat_take_prefix n cs) as Hpre. rewrite Hc, Hb in Hpre.
  destruct (prefix_CRLF d x _ Hd Hpre Hen) as (y & Ey & _).
  replace (sfind CRLF (concat (take n cs))) with (Some (length d))
    by (rewrite Ey; symmetry; by apply contains_CRLF).
  replace (starts_with (concat (take n cs)) "$") with true by (by rewrite Ey).
  change (default 0%nat (Some (length d))) with (length d).
  replace (take (length d - 1) (drop 1 (concat (take n cs))))
    with (to_string (Z.of_nat (length v))).
  2:{ rewrite Ey. symmetry. apply take_behind. }
  rewrite atoll_to_string by lia. rewrite (proj2 (Z.ltb_ge _ _)) by lia.
  rewrite u64_small by lia. unfold fill_until, run_fill.
  replace (pending (take_reads n c)) with (drop n cs)
    by (unfold pending in *; simpl; by rewrite <- Hp, drop_drop).
  assert (Z.of_nat (length d) + 2 + Z.of_nat (length v) + 2
          = Z.of_nat (length (bulk v))) as -> by lia.
  rewrite fill_all; [|by apply Forall_drop| |].
  - rewrite <- concat_app, take_drop, Hc, Nat2Z.id, firstn_all, drop_all, length_drop. cbn [negb].
    f_equal. f_equal. unfold take_reads. simpl. f_equal. lia.
  - rewrite <- concat_app, take_drop, Hc. by apply Z.leb_le.
  - intros m Hm%Z.leb_le. rewrite <- concat_app in Hm.
    destruct (concat_take_prefix m (drop n cs)) as [t Ht].
    apply (f_equal (app (concat (take n cs)))) in Ht. rewrite <- concat_app, take_drop, Hc, app_assoc, <- concat_app in Ht.
    apply (f_equal length) in Ht as Hl. rewrite length_app in Hl. destruct t as [|x0 t]; [|rewrite length_cons in Hl; lia].
    rewrite app_nil_r, <- Hc in Ht. rewrite <- (take_drop n cs) in Ht at 1. rewrite !concat_app in Ht.
    by apply app_inv_head in Ht.
Qed.

Lemma read_reply c cs o : pending c = cs -> Forall (λ r, r <> []) cs -> concat cs = reply_of o ->
  storable o -> read_open c = (take_reads (length cs) c, [], reply_of o).
Proof.
  destruct o as [v|]; intros Hp Hne Hc Hs; [by apply read_bulk|].
  apply read_line; [done..| |].
  - apply sfind_char_None. done.
  - done.
Qed.

(** ** What [get] makes of a reply *)

Lemma get_reply_of o : get_reply (reply_of o) = answer_of o.
Proof.
  destruct o as [v|]; [|done]. unfold get_reply, reply_of, bulk.
  set (n := to_string (Z.of_nat (length v))).
  assert (CR ∉ "$" ++ n) as Hd by (apply printed_no_CR; lia).
  pose proof (contains_CRLF ("$" ++ n) (v ++ CRLF) Hd) as E. rewrite <- app_assoc in E.
  change (lit "$") with ["$"%char] in *. cbn [app] in *. cbv beta iota. rewrite Ascii.eqb_refl, E.
  destruct (to_string_printed (Z.of_nat (length v)) ltac:(lia)) as [[Hne Hdig] _]. fold n in Hne, Hdig.
  destruct n as [|x n]; [done|]. apply Forall_cons in Hdig as [Hx _]. 
  assert (forall t, starts_with ((x :: n) ++ t) "-" = false) as ->.
  { intros t. simpl. by rewrite Ascii.eqb_sym, digit_not. }
  rewrite andb_false_r.
  replace (drop _ _) with (v ++ CRLF).
  2:{ symmetry. apply (drop_line ("$"%char :: x :: n)). }
  assert (ends_with (v ++ CRLF) CRLF = true) as -> by (apply ends_with_spec; by exists v).
  rewrite length_app. replace (length v + length CRLF - 2)%nat with (length v) by (simpl; lia).
  by rewrite take_app_length.
Qed.

(** ** One exchange on an open connection *)

Section Exchanges.
Context {N : Network}.

Lemma reply_not_empty o : empty (reply_of o) = false.
Proof. by destruct o. Qed.

(** A command to which an idle connection's server answers [o]: the reply, and the
    connection is idle again. *)
Lemma execute_once_reply i c cmd cs o :
  i_connection i = Some c -> idle c -> Forall (λ r, r <> []) cs ->
  p_available (c_peer c) (c_sent c ++ cmd) = p_available (c_peer c) (c_sent c) ++ cs ->
  concat cs = reply_of o -> storable o ->
  exists c', execute_once i cmd = (set_accum [] (set_connection (Some c') i), reply_of o)
    /\ idle c' /\ c_peer c' = c_peer c /\ c_sent c' = c_sent c ++ cmd.
Proof.
  intros Hi [Ht Ha] Hne Hav Hc Hs. unfold execute_once, send_command, ensure_connected. rewrite !Hi.
  unfold send_open. destruct (send_loop_all (length cmd) c cmd Ha ltac:(lia)) as [w ->].
  set (c1 := mkConnection _ _ _ _ _). unfold read_response. cbn [set_connection i_connection].
  assert (pending c1 = cs) as Hp.
  { unfold pending. simpl. rewrite Hav, Ht. apply drop_app_length. }
  rewrite (read_reply c1 cs o) by done. rewrite reply_not_empty. eexists. split; [done|].
  split; [|done]. split; [|done]. simpl. rewrite Hav, length_app. lia.
Qed.

Lemma get_served i c k cs o :
  i_connection i = Some c -> idle c -> Forall (λ r, r <> []) cs ->
  p_available (c_peer c) (c_sent c ++ get_command k) = p_available (c_peer c) (c_sent c) ++ cs ->
  concat cs = reply_of o -> storable o ->
  exists c', get i k = (set_accum [] (set_connection (Some c') i), answer_of o)
    /\ idle c' /\ c_peer c' = c_peer c /\ c_sent c' = c_sent c ++ get_command k.
Proof.
  intros Hi Hid Hne Hav Hc Hs. unfold get, execute.
  destruct (execute_once_reply i c _ cs o Hi Hid Hne Hav Hc Hs) as (c' & -> & Hc').
  rewrite reply_not_empty, get_reply_of. by exists c'.
Qed.

Lemma mget_served keys store : forall i c,
  i_connection i = Some c -> idle c -> serves (c_peer c) store (c_sent c) keys ->
  exists i' c', mget i keys = (i', (λ k, answer_of (store !! k)) <$> keys)
    /\ i_connection i' = Some c' /\ idle c' /\ c_peer c' = c_peer c
    /\ i_attempts i' = i_attempts i.
Proof.
  induction keys as [|k keys IH]; intros i c Hi Hid Hs; simpl; [by exists i, c|].
  destruct Hs as ((cs & Hne & Hav & Hc) & Hst & Hs).
  destruct (get_served i c k cs _ Hi Hid Hne Hav Hc Hst) as (c1 & -> & Hid1 & Hp1 & Hs1).
  rewrite <- Hp1, <- Hs1 in Hs.
  destruct (IH (set_accum [] (set_connection (Some c1) i)) c1 eq_refl Hid1 Hs)
    as (i2 & c2 & -> & Hi2 & Hid2 & Hp2 & Ha2).
  exists i2, c2. rewrite Hp2. done.
Qed.

(** ** The connection carries commands only once it is secured *)

Definition secured (i : Impl) : Prop :=
  match i_connection i with
  | None => True
  | Some c =>
      (i_use_tls i = true -> c_tls c = Some (expected_name i))
      /\ (i_password i <> [] -> auth_command (i_password i) `prefix_of` c_sent c)
  end.

Lemma send_loop_grows fuel c s c' b : send_loop fuel c s = (c', b) ->
  c_sent c `prefix_of` c_sent c' /\ c_tls c' = c_tls c.
Proof.
  revert c s. induction fuel as [|fuel IH]; intros c [|x s]; cbn [send_loop]; try (intros [= <- <-]; done).
  split_if; [intros [= <- <-]; done|]. intros E. apply IH in E as [Hp Ht]. simpl in *.
  split; [|done]. etrans; [|exact Hp]. by apply prefix_app_r.
Qed.

(** A command that was sent whole follows what was sent before it. *)
Lemma send_loop_sent fuel c s c' : send_loop fuel c s = (c', true) -> c_sent c' = c_sent c ++ s.
Proof.
  revert c s. induction fuel as [|fuel IH]; intros c [|x s]; cbn [send_loop];
    try (intros [= <-]; by rewrite app_nil_r).
  split_if; [done|]. intros E. apply IH in E as ->. simpl. by rewrite <- app_assoc, take_drop.
Qed.

Lemma read_open_keeps c : c_sent (read_open c).1.1 = c_sent c /\ c_tls (read_open c).1.1 = c_tls c.
Proof.
  unfold read_open, fill_until_crlf, fill_until, run_fill.
  destruct (fill _ [] _) as [[b a] n]. cbn [negb]. destruct b; [|done]. cbn [negb].
  destruct (starts_with _ _); [|done]. split_if; [done|].
  destruct (fill _ a _) as [[b2 a2] n2]. by destruct b2.
Qed.

Lemma authenticate_secured i c : (i_use_tls i = true -> c_tls c = Some (expected_name i)) -> c_sent c = [] ->
  secured (authenticate i c).1.
Proof.
  intros Ht Hs. unfold authenticate. destruct (empty (i_password i)) eqn:Ep.
  - unfold secured. simpl. split; [done|]. by destruct (i_password i).
  - destruct (send_open c _) as [c1 b] eqn:E1. destruct b; [|done]. cbn [negb].
    pose proof (read_open_keeps c1) as [Hr1 Hr2]. destruct (read_open c1) as [[c2 a] r]. simpl in Hr1, Hr2.
    destruct (starts_with _ _); [|done]. unfold secured. simpl. unfold send_open in E1.
    pose proof (send_loop_grows _ _ _ _ _ E1) as [_ Ht1].
    split; [rewrite Hr2, Ht1; done|]. intros _. rewrite Hr1, (send_loop_sent _ _ _ _ E1), Hs. done.
Qed.

Lemma start_tls_verified i t name : start_tls i t = Some name -> name = expected_name i.
Proof. unfold start_tls. repeat split_if; congruence. Qed.

Lemma secured_next i : i_connection i = None -> secured (ensure_connected i).1.
Proof.
  intros Hi. unfold ensure_connected. rewrite Hi.
  assert (secured (next_attempt i)) as Hn by (unfold secured; simpl; by rewrite Hi).
  destruct (n_resolve _) as [addresses|]; [|done].
  set (i1 := match addresses with (NoSocket | Refused) :: _ => _ | _ => _ end).
  assert (secured i1) as H1 by (unfold i1; by repeat case_match).
  destruct (connect_first _) as [peer|]; [|done]. destruct (i_use_tls i1) eqn:Hu.
  - destruct (start_tls i1 _) as [name|] eqn:Et; [|done].
    apply authenticate_secured; [|done]. intros _. simpl. by rewrite <- (start_tls_verified _ _ _ Et).
  - apply authenticate_secured; [|done]. congruence.
Qed.

Lemma secured_ensure i : secured i -> secured (ensure_connected i).1.
Proof.
  intros H. destruct (i_connection i) eqn:E; [|by apply secured_next].
  unfold ensure_connected. by rewrite E.
Qed.

Lemma secured_move i c c' : i_connection i = Some c -> secured i ->
  c_sent c `prefix_of` c_sent c' -> c_tls c' = c_tls c -> forall a, secured (set_accum a (set_connection (Some c') i)).
Proof.
  unfold secured. intros -> [H1 H2] Hs Ht a. simpl. rewrite Ht. split; [done|].
  intros Hp. etrans; [by apply H2|done].
Qed.

Lemma secured_execute_once i cmd : secured i -> secured (execute_once i cmd).1.
Proof.
  intros H. unfold execute_once, send_command. apply secured_ensure in H.
  destruct (ensure_connected i) as [i1 [|]]; [|done]. simpl in H.
  destruct (i_connection i1) as [c|] eqn:Ec; [|done].
  destruct (send_open c cmd) as [c1 b] eqn:Es. apply send_loop_grows in Es as [Hp Ht].
  pose proof (secured_move _ _ _ Ec H Hp Ht (i_accum i1)) as H1.
  destruct b; [|done]. unfold read_response. cbn [set_connection i_connection].
  pose proof (read_open_keeps c1) as [Hr1 Hr2]. destruct (read_open c1) as [[c2 a] r]. simpl in Hr1, Hr2.
  destruct (empty r); [done|]. apply (secured_move _ c1); [done|exact H1|by rewrite Hr1|done].
Qed.

Lemma secured_execute i cmd : secured i -> secured (execute i cmd).1.
Proof.
  intros H. unfold execute. apply (secured_execute_once i cmd) in H as H1.
  destruct (execute_once i cmd) as [i1 r]. simpl in H1.
  destruct (empty r); [by apply secured_execute_once|done].
Qed.

Lemma secured_get i k : secured i -> secured (get i k).1.
Proof.
  intros H. unfold get. apply (secured_execute i (get_command k)) in H. by destruct (execute i _).
Qed.

Lemma secured_ping i : secured i -> secured (ping i).1.
Proof.
  intros H. unfold ping. apply (secured_execute i ping_command) in H. by destruct (execute i _).
Qed.

Lemma secured_mget keys i : secured i -> secured (mget i keys).1.
Proof.
  revert i. induction keys as [|k keys IH]; intros i H; simpl; [done|].
  apply (secured_get i k) in H. destruct (get i k) as [i1 r]. simpl in H. apply IH in H. by destruct (mget i1 keys).
Qed.
End Exchanges.

(** ** A connection that has gone stale *)

(** Nothing arrives any more, whatever is written. *)
Definition stale (c : Connection) : Prop :=
  forall s, drop (c_taken c) (p_available (c_peer c) s) = [].

Lemma send_loop_conn fuel c s : c_taken (send_loop fuel c s).1 = c_taken c
  /\ c_peer (send_loop fuel c s).1 = c_peer c.
Proof.
  revert c s. induction fuel as [|fuel IH]; intros c [|x s]; cbn [send_loop]; try done.
  split_if; [done|]. match goal with |- context [send_loop fuel ?c' ?s'] => destruct (IH c' s') as [-> ->] end.
  done.
Qed.

Lemma read_open_nothing c : pending c = [] -> (read_open c).2 = [].
Proof. intros H. unfold read_open, fill_until_crlf, run_fill. by rewrite H. Qed.

Section Stale.
Context {N : Network}.

Lemma execute_once_stale i c cmd : i_connection i = Some c -> stale c ->
  execute_once i cmd = (disconnect i, []).
Proof.
  intros Hi Hst. unfold execute_once, send_command, ensure_connected, send_open. rewrite !Hi.
  pose proof (send_loop_conn (length cmd) c cmd) as [Ht Hp].
  destruct (send_loop (length cmd) c cmd) as [c1 b]. simpl in Ht, Hp.
  destruct b; [|done]. unfold read_response. cbn [set_connection i_connection].
  pose proof (read_open_nothing c1) as Hr. destruct (read_open c1) as [[c2 a] r]. simpl in Hr.
  rewrite Hr; [done|]. unfold pending. by rewrite Ht, Hp.
Qed.

(** The next attempt reaches a server on a plain connection without a password. *)
Lemma ensure_connected_plain i addresses p :
  i_connection i = None -> n_resolve (i_attempts i) = Some addresses ->
  connect_first addresses = Some p -> i_use_tls i = false -> i_password i = [] ->
  exists a, ensure_connected i
    = (set_accum a (set_connection (Some (mkConnection p [] 0 0 None)) (next_attempt i)), true).
Proof.
  intros Hi Hn Hc Ht Hp. unfold ensure_connected. rewrite Hi, Hn, Hc.
  set (i1 := match addresses with (NoSocket | Refused) :: _ => _ | _ => _ end).
  assert (exists a, i1 = set_accum a (next_attempt i)) as [a Ha].
  { unfold i1. destruct addresses as [|[] ?]; [by exists (i_accum i)| | |by exists (i_accum i)];
      exists []; unfold disconnect, set_connection, next_attempt; simpl; by rewrite Hi. }
  rewrite Ha. simpl. rewrite Ht. unfold authenticate. simpl. rewrite Hp. simpl. by exists a.
Qed.
End Stale.

(** ** Properties *)

(** C15: Reading through an open connection implements lookup in the store: for a server
    that answers each GET as RESP says, however it cuts its replies into
    reads and its socket into writes, [mget] yields for each key, in order, the value
    the store holds (any bytes, line ends included) or "not found", keeps the
    connection, and leaves no reply outstanding. *)
Theorem garnet_refines_store {N : Network} (i : Impl) (c : Connection) (store : gmap str str) (keys : list str)
  (Hopen : i_connection i = Some c) (Hidle : idle c)
  (Hserves : serves (c_peer c) store (c_sent c) keys) :
  exists i' c', mget i keys = (i', (λ k, answer_of (store !! k)) <$> keys)
    /\ i_connection i' = Some c' /\ idle c' /\ c_peer c' = c_peer c
    /\ i_attempts i' = i_attempts i.
Proof. by apply mget_served. Qed.

(** The calls of the rest of the gateway. *)
Inductive GarnetOp := OGet (key : str) | OMget (keys : list str) | OPing.

Definition run_op {N : Network} (i : Impl) (o : GarnetOp) : Impl :=
  match o with
  | OGet k => (get i k).1
  | OMget ks => (mget i ks).1
  | OPing => (ping i).1
  end.


(** A [get] on a connection that has gone stale closes it, opens another and
    answers from the store: no error reaches the caller. *)
Theorem garnet_recovers {N : Network} (i : Impl) (c : Connection) (addresses : list Address) (p : Peer)
    (store : gmap str str) (k : str)
  (Hopen : i_connection i = Some c) (Hstale : stale c)
  (Hresolve : n_resolve (i_attempts i) = Some addresses) (Hconnect : connect_first addresses = Some p)
  (Htls : i_use_tls i = false) (Hpass : i_password i = [])
  (Hfresh : p_available p [] = []) (Haccepts : forall n, 0 < p_accepts p n)
  (Hserves : serves p store [] [k]) :
  exists i' c', get i k = (i', answer_of (store !! k)) /\ i_connection i' = Some c' /\ idle c'
    /\ c_peer c' = p /\ c_sent c' = get_command k.
Proof.
  destruct Hserves as ((cs & Hne & Hav & Hc) & Hst & _).
  unfold get, execute. rewrite (execute_once_stale i c) by done. cbn [empty].
  destruct (ensure_connected_plain (disconnect i) addresses p) as [a He]; [done..|].
  set (c0 := mkConnection p [] 0 0 None) in *.
  set (i1 := set_accum a (set_connection (Some c0) (next_attempt (disconnect i)))) in *.
  destruct (execute_once_reply i1 c0 (get_command k) cs (store !! k)) as (c' & E & Hid & Hp & Hs);
    [done|unfold idle; simpl; by rewrite Hfresh|done..|].
  assert (execute_once (disconnect i) (get_command k) = execute_once i1 (get_command k)) as ->.
  { unfold execute_once, send_command. rewrite He. done. }
  rewrite E. rewrite get_reply_of. by eexists _, c'.
Qed.

(** *** Witnesses *)

Definition no_tls : TlsCalls := mkTlsCalls false (λ _, false) false false (λ _, false) (λ _, false) (λ _, false).

(** A server that holds a value with a line end under "auth:v1" and cuts its
    replies in the middle of a line. *)
Definition sample_value : str := "12" ++ CRLF ++ "34".

Definition sample_peer : Peer := mkPeer
  (λ sent, if sent =$ get_command "auth:v1" then [lit "$"; "6" ++ [CR]; [LF] ++ sample_value; CRLF]
           else if sent =$ get_command "auth:v1" ++ get_command "other"
           then [lit "$"; "6" ++ [CR]; [LF] ++ sample_value; CRLF; "$-1" ++ [CR]; [LF]]
           else [])
  (λ _, 3) no_tls.

Definition sample_store : gmap str str := {[ lit "auth:v1" := sample_value ]}.

Definition sample_client (c : option Connection) : Impl := mkImpl "garnet" [] false [] [] c [] 1.

Lemma garnet_refines_store_witness :
  (@mget (λ _, None) (sample_client (Some (mkConnection sample_peer [] 0 0 None)))
     [lit "auth:v1"; lit "other"]).2
  = [mkGarnet true false sample_value; mkGarnet false false []].
Proof.
  destruct (@garnet_refines_store (λ _, None) (sample_client (Some (mkConnection sample_peer [] 0 0 None)))
    (mkConnection sample_peer [] 0 0 None) sample_store [lit "auth:v1"; lit "other"])
    as (i' & c' & -> & _); [done|done| |done].
  split; [|split; [|split; [|split]]]; [|done| |done|done].
  - exists [lit "$"; "6" ++ [CR]; [LF] ++ sample_value; CRLF].
    split; [by repeat constructor|]. by vm_compute.
  - exists ["$-1" ++ [CR]; [LF]]. split; [by repeat constructor|]. by vm_compute.
Defined.

Lemma garnet_recovers_witness :
  (@get (λ _, Some [Refused; Accepted sample_peer])
     (sample_client (Some (mkConnection (mkPeer (λ _, []) (λ _, 100) no_tls) [] 0 0 None))) (lit "auth:v1")).2
  = mkGarnet true false sample_value.
Proof.
  destruct (@garnet_recovers (λ _, Some [Refused; Accepted sample_peer])
    (sample_client (Some (mkConnection (mkPeer (λ _, []) (λ _, 100) no_tls) [] 0 0 None)))
    (mkConnection (mkPeer (λ _, []) (λ _, 100) no_tls) [] 0 0 None)
    [Refused; Accepted sample_peer] sample_peer sample_store (lit "auth:v1"))
    as (i' & c' & -> & _); try done.
  split; [|done]. exists [lit "$"; "6" ++ [CR]; [LF] ++ sample_value; CRLF].
  split; [by repeat constructor|]. by vm_compute.
Defined.
