(* ===== verification/Failover.v ===== *)
(** * Retry policy and account failover

    [forwarder/retry_policy.{h,cpp}], [forwarder/failover.{h,cpp}] and the
    dispatch back-off of [dispatch/capnp_dispatch_client.h].  An [int] or
    [uint32_t] is a [Z]; the arithmetic that can leave the width is wrapped, a
    shift by a negative amount (undefined) is [None]. *)
From S2P Require Import Prelude.

Local Open Scope Z_scope.

(** ** RetryPolicy *)
Module Retry.

Record RetryPolicy := mkRetryPolicy {
  base_delay_ms : Z;
  max_delay_ms : Z;
  max_elapsed_ms : Z;
  max_same_account_retries : Z;
  max_account_switches : Z;
}.

Definition default_policy : RetryPolicy := mkRetryPolicy 300 3000 10000 3 10.

(** [RetryPolicy::compute_delay]; every operation is on [uint32_t]. *)
Definition compute_delay (p : RetryPolicy) (attempt : Z) : option Z :=
  let sh := Z.min attempt 10 in
  if sh <? 0 then None
  else let delay := u32 (base_delay_ms p * u32 (Z.shiftl 1 sh)) in
       Some (Z.min delay (max_delay_ms p)).

(** [RetryPolicy::is_retryable_status]. *)
Definition is_retryable_status (status_code : Z) : bool :=
  (status_code =? 401) || (status_code =? 403) || (status_code =? 429)
  || (status_code =? 529) || (500 <=? status_code).

(** [dispatch::platform_dispatch_retry_delay_ms]. *)
Definition platform_dispatch_retry_delay_ms (retry_number : Z) : Z :=
  if retry_number <=? 0 then 50
  else Z.min 1000 (50 * Z.shiftl 1 (Z.min (retry_number - 1) 5)).

Lemma compute_delay_eq p attempt :
  0 <= base_delay_ms p -> base_delay_ms p * 1024 < 2 ^ 32 -> 0 <= attempt ->
  compute_delay p attempt =
    Some (Z.min (base_delay_ms p * 2 ^ Z.min attempt 10) (max_delay_ms p)).
Proof.
  intros Hb Hw Ha. unfold compute_delay.
  replace (Z.min attempt 10 <? 0) with false by (symmetry; apply Z.ltb_ge; lia).
  rewrite Z.shiftl_mul_pow2, Z.mul_1_l by lia.
  assert (Hp : 1 <= 2 ^ Z.min attempt 10 <= 2 ^ 10).
  { split; [|apply Z.pow_le_mono_r; lia].
    change 1 with (2 ^ 0). apply Z.pow_le_mono_r; lia. }
  rewrite (u32_small (2 ^ _)), u32_small by nia. done.
Qed.

Lemma dispatch_delay_bounds n : 50 <= platform_dispatch_retry_delay_ms n <= 1000.
Proof.
  unfold platform_dispatch_retry_delay_ms. destruct (Z.leb_spec n 0); [lia|].
  rewrite Z.shiftl_mul_pow2, Z.mul_1_l by lia.
  assert (2 ^ 0 <= 2 ^ Z.min (n - 1) 5) by (apply Z.pow_le_mono_r; lia). lia.
Qed.

End Retry.

(** ** FailoverController *)
Module Failover.

Inductive Action := Continue | SwitchAccount | Exhausted | Canceled.

#[global] Instance Action_eq_dec : EqDecision Action.
Proof. solve_decision. Defined.

Record FailoverController := mkController {
  max_switches : Z;
  max_same_retries : Z;
  switch_count : Z;
  failed_accounts : gset Z;
  same_account_retries : gmap Z Z;
}.

Definition failover_create (max_switches max_same_retries : Z) : FailoverController :=
  mkController max_switches max_same_retries 0 ∅ ∅.

(** The constructor's default arguments. *)
Definition default_controller : FailoverController := failover_create 10 3.

Definition mark_failed (st : FailoverController) (account_id : Z) : FailoverController :=
  mkController (max_switches st) (max_same_retries st) (switch_count st)
    ({[account_id]} ∪ failed_accounts st) (same_account_retries st).

Definition bump_switch (st : FailoverController) : FailoverController :=
  mkController (max_switches st) (max_same_retries st) (switch_count st + 1)
    (failed_accounts st) (same_account_retries st).

Definition set_retries (st : FailoverController) (account_id n : Z) : FailoverController :=
  mkController (max_switches st) (max_same_retries st) (switch_count st)
    (failed_accounts st) (<[account_id := n]> (same_account_retries st)).

(** [same_account_retries_[id]] default-constructs a missing entry. *)
Definition retries_of (st : FailoverController) (account_id : Z) : Z :=
  default 0 (same_account_retries st !! account_id).

(** The shared tail of both branches of [handle_error]: mark the account,
    count the switch, compare with the limit. *)
Definition escalate (st : FailoverController) (account_id : Z)
  : Action * FailoverController :=
  let st := bump_switch (mark_failed st account_id) in
  (if max_switches st <? switch_count st then Exhausted else SwitchAccount, st).

(** [FailoverController::handle_error]. *)
Definition handle_error (st : FailoverController) (account_id status_code : Z)
  : Action * FailoverController :=
  if (status_code =? 401) || (status_code =? 403) || (status_code =? 429) then
    escalate st account_id
  else
    let retries := retries_of st account_id + 1 in
    let st := set_retries st account_id retries in
    if retries <=? max_same_retries st then (Continue, st)
    else escalate st account_id.

(** A run of the controller over a list of (account, status) errors: the
    actions it answered, with the account each was about. *)
Fixpoint run (st : FailoverController) (errs : list (Z * Z))
  : list (Z * Action) * FailoverController :=
  match errs with
  | [] => ([], st)
  | (a, code) :: errs' =>
      let '(act, st1) := handle_error st a code in
      let '(acts, st2) := run st1 errs' in
      ((a, act) :: acts, st2)
  end.

Definition is_continue (p : Z * Action) : bool := bool_decide (snd p = Continue).
Definition is_switch (p : Z * Action) : bool := bool_decide (snd p = SwitchAccount).
Definition about (a : Z) (p : Z * Action) : bool := bool_decide (fst p = a).

Definition count {A} (f : A -> bool) (l : list A) : Z := Z.of_nat (length (List.filter f l)).

Lemma count_cons {A} (f : A -> bool) x l :
  count f (x :: l) = (if f x then 1 else 0) + count f l.
Proof. unfold count. simpl. destruct (f x); simpl length; lia. Qed.

Lemma count_nonneg {A} (f : A -> bool) l : 0 <= count f l.
Proof. unfold count. lia. Qed.

Lemma retries_of_set st a n b :
  retries_of (set_retries st a n) b = if decide (a = b) then n else retries_of st b.
Proof. unfold retries_of. simpl. rewrite lookup_insert. by case_decide. Qed.

(** What an answer says about the step it came from. *)
Definition step_ok (st : FailoverController) (a : Z) (act : Action)
    (st' : FailoverController) : Prop :=
  max_switches st' = max_switches st /\ max_same_retries st' = max_same_retries st /\
  (forall b, retries_of st b <= retries_of st' b) /\
  match act with
  | Continue =>
      switch_count st' = switch_count st /\ failed_accounts st' = failed_accounts st /\
      retries_of st' a = retries_of st a + 1 /\ retries_of st' a <= max_same_retries st
  | SwitchAccount =>
      switch_count st' = switch_count st + 1 /\ switch_count st' <= max_switches st /\
      failed_accounts st' = {[a]} ∪ failed_accounts st
  | Exhausted =>
      switch_count st' = switch_count st + 1 /\ max_switches st < switch_count st' /\
      failed_accounts st' = {[a]} ∪ failed_accounts st
  | Canceled => False
  end.

Lemma escalate_step st0 st a act st' :
  escalate st a = (act, st') ->
  max_switches st = max_switches st0 -> max_same_retries st = max_same_retries st0 ->
  switch_count st = switch_count st0 -> failed_accounts st = failed_accounts st0 ->
  (forall b, retries_of st0 b <= retries_of st b) ->
  step_ok st0 a act st'.
Proof.
  unfold escalate, step_ok. intros H E1 E2 E3 E4 Hr.
  destruct (Z.ltb_spec (max_switches (bump_switch (mark_failed st a)))
              (switch_count (bump_switch (mark_failed st a))));
    simplify_eq; simpl in *; rewrite <- E1, <- E3, <- E4; repeat split; auto; lia.
Qed.

Lemma handle_error_step st a code act st' :
  handle_error st a code = (act, st') -> step_ok st a act st'.
Proof.
  unfold handle_error. intros H.
  assert (Hr : forall b, retries_of st b <=
                 retries_of (set_retries st a (retries_of st a + 1)) b).
  { intros b. rewrite retries_of_set. case_decide; subst; lia. }
  split_if; [by eapply escalate_step|].
  destruct (Z.leb_spec (retries_of st a + 1) (max_same_retries st)) as [Hle|Hgt].
  - simpl in H. destruct (Z.leb_spec (retries_of st a + 1) (max_same_retries st)); [|lia].
    simplify_eq. unfold step_ok. rewrite retries_of_set, decide_True by done.
    repeat split; auto.
  - simpl in H. destruct (Z.leb_spec (retries_of st a + 1) (max_same_retries st)); [lia|].
    by eapply escalate_step.
Qed.

(** *** Counting the answers of a run *)

Lemma is_continue_about a b act :
  is_continue (b, act) && about a (b, act)
  = bool_decide (act = Continue) && bool_decide (b = a).
Proof. done. Qed.

Lemma run_limits st errs acts st' :
  run st errs = (acts, st') ->
  max_switches st' = max_switches st /\ max_same_retries st' = max_same_retries st /\
  forall b, retries_of st b <= retries_of st' b.
Proof.
  revert st acts st'. induction errs as [|[a code] errs IH]; intros st acts st'; simpl.
  - intros [= <- <-]. repeat split; auto; lia.
  - destruct (handle_error st a code) as [act st1] eqn:E1.
    destruct (run st1 errs) as [acts2 st2] eqn:E2. intros [= <- <-].
    apply handle_error_step in E1 as (H1 & H2 & H3 & _).
    destruct (IH _ _ _ E2) as (H4 & H5 & H6).
    repeat split; try congruence. intros b. specialize (H3 b). specialize (H6 b). lia.
Qed.

Lemma run_continue_none st errs acts st' a :
  run st errs = (acts, st') -> max_same_retries st <= retries_of st a ->
  count (λ p, is_continue p && about a p) acts = 0.
Proof.
  revert st acts st'. induction errs as [|[b code] errs IH]; intros st acts st'; simpl.
  - by intros [= <- <-].
  - destruct (handle_error st b code) as [act st1] eqn:E1.
    destruct (run st1 errs) as [acts2 st2] eqn:E2. intros [= <- <-] Hr.
    apply handle_error_step in E1 as (H1 & H2 & H3 & H4). specialize (H3 a).
    rewrite count_cons, is_continue_about, (IH _ _ _ E2) by lia.
    destruct act; repeat case_bool_decide; simplify_eq; simpl; lia.
Qed.

(** Every [Continue] for an account costs one of its retries. *)
Lemma run_continue_account st errs acts st' a :
  run st errs = (acts, st') -> retries_of st a <= max_same_retries st ->
  count (λ p, is_continue p && about a p) acts <= max_same_retries st - retries_of st a.
Proof.
  revert st acts st'. induction errs as [|[b code] errs IH]; intros st acts st'; simpl.
  - intros [= <- <-]. unfold count. simpl. lia.
  - destruct (handle_error st b code) as [act st1] eqn:E1.
    destruct (run st1 errs) as [acts2 st2] eqn:E2. intros [= <- <-] Hr.
    rewrite count_cons, is_continue_about.
    apply handle_error_step in E1 as (H1 & H2 & H3 & H4).
    destruct (Z.le_gt_cases (retries_of st1 a) (max_same_retries st1)) as [Hle|Hgt].
    + specialize (IH _ _ _ E2 Hle). rewrite H2 in IH. specialize (H3 a).
      destruct act; repeat case_bool_decide; simplify_eq; simpl; lia.
    + rewrite (run_continue_none _ _ _ _ a E2) by lia.
      destruct act; repeat case_bool_decide; simplify_eq; simpl; lia.
Qed.

Lemma run_switches_none st errs acts st' :
  run st errs = (acts, st') -> max_switches st <= switch_count st ->
  count is_switch acts = 0.
Proof.
  revert st acts st'. induction errs as [|[b code] errs IH]; intros st acts st'; simpl.
  - by intros [= <- <-].
  - destruct (handle_error st b code) as [act st1] eqn:E1.
    destruct (run st1 errs) as [acts2 st2] eqn:E2. intros [= <- <-] Hs.
    rewrite count_cons. change (is_switch (b, act)) with (bool_decide (act = SwitchAccount)).
    apply handle_error_step in E1 as (H1 & H2 & H3 & H4).
    destruct act; rewrite (IH _ _ _ E2) by lia; case_bool_decide; simplify_eq; lia.
Qed.

(** Every [SwitchAccount] costs one switch. *)
Lemma run_switches st errs acts st' :
  run st errs = (acts, st') -> switch_count st <= max_switches st ->
  count is_switch acts <= max_switches st - switch_count st.
Proof.
  revert st acts st'. induction errs as [|[b code] errs IH]; intros st acts st'; simpl.
  - intros [= <- <-]. unfold count. simpl. lia.
  - destruct (handle_error st b code) as [act st1] eqn:E1.
    destruct (run st1 errs) as [acts2 st2] eqn:E2. intros [= <- <-] Hs.
    rewrite count_cons. change (is_switch (b, act)) with (bool_decide (act = SwitchAccount)).
    apply handle_error_step in E1 as (H1 & H2 & H3 & H4).
    destruct (Z.le_gt_cases (switch_count st1) (max_switches st1)) as [Hle|Hgt].
    + specialize (IH _ _ _ E2 Hle). rewrite H1 in IH.
      destruct act; case_bool_decide; simplify_eq; lia.
    + rewrite (run_switches_none _ _ _ _ E2) by lia.
      destruct act; case_bool_decide; simplify_eq; lia.
Qed.

(** Counting over a set of keys that covers the list. *)
Lemma count_by_key (f : Z * Action -> bool) (keys : list Z) (k : Z) l :
  (forall p, p ∈ l -> f p = true -> fst p ∈ keys) ->
  (forall a, count (λ p, f p && about a p) l <= k) ->
  count f l <= k * Z.of_nat (length keys).
Proof.
  revert f. induction keys as [|x keys IH]; intros f Hk Hc.
  - simpl. assert (count f l = 0) as ->; [|lia].
    clear Hc. induction l as [|p l IHl]; [done|].
    rewrite count_cons, IHl by (intros ? ?; apply Hk; by right).
    destruct (f p) eqn:E; [|done].
    by specialize (Hk p (list_elem_of_here _ _) E) as ?%not_elem_of_nil.
  - assert (Hsplit : count f l =
      count (λ p, f p && about x p) l + count (λ p, f p && negb (about x p)) l).
    { clear. induction l as [|p l IHl]; [done|].
      rewrite !count_cons, IHl. destruct (f p), (about x p); simpl; lia. }
    rewrite Hsplit. specialize (IH (λ p, f p && negb (about x p))).
    assert (count (λ p, f p && negb (about x p)) l <= k * Z.of_nat (length keys)).
    { apply IH.
      - intros p Hp [Hf Hx]%andb_true_iff. specialize (Hk p Hp Hf).
        apply elem_of_cons in Hk as [Hk|Hk]; [|done].
        unfold about in Hx. by rewrite Hk, bool_decide_eq_true_2 in Hx.
      - intros a. etrans; [|apply (Hc a)]. clear.
        induction l as [|p l IHl]; [done|]. rewrite !count_cons.
        destruct (f p), (about x p), (about a p); simpl; lia. }
    specialize (Hc x). simpl length. lia.
Qed.

Lemma run_keys st errs acts st' p :
  run st errs = (acts, st') -> p ∈ acts -> fst p ∈ errs.*1.
Proof.
  revert st acts st'. induction errs as [|[b code] errs IH]; intros st acts st'; simpl.
  - by intros [= <- <-] ?%not_elem_of_nil.
  - destruct (handle_error st b code) as [act st1] eqn:E1.
    destruct (run st1 errs) as [acts2 st2] eqn:E2. intros [= <- <-].
    intros [->|Hp]%elem_of_cons; [by left|right; eauto].
Qed.

(** The accounts an error list mentions, each once. *)
Definition accounts (errs : list (Z * Z)) : list Z := remove_dups errs.*1.

Lemma run_failed st errs acts st' :
  run st errs = (acts, st') ->
  forall a, a ∈ failed_accounts st' <->
    a ∈ failed_accounts st \/ exists act, (a, act) ∈ acts /\ act <> Continue.
Proof.
  revert st acts st'. induction errs as [|[b code] errs IH]; intros st acts st'; simpl.
  - intros [= <- <-] a. set_solver.
  - destruct (handle_error st b code) as [act st1] eqn:E1.
    destruct (run st1 errs) as [acts2 st2] eqn:E2. intros [= <- <-] a.
    rewrite (IH _ _ _ E2 a).
    apply handle_error_step in E1 as (_ & _ & _ & H4).
    destruct act; [destruct H4 as (_ & -> & _)| destruct H4 as (_ & _ & ->)..|done];
      set_solver.
Qed.

End Failover.

(** ** Properties *)

(** for a base delay whose tenfold doubling fits 32 bits, [compute_delay]
    is exponential back-off capped at [max_delay_ms]: no [uint32_t] product
    wraps, and the delay never decreases with the attempt. *)
Theorem compute_delay_exponential_capped (p : Retry.RetryPolicy) (a b : Z) :
  0 <= Retry.base_delay_ms p -> Retry.base_delay_ms p * 1024 < 2 ^ 32 ->
  0 <= a <= b ->
  exists da db,
    Retry.compute_delay p a = Some da /\ Retry.compute_delay p b = Some db /\
    da = Z.min (Retry.base_delay_ms p * 2 ^ Z.min a 10) (Retry.max_delay_ms p) /\
    da <= db <= Retry.max_delay_ms p.
Proof.
  intros H1 H2 H3. do 2 eexists. rewrite !Retry.compute_delay_eq by lia.
  do 3 (split; [reflexivity|]).
  assert (2 ^ Z.min a 10 <= 2 ^ Z.min b 10) by (apply Z.pow_le_mono_r; lia).
  split; [|lia]. apply Z.min_le_compat_r. nia.
Qed.

Lemma compute_delay_exponential_capped_witness :
  Retry.compute_delay Retry.default_policy 1 = Some 600 /\
  exists da db,
    Retry.compute_delay Retry.default_policy 1 = Some da /\
    Retry.compute_delay Retry.default_policy 7 = Some db /\ da <= db <= 3000.
Proof.
  split; [reflexivity|].
  destruct (compute_delay_exponential_capped Retry.default_policy 1 7)
    as (da & db & Ha & Hb & _ & Hle); [simpl; lia..|].
  exists da, db. split; [exact Ha|split; [exact Hb|exact Hle]].
Defined.

(** C37: failover always runs out.  Over any sequence of upstream errors, a
    fresh controller asks to try again ([Continue] or [SwitchAccount]) at most
    [max_switches] times plus [max_same_retries] times per distinct account,
    so the retry loop of the handler is bounded whatever the accounts
    answer. *)
Theorem failover_retries_bounded (ms mr : Z) (errs : list (Z * Z)) :
  0 <= ms -> 0 <= mr ->
  let '(acts, _) := Failover.run (Failover.failover_create ms mr) errs in
  Failover.count Failover.is_continue acts + Failover.count Failover.is_switch acts
    <= ms + mr * Z.of_nat (length (Failover.accounts errs)).
Proof.
  intros Hms Hmr. destruct (Failover.run (Failover.failover_create ms mr) errs) as [acts st'] eqn:E.
  pose proof (Failover.run_switches _ _ _ _ E ltac:(simpl; lia)) as Hs. simpl in Hs.
  assert (Hc : Failover.count Failover.is_continue acts
               <= mr * Z.of_nat (length (Failover.accounts errs))); [|lia].
  apply Failover.count_by_key.
  - intros p Hp _. apply elem_of_remove_dups. by eapply Failover.run_keys.
  - intros a. pose proof (Failover.run_continue_account _ _ _ _ a E) as H.
    unfold Failover.retries_of in H. simpl in H. rewrite lookup_empty in H.
    simpl in H. lia.
Qed.

Lemma failover_retries_bounded_witness :
  let errs := [(1, 500); (1, 500); (1, 502); (1, 503); (2, 429); (3, 500)] in
  let '(acts, _) := Failover.run (Failover.failover_create 10 3) errs in
  acts.*2 = [Failover.Continue; Failover.Continue; Failover.Continue;
             Failover.SwitchAccount; Failover.SwitchAccount; Failover.Continue] /\
  Failover.count Failover.is_continue acts + Failover.count Failover.is_switch acts
    <= 10 + 3 * 3.
Proof.
  split; [vm_compute; reflexivity|].
  apply (failover_retries_bounded 10 3
    [(1, 500); (1, 500); (1, 502); (1, 503); (2, 429); (3, 500)]); lia.
Defined.

(** the accounts excluded from the next dispatch are exactly those the
    controller gave up on: an account is in [failed_accounts] after a run of a
    fresh controller iff one of its errors was answered with something other
    than [Continue]. *)
Theorem failed_accounts_exact (ms mr : Z) (errs : list (Z * Z)) (a : Z) :
  let '(acts, st') := Failover.run (Failover.failover_create ms mr) errs in
  a ∈ Failover.failed_accounts st' <->
  exists act, (a, act) ∈ acts /\ act <> Failover.Continue.
Proof.
  destruct (Failover.run (Failover.failover_create ms mr) errs) as [acts st'] eqn:E.
  rewrite (Failover.run_failed _ _ _ _ E a). simpl. set_solver.
Qed.
