(* ===== verification/WebSocket.v ===== *)
(** * WebSocket handshake and framing

    [server/websocket.{h,cpp}].  A byte is a [Z] in [0, 256), a [uint32_t] or
    [uint64_t] a [Z] wrapped where the code can leave the width; [size_t] is
    64 bits. *)
From S2P Require Import Prelude.

Local Open Scope Z_scope.

Abbreviation bytes := (list Z).

Definition is_byte (b : Z) : Prop := 0 <= b < 256.

Definition bytes_of_str (s : str) : bytes := (λ c, Z.of_nat (code c)) <$> s.

(** [data[i]], for an index the code has checked. *)
Definition byte_at (data : bytes) (i : nat) : Z := nth i data 0.

Definition size (data : bytes) : Z := Z.of_nat (length data).

(** ** Upgrade detection *)

(** The [strncasecmp] scan for a lower-case pattern. *)
Fixpoint icase_scan (pat s : str) : bool :=
  if (length pat <=? length s)%nat && (lower (take (length pat) s) =$ pat) then true
  else match s with
       | [] => false
       | _ :: s' => icase_scan pat s'
       end.

Definition is_websocket_upgrade (upgrade_hdr connection_hdr : str) : bool :=
  if empty upgrade_hdr then false
  else if negb (icase_scan "websocket" upgrade_hdr) then false
  else icase_scan "upgrade" connection_hdr.

(** ** SHA-1 *)

Definition rol (v : Z) (bits : Z) : Z :=
  Z.lor (u32 (Z.shiftl v bits)) (Z.shiftr v (32 - bits)).

Record sha_state := mkSha { s0 : Z; s1 : Z; s2 : Z; s3 : Z; s4 : Z }.

Definition word_at (buf : bytes) (i : nat) : Z :=
  Z.lor (Z.lor (Z.lor (u32 (Z.shiftl (byte_at buf (i * 4)) 24))
                      (u32 (Z.shiftl (byte_at buf (i * 4 + 1)) 16)))
               (u32 (Z.shiftl (byte_at buf (i * 4 + 2)) 8)))
        (byte_at buf (i * 4 + 3)).

(** The message schedule [w[0..79]], appended to as the loop runs. *)
Definition sha_schedule (buf : bytes) : list Z :=
  fold_left
    (λ w i, w ++ [rol (Z.lxor (Z.lxor (Z.lxor (nth (i - 3) w 0) (nth (i - 8) w 0))
                                      (nth (i - 14) w 0)) (nth (i - 16) w 0)) 1])
    (seq 16 64) (word_at buf <$> seq 0 16).

Definition not32 (v : Z) : Z := u32 (Z.lnot v).

Definition sha_round (w : list Z) (st : sha_state) (i : nat) : sha_state :=
  let '(mkSha a b c d e) := st in
  let '(f, k) :=
    if (i <? 20)%nat then (Z.lor (Z.land b c) (Z.land (not32 b) d), 0x5A827999)
    else if (i <? 40)%nat then (Z.lxor (Z.lxor b c) d, 0x6ED9EBA1)
    else if (i <? 60)%nat then
      (Z.lor (Z.lor (Z.land b c) (Z.land b d)) (Z.land c d), 0x8F1BBCDC)
    else (Z.lxor (Z.lxor b c) d, 0xCA62C1D6) in
  let temp := u32 (rol a 5 + f + e + k + nth i w 0) in
  mkSha temp a (rol b 30) c d.

Definition sha1_transform (st : sha_state) (buf : bytes) : sha_state :=
  let w := sha_schedule buf in
  let r := fold_left (sha_round w) (seq 0 80) st in
  mkSha (u32 (s0 st + s0 r)) (u32 (s1 st + s1 r)) (u32 (s2 st + s2 r))
        (u32 (s3 st + s3 r)) (u32 (s4 st + s4 r)).

Definition sha1_init : sha_state :=
  mkSha 0x67452301 0xEFCDAB89 0x98BADCFE 0x10325476 0xC3D2E1F0.

(** The loop over whole blocks: [n] is the number of iterations left. *)
Fixpoint sha1_blocks (n : nat) (st : sha_state) (data : bytes) : sha_state * bytes :=
  match n with
  | O => (st, data)
  | S n' => sha1_blocks n' (sha1_transform st (take 64 data)) (drop 64 data)
  end.

(** [final[128]] after the [memcpy], the [0x80] and the length loop; [rem] is
    the unprocessed tail of the message. *)
Definition sha1_final (rem : bytes) (len : Z) : bytes * nat :=
  let final := replicate 128 0 in
  let final := rem ++ drop (length rem) final in
  let final := <[length rem := 0x80]> final in
  let final_len := if (length rem <? 56)%nat then 64%nat else 128%nat in
  let bits := u64 (len * 8) in
  (fold_left (λ fin j, <[(final_len - 1 - j)%nat := u8 (Z.shiftr bits (Z.of_nat j * 8))]> fin)
     (seq 0 8) final, final_len).

Definition word_bytes (v : Z) : bytes :=
  [u8 (Z.shiftr v 24); u8 (Z.shiftr v 16); u8 (Z.shiftr v 8); u8 v].

Definition sha_digest (st : sha_state) : bytes :=
  word_bytes (s0 st) ++ word_bytes (s1 st) ++ word_bytes (s2 st)
  ++ word_bytes (s3 st) ++ word_bytes (s4 st).

Definition sha1 (data : bytes) : bytes :=
  let '(st, rem) := sha1_blocks (length data / 64) sha1_init data in
  let '(final, final_len) := sha1_final rem (size data) in
  let '(st, _) := sha1_blocks (final_len / 64) st final in
  sha_digest st.

(** ** Base64 *)

Definition B64 : str :=
  "ABCDEFGHIJKLMNOPQRSTUVWXYZabcdefghijklmnopqrstuvwxyz0123456789+/".

Definition b64_char (v : Z) : ascii := nth (Z.to_nat (Z.land v 63)) B64 NUL.

(** One iteration per three bytes of input. *)
Fixpoint base64_encode (data : bytes) : str :=
  match data with
  | [] => []
  | [a] =>
      let n := Z.shiftl a 16 in
      [b64_char (Z.shiftr n 18); b64_char (Z.shiftr n 12); "="%char; "="%char]
  | [a; b] =>
      let n := Z.lor (Z.shiftl a 16) (Z.shiftl b 8) in
      [b64_char (Z.shiftr n 18); b64_char (Z.shiftr n 12); b64_char (Z.shiftr n 6); "="%char]
  | a :: b :: c :: data' =>
      let n := Z.lor (Z.lor (Z.shiftl a 16) (Z.shiftl b 8)) c in
      [b64_char (Z.shiftr n 18); b64_char (Z.shiftr n 12); b64_char (Z.shiftr n 6); b64_char n]
      ++ base64_encode data'
  end.

Definition WS_MAGIC : str := "258EAFA5-E914-47DA-95CA-C5AB0DC85B11".

Definition compute_websocket_accept (key : str) : str :=
  base64_encode (sha1 (bytes_of_str (key ++ WS_MAGIC))).

(** The example of RFC 6455, section 1.3. *)
Example accept_rfc6455 :
  compute_websocket_accept "dGhlIHNhbXBsZSBub25jZQ==" = "s3pPLMBiTxaQ9kYGzzhZRbK+xOo=".
Proof. vm_compute. reflexivity. Qed.

(** ** Frames *)

Record WsFrame := mkFrame { fin : bool; opcode : Z; payload : bytes }.

(** An upper bound on [std::string::max_size()]; [assign] throws above it. *)
Definition string_max_size : Z := 2 ^ 63 - 1.

(** The loop that reads the 8-byte length. *)
Definition be_read64 (data : bytes) : Z :=
  fold_left (λ acc i, Z.lor (u64 (Z.shiftl acc 8)) (byte_at data (2 + i))) (seq 0 8) 0.

(** [frame.payload[i] ^= mask_key[i % 4]] from index [i] on. *)
Fixpoint unmask (mask_key : bytes) (i : nat) (p : bytes) : bytes :=
  match p with
  | [] => []
  | b :: p' => Z.lxor b (byte_at mask_key (i mod 4)) :: unmask mask_key (S i) p'
  end.

(** The payload length and the offset after it, or [None] where the code
    returns [false] for want of bytes. *)
Definition ws_length (data : bytes) : option (Z * Z) :=
  let len := size data in
  let payload_len := Z.land (byte_at data 1) 0x7F in
  if payload_len =? 126 then
    if len <? 4 then None
    else Some (Z.lor (Z.shiftl (byte_at data 2) 8) (byte_at data 3), 4)
  else if payload_len =? 127 then
    if len <? 10 then None else Some (be_read64 data, 10)
  else Some (payload_len, 2).

(** The tail of the function: mask key, bounds check, copy.  [frame] carries
    the [fin] and [opcode] already assigned. *)
Definition ws_payload (data : bytes) (frame : WsFrame) (consumed : Z)
    (masked : bool) (payload_len offset : Z) : res (bool * WsFrame * Z) :=
  let len := size data in
  if masked && (len <? offset + 4) then Ok (false, frame, consumed)
  else
    let mask_key := if masked then take 4 (drop (Z.to_nat offset) data) else [0; 0; 0; 0] in
    let offset := if masked then offset + 4 else offset in
    if len <? u64 (offset + payload_len) then Ok (false, frame, consumed)
    else if string_max_size <? payload_len then Err LengthError
    else
      let p := take (Z.to_nat payload_len) (drop (Z.to_nat offset) data) in
      let p := if masked then unmask mask_key 0 p else p in
      Ok (true, mkFrame (fin frame) (opcode frame) p, u64 (offset + payload_len)).

(** [parse_ws_frame]: the result flag and the two out-parameters. *)
Definition parse_ws_frame (data : bytes) (frame : WsFrame) (consumed : Z)
  : res (bool * WsFrame * Z) :=
  if size data <? 2 then Ok (false, frame, consumed)
  else
    let frame := mkFrame (negb (Z.land (byte_at data 0) 0x80 =? 0))
                         (Z.land (byte_at data 0) 0x0F) (payload frame) in
    let masked := negb (Z.land (byte_at data 1) 0x80 =? 0) in
    match ws_length data with
    | None => Ok (false, frame, consumed)
    | Some (payload_len, offset) => ws_payload data frame consumed masked payload_len offset
    end.

(** [for (i = n-1; i >= 0; --i) out += char((size >> (i * 8)) & 0xFF)]. *)
Fixpoint be_bytes (n : nat) (z : Z) : bytes :=
  match n with
  | O => []
  | S n' => Z.land (Z.shiftr z (Z.of_nat n' * 8)) 0xFF :: be_bytes n' z
  end.

Definition ws_header (op : Z) (mask : bool) (n : Z) : bytes :=
  let mask_bit := if mask then 0x80 else 0 in
  u8 (Z.lor 0x80 op)
  :: (if n <? 126 then [Z.lor mask_bit (u8 n)]
      else if n <? 65536 then [Z.lor mask_bit 126; u8 (Z.shiftr n 8); Z.land n 0xFF]
      else Z.lor mask_bit 127 :: be_bytes 8 n).

Definition encode_ws_frame (op : Z) (p : bytes) (mask : bool) : bytes :=
  ws_header op mask (size p) ++ p.

(** ** Lemmas on bytes and words *)

Lemma land_low_shift a b k : 0 <= k -> 0 <= b < 2 ^ k -> Z.land (Z.shiftl a k) b = 0.
Proof.
  intros Hk Hb. apply Z.bits_inj'. intros i Hi.
  rewrite Z.land_spec, Z.shiftl_spec, Z.bits_0 by lia.
  destruct (Z.ltb_spec i k).
  - by rewrite Z.testbit_neg_r by lia.
  - rewrite <- (Z.mod_small b (2 ^ k)), Z.mod_pow2_bits_high by lia. apply andb_false_r.
Qed.

Lemma lor_shiftl_add a b k : 0 <= k -> 0 <= b < 2 ^ k ->
  Z.lor (Z.shiftl a k) b = a * 2 ^ k + b.
Proof.
  intros Hk Hb. rewrite <- Z.add_nocarry_lor by (by apply land_low_shift).
  by rewrite Z.shiftl_mul_pow2.
Qed.

Lemma land_255 z : Z.land z 0xFF = z mod 256.
Proof. change 0xFF with (Z.ones 8). by rewrite Z.land_ones. Qed.

Lemma land_127 z : Z.land z 0x7F = z mod 128.
Proof. change 0x7F with (Z.ones 7). by rewrite Z.land_ones. Qed.

Lemma land_63 z : Z.land z 63 = z mod 64.
Proof. change 63 with (Z.ones 6). by rewrite Z.land_ones. Qed.

(** The mask bit of the second header byte. *)
Lemma mask_bit_set v : 0 <= v < 128 ->
  Z.land (Z.lor 0x80 v) 0x80 = 0x80 /\ Z.land (Z.lor 0x80 v) 0x7F = v /\
  Z.land v 0x80 = 0 /\ Z.land v 0x7F = v.
Proof.
  intros H. pose proof (forall_seqZ (λ v,
    (Z.land (Z.lor 0x80 v) 0x80 =? 0x80) && (Z.land (Z.lor 0x80 v) 0x7F =? v)
    && (Z.land v 0x80 =? 0) && (Z.land v 0x7F =? v)) 0 128
    ltac:(vm_compute; reflexivity) v H) as E.
  breflect. naive_solver.
Qed.

Lemma opcode_bits op : 0 <= op < 16 ->
  Z.land (u8 (Z.lor 0x80 op)) 0x80 = 0x80 /\ Z.land (u8 (Z.lor 0x80 op)) 0x0F = op.
Proof.
  intros H. pose proof (forall_seqZ (λ op,
    (Z.land (u8 (Z.lor 0x80 op)) 0x80 =? 0x80) && (Z.land (u8 (Z.lor 0x80 op)) 0x0F =? op))
    0 16 ltac:(vm_compute; reflexivity) op H) as E.
  by breflect.
Qed.

Lemma size_app a b : size (a ++ b) = size a + size b.
Proof. unfold size. rewrite length_app. lia. Qed.

Lemma size_cons x a : size (x :: a) = 1 + size a.
Proof. unfold size. simpl. lia. Qed.

Lemma size_nonneg a : 0 <= size a.
Proof. unfold size. lia. Qed.

Lemma length_be_bytes n z : length (be_bytes n z) = n.
Proof. induction n; simpl; auto. Qed.

(** Shifting in the next byte of a 64-bit value. *)
Lemma shift_in_byte z k : 0 <= z < 2 ^ 64 -> 0 <= k ->
  Z.lor (u64 (Z.shiftl (Z.shiftr z (k + 8)) 8)) (Z.land (Z.shiftr z k) 0xFF) = Z.shiftr z k.
Proof.
  intros Hz Hk. rewrite land_255, !Z.shiftr_div_pow2, Z.pow_add_r by lia.
  rewrite <- Z.div_div by lia. set (a := z / 2 ^ k).
  assert (Ha : 0 <= a < 2 ^ 64).
  { split; [apply Z.div_pos; lia|]. apply Z.div_lt_upper_bound; [lia|]. nia. }
  pose proof (Z.div_mod a 256 ltac:(lia)). pose proof (Z.mod_pos_bound a 256 ltac:(lia)).
  change (2 ^ 8) with 256. rewrite u64_small.
  - rewrite lor_shiftl_add by lia. change (2 ^ 8) with 256. lia.
  - rewrite Z.shiftl_mul_pow2 by lia. change (2 ^ 8) with 256. nia.
Qed.

Lemma be_fold_spec n z acc : 0 <= z < 2 ^ 64 -> acc = Z.shiftr z (Z.of_nat n * 8) ->
  fold_left (λ acc b, Z.lor (u64 (Z.shiftl acc 8)) b) (be_bytes n z) acc = z.
Proof.
  intros Hz. revert acc. induction n as [|n IH]; intros acc ->.
  - apply Z.shiftr_0_r.
  - cbn [be_bytes fold_left]. apply IH.
    replace (Z.of_nat (S n) * 8) with (Z.of_nat n * 8 + 8) by lia.
    apply shift_in_byte; lia.
Qed.

(** [be_read64] reads back what the length loop of the encoder wrote. *)
Lemma be_read64_spec a0 a1 z rest : 0 <= z < 2 ^ 64 ->
  be_read64 (a0 :: a1 :: be_bytes 8 z ++ rest) = z.
Proof.
  intros Hz. etrans; [|apply (be_fold_spec 8 z 0 Hz)].
  - unfold be_read64, byte_at. cbn [seq fold_left be_bytes app Nat.add nth]. reflexivity.
  - rewrite Z.shiftr_div_pow2 by lia. by rewrite Z.div_small.
Qed.

(** The header the encoder writes, read by the parser: the length, the offset
    and the first byte. *)
Lemma ws_length_header op mask n rest :
  0 <= n < 2 ^ 63 ->
  exists off, ws_length (ws_header op mask n ++ rest) = Some (n, off) /\
    off = size (ws_header op mask n) /\ 2 <= off <= 10 /\
    negb (Z.land (byte_at (ws_header op mask n ++ rest) 1) 0x80 =? 0) = mask.
Proof.
  intros Hn. unfold ws_header, ws_length.
  assert (Hm : forall v, 0 <= v < 128 ->
    Z.land (Z.lor (if mask then 0x80 else 0) v) 0x7F = v /\
    negb (Z.land (Z.lor (if mask then 0x80 else 0) v) 0x80 =? 0) = mask).
  { intros v (H1 & H2 & H3 & H4)%mask_bit_set. destruct mask.
    - by rewrite H2, H1.
    - by rewrite Z.lor_0_l, H4, H3. }
  destruct (Z.ltb_spec n 126); [|destruct (Z.ltb_spec n 65536)].
  - exists 2. unfold byte_at. cbn [app nth].
    assert (u8 n = n) as -> by (apply Z.mod_small; lia).
    destruct (Hm n ltac:(lia)) as [-> ->].
    destruct (Z.eqb_spec n 126); [lia|]. destruct (Z.eqb_spec n 127); [lia|].
    repeat split; lia.
  - exists 4. unfold byte_at. cbn [app nth].
    destruct (Hm 126 ltac:(lia)) as [-> ->]. cbn [Z.eqb Pos.eqb].
    rewrite !size_cons. destruct (Z.ltb_spec (1 + (1 + (1 + (1 + size rest)))) 4) as [Hlt|_];
      [pose proof (size_nonneg rest); lia|].
    assert (u8 (Z.shiftr n 8) = n / 256) as ->.
    { unfold u8. rewrite Z.shiftr_div_pow2 by lia. apply Z.mod_small.
      split; [apply Z.div_pos; lia|apply Z.div_lt_upper_bound; lia]. }
    pose proof (Z.div_mod n 256 ltac:(lia)). pose proof (Z.mod_pos_bound n 256 ltac:(lia)).
    rewrite land_255, lor_shiftl_add by lia. change (2 ^ 8) with 256.
    split; [do 2 f_equal; lia|]. repeat split; lia.
  - exists 10. rewrite <- app_comm_cons, <- app_comm_cons.
    assert (Hs : size (be_bytes 8 n ++ rest) = 8 + size rest) by (rewrite size_app; done).
    pose proof (size_nonneg rest).
    rewrite !size_cons, Hs, be_read64_spec by lia. unfold byte_at. cbn [nth].
    destruct (Hm 127 ltac:(lia)) as [-> ->]. cbn [Z.eqb Pos.eqb].
    destruct (Z.ltb_spec (1 + (1 + (8 + size rest))) 10); [lia|].
    split; [done|]. split; [done|]. split; [lia|done].
Qed.

(** The tail of the parser on a buffer that holds the whole frame. *)
Lemma ws_payload_complete hdr p rest f c off :
  off = size hdr -> 2 <= off <= 10 -> size p < 2 ^ 63 ->
  ws_payload (hdr ++ p ++ rest) f c false (size p) off
  = Ok (true, mkFrame (fin f) (opcode f) p, off + size p).
Proof.
  intros -> Ho Hp. unfold ws_payload. cbn [andb].
  pose proof (size_nonneg p). pose proof (size_nonneg rest).
  rewrite u64_small by lia. rewrite !size_app.
  destruct (Z.ltb_spec (size hdr + (size p + size rest)) (size hdr + size p)); [lia|].
  destruct (Z.ltb_spec string_max_size (size p)); [unfold string_max_size in *; lia|].
  unfold size. rewrite !Nat2Z.id, drop_app_length, take_app_length. done.
Qed.

Lemma byte_at_app_l (l k : bytes) i : (i < length l)%nat -> byte_at (l ++ k) i = byte_at l i.
Proof. intros H. unfold byte_at. by rewrite app_nth1. Qed.

(** ** Base64: a reference decoder *)

Definition b64_value (c : ascii) : Z :=
  match list_find (λ d, d = c) B64 with Some (i, _) => Z.of_nat i | None => 0 end.

Fixpoint base64_decode (s : str) : bytes :=
  match s with
  | a :: b :: c :: d :: s' =>
      let n := b64_value a * 262144 + b64_value b * 4096 + b64_value c * 64 + b64_value d in
      (if (d =? "=")%char then
         if (c =? "=")%char then [n / 65536] else [n / 65536; n / 256 mod 256]
       else [n / 65536; n / 256 mod 256; n mod 256]) ++ base64_decode s'
  | _ => []
  end.

Definition is_b64 (c : ascii) : bool := negb (c =? "=")%char && bool_decide (c ∈ B64).

Lemma b64_char_value v : b64_value (b64_char v) = v mod 64 /\ is_b64 (b64_char v) = true.
Proof.
  unfold b64_char. rewrite land_63. pose proof (Z.mod_pos_bound v 64 ltac:(lia)).
  set (u := v mod 64) in *. pose proof (forall_seqZ (λ u,
    (b64_value (nth (Z.to_nat u) B64 NUL) =? u) && is_b64 (nth (Z.to_nat u) B64 NUL))
    0 64 ltac:(vm_compute; reflexivity) u ltac:(lia)) as E.
  breflect. naive_solver.
Qed.

Lemma b64_char_not_pad v : (b64_char v =? "=")%char = false.
Proof.
  destruct (b64_char_value v) as [_ H]. unfold is_b64 in H. breflect. by destruct H.
Qed.

(** Division and modulo by the constants of the codec. *)
Ltac sextet_lia :=
  rewrite ?Z.shiftr_div_pow2 by lia;
  change (2 ^ 18) with 262144 in *; change (2 ^ 16) with 65536 in *;
  change (2 ^ 12) with 4096 in *; change (2 ^ 8) with 256 in *;
  change (2 ^ 6) with 64 in *;
  Z.to_euclidean_division_equations; lia.

(** Induction three bytes at a time. *)
Lemma triples_ind (P : bytes -> Prop) :
  P [] -> (forall a, P [a]) -> (forall a b, P [a; b]) ->
  (forall a b c l, P l -> P (a :: b :: c :: l)) -> forall l, P l.
Proof.
  intros H0 H1 H2 H3. fix IH 1. intros [|a [|b [|c l]]]; [done|apply H1|apply H2|].
  apply H3, IH.
Qed.

Lemma sextets n : 0 <= n < 2 ^ 24 ->
  Z.shiftr n 18 mod 64 * 262144 + Z.shiftr n 12 mod 64 * 4096
  + Z.shiftr n 6 mod 64 * 64 + n mod 64 = n.
Proof.
  intros Hn. sextet_lia.
Qed.

Lemma base64_roundtrip l : Forall is_byte l -> base64_decode (base64_encode l) = l.
Proof.
  unfold is_byte. induction l as [| a | a b | a b c l IH] using triples_ind;
    rewrite ?Forall_cons; intros H; [done| | |]; cbn [base64_encode base64_decode app];
    rewrite ?b64_char_not_pad; change ("=" =? "=")%char with true;
    cbv iota;
    rewrite ?(proj1 (b64_char_value _));
    change (b64_value "=") with 0; cbn [app].
  - destruct H as [Ha _]. rewrite Z.shiftl_mul_pow2 by lia.
    f_equal. sextet_lia.
  - destruct H as (Ha & Hb & _).
    assert (En : Z.lor (Z.shiftl a 16) (Z.shiftl b 8) = a * 65536 + b * 256).
    { rewrite (Z.shiftl_mul_pow2 b) by lia. rewrite lor_shiftl_add by lia. lia. }
    rewrite En. f_equal; [|f_equal]; sextet_lia.
  - destruct H as (Ha & Hb & Hc & Hl).
    assert (En : Z.lor (Z.lor (Z.shiftl a 16) (Z.shiftl b 8)) c = a * 65536 + b * 256 + c).
    { rewrite (Z.shiftl_mul_pow2 b) by lia. rewrite lor_shiftl_add by lia.
      replace (a * 2 ^ 16 + b * 2 ^ 8) with ((a * 256 + b) * 2 ^ 8) by lia.
      rewrite <- Z.shiftl_mul_pow2, lor_shiftl_add by lia. lia. }
    rewrite En, sextets, (IH Hl) by lia. cbn [app].
    f_equal; [|f_equal; [|f_equal]]; sextet_lia.
Qed.

(** ** SHA-1: the padded-message specification of FIPS 180-4 *)

(** Append a one bit, the fewest zeros that leave room for the length in the
    last block, and the 64-bit big-endian bit length. *)
Definition sha1_pad (m : bytes) : bytes :=
  let r := (length m mod 64)%nat in
  let zeros := if (r <? 56)%nat then (55 - r)%nat else (119 - r)%nat in
  m ++ 0x80 :: replicate zeros 0 ++ be_bytes 8 (u64 (size m * 8)).

Fixpoint chunks (n : nat) (l : bytes) : list bytes :=
  match n with
  | O => []
  | S n' => take 64 l :: chunks n' (drop 64 l)
  end.

Definition sha1_reference (m : bytes) : bytes :=
  let p := sha1_pad m in
  sha_digest (fold_left sha1_transform (chunks (length p / 64) p) sha1_init).

Lemma sha1_blocks_fold n st l :
  sha1_blocks n st l = (fold_left sha1_transform (chunks n l) st, drop (64 * n) l).
Proof.
  revert st l. induction n as [|n IH]; intros st l; [done|].
  cbn [sha1_blocks chunks fold_left]. rewrite IH, drop_drop. do 2 f_equal. lia.
Qed.

Lemma chunks_app n k a b : length a = (64 * n)%nat ->
  chunks (n + k) (a ++ b) = chunks n a ++ chunks k b.
Proof.
  revert a. induction n as [|n IH]; intros a Ha.
  - by apply nil_length_inv in Ha as ->.
  - cbn [Nat.add chunks app]. rewrite take_app_le, drop_app_le by lia.
    rewrite IH; [done|]. rewrite length_drop. lia.
Qed.

Lemma chunks_take n a b : length a = (64 * n)%nat -> chunks n (a ++ b) = chunks n a.
Proof.
  intros H. pose proof (chunks_app n 0 a b H) as E.
  by rewrite Nat.add_0_r, app_nil_r in E.
Qed.

Lemma u8_land z : u8 z = Z.land z 0xFF.
Proof. by rewrite land_255. Qed.

(** Writing the length bytes into a zeroed tail. *)
Lemma write_length pre post fl bits :
  fl = (length pre + 8)%nat ->
  fold_left (λ fin j, <[(fl - 1 - j)%nat := u8 (Z.shiftr bits (Z.of_nat j * 8))]> fin)
    (seq 0 8) (pre ++ replicate 8 0 ++ post)
  = pre ++ be_bytes 8 bits ++ post.
Proof.
  intros ->. cbn [seq fold_left replicate].
  assert (Hi : forall i (x : Z) (l : bytes), (i < 8)%nat ->
    <[(length pre + 8 - 1 - i)%nat := x]> (pre ++ l) = pre ++ <[(7 - i)%nat := x]> l).
  { intros i x l Hi. rewrite <- insert_app_r. f_equal. lia. }
  rewrite !Hi by lia. rewrite !u8_land. reflexivity.
Qed.

Lemma sha1_final_padding (rem : bytes) len :
  (length rem < 64)%nat ->
  let zeros := if (length rem <? 56)%nat then (55 - length rem)%nat
               else (119 - length rem)%nat in
  exists post, sha1_final rem len =
    ((rem ++ 0x80 :: replicate zeros 0 ++ be_bytes 8 (u64 (len * 8))) ++ post,
     (length rem + 1 + zeros + 8)%nat) /\
    (length rem + 1 + zeros + 8)%nat = if (length rem <? 56)%nat then 64%nat else 128%nat.
Proof.
  intros Hr zeros. unfold sha1_final.
  assert (Ez : (length rem + 1 + zeros + 8)%nat
               = if (length rem <? 56)%nat then 64%nat else 128%nat).
  { unfold zeros. destruct (Nat.ltb_spec (length rem) 56); lia. }
  rewrite <- Ez. set (fl := (length rem + 1 + zeros + 8)%nat) in *.
  assert (Hz : (fl <= 128)%nat) by (rewrite Ez; destruct (length rem <? 56)%nat; lia).
  exists (replicate (128 - fl) 0). split; [|done]. f_equal.
  rewrite drop_replicate.
  replace (128 - length rem)%nat with (1 + (zeros + (8 + (128 - fl))))%nat by (unfold fl; lia).
  rewrite !replicate_add. cbn [replicate app].
  rewrite <- (Nat.add_0_r (length rem)), insert_app_r. cbn [insert list_insert].
  pose proof (write_length (rem ++ 0x80 :: replicate zeros 0) (replicate (128 - fl) 0) fl
    (u64 (len * 8))) as E.
  rewrite length_app in E. cbn [length] in E. rewrite length_replicate in E.
  rewrite <- !app_assoc in E. cbn [app replicate] in E. rewrite <- !app_assoc.
  cbn [app]. rewrite <- !app_assoc. apply E. unfold fl. lia.
Qed.

Lemma sha1_refines (m : bytes) : sha1 m = sha1_reference m.
Proof.
  unfold sha1, sha1_reference. rewrite sha1_blocks_fold.
  set (n := (length m / 64)%nat). set (rem := drop (64 * n) m).
  pose proof (Nat.div_mod_eq (length m) 64) as Hdm. fold n in Hdm.
  pose proof (Nat.mod_upper_bound (length m) 64 ltac:(lia)) as Hmod.
  assert (Hrem : length rem = (length m mod 64)%nat) by (unfold rem; rewrite length_drop; lia).
  destruct (sha1_final_padding rem (size m) ltac:(lia)) as (post & -> & Hfl).
  rewrite sha1_blocks_fold. unfold sha1_pad. rewrite <- Hrem.
  set (zeros := if (length rem <? 56)%nat then (55 - length rem)%nat else (119 - length rem)%nat)
    in *.
  set (tail := rem ++ 0x80 :: replicate zeros 0 ++ be_bytes 8 (u64 (size m * 8))).
  assert (Em : m ++ 0x80 :: replicate zeros 0 ++ be_bytes 8 (u64 (size m * 8))
               = take (64 * n) m ++ tail).
  { unfold tail. by rewrite app_assoc, <- (take_drop (64 * n) m) at 1. }
  assert (Ht : length tail = (length rem + 1 + zeros + 8)%nat).
  { unfold tail. rewrite length_app. cbn [length].
    rewrite length_app, length_replicate, length_be_bytes. lia. }
  assert (Hp : length (take (64 * n) m) = (64 * n)%nat) by (rewrite length_take; lia).
  set (k := ((length rem + 1 + zeros + 8) / 64)%nat).
  assert (Hk : (length rem + 1 + zeros + 8)%nat = (64 * k)%nat).
  { unfold k. rewrite Hfl. by destruct (length rem <? 56)%nat. }
  rewrite Em. replace (length (take (64 * n) m ++ tail) / 64)%nat with (n + k)%nat.
  2:{ rewrite length_app, Hp, Ht, Hk, <- Nat.mul_add_distr_l, Nat.mul_comm.
      by rewrite Nat.div_mul. }
  rewrite chunks_app, fold_left_app by done.
  rewrite chunks_take by lia.
  rewrite <- (take_drop (64 * n) m) at 1. by rewrite chunks_take.
Qed.

Lemma icase_scan_spec pat s : icase_scan pat s = contains (lower s) pat.
Proof.
  assert (Hhd : forall s, (length pat <=? length s)%nat && (lower (take (length pat) s) =$ pat)
                = starts_with (lower s) pat).
  { clear s. intros s. apply eq_true_iff_eq. rewrite starts_with_spec. breflect. split.
    - intros [Hl Hp]. exists (lower (drop (length pat) s)).
      unfold lower in *. rewrite <- Hp at 1. by rewrite <- fmap_app, take_drop.
    - intros [t Ht]. unfold lower in *. split.
      + apply (f_equal length) in Ht. rewrite length_fmap, length_app in Ht. lia.
      + by rewrite fmap_take, Ht, take_app_length. }
  unfold contains. induction s as [|c s IH]; cbn [icase_scan]; rewrite Hhd.
  - cbn [lower fmap list_fmap sfind]. by destruct (starts_with [] pat).
  - change (lower (c :: s)) with (tolower c :: lower s). cbn [sfind].
    destruct (starts_with (tolower c :: lower s) pat); [done|].
    rewrite IH. by destruct (sfind pat (lower s)).
Qed.

(** What the bounds check leaves: a frame inside the buffer, or the overflow. *)
Lemma ws_payload_bounds data f c masked n off f' c' :
  0 <= n < 2 ^ 64 -> 0 <= off <= 10 -> size data < 2 ^ 63 ->
  ws_payload data f c masked n off = Ok (true, f', c') ->
  off + size (payload f') <= c' <= size data /\ size (payload f') = n.
Proof.
  unfold ws_payload. intros Hn Ho Hd.
  destruct (masked && (size data <? off + 4)) eqn:Em; [done|].
  set (off' := if masked then off + 4 else off).
  destruct (Z.ltb_spec (size data) (u64 (off' + n))) as [|Hle]; [done|].
  destruct (Z.ltb_spec string_max_size n) as [|Hmax]; [done|].
  intros [= <- <-]. cbn [payload].
  assert (Ho' : off <= off' <= 14) by (unfold off'; destruct masked; lia).
  unfold string_max_size in Hmax. rewrite u64_small in * by lia.
  assert (Hu : forall k i p, length (unmask k i p) = length p).
  { intros k i p. revert i. induction p; intros i; simpl; auto. }
  enough (size (if masked then unmask (if masked then take 4 (drop (Z.to_nat off) data)
            else [0; 0; 0; 0]) 0 (take (Z.to_nat n) (drop (Z.to_nat off') data))
          else take (Z.to_nat n) (drop (Z.to_nat off') data)) = n) by lia.
  unfold size in *. destruct masked; rewrite ?Hu, length_take, length_drop; lia.
Qed.

Lemma be_read64_range data : Forall is_byte data -> 0 <= be_read64 data < 2 ^ 64.
Proof.
  intros Hd. unfold be_read64.
  assert (Hb : forall i, 0 <= byte_at data i < 2 ^ 8).
  { intros i. unfold byte_at. destruct (decide (i < length data)%nat).
    - rewrite Forall_forall in Hd. apply (Hd (nth i data 0)).
      apply list_elem_of_In, nth_In. lia.
    - rewrite nth_overflow by lia. lia. }
  assert (Hstep : forall acc i, 0 <= acc < 2 ^ 64 ->
    0 <= Z.lor (u64 (Z.shiftl acc 8)) (byte_at data i) < 2 ^ 64).
  { intros acc i Ha. unfold u64. rewrite Z.shiftl_mul_pow2 by lia.
    replace (2 ^ 64) with (2 ^ 56 * 2 ^ 8) by lia.
    rewrite Z.mul_mod_distr_r, <- Z.shiftl_mul_pow2, lor_shiftl_add by (auto; lia).
    pose proof (Z.mod_pos_bound acc (2 ^ 56) ltac:(lia)). specialize (Hb i). lia. }
  cbn [seq fold_left]. repeat apply Hstep. lia.
Qed.

Lemma ws_length_range data n off : Forall is_byte data ->
  ws_length data = Some (n, off) -> 0 <= n < 2 ^ 64 /\ 2 <= off <= 10 /\ off <= size data \/ size data < 2.
Proof.
  intros Hd. unfold ws_length.
  destruct (Z.eqb_spec (Z.land (byte_at data 1) 127) 126) as [|_];
    [|destruct (Z.eqb_spec (Z.land (byte_at data 1) 127) 127) as [|_]].
  - destruct (Z.ltb_spec (size data) 4) as [|H4]; [done|]. intros [= <- <-]. left.
    destruct data as [|x0 [|x1 [|x2 [|x3 data]]]]; try (unfold size in H4; simpl in H4; lia).
    rewrite !Forall_cons in Hd. unfold is_byte in Hd. unfold byte_at. cbn [nth].
    rewrite lor_shiftl_add by lia. lia.
  - destruct (Z.ltb_spec (size data) 10) as [|H10]; [done|]. intros [= <- <-]. left.
    pose proof (be_read64_range data Hd). lia.
  - intros [= <- <-]. rewrite land_127. pose proof (Z.mod_pos_bound (byte_at data 1) 128).
    destruct (Z.lt_ge_cases (size data) 2); [right; lia|left; lia].
Qed.

(** ** Properties *)

(** C26: a frame that [encode_ws_frame] writes without a mask is read back by
    [parse_ws_frame] exactly, whatever bytes follow it: the same opcode and
    payload, [fin] set, and [consumed] the length of the frame.  All three
    length encodings are covered. *)
Theorem ws_frame_roundtrip (op : Z) (p rest : bytes) (f0 : WsFrame) (c0 : Z) :
  0 <= op < 16 -> size p < 2 ^ 63 ->
  parse_ws_frame (encode_ws_frame op p false ++ rest) f0 c0
  = Ok (true, mkFrame true op p, size (encode_ws_frame op p false)).
Proof.
  intros Hop Hp. unfold encode_ws_frame. rewrite <- app_assoc.
  pose proof (size_nonneg p). pose proof (size_nonneg (p ++ rest)).
  destruct (ws_length_header op false (size p) (p ++ rest) ltac:(lia))
    as (off & El & Eo & Hoff & Em).
  unfold parse_ws_frame. rewrite Em, El, !size_app, <- Eo.
  destruct (Z.ltb_spec (off + (size p + size rest)) 2); [rewrite size_app in *; lia|].
  rewrite ws_payload_complete by (try done; lia). cbn [fin opcode].
  assert (Eb : byte_at (ws_header op false (size p) ++ p ++ rest) 0 = u8 (Z.lor 0x80 op)) by done.
  destruct (opcode_bits op Hop) as [E1 E2]. by rewrite Eb, E1, E2.
Qed.

Lemma ws_frame_roundtrip_witness :
  encode_ws_frame 1 [72; 105] false = [129; 2; 72; 105] /\
  parse_ws_frame (encode_ws_frame 1 [72; 105] false ++ [7]) (mkFrame false 0 []) 0
  = Ok (true, mkFrame true 1 [72; 105], 4).
Proof.
  split; [reflexivity|].
  apply (ws_frame_roundtrip 1 [72; 105] [7] (mkFrame false 0 []) 0); [lia|].
  unfold size; simpl; lia.
Defined.

(** the parser stays inside its buffer: when it reports a frame, the bytes
    it consumed are within the buffer and the payload has the announced
    number of bytes, between the header and [consumed]. *)
Theorem ws_parse_in_bounds (data : bytes) (f0 f : WsFrame) (c0 c : Z) :
  Forall is_byte data -> size data < 2 ^ 63 ->
  parse_ws_frame data f0 c0 = Ok (true, f, c) ->
  2 <= c <= size data /\ size (payload f) <= c - 2.
Proof.
  intros Hb Hd. unfold parse_ws_frame. destruct (Z.ltb_spec (size data) 2); [done|].
  destruct (ws_length data) as [[n off]|] eqn:El; [|done].
  destruct (ws_length_range _ _ _ Hb El) as [(Hn & Ho & Hod)|]; [|lia].
  intros E. eapply ws_payload_bounds in E; lia.
Qed.

Lemma ws_parse_in_bounds_witness :
  Forall is_byte [130; 131; 1; 2; 3; 4; 11; 22; 33] /\
  exists f c, parse_ws_frame [130; 131; 1; 2; 3; 4; 11; 22; 33] (mkFrame false 0 []) 0
              = Ok (true, f, c) /\ 2 <= c <= 9.
Proof.
  assert (Hb : Forall is_byte [130; 131; 1; 2; 3; 4; 11; 22; 33])
    by (unfold is_byte; repeat constructor; lia).
  split; [exact Hb|].
  exists (mkFrame true 2 [10; 20; 34]), 9. split; [vm_compute; reflexivity|].
  apply (ws_parse_in_bounds [130; 131; 1; 2; 3; 4; 11; 22; 33] (mkFrame false 0 [])
           (mkFrame true 2 [10; 20; 34]) 0 9 Hb); [unfold size; simpl; lia|].
  vm_compute. reflexivity.
Defined.

(** the 64-bit bounds check wraps.  A ten-byte buffer that announces a
    payload of 2^64 - 1 bytes passes [len < offset + payload_len], and the
    copy then throws [std::length_error] instead of asking for more data. *)
Theorem ws_parse_length_overflow (f0 : WsFrame) (c0 : Z) :
  parse_ws_frame [130; 127; 255; 255; 255; 255; 255; 255; 255; 255] f0 c0
  = Err LengthError.
Proof. vm_compute. reflexivity. Qed.

(** the [mask] argument of [encode_ws_frame] sets the mask bit but writes
    no masking key, so its output is never a complete frame: the parser asks
    for more data, for every opcode and payload. *)
Theorem ws_masked_encoding_incomplete (op : Z) (p : bytes) (f0 : WsFrame) (c0 : Z) :
  size p < 2 ^ 62 ->
  exists f, parse_ws_frame (encode_ws_frame op p true) f0 c0 = Ok (false, f, c0).
Proof.
  intros Hp. pose proof (size_nonneg p). unfold encode_ws_frame.
  destruct (ws_length_header op true (size p) p ltac:(lia)) as (off & El & Eo & Ho & Em).
  unfold parse_ws_frame. rewrite Em, El, size_app, <- Eo.
  destruct (Z.ltb_spec (off + size p) 2); [lia|]. eexists. unfold ws_payload.
  rewrite size_app, <- Eo. cbn [andb]. destruct (Z.ltb_spec (off + size p) (off + 4)); [done|].
  rewrite u64_small by lia. destruct (Z.ltb_spec (off + size p) (off + 4 + size p)); [done|lia].
Qed.

Lemma ws_masked_encoding_incomplete_witness :
  encode_ws_frame 1 [72; 105] true = [129; 130; 72; 105] /\
  exists f, parse_ws_frame [129; 130; 72; 105] (mkFrame false 0 []) 0 = Ok (false, f, 0).
Proof.
  split; [reflexivity|].
  apply (ws_masked_encoding_incomplete 1 [72; 105] (mkFrame false 0 []) 0).
  unfold size; simpl; lia.
Defined.


(** [base64_encode] loses nothing: a decoder recovers every byte string,
    whatever its length modulo three. *)
Theorem base64_decodes_back (l : bytes) :
  Forall is_byte l -> base64_decode (base64_encode l) = l.
Proof. apply base64_roundtrip. Qed.

Lemma base64_decodes_back_witness :
  base64_encode [77; 97; 110; 33] = "TWFuIQ==" /\
  base64_decode (base64_encode [77; 97; 110; 33]) = [77; 97; 110; 33].
Proof.
  split; [vm_compute; reflexivity|]. apply (base64_decodes_back [77; 97; 110; 33]).
  unfold is_byte. repeat constructor; lia.
Defined.

(** a request is taken for a WebSocket upgrade iff its [Upgrade] header
    contains "websocket" and its [Connection] header contains "upgrade", both
    in any letter case. *)
Theorem websocket_upgrade_iff (u c : str) :
  is_websocket_upgrade u c = true <->
  contains (lower u) "websocket" = true /\ contains (lower c) "upgrade" = true.
Proof.
  unfold is_websocket_upgrade. rewrite !icase_scan_spec. destruct u as [|a u].
  - split; [done|]. by intros [H _].
  - cbn [empty]. destruct (contains (lower (a :: u)) "websocket"); naive_solver.
Qed.
