(* ===== verification/Capability.v ===== *)
(** * Capability registry: the public route table

    [server/capability_registry.{h,cpp}].  A [MatchedCapability] whose [spec]
    pointer is null is [None]; the registry's constants are the [k...]
    definitions.  All functions are total and pure. *)
From S2P Require Import Prelude.

(** ** Data *)

(** [protocol::Format]. *)
Inductive Format := Anthropic | OpenAIChatCompletions | OpenAIResponses | Gemini.

#[global] Instance Format_eq_dec : EqDecision Format.
Proof. solve_decision. Defined.

(** [dispatch::DispatchRequest::EndpointKind]. *)
Inductive EndpointKind :=
| EpMessages | EpChatCompletions | EpResponses | EpEmbeddings | EpImages | EpGemini
| EpVideos | EpCountTokens | EpModels | EpAlphaSearch | EpRealtime | EpAntigravity
| EpAudioTts | EpAudioStt.

Inductive Capability :=
| Messages | ChatCompletions | Responses | ResponsesSubpath | CountTokens | Models
| Search | Embeddings | ImagesSync | ImagesAsync | ImagesBatch | Videos | Realtime
| GeminiModels | GeminiGenerate | Antigravity | AudioTts | AudioStt.

#[global] Instance Capability_eq_dec : EqDecision Capability.
Proof. solve_decision. Defined.

Record CapabilitySpec := mkSpec {
  capability : Capability;
  name : str;
  endpoint : EndpointKind;
  inbound_format : Format;
  can_stream : bool;
  can_failover : bool;
  requires_persistent_task : bool;
  realtime : bool;
}.

Record MatchedCapability := mkMatched {
  spec : CapabilitySpec;
  operation : str;
  force_platform : str;
}.

(** ** The registry *)

Definition kMessages :=
  mkSpec Messages "messages" EpMessages Anthropic true true false false.
Definition kChat :=
  mkSpec ChatCompletions "chat_completions" EpChatCompletions OpenAIChatCompletions
    true true false false.
Definition kResponses :=
  mkSpec Responses "responses" EpResponses OpenAIResponses true true false false.
Definition kResponsesSubpath :=
  mkSpec ResponsesSubpath "responses_subpath" EpResponses OpenAIResponses true true false false.
Definition kCountTokens :=
  mkSpec CountTokens "count_tokens" EpCountTokens Anthropic false true false false.
Definition kModels :=
  mkSpec Models "models" EpModels OpenAIChatCompletions false false false false.
Definition kSearch :=
  mkSpec Search "search" EpAlphaSearch OpenAIResponses true true false false.
Definition kEmbeddings :=
  mkSpec Embeddings "embeddings" EpEmbeddings OpenAIChatCompletions false true false false.
Definition kImagesSync :=
  mkSpec ImagesSync "images_sync" EpImages OpenAIChatCompletions false true false false.
Definition kImagesAsync :=
  mkSpec ImagesAsync "images_async" EpImages OpenAIChatCompletions false false true false.
Definition kImagesBatch :=
  mkSpec ImagesBatch "images_batch" EpImages OpenAIChatCompletions false false true false.
Definition kVideos :=
  mkSpec Videos "videos" EpVideos OpenAIChatCompletions false false true false.
Definition kRealtime :=
  mkSpec Realtime "realtime" EpRealtime OpenAIResponses true false false true.
Definition kGeminiModels :=
  mkSpec GeminiModels "gemini_models" EpModels Gemini false false false false.
Definition kGeminiGenerate :=
  mkSpec GeminiGenerate "gemini_generate" EpGemini Gemini true true false false.
Definition kAntigravity :=
  mkSpec Antigravity "antigravity" EpAntigravity Anthropic true true false false.
Definition kAudioTts :=
  mkSpec AudioTts "audio_tts" EpAudioTts OpenAIChatCompletions false true false false.
Definition kAudioStt :=
  mkSpec AudioStt "audio_stt" EpAudioStt OpenAIChatCompletions false true false false.

(** ** Validation of user-controlled path components *)

Definition eq_any (value : str) (values : list str) : bool :=
  existsb (λ candidate, value =$ candidate) values.

Definition segment_char (c : ascii) : bool :=
  is_lower c || is_upper c || is_digit c
  || (c =? "_")%char || (c =? "-")%char || (c =? ".")%char.

(** The character loop of [safe_segment], with its [dots_only] flag. *)
Fixpoint segment_loop (dots_only : bool) (s : str) : bool :=
  match s with
  | [] => negb dots_only
  | c :: s' =>
      if negb (segment_char c) then false
      else segment_loop (if negb (c =? ".")%char then false else dots_only) s'
  end.

Definition safe_segment (segment : str) : bool :=
  if empty segment || (128 <? length segment) then false
  else segment_loop true segment.

Definition is_safe_gemini_model (model : str) : bool := safe_segment model.

(** [s.substr(pos, count)] for a [count] computed in [size_t] arithmetic. *)
Definition substr (s : str) (pos : nat) (count : Z) : str :=
  take (Z.to_nat (Z.min (u64 count) (Z.of_nat (length s)))) (drop pos s).

Definition zlen (s : str) : Z := Z.of_nat (length s).

(** The first match of a list of attempts. *)
Fixpoint first_some {A} (l : list (option A)) : option A :=
  match l with
  | [] => None
  | Some a :: _ => Some a
  | None :: l' => first_some l'
  end.

Definition guard_some {A} (b : bool) (a : A) : option A := if b then Some a else None.

(** ** Routes below [/images/batches/] and [/videos/] *)

Definition batch_tail (method tail force : str) : option MatchedCapability :=
  first_some [
    guard_some ((tail =$ "items") && (method =$ "GET"))
      (mkMatched kImagesBatch "images_batch_items" force);
    guard_some ((tail =$ "download") && (method =$ "GET"))
      (mkMatched kImagesBatch "images_batch_download" force);
    guard_some ((tail =$ "cancel") && (method =$ "POST"))
      (mkMatched kImagesBatch "images_batch_cancel" force);
    guard_some ((tail =$ "outputs") && (method =$ "DELETE"))
      (mkMatched kImagesBatch "images_batch_delete_outputs" force);
    (if starts_with tail "items/" && ends_with tail "/content" && (method =$ "GET") then
       let custom_id := substr tail 6 (zlen tail - zlen "items/" - zlen "/content") in
       guard_some (safe_segment custom_id)
         (mkMatched kImagesBatch "images_batch_item_content" force)
     else None)
  ].

Definition match_batch_path (method relative force : str) : option MatchedCapability :=
  if negb (starts_with relative "/images/batches/") then None
  else
    let suffix := drop (length (lit "/images/batches/")) relative in
    let slash := sfind "/" suffix in
    if negb (safe_segment (upto slash suffix)) then None
    else match slash with
         | None =>
             guard_some (eq_any method ["GET" : str; "DELETE" : str])
               (mkMatched kImagesBatch
                  (if method =$ "GET" then "images_batch_get" else "images_batch_delete") force)
         | Some i => batch_tail method (drop (i + 1) suffix) force
         end.

Definition match_video_path (method relative force : str) : option MatchedCapability :=
  if negb (starts_with relative "/videos/") then None
  else
    let suffix := drop (length (lit "/videos/")) relative in
    let slash := sfind "/" suffix in
    if negb (safe_segment (upto slash suffix)) then None
    else match slash with
         | None => first_some [
             guard_some (method =$ "GET") (mkMatched kVideos "videos_get" force);
             guard_some (method =$ "DELETE") (mkMatched kVideos "videos_delete" force)]
         | Some i =>
             let tail := drop (i + 1) suffix in
             first_some [
               guard_some ((tail =$ "content") && (method =$ "GET"))
                 (mkMatched kVideos "videos_content" force);
               guard_some ((tail =$ "cancel") && (method =$ "POST"))
                 (mkMatched kVideos "videos_cancel" force);
               guard_some ((tail =$ "outputs") && (method =$ "DELETE"))
                 (mkMatched kVideos "videos_delete_outputs" force)]
         end.

(** ** The route families *)

(** The lambda [match] of [route_openai]. *)
Definition match_route (method relative force suffix verb : str) (s : CapabilitySpec)
    (op : str) : option MatchedCapability :=
  guard_some ((method =$ verb) && (relative =$ suffix)) (mkMatched s op force).

Definition response_id (response_suffix suffix : str) : str :=
  take (length response_suffix - length suffix) response_suffix.

Definition responses_subpath (method relative force : str) : option MatchedCapability :=
  let response_suffix := drop (length (lit "/responses/")) relative in
  let sub := starts_with relative "/responses/" in
  first_some [
    guard_some (sub && (method =$ "POST") && ends_with response_suffix "/cancel"
                && safe_segment (response_id response_suffix "/cancel"))
      (mkMatched kResponsesSubpath "responses_cancel" force);
    guard_some (sub && (method =$ "GET") && ends_with response_suffix "/input_items"
                && safe_segment (response_id response_suffix "/input_items"))
      (mkMatched kResponsesSubpath "responses_input_items" force);
    guard_some (sub && (method =$ "GET") && safe_segment response_suffix)
      (mkMatched kResponsesSubpath "responses_get" force);
    guard_some (sub && (method =$ "DELETE") && safe_segment response_suffix)
      (mkMatched kResponsesSubpath "responses_delete" force)].

Definition route_openai (method path prefix force : str) : option MatchedCapability :=
  let relative := drop (length prefix) path in
  let route := match_route method relative force in
  match first_some [
    route "/messages" "POST" (if empty force then kMessages else kAntigravity) "messages";
    route "/messages/count_tokens" "POST" kCountTokens "count_tokens";
    route "/chat/completions" "POST" kChat "chat_completions";
    route "/responses/compact" "POST" kResponses "responses_compact";
    route "/responses" "POST" kResponses "responses"] with
  | Some r => Some r
  | None =>
  if relative =$ "/responses/compact" then None
  else first_some [
    responses_subpath method relative force;
    route "/responses" "GET" kRealtime "responses_websocket";
    route "/live" "POST" kRealtime "live_create";
    guard_some (starts_with relative "/live/" && (method =$ "GET")
                && safe_segment (drop (length (lit "/live/")) relative))
      (mkMatched kRealtime "live_sideband" force);
    route "/alpha/search" "POST" kSearch "alpha_search";
    route "/audio/speech" "POST" kAudioTts "audio_speech";
    route "/audio/transcriptions" "POST" kAudioStt "audio_transcriptions";
    route "/embeddings" "POST" kEmbeddings "embeddings";
    route "/images/generations" "POST" kImagesSync "images_generations";
    route "/images/edits" "POST" kImagesSync "images_edits";
    route "/images/generations/async" "POST" kImagesAsync "images_generations_async";
    route "/images/edits/async" "POST" kImagesAsync "images_edits_async";
    guard_some (starts_with relative "/images/tasks/" && (method =$ "GET")
                && safe_segment (drop 14 relative))
      (mkMatched kImagesAsync "images_task_get" force);
    guard_some ((relative =$ "/images/batches") && ((method =$ "POST") || (method =$ "GET")))
      (mkMatched kImagesBatch
         (if method =$ "POST" then "images_batch_create" else "images_batch_list") force);
    route "/images/batches/models" "GET" kImagesBatch "images_batch_models";
    match_batch_path method relative force;
    route "/videos/generations" "POST" kVideos "videos_generations";
    route "/videos/edits" "POST" kVideos "videos_edits";
    route "/videos/extensions" "POST" kVideos "videos_extensions";
    match_video_path method relative force;
    route "/models" "GET" (if empty force then kModels else kAntigravity)
      (if empty force then "models" else "antigravity_models");
    (if negb (empty force) then route "/usage" "GET" kAntigravity "antigravity_usage"
     else None)]
  end.

Definition route_gemini (method path prefix force : str) : option MatchedCapability :=
  let relative := drop (length prefix) path in
  if (relative =$ "/models") && (method =$ "GET")
  then Some (mkMatched kGeminiModels "gemini_models_list" force)
  else if negb (starts_with relative "/models/") then None
  else
    let model_action := drop 8 relative in
    let colon := sfind ":" model_action in
    if negb (is_safe_gemini_model (upto colon model_action)) then None
    else match colon with
         | None => guard_some (method =$ "GET") (mkMatched kGeminiModels "gemini_models_get" force)
         | Some i =>
             let action := drop (i + 1) model_action in
             guard_some ((method =$ "POST")
                         && ((action =$ "generateContent") || (action =$ "streamGenerateContent")))
               (mkMatched kGeminiGenerate action force)
         end.

Definition match_capability (method path : str) : option MatchedCapability :=
  if (path =$ "/live") || (path =$ "/ready") || (path =$ "/metrics") then None
  else if starts_with path "/antigravity/v1beta"
  then route_gemini method path "/antigravity/v1beta" "antigravity"
  else if starts_with path "/antigravity/v1"
  then route_openai method path "/antigravity/v1" "antigravity"
  else if (path =$ "/antigravity/models") && (method =$ "GET")
  then Some (mkMatched kAntigravity "antigravity_models" "antigravity")
  else if starts_with path "/v1beta" then route_gemini method path "/v1beta" []
  else if starts_with path "/backend-api/codex" then
    if (path =$ "/backend-api/codex/realtime/calls") && (method =$ "POST")
    then Some (mkMatched kRealtime "codex_realtime_calls" [])
    else
      let sideband := drop (length (lit "/backend-api/codex/")) path in
      if starts_with path "/backend-api/codex/" && (method =$ "GET")
         && is_safe_gemini_model sideband
         && negb (sideband =$ "models") && negb (sideband =$ "responses")
      then Some (mkMatched kRealtime "codex_live_sideband" [])
      else route_openai method path "/backend-api/codex" []
  else if starts_with path "/v1" then route_openai method path "/v1" []
  else route_openai method path [] [].

Definition path_matches_any (path : str) : bool :=
  existsb (λ method, match match_capability method path with Some _ => true | None => false end)
    ["GET" : str; "POST" : str; "PUT" : str; "DELETE" : str; "PATCH" : str].

(** ** Suffixes and query strings *)

(** The [while] loop of [is_safe_path_suffix]; it consumes at least one
    character per round, so the length of the suffix is enough fuel. *)
Fixpoint path_suffix_loop (fuel : nat) (segments : nat) (suffix : str) : bool :=
  match fuel, suffix with
  | _, [] => true
  | O, _ => true
  | S fuel', _ =>
      let slash := sfind "/" suffix in
      if negb (safe_segment (upto slash suffix)) || (8 <? segments + 1) then false
      else match slash with
           | None => true
           | Some i => path_suffix_loop fuel' (segments + 1) (drop (i + 1) suffix)
           end
  end.

Definition is_safe_path_suffix (suffix : str) : bool :=
  if empty suffix || negb (starts_with suffix "/") then false
  else let suffix := drop 1 suffix in
       if empty suffix then false else path_suffix_loop (length suffix) 0 suffix.

Definition hex (c : ascii) : bool :=
  is_digit c || in_range "a" "f" c || in_range "A" "F" c.

Fixpoint query_loop (s : str) : bool :=
  match s with
  | [] => true
  | c :: s' =>
      if (code c <? 33) || (126 <? code c) || (c =? "#")%char then false
      else if negb (c =? "%")%char then query_loop s'
      else match s' with
           | h1 :: h2 :: s'' => if negb (hex h1) || negb (hex h2) then false else query_loop s''
           | _ => false
           end
  end.

Definition is_safe_query_string (query : str) : bool :=
  match query with
  | [] => true
  | c :: s => if (4096 <? length query) || negb (c =? "?")%char then false else query_loop s
  end.

(** ** Lemmas *)

Lemma first_some_prop {A} (P : A -> Prop) l a :
  Forall (λ o, forall x, o = Some x -> P x) l -> first_some l = Some a -> P a.
Proof.
  induction 1 as [|[x|] l Hx _ IH]; simpl; [done| |done]. intros [= <-]. by apply Hx.
Qed.

Lemma guard_some_Some {A} b (x y : A) : guard_some b x = Some y <-> b = true /\ x = y.
Proof. destruct b; simpl; naive_solver. Qed.

Lemma segment_loop_spec d s :
  segment_loop d s = true <->
  Forall (λ c, segment_char c = true) s /\ (d = false \/ exists c, c ∈ s /\ c <> "."%char).
Proof.
  revert d. induction s as [|c s IH]; intros d; simpl.
  - rewrite negb_true_iff. split; [auto|]. intros [_ [?|(c & Hc & _)]]; [done|].
    by apply elem_of_nil in Hc.
  - rewrite Forall_cons. destruct (segment_char c) eqn:E; simpl; [|naive_solver].
    rewrite IH. destruct (Ascii.eqb_spec c ".") as [->|Hne]; simpl.
    + setoid_rewrite elem_of_cons. naive_solver.
    + setoid_rewrite elem_of_cons. naive_solver.
Qed.

(** A path segment that is safe to splice into an upstream URL. *)
Definition SafeSegment (s : str) : Prop :=
  s <> [] /\ length s <= 128 /\ Forall (λ c, segment_char c = true) s
  /\ exists c, c ∈ s /\ c <> "."%char.

Lemma safe_segment_spec s : safe_segment s = true <-> SafeSegment s.
Proof.
  unfold safe_segment, SafeSegment. destruct (empty s) eqn:E; simpl.
  - destruct s; [naive_solver|done].
  - destruct (Nat.ltb_spec 128 (length s)); [split; [done|lia]|].
    rewrite segment_loop_spec. destruct s; [done|].
    split; [intros [? [?|?]]; [done|]|]; repeat split; try done; try lia; naive_solver.
Qed.

(** A URL path made of safe segments; only the last segment of a Gemini route
    carries one of its two actions. *)
Definition segment_ok (s : str) : Prop :=
  SafeSegment s
  \/ exists model action, SafeSegment model /\ s = model ++ (":" : str) ++ action
     /\ (action = "generateContent" \/ action = "streamGenerateContent").

Definition join_path (segs : list str) : str := concat (map (cons "/"%char) segs).

Definition clean_path (p : str) : Prop :=
  exists segs, segs <> [] /\ p = join_path segs /\ Forall segment_ok segs.

Lemma clean_path_app p r : clean_path p -> clean_path r -> clean_path (p ++ r).
Proof.
  intros (s1 & H1 & -> & F1) (s2 & H2 & -> & F2). exists (s1 ++ s2).
  split; [by destruct s1|]. split; [|by apply Forall_app].
  unfold join_path. by rewrite map_app, concat_app.
Qed.

Lemma clean_path_one s : segment_ok s -> clean_path ("/"%char :: s).
Proof.
  intros H. exists [s]. split; [done|]. split; [|by constructor].
  unfold join_path. simpl. by rewrite app_nil_r.
Qed.

Lemma clean_path_safe s : safe_segment s = true -> clean_path ("/"%char :: s).
Proof. intros H%safe_segment_spec. apply clean_path_one. by left. Qed.

(** Literal paths are checked by splitting them. *)
Fixpoint split_slash (acc : str) (s : str) : list str :=
  match s with
  | [] => [rev acc]
  | c :: s' => if (c =? "/")%char then rev acc :: split_slash [] s' else split_slash (c :: acc) s'
  end.

Definition clean_b (p : str) : bool :=
  match p with
  | c :: s => (c =? "/")%char && forallb safe_segment (split_slash [] s)
  | [] => false
  end.

Lemma split_slash_join acc s : join_path (split_slash acc s) = "/"%char :: rev acc ++ s.
Proof.
  revert acc. induction s as [|c s IH]; intros acc; simpl.
  - unfold join_path. simpl. by rewrite app_nil_r.
  - destruct (Ascii.eqb_spec c "/") as [->|_].
    + change (join_path (rev acc :: split_slash [] s))
        with (("/"%char :: rev acc) ++ join_path (split_slash [] s)).
      by rewrite IH.
    + rewrite IH. simpl. by rewrite <- app_assoc.
Qed.

Lemma split_slash_not_nil acc s : split_slash acc s <> [].
Proof. revert acc. induction s as [|c s IH]; intros acc; simpl; [done|]. by split_if. Qed.

Lemma clean_b_sound p : clean_b p = true -> clean_path p.
Proof.
  destruct p as [|c s]; [done|]. simpl. rewrite andb_true_iff, Ascii.eqb_eq.
  intros [-> H]. exists (split_slash [] s).
  split; [apply split_slash_not_nil|].
  split; [by rewrite split_slash_join|].
  apply forallb_Forall in H. eapply Forall_impl; [exact H|].
  intros x Hx%safe_segment_spec. by left.
Qed.

Definition registry : list CapabilitySpec :=
  [kMessages; kChat; kResponses; kResponsesSubpath; kCountTokens; kModels; kSearch;
   kEmbeddings; kImagesSync; kImagesAsync; kImagesBatch; kVideos; kRealtime; kGeminiModels;
   kGeminiGenerate; kAntigravity; kAudioTts; kAudioStt].

(** What a successful match of [relative] below a route prefix guarantees. *)
Record matched_ok (method relative force : str) (c : MatchedCapability) : Prop := {
  mo_path : clean_path relative;
  mo_method : method = "GET" \/ method = "POST" \/ method = "DELETE";
  mo_force : force_platform c = force;
  mo_spec : In (spec c) registry;
  mo_head : starts_with relative "/antigravity/" = false;
}.

Ltac in_registry :=
  simpl; repeat match goal with
  | |- context [empty ?f] => destruct (empty f)
  | |- ?x = ?x \/ _ => left; reflexivity
  | |- _ \/ _ => right
  end.

(** A path under a literal prefix with one user-controlled segment. *)
Lemma clean_prefixed (p : str) r :
  starts_with r (p ++ ["/"%char]) = true -> clean_path p ->
  safe_segment (drop (length (p ++ ["/"%char])) r) = true -> clean_path r.
Proof.
  intros [t ->]%starts_with_spec Hp. rewrite drop_app_length, <- app_assoc. simpl. intros Ht.
  apply clean_path_app; [done|]. by apply clean_path_safe.
Qed.

(** The same with a literal tail below the segment. *)
Lemma clean_infixed (p t : str) r i :
  starts_with r (p ++ ["/"%char]) = true -> clean_path p ->
  sfind "/" (drop (length (p ++ ["/"%char])) r) = Some i ->
  safe_segment (take i (drop (length (p ++ ["/"%char])) r)) = true ->
  drop (i + 1) (drop (length (p ++ ["/"%char])) r) = t -> clean_path ("/"%char :: t) ->
  clean_path r.
Proof.
  intros [u ->]%starts_with_spec Hp. rewrite drop_app_length, <- app_assoc. simpl.
  intros (Hi & Hl & _)%sfind_Some Hs <- Ht.
  apply starts_with_spec in Hi as [v Hv].
  assert (u = take i u ++ "/"%char :: drop (i + 1) u) as ->.
  { rewrite <- (take_drop i u) at 1. rewrite Hv. simpl.
    by rewrite <- drop_drop, Hv. }
  apply clean_path_app; [done|].
  change (clean_path (("/"%char :: take i u) ++ "/"%char :: drop (i + 1) u)).
  apply clean_path_app; [by apply clean_path_safe|done].
Qed.

Lemma ends_with_take s p : ends_with s p = true -> s = take (length s - length p) s ++ p.
Proof.
  intros [t ->]%ends_with_spec. by rewrite length_app, Nat.add_sub, take_app_length.
Qed.

Lemma clean_suffixed (p t : str) r :
  starts_with r (p ++ ["/"%char]) = true -> clean_path p ->
  ends_with (drop (length (p ++ ["/"%char])) r) t = true -> clean_path t ->
  safe_segment (response_id (drop (length (p ++ ["/"%char])) r) t) = true -> clean_path r.
Proof.
  intros [u ->]%starts_with_spec Hp. rewrite drop_app_length, <- app_assoc. simpl.
  unfold response_id. intros Hu Ht Hs. rewrite (ends_with_take _ _ Hu).
  apply clean_path_app; [done|].
  change (clean_path (("/"%char :: take (length u - length t) u) ++ t)).
  apply clean_path_app; [by apply clean_path_safe|done].
Qed.

Ltac each := repeat apply Forall_cons_2; try apply Forall_nil_2.
Ltac clean_lit := apply clean_b_sound; vm_compute; reflexivity.
Ltac no_head :=
  first [ reflexivity
        | match goal with H : starts_with _ _ = true |- _ =>
            apply starts_with_spec in H as [? ->]; reflexivity end ].
Ltac matched := split; [|by auto|reflexivity|in_registry|no_head].

Lemma match_route_ok m r f sfx (verb : str) s op c :
  clean_b sfx && negb (starts_with sfx "/antigravity/") = true -> verb = "GET" \/ verb = "POST" \/ verb = "DELETE" -> In s registry ->
  match_route m r f sfx verb s op = Some c -> matched_ok m r f c.
Proof.
  intros Hc Hv Hs (H & <-)%guard_some_Some. breflect. destruct H as [-> ->].
  destruct Hc as [Hc Hh].
  split; [by apply clean_b_sound|exact Hv|reflexivity|exact Hs|exact Hh].
Qed.

(** [tail] starts with [items/] and ends with [/content]: either the two are
    disjoint, or they share their slash. *)
Lemma items_content u v :
  ("items/" : str) ++ u = v ++ "/content" ->
  u = "content" \/ exists w, u = w ++ "/content".
Proof.
  intros H. do 5 (destruct v as [|? v]; [discriminate H|]; simpl in H; injection H as <- H).
  destruct v as [|? v]; simpl in H; injection H.
  - intros ->. by left.
  - intros -> _. right. by exists v.
Qed.

Lemma batch_tail_ok m t f c :
  (zlen t < 2 ^ 64)%Z ->
  batch_tail m t f = Some c -> matched_ok m ("/"%char :: t) f c.
Proof.
  intros Hlen. apply first_some_prop. each; intros x.
  1-4: intros (H & <-)%guard_some_Some; breflect; destruct H as [-> ->]; matched; clean_lit.
  destruct (_ && _ && _) eqn:E; [|done]. intros (Hs & <-)%guard_some_Some. breflect.
  destruct E as [[[u ->]%starts_with_spec [v Hv]%ends_with_spec] ->]. matched.
  apply items_content in Hv as [->|[w ->]]; [clean_lit|].
  unfold substr, zlen in *. rewrite !length_app, drop_app_length' in * by done.
  rewrite take_app_length' in Hs by (simpl length in *; rewrite u64_small; lia).
  change (clean_path ("/items" ++ ("/"%char :: w) ++ "/content")).
  apply clean_path_app; [clean_lit|]. apply clean_path_app; [|clean_lit].
  by apply clean_path_safe.
Qed.

Lemma zlen_drop n s b : (zlen s < b -> zlen (drop n s) < b)%Z.
Proof. unfold zlen. rewrite length_drop. lia. Qed.

Lemma match_batch_path_ok m r f c :
  (zlen r < 2 ^ 64)%Z -> match_batch_path m r f = Some c -> matched_ok m r f c.
Proof.
  intros Hlen. unfold match_batch_path. repeat (split_if; [done|]). breflect.
  destruct (sfind _ _) as [i|] eqn:Hi; cbn [upto] in *.
  - intros [H1 H2 H3 H4 _]%batch_tail_ok.
    + split; [|done..|no_head]. by eapply (clean_infixed "/images/batches"); [|clean_lit| | | |].
    + by do 2 apply zlen_drop.
  - intros (H & <-)%guard_some_Some. split; [| |done|in_registry|no_head].
    + by apply (clean_prefixed "/images/batches"); [|clean_lit|].
    + unfold eq_any in H. simpl in H. breflect. naive_solver.
Qed.

Lemma match_video_path_ok m r f c :
  match_video_path m r f = Some c -> matched_ok m r f c.
Proof.
  unfold match_video_path. repeat (split_if; [done|]). breflect.
  destruct (sfind _ _) as [i|] eqn:Hi; cbn [upto] in *;
    apply first_some_prop; each; intros x (H & <-)%guard_some_Some; breflect.
  1-3: destruct H as [Ht ->]; matched;
    eapply (clean_infixed "/videos"); [done|clean_lit|done|done|exact Ht|]; clean_lit.
  all: subst m; matched; by apply (clean_prefixed "/videos"); [|clean_lit|].
Qed.

Lemma responses_subpath_ok m r f c :
  responses_subpath m r f = Some c -> matched_ok m r f c.
Proof.
  apply first_some_prop. each; intros x (H & <-)%guard_some_Some; breflect.
  - destruct H as [[[? ->] ?] ?]. matched.
    by eapply (clean_suffixed "/responses" "/cancel"); [|clean_lit| |clean_lit|].
  - destruct H as [[[? ->] ?] ?]. matched.
    by eapply (clean_suffixed "/responses" "/input_items"); [|clean_lit| |clean_lit|].
  - destruct H as [[? ->] ?]. matched. by apply (clean_prefixed "/responses"); [|clean_lit|].
  - destruct H as [[? ->] ?]. matched. by apply (clean_prefixed "/responses"); [|clean_lit|].
Qed.

Ltac routed := apply match_route_ok; [reflexivity|by auto|in_registry].

Lemma route_openai_ok m p prefix f c :
  (zlen p < 2 ^ 64)%Z ->
  route_openai m p prefix f = Some c -> matched_ok m (drop (length prefix) p) f c.
Proof.
  intros Hlen. unfold route_openai. set (r := drop (length prefix) p).
  assert (zlen r < 2 ^ 64)%Z by by apply zlen_drop.
  clearbody r.
  destruct (first_some _) as [c'|] eqn:E.
  - intros [= <-]. revert E. apply first_some_prop. each; intros x;
      routed.
  - clear E. split_if; [done|]. apply first_some_prop.
    each; intros x;
      try routed.
    + apply responses_subpath_ok.
    + intros (H' & <-)%guard_some_Some; breflect. destruct H' as [[? ->] ?]. matched.
      by apply (clean_prefixed "/live"); [|clean_lit|].
    + intros (H' & <-)%guard_some_Some; breflect. destruct H' as [[? ->] ?]. matched.
      by apply (clean_prefixed "/images/tasks"); [|clean_lit|].
    + intros (H' & <-)%guard_some_Some; breflect. destruct H' as [-> Hm].
      split; [clean_lit|naive_solver|done|in_registry|no_head].
    + by apply match_batch_path_ok.
    + apply match_video_path_ok.
    + split_if; [|done]. routed.
Qed.

Lemma sfind_char_split c s i :
  sfind [c] s = Some i -> s = take i s ++ c :: drop (i + 1) s.
Proof.
  intros (Hi & _)%sfind_Some. apply starts_with_spec in Hi as [v Hv].
  transitivity (take i s ++ drop i s); [by rewrite take_drop|].
  by rewrite <- drop_drop, Hv.
Qed.

Lemma route_gemini_ok m p prefix f c :
  route_gemini m p prefix f = Some c -> matched_ok m (drop (length prefix) p) f c.
Proof.
  unfold route_gemini. set (r := drop (length prefix) p). clearbody r.
  destruct (_ && _) eqn:E.
  { intros [= <-]. breflect. destruct E as [-> ->]. matched. clean_lit. }
  clear E. repeat (split_if; [done|]). breflect. unfold is_safe_gemini_model in *.
  destruct (sfind _ _) as [i|] eqn:Hi; cbn [upto] in *; intros (H & <-)%guard_some_Some; breflect.
  - destruct H as [-> H]. matched.
    match goal with H : starts_with r _ = true |- _ => apply starts_with_spec in H as [u ->] end.
    rewrite drop_app_length' in * by done.
    change (clean_path ("/models" ++ ("/"%char :: u))). apply clean_path_app; [clean_lit|].
    apply clean_path_one. right. exists (take i u), (drop (i + 1) u).
    split; [by apply safe_segment_spec|]. split; [by apply sfind_char_split|done].
  - subst m. matched. by apply (clean_prefixed "/models"); [|clean_lit|].
Qed.

Lemma clean_under (p : str) r :
  starts_with r p = true -> clean_path p -> clean_path (drop (length p) r) -> clean_path r.
Proof. intros Hs Hp Hr. rewrite (starts_with_drop _ _ Hs). by apply clean_path_app. Qed.

(** The four facts below a literal route prefix [p]. *)
Definition matched_at (m p f : str) (c : MatchedCapability) : Prop :=
  clean_path p /\ (m = "GET" \/ m = "POST" \/ m = "DELETE")
  /\ force_platform c = f /\ In (spec c) registry.

Lemma matched_under (p : str) m path f c :
  starts_with path p = true -> clean_b p = true ->
  matched_ok m (drop (length p) path) f c -> matched_at m path f c.
Proof.
  intros Hs Hp%clean_b_sound [H1 H2 H3 H4]. split; [by eapply clean_under|done].
Qed.

Lemma registry_no_failover s :
  In s registry ->
  requires_persistent_task s || realtime s = true -> can_failover s = false.
Proof.
  intros H. assert (forallb (λ s, negb (requires_persistent_task s || realtime s)
    || negb (can_failover s)) registry = true) as F by reflexivity.
  rewrite forallb_forall in F. specialize (F s H). cbn beta in F.
  destruct (requires_persistent_task s || realtime s); [|done].
  by destruct (can_failover s).
Qed.

Ltac under b := intros H;
  match goal with |- context [starts_with ?p (lit "/antigravity/")] =>
    assert (starts_with p "/antigravity/" = b) as -> by no_head end;
  first [apply route_gemini_ok in H | apply route_openai_ok in H; [|done]];
  eapply matched_under in H; [exact H|done|reflexivity].

Lemma match_capability_at method path c :
  (zlen path < 2 ^ 64)%Z -> match_capability method path = Some c ->
  matched_at method path (if starts_with path "/antigravity/" then "antigravity" else []) c.
Proof.
  intros Hlen. unfold match_capability. cbv zeta. split_if; [done|].
  destruct (starts_with path "/antigravity/v1beta") eqn:E1; [under true|].
  destruct (starts_with path "/antigravity/v1") eqn:E2; [under true|].
  destruct (_ && _) eqn:E3.
  { intros [= <-]. breflect. destruct E3 as [-> ->].
    split; [clean_lit|]. split; [by auto|]. split; [done|in_registry]. }
  clear E3. destruct (starts_with path "/v1beta") eqn:E4; [under false|].
  destruct (starts_with path "/backend-api/codex") eqn:E5.
  { destruct ((path =$ _) && _) eqn:E7; 
      [|clear E7; destruct (_ && negb (_ =$ "responses")) eqn:E8; [|under false]];
      intros [= <-]; breflect.
    - destruct E7 as [-> ->].
      split; [clean_lit|]. split; [by auto|]. split; [done|in_registry].
    - destruct E8 as [[[[H ->] Hs] _] _].
      split; [by apply (clean_prefixed "/backend-api/codex"); [|clean_lit|]|].
      split; [by auto|]. split; [|in_registry].
      by assert (starts_with path "/antigravity/" = false) as -> by no_head. }
  destruct (starts_with path "/v1") eqn:E6; [under false|].
  intros H%route_openai_ok; [|done]. rewrite drop_0 in H.
  destruct H as [H1 H2 H3 H4 ->]. by split.
Qed.



(** [path_matches_any], which decides between 404 and 405, holds exactly of
    the paths for which some method has a route, whatever the method. *)
Theorem path_matches_any_complete path (Hlen : (zlen path < 2 ^ 64)%Z) :
  path_matches_any path = true <-> exists method c, match_capability method path = Some c.
Proof.
  unfold path_matches_any. rewrite existsb_exists. split.
  - intros (m & _ & H). exists m. destruct (match_capability m path); [by eexists|done].
  - intros (m & c & H). exists m. rewrite H. split; [|done].
    apply match_capability_at in H as (_ & Hm & _); [|done].
    simpl. destruct Hm as [->|[->| ->]]; auto 6.
Qed.

Lemma path_matches_any_complete_witness :
  exists method c, match_capability method "/v1/videos/abc/cancel" = Some c.
Proof. apply path_matches_any_complete; vm_compute; reflexivity. Defined.

Lemma safe_segment_no_slash s : safe_segment s = true -> forall c, c ∈ s -> c <> "/"%char.
Proof.
  intros (_ & _ & F & _)%safe_segment_spec c Hc ->. rewrite Forall_forall in F.
  by apply F in Hc.
Qed.

(** A batch item route has no item identifier when the tail is
    [items/content]: the length of the identifier is computed in [size_t] and
    wraps around, and the registry takes [content] itself for the identifier. *)
Theorem batch_item_content_underflow id :
  safe_segment id = true ->
  match_batch_path "GET" ("/images/batches/" ++ id ++ "/items/content") []
  = Some (mkMatched kImagesBatch "images_batch_item_content" []).
Proof.
  intros Hs. pose proof (safe_segment_no_slash _ Hs) as Hc. unfold match_batch_path.
  rewrite starts_with_app, drop_app_length. cbv zeta. cbn [negb].
  assert (sfind "/" (id ++ "/items/content") = Some (length id)) as ->.
  { apply sfind_Some. rewrite drop_app_length, length_app. split; [done|]. split; [lia|].
    intros j Hj. rewrite drop_app_le by lia.
    destruct (drop j id) as [|c t] eqn:E; [apply (f_equal length) in E; rewrite length_drop in E; simpl in E; lia|].
    simpl. rewrite andb_true_r. apply Ascii.eqb_neq. intros <-.
    apply (Hc "/"%char); [|done]. rewrite <- (take_drop j id), E. set_solver. }
  cbn [upto]. rewrite take_app_length, Hs. cbn [negb].
  rewrite <- drop_drop, drop_app_length. vm_compute. reflexivity.
Qed.

Lemma batch_item_content_underflow_witness :
  match_batch_path "GET" "/images/batches/b1/items/content" []
  = Some (mkMatched kImagesBatch "images_batch_item_content" []).
Proof.
  apply (batch_item_content_underflow "b1"); reflexivity.
Defined.

Definition query_char (c : ascii) : Prop := 33 <= code c <= 126 /\ c <> "#"%char.

Lemma query_char_hex c : hex c = true -> query_char c /\ c <> "%"%char.
Proof.
  assert (forall c, negb (hex c)
    || ((33 <=? code c) && (code c <=? 126) && negb (c =? "#")%char && negb (c =? "%")%char) = true)
    as H by by_chars.
  intros Hc. specialize (H c). rewrite Hc in H. cbn [negb orb] in H.
  rewrite !andb_true_iff, !negb_true_iff, !Nat.leb_le, !Ascii.eqb_neq in H.
  unfold query_char. tauto.
Qed.

Definition query_ok (s : str) : Prop :=
  Forall query_char s /\
  forall i, s !! i = Some "%"%char ->
    exists h1 h2, s !! (i + 1) = Some h1 /\ s !! (i + 2) = Some h2 /\ hex h1 = true /\ hex h2 = true.

Lemma query_ok_cons c s :
  c <> "%"%char -> query_ok (c :: s) <-> query_char c /\ query_ok s.
Proof.
  intros Hc. unfold query_ok. rewrite Forall_cons. split.
  - intros [[H1 H2] H3]. split; [done|]. split; [done|]. intros i. apply (H3 (S i)).
  - intros [H1 [H2 H3]]. split; [done|]. intros [|i]; simpl; [congruence|]. apply H3.
Qed.

Lemma query_loop_spec s : query_loop s = true <-> query_ok s.
Proof.
  induction s as [s IH] using (induction_ltof1 _ (@length ascii)). unfold ltof in IH.
  destruct s as [|c s]; simpl.
  { split; [|done]. intros _. split; [constructor|]. intros i. by rewrite lookup_nil. }
  destruct ((code c <? 33) || (126 <? code c) || (c =? "#")%char) eqn:Eb.
  { split; [done|]. intros [[[H1 H2] _]%Forall_cons _]. exfalso.
    rewrite !orb_true_iff, !Nat.ltb_lt, Ascii.eqb_eq in Eb. destruct Eb as [[?|?]|?]; [lia|lia|done]. }
  assert (query_char c) as Hq.
  { rewrite !orb_false_iff, !Nat.ltb_ge, Ascii.eqb_neq in Eb. unfold query_char. naive_solver lia. }
  destruct (Ascii.eqb_spec c "%") as [->|Hne]; simpl.
  2:{ rewrite query_ok_cons, IH by (done || simpl; lia). naive_solver. }
  destruct s as [|h1 [|h2 s]].
  1-2: split; [done|]; intros [_ H]; destruct (H 0 eq_refl) as (? & ? & ? & ? & _); done.
  destruct (hex h1) eqn:E1, (hex h2) eqn:E2; simpl;
    try (split; [done|]; intros [_ H]; destruct (H 0 eq_refl) as (? & ? & [= <-] & [= <-] & ? & ?); congruence).
  apply query_char_hex in E1 as Q1. apply query_char_hex in E2 as Q2.
  rewrite IH by (simpl; lia).
  transitivity (query_ok (h1 :: h2 :: s)).
  - rewrite !query_ok_cons by naive_solver. naive_solver.
  - unfold query_ok. rewrite (Forall_cons _ "%"%char). split.
    + intros [F H]. split; [done|]. intros [|i] Hi; [by exists h1, h2|]. by apply (H i).
    + intros [[_ F] H]. split; [done|]. intros i Hi. by apply (H (S i)).
Qed.

(** [is_safe_query_string] accepts exactly the empty string and the
    strings of at most 4096 characters that start with a question mark and go on
    with visible ASCII characters other than the hash sign, in which every percent
    sign is followed by two hexadecimal digits. *)
Theorem is_safe_query_string_iff query :
  is_safe_query_string query = true <->
  query = [] \/ exists s, query = "?"%char :: s /\ length query <= 4096 /\ query_ok s.
Proof.
  destruct query as [|c s]; simpl; [naive_solver|].
  destruct (4096 <? S (length s)) eqn:El; simpl.
  { apply Nat.ltb_lt in El. split; [done|]. intros [?|(? & _ & ? & _)]; [done|]. simpl in *. lia. }
  apply Nat.ltb_ge in El.
  destruct (Ascii.eqb_spec c "?") as [->|Hne]; simpl.
  - rewrite query_loop_spec. naive_solver.
  - naive_solver.
Qed.

Definition suffix_segments (s : str) (segs : list str) : Prop :=
  Forall SafeSegment segs /\ ("/"%char :: s = join_path segs \/ "/"%char :: s = join_path segs ++ ["/"%char]).

Lemma join_path_cons x segs : join_path (x :: segs) = "/"%char :: x ++ join_path segs.
Proof. done. Qed.

Lemma SafeSegment_split x t u v :
  SafeSegment x -> SafeSegment t ->
  x ++ "/"%char :: u = t ++ "/"%char :: v -> x = t /\ u = v.
Proof.
  intros Hx%safe_segment_spec Ht%safe_segment_spec.
  pose proof (safe_segment_no_slash _ Hx) as Nx. pose proof (safe_segment_no_slash _ Ht) as Nt.
  clear Hx Ht. revert t Nt. induction x as [|a x IH]; intros [|b t] Nt; simpl.
  - by intros [= ->].
  - intros [= <- _]. by destruct (Nt "/"%char); [left|].
  - intros [= -> _]. by destruct (Nx "/"%char); [left|].
  - intros [= <- H]. apply IH in H as [-> ->]; [done| |].
    + intros c Hc. apply Nx. by right.
    + intros c Hc. apply Nt. by right.
Qed.

Lemma sfind_slash_seg x u : SafeSegment x -> sfind "/" (x ++ "/"%char :: u) = Some (length x).
Proof.
  intros Hx%safe_segment_spec. pose proof (safe_segment_no_slash _ Hx) as N.
  clear Hx. change (lit "/") with ["/"%char].
  induction x as [|c x IH]; simpl; [done|]. rewrite andb_true_r. destruct (Ascii.eqb_spec "/" c) as [<-|Hne].
  - by destruct (N "/"%char); [left|].
  - rewrite IH; [done|]. intros d Hd. apply N. by right.
Qed.

Lemma sfind_slash_none x : SafeSegment x -> sfind "/" x = None.
Proof.
  intros Hx%safe_segment_spec. apply sfind_char_None. intros H.
  by apply (safe_segment_no_slash _ Hx) in H.
Qed.

Lemma path_suffix_loop_spec fuel n s :
  length s <= fuel -> s <> [] ->
  path_suffix_loop fuel n s = true <->
  exists segs, segs <> [] /\ n + length segs <= 8 /\ suffix_segments s segs.
Proof.
  revert n s. induction fuel as [|fuel IH]; intros n s Hl Hne; [destruct s; simpl in *; [done|lia]|].
  destruct s as [|c0 s0] eqn:Es; [done|]. rewrite <- Es in *. clear Hne.
  assert (path_suffix_loop (S fuel) n s =
    let slash := sfind "/" s in
      if negb (safe_segment (upto slash s)) || (8 <? n + 1) then false
      else match slash with
           | None => true
           | Some i => path_suffix_loop fuel (n + 1) (drop (i + 1) s)
           end) as -> by (by subst s).
  cbv zeta. split.
  - destruct (sfind "/" s) as [i|] eqn:Ei; cbn [upto].
    + intros H. destruct (safe_segment (take i s)) eqn:Hs; [|done].
      destruct (Nat.ltb_spec 8 (n + 1)); [done|]. cbn [negb orb] in H.
      apply safe_segment_spec in Hs. pose proof (sfind_char_split _ _ _ Ei) as Hsp.
      assert (length (drop (i + 1) s) <= fuel)
        by (rewrite length_drop; rewrite Es in Hl |- *; simpl in *; lia).
      set (x := take i s) in *. set (u := drop (i + 1) s) in *. clearbody x u. rewrite Hsp.
      destruct u as [|d u].
      * exists [x]. split; [done|]. split; [simpl; lia|]. split; [by constructor|].
        right. rewrite join_path_cons. simpl. by rewrite app_nil_r.
      * apply IH in H as (segs & Hn & Hc & F & Hj); [|done..].
        exists (x :: segs). split; [done|]. split; [simpl; lia|].
        split; [by constructor|]. rewrite join_path_cons.
        destruct Hj as [Hj|Hj]; rewrite Hj; [by left|right; simpl; by rewrite <- app_assoc].
    + intros H. destruct (safe_segment s) eqn:Hs; [|done].
      destruct (Nat.ltb_spec 8 (n + 1)); [done|]. apply safe_segment_spec in Hs.
      exists [s]. split; [done|]. split; [simpl; lia|]. split; [by constructor|].
      left. rewrite join_path_cons. simpl. by rewrite app_nil_r.
  - intros ([|x segs] & Hn & Hc & F & Hj); [done|]. apply Forall_cons in F as [Hx F].
    rewrite join_path_cons in Hj. simpl in Hc.
    assert (s = x \/ exists u, s = x ++ "/"%char :: u
              /\ (u = [] \/ suffix_segments u segs /\ segs <> [])) as [->|(u & Hsu & Hu)].
    { destruct segs as [|y segs].
      - simpl in Hj. rewrite app_nil_r in Hj. destruct Hj as [[= ->]|[= ->]]; [by left|].
        right. exists []. auto.
      - right. rewrite join_path_cons in Hj. destruct Hj as [[= ->]|[= ->]].
        + eexists. split; [done|]. right. split; [|done]. split; [done|]. by left.
        + rewrite <- app_assoc. eexists. split; [done|]. right. split; [|done].
          split; [done|]. right. by rewrite join_path_cons. }
    + rewrite sfind_slash_none by done. cbn [upto].
      rewrite (proj2 (safe_segment_spec _) Hx). by destruct (Nat.ltb_spec 8 (n + 1)); [lia|].
    + rewrite Hsu, sfind_slash_seg by done. cbn [upto].
      rewrite take_app_length, (proj2 (safe_segment_spec _) Hx).
      destruct (Nat.ltb_spec 8 (n + 1)); [lia|]. cbn [negb orb].
      rewrite <- drop_drop, drop_app_length. simpl.
      destruct u as [|d u]; [by destruct fuel|]. destruct Hu as [?|[Hu Hsegs]]; [done|].
      apply IH; [|done|].
      * rewrite Hsu, length_app in Hl. destruct Hx as (Hx & _). destruct x; [done|].
        simpl in *. lia.
      * exists segs. split; [done|]. split; [lia|done].
Qed.

#[local] Arguments path_suffix_loop : simpl never.

(** [is_safe_path_suffix] accepts exactly the suffixes made of one to eight
    safe segments, with an optional slash at the end. *)
Theorem is_safe_path_suffix_iff suffix :
  is_safe_path_suffix suffix = true <->
  exists segs, 1 <= length segs <= 8 /\ Forall SafeSegment segs
    /\ (suffix = join_path segs \/ suffix = join_path segs ++ "/").
Proof.
  unfold is_safe_path_suffix. destruct suffix as [|c s]; simpl.
  { split; [done|]. intros ([|x segs] & Hl & _ & [?|?]); simpl in *; done || lia. }
  rewrite andb_true_r. destruct (Ascii.eqb_spec "/" c) as [<-|Hc]; simpl.
  - destruct s as [|d s]; simpl.
    + split; [done|]. intros ([|x segs] & Hl & F & H); simpl in *; [lia|].
      apply Forall_cons in F as [(Hx & _) _]. rewrite join_path_cons in H.
      destruct x; [done|]. by destruct H.
    + rewrite (path_suffix_loop_spec _ 0) by done. split.
      * intros (segs & ? & ? & F & H'). exists segs. destruct segs; [done|]. simpl in *.
        split; [lia|done].
      * intros (segs & ? & F & H'). exists segs. split; [by destruct segs; simpl in *; [lia|]|].
        split; [lia|done].
  - split; [done|]. intros ([|x segs] & Hl & _ & [H|H]); simpl in Hl; try lia;
      by injection H as -> _.
Qed.
