(* ===== verification/Auth.v ===== *)
(** * API-key authentication and its cache

    [auth/speculative_cache], [auth/api_key_auth],
    [auth/invalidation_subscriber] and [cache/garnet_keyspace.h].  OpenSSL's
    [SHA256] is a parameter; the version key of the store the subscriber polls is
    the sequence of the answers it gives. *)
From S2P Require Import Prelude.

(** ** Data *)

(** The three [double] fields are the bit patterns of the values: nothing
    computes with them here. *)
Record AuthSnapshot := mkSnapshot {
  api_key_id : Z;
  user_id : Z;
  group_id : Z;
  platform : str;
  status : str;
  quota : Z;
  quota_used : Z;
  rate_multiplier : Z;
  concurrency : Z;
  rpm_limit : Z;
  version : Z;
  claude_code_only : bool;
}.

Record SpeculativeCache := mkCache {
  entries : gmap str AuthSnapshot;
  max_entries : nat;
}.

Definition cache_create (max : nat) : SpeculativeCache := mkCache ∅ max.

(** ** Operations *)

Definition cache_lookup (c : SpeculativeCache) (key_hash : str) : option AuthSnapshot :=
  entries c !! key_hash.

Definition cache_insert (c : SpeculativeCache) (key_hash : str) (s : AuthSnapshot)
    : SpeculativeCache :=
  let base := if max_entries c <=? size (entries c) then ∅ else entries c in
  mkCache (<[key_hash := s]> base) (max_entries c).

Definition cache_evict (c : SpeculativeCache) (key_hash : str) : SpeculativeCache :=
  mkCache (delete key_hash (entries c)) (max_entries c).

Definition cache_evict_all (c : SpeculativeCache) : SpeculativeCache :=
  mkCache ∅ (max_entries c).

(** [keyspace]. *)
Definition kPrefix : str := "scalaapi:v1:".
Definition kInvalidationVersion : str := "scalaapi:v1:invalidation:version".
Definition keyspace_auth (key_hash : str) : str := kPrefix ++ "auth:" ++ key_hash.

(** [std::format("{:02x}", byte)]. *)
Definition hex_digit (n : nat) : ascii :=
  ascii_of_nat (if n <? 10 then 48 + n else 87 + n).
Definition hex_byte (b : ascii) : str :=
  [hex_digit (code b / 16); hex_digit (code b mod 16)].

Section ApiKeyAuth.
Context (SHA256 : str -> str).

Definition hash_key (raw_key : str) : str := concat (map hex_byte (SHA256 raw_key)).

Definition authenticate (c : SpeculativeCache) (raw_key client_ip : str)
    : option AuthSnapshot :=
  cache_lookup c (hash_key raw_key).
End ApiKeyAuth.

(** [InvalidationVersionTracker]. *)
Record Tracker := mkTracker { initialized : bool; last_version : str }.
Definition tracker_create : Tracker := mkTracker false [].

Definition observe (t : Tracker) (found : bool) (v : str) : Tracker * bool :=
  if negb found then (mkTracker false [], initialized t)
  else if negb (initialized t) then (mkTracker true v, false)
  else if last_version t =$ v then (t, false)
  else (mkTracker (initialized t) v, true).

(** What reaches the cache of a running gateway: the answers of the polls of
    [InvalidationSubscriber::run_loop] ([None] for a key that was not found) and
    the calls of the other components. *)
Inductive AuthEvent :=
| Poll (answer : option str)
| Insert (key_hash : str) (s : AuthSnapshot)
| Evict (key_hash : str).

Definition poll (st : Tracker * SpeculativeCache) (answer : option str)
    : Tracker * SpeculativeCache :=
  let '(t, c) := st in
  let '(t', flush) :=
    observe t (match answer with Some _ => true | None => false end) (default [] answer) in
  (t', if flush then cache_evict_all c else c).

Definition auth_step (st : Tracker * SpeculativeCache) (e : AuthEvent)
    : Tracker * SpeculativeCache :=
  match e with
  | Poll a => poll st a
  | Insert k s => (st.1, cache_insert st.2 k s)
  | Evict k => (st.1, cache_evict st.2 k)
  end.

Definition auth_run (st : Tracker * SpeculativeCache) (tr : list AuthEvent) :=
  fold_left auth_step tr st.

(** The start of [run_loop]: the first answer is observed before the loop, and
    its result is not looked at. *)
Definition run_loop_start (first : option str) (c : SpeculativeCache)
    : Tracker * SpeculativeCache :=
  ((observe tracker_create (match first with Some _ => true | None => false end)
      (default [] first)).1, c).

(** ** Lemmas *)

(** The tracker as the version it stands for. *)
Definition tracked (t : Tracker) : option str :=
  if initialized t then Some (last_version t) else None.

Definition polled (e : AuthEvent) : option (option str) :=
  match e with Poll a => Some a | _ => None end.

(** The tracker promises to remember the last answer, and to ask for a flush
    when a tracked version changed or disappeared. *)
Lemma observe_spec t a :
  let r := observe t (match a with Some _ => true | None => false end) (default [] a) in
  tracked r.1 = a /\ (r.2 = true <-> is_Some (tracked t) /\ tracked t <> a).
Proof.
  unfold observe, tracked. destruct t as [i v], a as [w|]; simpl.
  - destruct i; simpl; [|split; [done|]; split; [done|]; by intros [[? ?] _]].
    destruct (v =$ w) eqn:E; breflect; simpl.
    + subst. naive_solver.
    + split; [done|]. split; [|done]. intros _. split; [by eexists|]. congruence.
  - split; [done|]. destruct i; (split; [intros ?|intros [[? ?] ?]]); done.
Qed.

Lemma cache_insert_lookup c k s k' :
  cache_lookup (cache_insert c k s) k' =
  if decide (k' = k) then Some s
  else if max_entries c <=? size (entries c) then None else cache_lookup c k'.
Proof.
  unfold cache_lookup, cache_insert. simpl. destruct (decide (k' = k)) as [->|Hne].
  - by rewrite lookup_insert_eq.
  - rewrite lookup_insert_ne by done. by split_if; rewrite ?lookup_empty.
Qed.

(** ** Properties *)

(** The cache never holds more than its capacity (but for the entry just
    inserted when the capacity is zero), along any sequence of polls, insertions
    and evictions; the capacity never changes. *)
Theorem cache_bounded max first tr :
  let c := (auth_run (run_loop_start first (cache_create max)) tr).2 in
  max_entries c = max /\ size (entries c) <= Nat.max 1 max.
Proof.
  set (inv := λ c, max_entries c = max /\ size (entries c) <= Nat.max 1 max).
  assert (forall st, inv st.2 -> inv (auth_run st tr).2) as H.
  { unfold auth_run. induction tr as [|e tr IH]; [done|]. intros [t c] [H1 H2]. simpl in *.
    apply IH. destruct e as [a|k s|k]; unfold inv; simpl.
    - unfold poll. destruct (observe _ _ _) as [t' []]; simpl; [|done].
      rewrite map_size_empty. lia.
    - split; [done|]. destruct (Nat.leb_spec (max_entries c) (size (entries c))).
      + rewrite map_size_insert_None by apply lookup_empty. rewrite map_size_empty. lia.
      + rewrite map_size_insert. destruct (entries c !! k); simpl; lia.
    - split; [done|]. rewrite map_size_delete. destruct (entries c !! k); simpl; lia. }
  apply H. unfold inv. simpl. rewrite map_size_empty. lia.
Qed.

(** The lookup that hits after a trace was filled by the last event on its key. *)
Definition touches (k : str) (e : AuthEvent) : Prop :=
  match e with Insert k' _ | Evict k' => k' = k | Poll _ => False end.

Lemma tracked_poll st a : tracked (poll st a).1 = a.
Proof.
  destruct st as [t c]. unfold poll. pose proof (observe_spec t a) as [H _].
  by destruct (observe _ _ _).
Qed.

Lemma lookup_poll st a k s :
  cache_lookup (poll st a).2 k = Some s ->
  cache_lookup st.2 k = Some s /\ (is_Some (tracked st.1) -> tracked st.1 = a).
Proof.
  destruct st as [t c]. unfold poll. pose proof (observe_spec t a) as [_ H].
  destruct (observe _ _ _) as [t' flush]. simpl in *. destruct flush.
  - unfold cache_lookup, cache_evict_all. simpl. by rewrite lookup_empty.
  - intros Hl. split; [done|]. intros Ht. destruct (decide (tracked t = a)); [done|].
    exfalso. assert (false = true); [|done]. by apply H.
Qed.

Lemma auth_run_app st l l' : auth_run st (l ++ l') = auth_run (auth_run st l) l'.
Proof. apply fold_left_app. Qed.

(** C36: A cached snapshot is never stale: whenever a lookup hits in a cache that
    started empty, the snapshot is the one of the last event that touched the key,
    an insertion, and if the store's version was [v] when it was inserted, then
    every poll since found exactly [v] (a changed or missing version would have
    flushed it). *)
Theorem cached_snapshot_not_stale max first tr k s
    (Hhit : cache_lookup (auth_run (run_loop_start first (cache_create max)) tr).2 k = Some s) :
  exists before after,
    tr = before ++ Insert k s :: after
    /\ Forall (λ e, ~ touches k e) after
    /\ forall v, tracked (auth_run (run_loop_start first (cache_create max)) before).1 = Some v ->
       Forall (λ a, a = Some v) (omap polled after).
Proof.
  set (st0 := run_loop_start first (cache_create max)) in *.
  enough (forall s, cache_lookup (auth_run st0 tr).2 k = Some s ->
    exists before after, tr = before ++ Insert k s :: after
    /\ Forall (λ e, ~ touches k e) after
    /\ forall v, tracked (auth_run st0 before).1 = Some v ->
         tracked (auth_run st0 tr).1 = Some v
         /\ Forall (λ a, a = Some v) (omap polled after)) as H.
  { destruct (H s Hhit) as (b & a & ? & ? & Hv). exists b, a. split; [done|]. split; [done|].
    intros v Hb. by apply Hv. }
  clear Hhit s. induction tr as [|e tr IH] using rev_ind; intros s Hl.
  { unfold cache_lookup in Hl. simpl in Hl. by rewrite lookup_empty in Hl. }
  rewrite auth_run_app in *. simpl in *. destruct e as [a|k' s'|k']; simpl in *.
  - apply lookup_poll in Hl as [Hl Ht]. apply IH in Hl as (b & af & -> & F & Hv).
    exists b, (af ++ [Poll a]). rewrite <- app_assoc. split; [done|].
    split; [apply Forall_app; split; [done|]; apply Forall_singleton; simpl; tauto|].
    intros v Hb. apply Hv in Hb as [Hb Hp]. rewrite tracked_poll, omap_app, Forall_app.
    rewrite Hb in Ht. rewrite <- Ht by done. split; [done|]. split; [done|]. simpl. by constructor.
  - rewrite cache_insert_lookup in Hl. destruct (decide (k = k')) as [<-|Hne].
    + injection Hl as <-. exists tr, []. split; [done|]. split; [constructor|].
      intros v Hb. split; [done|]. constructor.
    + split_if; [done|]. apply IH in Hl as (b & af & -> & F & Hv).
      exists b, (af ++ [Insert k' s']). rewrite <- app_assoc. split; [done|].
      split; [apply Forall_app; split; [done|]; apply Forall_singleton; simpl; congruence|].
      intros v Hb. apply Hv in Hb as [Hb Hp]. split; [done|].
      rewrite omap_app, Forall_app. split; [done|]. constructor.
  - unfold cache_evict, cache_lookup in Hl. simpl in Hl. apply lookup_delete_Some in Hl as [Hne Hl].
    apply IH in Hl as (b & af & -> & F & Hv).
    exists b, (af ++ [Evict k']). rewrite <- app_assoc. split; [done|].
    split; [apply Forall_app; split; [done|]; apply Forall_singleton; simpl; congruence|].
    intros v Hb. apply Hv in Hb as [Hb Hp]. split; [done|].
    rewrite omap_app, Forall_app. split; [done|]. constructor.
Qed.

Definition sample_snapshot : AuthSnapshot :=
  mkSnapshot 7 8 9 "openai" "active" 0 0 0 1 0 3 false.

Lemma cached_snapshot_not_stale_witness :
  exists before after,
    [Insert "k" sample_snapshot; Poll (Some ("v1" : str))]
    = before ++ Insert "k" sample_snapshot :: after
    /\ Forall (λ e, ~ touches "k" e) after
    /\ forall v, tracked (auth_run (run_loop_start (Some ("v1" : str)) (cache_create 4)) before).1
                 = Some v ->
       Forall (λ a, a = Some v) (omap polled after).
Proof. apply cached_snapshot_not_stale. vm_compute. reflexivity. Defined.

Lemma hex_byte_inj a b : hex_byte a = hex_byte b -> a = b.
Proof.
  assert (forall a, forall b, negb (hex_byte a =$ hex_byte b) || (a =? b)%char = true) as H.
  { intros x. apply forall_chars. revert x. by_chars. }
  intros E. specialize (H a b). rewrite E, str_eqb_refl in H. by apply Ascii.eqb_eq in H.
Qed.

(** Authentication distinguishes raw keys exactly by their digests: the
    hexadecimal key is twice as long as the digest and two raw keys share a cache
    entry if and only if their SHA-256 digests are equal. *)
Theorem hash_key_injective SHA256 k1 k2
    (Hlen : forall k, length (SHA256 k) = 32) :
  length (hash_key SHA256 k1) = 64
  /\ (hash_key SHA256 k1 = hash_key SHA256 k2 <-> SHA256 k1 = SHA256 k2).
Proof.
  unfold hash_key. split.
  - rewrite <- (Hlen k1) at 1. rewrite (Hlen k1). specialize (Hlen k1).
    assert (forall l, length (concat (map hex_byte l)) = 2 * length l) as ->; [|lia].
    induction l as [|b l IH]; simpl; [done|]. rewrite IH. lia.
  - split; [|by intros ->]. generalize (SHA256 k1) (SHA256 k2).
    induction l as [|a l IH]; intros [|b l'] H; try done.
    change (hex_byte a ++ concat (map hex_byte l) = hex_byte b ++ concat (map hex_byte l')) in H.
    apply app_inj_1 in H as [Hb Hl]; [|done]. apply hex_byte_inj in Hb as ->.
    f_equal. by apply IH.
Qed.

Lemma hash_key_injective_witness :
  let H := λ s : str, take 32 (s ++ replicate 32 NUL) in
  length (hash_key H "sk-a") = 64 /\ hash_key H "sk-a" <> hash_key H "sk-b".
Proof.
  intros H. assert (Hlen : forall k, length (H k) = 32).
  { intros k. unfold H. rewrite length_take, length_app, length_replicate. lia. }
  split; [apply (hash_key_injective H "sk-a" "sk-a" Hlen)|].
  intros E. apply (hash_key_injective H "sk-a" "sk-b" Hlen) in E. discriminate E.
Defined.
