(* ===== verification/DispatchTypes.v ===== *)
(** * Data of the dispatch client

    The structures of [dispatch/capnp_dispatch_client.h] that the gateway, the
    usage reporter and the dispatch client exchange.  Integers are kept as [Z] at
    their declared width; a [double] is the bit pattern of its value.  The
    [default_...] values are the member initialisers. *)
From S2P Require Import Prelude.
#[local] Open Scope Z_scope.

(** The bit pattern of 1.0. *)
Definition kOne : Z := 0x3FF0000000000000.

Record DispatchRequest := mkDispatchRequest {
  dq_api_key_hash : str;
  dq_requested_model : str;
  dq_session_hash : str;
  dq_client_ip : str;
  dq_request_id : str;
  dq_excluded_accounts : list Z;
  dq_cached_auth_version : Z;
  dq_endpoint : Z;
  dq_metadata_user_id : str;
  dq_stream : bool;
  dq_operation : str;
  dq_inbound_format : str;
  dq_http_method : str;
  dq_request_path : str;
  dq_content_type : str;
  dq_capability : str;
  dq_idempotency_key : str;
  dq_realtime_session : bool;
  dq_force_platform : str;
  dq_request_fingerprint : str;
  dq_request_query : str;
  dq_request_body : str;
  dq_request_body_ref : str;
  dq_request_body_digest : str;
  dq_request_body_size : Z;
  dq_request_body_truncated : bool;
}.

Definition default_DispatchRequest : DispatchRequest :=
  mkDispatchRequest [] [] [] [] [] [] 0 0 [] false [] [] [] [] [] [] [] false [] [] [] [] [] [] 0 false.

Record MediaOperationRequest := mkMediaOperationRequest {
  mq_api_key_hash : str;
  mq_operation_id : str;
  mq_action : str;
  mq_request_id : str;
  mq_client_ip : str;
  mq_idempotency_key : str;
  mq_request_fingerprint : str;
  mq_status : str;
  mq_upstream_task_id : str;
  mq_output_metadata : str;
  mq_output_url : str;
  mq_content_type : str;
  mq_progress : Z;
}.

Definition default_MediaOperationRequest : MediaOperationRequest :=
  mkMediaOperationRequest [] [] [] [] [] [] [] [] [] [] [] [] 0.

Record UpstreamTarget := mkUpstreamTarget {
  ut_account_id : Z;
  ut_platform : str;
  ut_base_url : str;
  ut_upstream_path : str;
  ut_auth_headers : list (str * str);
  ut_mapped_model : str;
  ut_proxy_url : str;
  ut_proxy_username : str;
  ut_proxy_password : str;
  ut_user_id : Z;
  ut_group_id : Z;
  ut_rate_multiplier : Z;
  ut_hold_handle : str;
  ut_tls_fingerprint : bool;
  ut_http_method : str;
  ut_upstream_format : str;
  ut_request_headers : list (str * str);
  ut_allowed_response_headers : list str;
  ut_websocket_url : str;
  ut_websocket_protocol : str;
  ut_tls_fingerprint_profile_id : str;
  ut_capability_flags : list str;
  ut_media_operation_id : str;
  ut_upstream_task_id : str;
  ut_polling_supported : bool;
  ut_content_download_supported : bool;
}.

Definition default_UpstreamTarget : UpstreamTarget :=
  mkUpstreamTarget 0 [] [] [] [] [] [] [] [] 0 0 kOne [] false [] [] [] [] [] [] [] [] [] [] false false.

#[global] Instance UpstreamTarget_eq_dec : EqDecision UpstreamTarget.
Proof. solve_decision. Defined.

Inductive Outcome := OutcomeOk | Wait | Rejected | Reauth.

#[global] Instance Outcome_eq_dec : EqDecision Outcome.
Proof. solve_decision. Defined.

Record DispatchResult := mkDispatchResult {
  dr_outcome : Outcome;
  dr_auth_version : Z;
  dr_api_key_id : Z;
  dr_lease_token : str;
  dr_upstream : UpstreamTarget;
  dr_reject_message : str;
  dr_reject_code : Z;
  dr_wait_timeout_ms : Z;
  dr_replay_status_code : Z;
  dr_replay_content_type : str;
  dr_replay_body : str;
}.

Definition default_DispatchResult : DispatchResult :=
  mkDispatchResult Rejected 0 0 [] default_UpstreamTarget [] 0 0 0 [] [].

Record MediaOperationResult := mkMediaOperationResult {
  mr_accepted : bool;
  mr_status_code : Z;
  mr_operation_id : str;
  mr_operation_type : str;
  mr_status : str;
  mr_progress : Z;
  mr_upstream_task_id : str;
  mr_output_metadata : str;
  mr_output_url : str;
  mr_content_type : str;
  mr_error_code : str;
  mr_error_message : str;
}.

Definition default_MediaOperationResult : MediaOperationResult :=
  mkMediaOperationResult false 500 [] [] [] 0 [] [] [] [] [] [].

Record UsageReportData := mkUsageReport {
  ur_lease_token : str;
  ur_request_id : str;
  ur_api_key_id : Z;
  ur_user_id : Z;
  ur_account_id : Z;
  ur_group_id : Z;
  ur_model : str;
  ur_upstream_model : str;
  ur_input_tokens : Z;
  ur_output_tokens : Z;
  ur_cache_create_tokens : Z;
  ur_cache_read_tokens : Z;
  ur_duration_ms : Z;
  ur_first_token_ms : Z;
  ur_stream : bool;
  ur_client_disconnect : bool;
  ur_status_code : Z;
  ur_input_image_count : Z;
  ur_output_image_count : Z;
  ur_image_size : str;
  ur_video_count : Z;
  ur_video_resolution : str;
  ur_video_duration_seconds : Z;
  ur_realtime_duration_ms : Z;
  ur_realtime_frames : Z;
  ur_disconnect_reason : str;
  ur_provider_usage_json : str;
  ur_reasoning_tokens : Z;
  ur_service_tier : str;
  ur_upstream_endpoint : str;
  ur_cancellation_reason : str;
  ur_media_operation_id : str;
  ur_pricing_version : str;
  ur_response_status_code : Z;
  ur_response_content_type : str;
  ur_response_body : str;
}.

Definition default_UsageReportData : UsageReportData :=
  mkUsageReport [] [] 0 0 0 0 [] [] 0 0 0 0 0 0 false false 0 0 0 [] 0 [] 0 0 0 [] [] 0 [] [] [] [] [] 0 [] [].

Record RpcAck := mkRpcAck {
  accepted : bool;
  duplicate : bool;
  retryable : bool;
  error_code : str;
}.

Definition default_RpcAck : RpcAck :=
  mkRpcAck false false false [].

Definition acknowledged (a : RpcAck) : bool := accepted a || duplicate a.

Record ContentPolicyResult := mkPolicyResult {
  cp_evaluated : bool;
  cp_allowed : bool;
  cp_retryable : bool;
  cp_error_code : str;
  cp_matched_rule_id : Z;
  cp_message : str;
}.

Definition default_ContentPolicyResult : ContentPolicyResult :=
  mkPolicyResult false false false "platform_unavailable" 0 [].

Inductive ContentPolicyDisposition := Allow | Block | FailClosed.

Definition content_policy_disposition (r : ContentPolicyResult) : ContentPolicyDisposition :=
  if negb (cp_evaluated r) || cp_retryable r then FailClosed
  else if cp_allowed r then Allow else Block.

Inductive LeaseEvidenceStage := Forwarded | OutputStarted.
Inductive LeaseAbortDisposition := NoCharge | Unknown | Safe.

Record ErrorReportData := mkErrorReport {
  er_account_id : Z;
  er_status_code : Z;
  er_retry_after_ms : Z;
  er_request_id : str;
  er_error_message : str;
}.

Definition default_ErrorReportData : ErrorReportData :=
  mkErrorReport 0 0 0 [] [].

Definition kPlatformUnavailableRejectCode : Z := 12.

Definition is_retryable_platform_dispatch (r : DispatchResult) : bool :=
  bool_decide (dr_outcome r = Rejected) && (dr_reject_code r =? kPlatformUnavailableRejectCode).
