(* ===== verification/Usage.v ===== *)
(** * Usage collector and reporter

    [usage/usage_collector] keeps the usage events that are still to be billed,
    in a deque or, when it is given a database path, in the tables of a SQLite
    file; [usage/usage_reporter] flushes them to the dispatcher.

    The SQL statements of the source are embedded as functions on the tables: a
    table is the list of its rows in [rowid] order.  Whether the engine completes
    a statement is not for the gateway to decide, so every statement takes its
    [Sql] outcome; the clock is an argument where a statement reads
    [unixepoch()]. *)
From S2P Require Import Prelude DispatchTypes.

(** ** Data *)

Record UsageEvent := mkUsageEvent {
  ue_lease_token : str;
  ue_request_id : str;
  ue_api_key_id : Z;
  ue_user_id : Z;
  ue_account_id : Z;
  ue_group_id : Z;
  ue_model : str;
  ue_upstream_model : str;
  ue_input_tokens : Z;
  ue_output_tokens : Z;
  ue_cache_create_tokens : Z;
  ue_cache_read_tokens : Z;
  ue_duration_ms : Z;
  ue_first_token_ms : Z;
  ue_stream : bool;
  ue_client_disconnect : bool;
  ue_status_code : Z;
  ue_input_image_count : Z;
  ue_output_image_count : Z;
  ue_image_size : str;
  ue_video_count : Z;
  ue_video_resolution : str;
  ue_video_duration_seconds : Z;
  ue_realtime_duration_ms : Z;
  ue_realtime_frames : Z;
  ue_disconnect_reason : str;
  ue_provider_usage_json : str;
  ue_reasoning_tokens : Z;
  ue_service_tier : str;
  ue_upstream_endpoint : str;
  ue_cancellation_reason : str;
  ue_media_operation_id : str;
  ue_pricing_version : str;
  ue_response_status_code : Z;
  ue_response_content_type : str;
  ue_response_body : str;
}.

(** [UsageCollector::Evidence]. *)
Record Evidence := mkEvidence {
  ev_lease_token : str;
  ev_stage : str;
  ev_source : str;
  ev_detail : str;
}.

(** A row of [usage_outbox]: the columns bound by [record] and the columns the
    engine fills in. *)
Record UsageRow := mkUsageRow {
  row_event : UsageEvent;
  row_created_at : Z;
  row_dead_lettered_at : option Z;
  row_dead_letter_error : str;
}.

(** A row of [evidence_outbox]. *)
Record EvidenceRow := mkEvidenceRow {
  erow_evidence : Evidence;
  erow_created_at : Z;
  erow_acknowledged_at : option Z;
  erow_dead_letter_error : str;
}.

Record Db := mkDb {
  usage_outbox : list UsageRow;
  evidence_outbox : list EvidenceRow;
}.

(** [UsageCollector::Impl]. *)
Record Collector := mkCollector {
  db : option Db;
  memory : list UsageEvent;
}.

(** What the engine answers to a statement: it completes, it cannot be prepared,
    or a step fails after [n] rows of a query have been delivered. *)
Inductive Sql :=
| SqlDone
| PrepareFails (errmsg : str)
| StepFails (n : nat) (errmsg : str).

(** ** Values crossing the database *)

(** [sqlite3_bind_text] with the length cast to [int]: a negative length means
    "up to the first NUL". *)
Definition bind_text (value : str) : str :=
  let n := i32 (Z.of_nat (length value)) in
  if (n <? 0)%Z then cstr value else take (Z.to_nat n) value.

(** The column is read back through a C string. *)
Definition text_column (value : str) : str := cstr value.

(** The 36 columns as [record] binds them (the [int] and [int64_t] members are
    stored as they are, the [bool] members as 0 or 1, read back with [!= 0]) and as
    [peek] reads them. *)
Definition bind_event (e : UsageEvent) : UsageEvent :=
  mkUsageEvent
    (bind_text (ue_lease_token e))
    (bind_text (ue_request_id e))
    (ue_api_key_id e)
    (ue_user_id e)
    (ue_account_id e)
    (ue_group_id e)
    (bind_text (ue_model e))
    (bind_text (ue_upstream_model e))
    (ue_input_tokens e)
    (ue_output_tokens e)
    (ue_cache_create_tokens e)
    (ue_cache_read_tokens e)
    (ue_duration_ms e)
    (ue_first_token_ms e)
    (ue_stream e)
    (ue_client_disconnect e)
    (ue_status_code e)
    (ue_input_image_count e)
    (ue_output_image_count e)
    (bind_text (ue_image_size e))
    (ue_video_count e)
    (bind_text (ue_video_resolution e))
    (ue_video_duration_seconds e)
    (ue_realtime_duration_ms e)
    (ue_realtime_frames e)
    (bind_text (ue_disconnect_reason e))
    (bind_text (ue_provider_usage_json e))
    (ue_reasoning_tokens e)
    (bind_text (ue_service_tier e))
    (bind_text (ue_upstream_endpoint e))
    (bind_text (ue_cancellation_reason e))
    (bind_text (ue_media_operation_id e))
    (bind_text (ue_pricing_version e))
    (ue_response_status_code e)
    (bind_text (ue_response_content_type e))
    (bind_text (ue_response_body e)).

Definition read_event (e : UsageEvent) : UsageEvent :=
  mkUsageEvent
    (text_column (ue_lease_token e))
    (text_column (ue_request_id e))
    (ue_api_key_id e)
    (ue_user_id e)
    (ue_account_id e)
    (ue_group_id e)
    (text_column (ue_model e))
    (text_column (ue_upstream_model e))
    (i32 (ue_input_tokens e))
    (i32 (ue_output_tokens e))
    (i32 (ue_cache_create_tokens e))
    (i32 (ue_cache_read_tokens e))
    (i32 (ue_duration_ms e))
    (i32 (ue_first_token_ms e))
    (ue_stream e)
    (ue_client_disconnect e)
    (i32 (ue_status_code e))
    (i32 (ue_input_image_count e))
    (i32 (ue_output_image_count e))
    (text_column (ue_image_size e))
    (i32 (ue_video_count e))
    (text_column (ue_video_resolution e))
    (i32 (ue_video_duration_seconds e))
    (i32 (ue_realtime_duration_ms e))
    (i32 (ue_realtime_frames e))
    (text_column (ue_disconnect_reason e))
    (text_column (ue_provider_usage_json e))
    (i32 (ue_reasoning_tokens e))
    (text_column (ue_service_tier e))
    (text_column (ue_upstream_endpoint e))
    (text_column (ue_cancellation_reason e))
    (text_column (ue_media_operation_id e))
    (text_column (ue_pricing_version e))
    (i32 (ue_response_status_code e))
    (text_column (ue_response_content_type e))
    (text_column (ue_response_body e)).

(** ** SQL *)

(** [LIMIT ?] with the limit cast to [int]: negative means no limit. *)
Definition sql_limit {A} (limit : Z) (l : list A) : list A :=
  let n := i32 limit in if (n <? 0)%Z then l else take (Z.to_nat n) l.

(** [ORDER BY created_at, rowid]: rows come in [rowid] order, and the sort is
    stable. *)
Fixpoint insert_by {A} (key : A -> Z) (x : A) (l : list A) : list A :=
  match l with
  | [] => [x]
  | y :: l' => if (key x <=? key y)%Z then x :: l else y :: insert_by key x l'
  end.

Definition order_by {A} (key : A -> Z) (l : list A) : list A :=
  foldr (insert_by key) [] l.

Definition is_null {A} (o : option A) : bool :=
  match o with Some _ => false | None => true end.

Definition row_live (r : UsageRow) : bool := is_null (row_dead_lettered_at r).
Definition erow_live (r : EvidenceRow) : bool := is_null (erow_acknowledged_at r).

(** What a query delivers before the stepping loop stops. *)
Definition delivered {A} (o : Sql) (rows : list A) : list A :=
  match o with StepFails n _ => take n rows | _ => rows end.

(** ** [UsageCollector] *)

(** The schema statements of the constructor. *)
Inductive Ddl := Execute (sql : string) | AddColumn (sql : string).

Definition kSchema : list Ddl :=
  [Execute "PRAGMA journal_mode=WAL";
   Execute "PRAGMA synchronous=FULL";
   Execute "PRAGMA busy_timeout=5000";
   Execute "
        CREATE TABLE IF NOT EXISTS usage_outbox (
            lease_token TEXT PRIMARY KEY,
            request_id TEXT NOT NULL,
            api_key_id INTEGER NOT NULL,
            user_id INTEGER NOT NULL,
            account_id INTEGER NOT NULL,
            group_id INTEGER NOT NULL,
            model TEXT NOT NULL,
            upstream_model TEXT NOT NULL,
            input_tokens INTEGER NOT NULL,
            output_tokens INTEGER NOT NULL,
            cache_create_tokens INTEGER NOT NULL,
            cache_read_tokens INTEGER NOT NULL,
            duration_ms INTEGER NOT NULL,
            first_token_ms INTEGER NOT NULL,
            stream INTEGER NOT NULL,
            client_disconnect INTEGER NOT NULL,
            status_code INTEGER NOT NULL,
            input_image_count INTEGER NOT NULL DEFAULT 0,
            output_image_count INTEGER NOT NULL DEFAULT 0,
            image_size TEXT NOT NULL DEFAULT '',
            video_count INTEGER NOT NULL DEFAULT 0,
            video_resolution TEXT NOT NULL DEFAULT '',
            video_duration_seconds INTEGER NOT NULL DEFAULT 0,
            realtime_duration_ms INTEGER NOT NULL DEFAULT 0,
            realtime_frames INTEGER NOT NULL DEFAULT 0,
            disconnect_reason TEXT NOT NULL DEFAULT '',
            provider_usage_json TEXT NOT NULL DEFAULT '',
            reasoning_tokens INTEGER NOT NULL DEFAULT 0,
            service_tier TEXT NOT NULL DEFAULT '',
            upstream_endpoint TEXT NOT NULL DEFAULT '',
            cancellation_reason TEXT NOT NULL DEFAULT '',
            media_operation_id TEXT NOT NULL DEFAULT '',
            pricing_version TEXT NOT NULL DEFAULT '',
            response_status_code INTEGER NOT NULL DEFAULT 0,
            response_content_type TEXT NOT NULL DEFAULT '',
            response_body TEXT NOT NULL DEFAULT '',
            created_at INTEGER NOT NULL DEFAULT (unixepoch())
        )
    ";
   AddColumn "ALTER TABLE usage_outbox ADD COLUMN input_image_count INTEGER NOT NULL DEFAULT 0";
   AddColumn "ALTER TABLE usage_outbox ADD COLUMN output_image_count INTEGER NOT NULL DEFAULT 0";
   AddColumn "ALTER TABLE usage_outbox ADD COLUMN image_size TEXT NOT NULL DEFAULT ''";
   AddColumn "ALTER TABLE usage_outbox ADD COLUMN video_count INTEGER NOT NULL DEFAULT 0";
   AddColumn "ALTER TABLE usage_outbox ADD COLUMN video_resolution TEXT NOT NULL DEFAULT ''";
   AddColumn "ALTER TABLE usage_outbox ADD COLUMN video_duration_seconds INTEGER NOT NULL DEFAULT 0";
   AddColumn "ALTER TABLE usage_outbox ADD COLUMN realtime_duration_ms INTEGER NOT NULL DEFAULT 0";
   AddColumn "ALTER TABLE usage_outbox ADD COLUMN realtime_frames INTEGER NOT NULL DEFAULT 0";
   AddColumn "ALTER TABLE usage_outbox ADD COLUMN disconnect_reason TEXT NOT NULL DEFAULT ''";
   AddColumn "ALTER TABLE usage_outbox ADD COLUMN provider_usage_json TEXT NOT NULL DEFAULT ''";
   AddColumn "ALTER TABLE usage_outbox ADD COLUMN reasoning_tokens INTEGER NOT NULL DEFAULT 0";
   AddColumn "ALTER TABLE usage_outbox ADD COLUMN service_tier TEXT NOT NULL DEFAULT ''";
   AddColumn "ALTER TABLE usage_outbox ADD COLUMN upstream_endpoint TEXT NOT NULL DEFAULT ''";
   AddColumn "ALTER TABLE usage_outbox ADD COLUMN cancellation_reason TEXT NOT NULL DEFAULT ''";
   AddColumn "ALTER TABLE usage_outbox ADD COLUMN media_operation_id TEXT NOT NULL DEFAULT ''";
   AddColumn "ALTER TABLE usage_outbox ADD COLUMN pricing_version TEXT NOT NULL DEFAULT ''";
   AddColumn "ALTER TABLE usage_outbox ADD COLUMN response_status_code INTEGER NOT NULL DEFAULT 0";
   AddColumn "ALTER TABLE usage_outbox ADD COLUMN response_content_type TEXT NOT NULL DEFAULT ''";
   AddColumn "ALTER TABLE usage_outbox ADD COLUMN response_body TEXT NOT NULL DEFAULT ''";
   AddColumn "ALTER TABLE usage_outbox ADD COLUMN dead_lettered_at INTEGER";
   AddColumn "ALTER TABLE usage_outbox ADD COLUMN dead_letter_error TEXT NOT NULL DEFAULT ''";
   Execute "
        CREATE TABLE IF NOT EXISTS evidence_outbox (
            lease_token TEXT NOT NULL,
            stage TEXT NOT NULL,
            source TEXT NOT NULL DEFAULT 'gateway',
            detail TEXT NOT NULL DEFAULT '',
            created_at INTEGER NOT NULL DEFAULT (unixepoch()),
            acknowledged_at INTEGER,
            dead_letter_error TEXT NOT NULL DEFAULT '',
            PRIMARY KEY (lease_token, stage)
        )
    "].

(** [sqlite3_exec] as the constructor sees it: [None] when it returns
    [SQLITE_OK], the error message otherwise. *)
Section Create.
Context (sqlite3_exec : str -> option str).

Definition execute (sql : str) : res unit :=
  match sqlite3_exec sql with None => Ok () | Some m => Err (RuntimeError m) end.

Definition add_column_if_missing (sql : str) : res unit :=
  match sqlite3_exec sql with
  | None => Ok ()
  | Some m => if contains m "duplicate column name" then Ok () else Err (RuntimeError m)
  end.

Fixpoint migrate (l : list Ddl) : res unit :=
  match l with
  | [] => Ok ()
  | Execute s :: l' => execute s ≫= λ _, migrate l'
  | AddColumn s :: l' => add_column_if_missing s ≫= λ _, migrate l'
  end.

(** [opened] is the content of the database file, or the message of a failed
    [sqlite3_open_v2]. *)
Definition collector_create (database_path : str) (opened : Db + str) : res Collector :=
  if empty database_path then Ok (mkCollector None [])
  else match opened with
       | inr m => Err (RuntimeError m)
       | inl d => migrate kSchema ≫= λ _, Ok (mkCollector (Some d) [])
       end.
End Create.

(** A data-changing statement: [prepare], bindings, one [step]; its effect is
    [f] when the engine completes it. *)
Definition dml (o : Sql) (f : Db -> Db) (c : Collector) (d : Db) : Collector * res unit :=
  match o with
  | SqlDone => (mkCollector (Some (f d)) (memory c), Ok ())
  | PrepareFails m | StepFails _ m => (c, Err (RuntimeError m))
  end.

Definition has_lease (token : str) (r : UsageRow) : bool := ue_lease_token (row_event r) =$ token.

(** [INSERT INTO usage_outbox ... ON CONFLICT(lease_token) DO NOTHING]. *)
Definition sql_insert_usage (now : Z) (e : UsageEvent) (d : Db) : Db :=
  if existsb (has_lease (ue_lease_token (bind_event e))) (usage_outbox d) then d
  else mkDb (usage_outbox d ++ [mkUsageRow (bind_event e) now None []]) (evidence_outbox d).

Definition record (o : Sql) (now : Z) (event : UsageEvent) : stm Collector unit := λ c,
  match db c with
  | None => (mkCollector None (memory c ++ [event]), Ok ())
  | Some d => dml o (sql_insert_usage now event) c d
  end.

Definition kPeekLimit : Z := 100.

Definition sql_select_usage (limit : Z) (d : Db) : list UsageEvent :=
  (λ r, read_event (row_event r)) <$>
    sql_limit limit (order_by row_created_at (List.filter row_live (usage_outbox d))).

Definition peek (o : Sql) (limit : Z) : stm Collector (list UsageEvent) := λ c,
  match db c with
  | None => (c, Ok (take (Z.to_nat (Z.min limit (Z.of_nat (length (memory c))))) (memory c)))
  | Some d =>
      match o with
      | PrepareFails m => (c, Err (RuntimeError m))
      | _ => (c, Ok (delivered o (sql_select_usage limit d)))
      end
  end.

(** The deque only ever gives up its front. *)
Definition pop_front_if (lease_token : str) (c : Collector) : Collector :=
  match memory c with
  | e :: m => if ue_lease_token e =$ lease_token then mkCollector (db c) m else c
  | [] => c
  end.

Definition sql_delete_usage (token : str) (d : Db) : Db :=
  mkDb (List.filter (λ r, negb (has_lease token r)) (usage_outbox d)) (evidence_outbox d).

Definition acknowledge (o : Sql) (lease_token : str) : stm Collector unit := λ c,
  match db c with
  | None => (pop_front_if lease_token c, Ok ())
  | Some d => dml o (sql_delete_usage (bind_text lease_token)) c d
  end.

Definition mark_dead (now : Z) (error token : str) (r : UsageRow) : UsageRow :=
  if has_lease token r && row_live r
  then mkUsageRow (row_event r) (row_created_at r) (Some now) error else r.

Definition sql_dead_letter (now : Z) (error token : str) (d : Db) : Db :=
  mkDb (mark_dead now error token <$> usage_outbox d) (evidence_outbox d).

Definition dead_letter (o : Sql) (now : Z) (lease_token error_code : str) : stm Collector unit := λ c,
  match db c with
  | None => (pop_front_if lease_token c, Ok ())
  | Some d => dml o (sql_dead_letter now (bind_text error_code) (bind_text lease_token)) c d
  end.

(** The counting queries answer 0 when the engine fails. *)
Definition count_query (o : Sql) (n : nat) : nat :=
  match o with SqlDone => n | PrepareFails _ | StepFails _ _ => 0 end.

Definition dead_lettered (o : Sql) (c : Collector) : nat :=
  match db c with
  | None => 0
  | Some d => count_query o (length (List.filter (λ r, negb (row_live r)) (usage_outbox d)))
  end.

Definition pending (o : Sql) (c : Collector) : nat :=
  match db c with
  | None => length (memory c)
  | Some d => count_query o (length (List.filter row_live (usage_outbox d)))
  end.

Definition durable (c : Collector) : bool := negb (is_null (db c)).

(** [drain]: everything is peeked ([(size_t)-1] becomes the limit -1) and
    acknowledged. *)
Definition drain (o : nat -> Sql) : stm Collector (list UsageEvent) := λ c,
  match db c with
  | None => (mkCollector None [], Ok (memory c))
  | Some _ =>
      (peek (o 0) (2 ^ 64 - 1) ≫= λ events,
       for_each (λ '(i, e), acknowledge (o (S i)) (ue_lease_token e))
         (imap pair events) ≫= λ _, mret events) c
  end.

(** ** Evidence *)

Definition bind_evidence (e : Evidence) : Evidence :=
  mkEvidence (bind_text (ev_lease_token e)) (bind_text (ev_stage e))
    (bind_text (ev_source e)) (bind_text (ev_detail e)).
Definition read_evidence (e : Evidence) : Evidence :=
  mkEvidence (text_column (ev_lease_token e)) (text_column (ev_stage e))
    (text_column (ev_source e)) (text_column (ev_detail e)).

Definition has_evidence (token stage : str) (r : EvidenceRow) : bool :=
  (ev_lease_token (erow_evidence r) =$ token) && (ev_stage (erow_evidence r) =$ stage).

Definition sql_insert_evidence (now : Z) (e : Evidence) (d : Db) : Db :=
  let b := bind_evidence e in
  if existsb (has_evidence (ev_lease_token b) (ev_stage b)) (evidence_outbox d) then d
  else mkDb (usage_outbox d) (evidence_outbox d ++ [mkEvidenceRow b now None []]).

Definition record_evidence (o : Sql) (now : Z) (e : Evidence) : stm Collector unit := λ c,
  match db c with
  | None => (c, Ok ())
  | Some d => dml o (sql_insert_evidence now e) c d
  end.

Definition peek_evidence (o : Sql) (limit : Z) (c : Collector) : list Evidence :=
  match db c, o with
  | None, _ | _, PrepareFails _ => []
  | Some d, _ =>
      delivered o ((λ r, read_evidence (erow_evidence r)) <$>
        sql_limit limit (order_by erow_created_at (List.filter erow_live (evidence_outbox d))))
  end.

(** Both updates close the rows of the lease and stage that are still open. *)
Definition close_evidence (now : Z) (error : option str) (token stage : str) (r : EvidenceRow)
    : EvidenceRow :=
  if has_evidence token stage r && erow_live r
  then mkEvidenceRow (erow_evidence r) (erow_created_at r) (Some now)
         (default (erow_dead_letter_error r) error)
  else r.

Definition sql_close_evidence (now : Z) (error : option str) (token stage : str) (d : Db) : Db :=
  mkDb (usage_outbox d) (close_evidence now error token stage <$> evidence_outbox d).

Definition acknowledge_evidence (o : Sql) (now : Z) (lease_token stage : str)
    : stm Collector unit := λ c,
  match db c with
  | None => (c, Ok ())
  | Some d => dml o (sql_close_evidence now None (bind_text lease_token) (bind_text stage)) c d
  end.

Definition dead_letter_evidence (o : Sql) (now : Z) (lease_token stage error_code : str)
    : stm Collector unit := λ c,
  match db c with
  | None => (c, Ok ())
  | Some d => dml o (sql_close_evidence now (Some (bind_text error_code))
                       (bind_text lease_token) (bind_text stage)) c d
  end.

Definition pending_evidence (o : Sql) (c : Collector) : nat :=
  match db c with
  | None => 0
  | Some d => count_query o (length (List.filter erow_live (evidence_outbox d)))
  end.

(** ** [UsageReporter] *)

Definition to_report (e : UsageEvent) : UsageReportData :=
  mkUsageReport
    (ue_lease_token e)
    (ue_request_id e)
    (ue_api_key_id e)
    (ue_user_id e)
    (ue_account_id e)
    (ue_group_id e)
    (ue_model e)
    (ue_upstream_model e)
    (ue_input_tokens e)
    (ue_output_tokens e)
    (ue_cache_create_tokens e)
    (ue_cache_read_tokens e)
    (ue_duration_ms e)
    (ue_first_token_ms e)
    (ue_stream e)
    (ue_client_disconnect e)
    (ue_status_code e)
    (ue_input_image_count e)
    (ue_output_image_count e)
    (ue_image_size e)
    (ue_video_count e)
    (ue_video_resolution e)
    (ue_video_duration_seconds e)
    (ue_realtime_duration_ms e)
    (ue_realtime_frames e)
    (ue_disconnect_reason e)
    (ue_provider_usage_json e)
    (ue_reasoning_tokens e)
    (ue_service_tier e)
    (ue_upstream_endpoint e)
    (ue_cancellation_reason e)
    (ue_media_operation_id e)
    (ue_pricing_version e)
    (ue_response_status_code e)
    (ue_response_content_type e)
    (ue_response_body e).

(** The state of a flush: the collector, the two metrics, the calls made on the
    dispatcher with their answers, and the number of SQL statements run. *)
Record Reporter := mkReporter {
  collector : Collector;
  usage_events_buffered : Z;
  usage_report_failures : Z;
  usage_calls : list (UsageReportData * RpcAck);
  evidence_calls : list (str * LeaseEvidenceStage * str * RpcAck);
  sql_calls : nat;
}.

Section Flush.
(** The dispatcher: the answer to the [n]-th call; the engine: the outcome of
    the [n]-th statement. *)
Context (report_usage : nat -> UsageReportData -> RpcAck).
Context (record_lease_evidence : nat -> str -> LeaseEvidenceStage -> str -> RpcAck).
Context (sql : nat -> Sql) (now : Z).

(** Runs a collector operation with the next outcome of the engine. *)
Definition on_collector {A} (op : Sql -> stm Collector A) : stm Reporter A := λ r,
  let '(c, a) := op (sql (sql_calls r)) (collector r) in
  (mkReporter c (usage_events_buffered r) (usage_report_failures r) (usage_calls r)
     (evidence_calls r) (S (sql_calls r)), a).

Definition call_usage (report : UsageReportData) : stm Reporter RpcAck := λ r,
  let ack := report_usage (length (usage_calls r)) report in
  (mkReporter (collector r) (usage_events_buffered r) (usage_report_failures r)
     (usage_calls r ++ [(report, ack)]) (evidence_calls r) (sql_calls r), Ok ack).

Definition call_evidence (token : str) (stage : LeaseEvidenceStage) (detail : str)
    : stm Reporter RpcAck := λ r,
  let ack := record_lease_evidence (length (evidence_calls r)) token stage detail in
  (mkReporter (collector r) (usage_events_buffered r) (usage_report_failures r)
     (usage_calls r) (evidence_calls r ++ [(token, stage, detail, ack)]) (sql_calls r), Ok ack).

(** [fetch_sub(1)] and [fetch_add(1)] on 64-bit unsigned counters. *)
Definition dec_buffered : stm Reporter unit := smod (λ r,
  mkReporter (collector r) (u64 (usage_events_buffered r - 1)) (usage_report_failures r)
    (usage_calls r) (evidence_calls r) (sql_calls r)).
Definition inc_failures : stm Reporter unit := smod (λ r,
  mkReporter (collector r) (usage_events_buffered r) (u64 (usage_report_failures r + 1))
    (usage_calls r) (evidence_calls r) (sql_calls r)).

(** The body of the loop over the usage events. *)
Definition flush_event (ev : UsageEvent) : stm Reporter unit :=
  let report := to_report ev in
  call_usage report ≫= λ ack,
  if acknowledged ack then
    on_collector (λ o, acknowledge o (ur_lease_token report)) ≫= λ _, dec_buffered
  else if negb (retryable ack) then
    on_collector (λ o, dead_letter o now (ur_lease_token report) (error_code ack)) ≫= λ _,
    dec_buffered ≫= λ _, inc_failures
  else inc_failures.

Definition stage_of (stage : str) : LeaseEvidenceStage :=
  if stage =$ "output_started" then OutputStarted else Forwarded.

(** The body of the loop over the evidence. *)
Definition flush_evidence (ev : Evidence) : stm Reporter unit :=
  call_evidence (ev_lease_token ev) (stage_of (ev_stage ev)) (ev_detail ev) ≫= λ ack,
  if acknowledged ack then
    on_collector (λ o, acknowledge_evidence o now (ev_lease_token ev) (ev_stage ev))
  else if negb (retryable ack) then
    on_collector (λ o, dead_letter_evidence o now (ev_lease_token ev) (ev_stage ev)
                         (error_code ack)) ≫= λ _, inc_failures
  else inc_failures.

(** One round of [run_loop], after the sleep. *)
Definition flush : stm Reporter unit :=
  on_collector (λ o, peek o kPeekLimit) ≫= λ events,
  match events with
  | [] => mret ()
  | _ =>
      for_each flush_event events ≫= λ _,
      on_collector (λ o c, (c, Ok (peek_evidence o kPeekLimit c))) ≫= λ evidence,
      for_each flush_evidence evidence
  end.
End Flush.

(** ** Lemmas: values and tables *)

(** The strings and integers of an event are as every real one: no string holds
    a NUL or reaches 2 GiB, the [int] members are in range. *)
Definition event_fits (e : UsageEvent) : bool :=
  forallb (λ s, (Z.of_nat (length s) <? 2 ^ 31)%Z && (cstr s =$ s))
    [ue_lease_token e; ue_request_id e; ue_model e; ue_upstream_model e; ue_image_size e; ue_video_resolution e; ue_disconnect_reason e; ue_provider_usage_json e; ue_service_tier e; ue_upstream_endpoint e; ue_cancellation_reason e; ue_media_operation_id e; ue_pricing_version e; ue_response_content_type e; ue_response_body e]
  && forallb (λ z, (i32 z =? z)%Z)
    [ue_input_tokens e; ue_output_tokens e; ue_cache_create_tokens e; ue_cache_read_tokens e; ue_duration_ms e; ue_first_token_ms e; ue_status_code e; ue_input_image_count e; ue_output_image_count e; ue_video_count e; ue_video_duration_seconds e; ue_realtime_duration_ms e; ue_realtime_frames e; ue_reasoning_tokens e; ue_response_status_code e].

Lemma bind_text_id s : (Z.of_nat (length s) < 2 ^ 31)%Z -> bind_text s = s.
Proof.
  intros H. unfold bind_text. rewrite i32_small by lia.
  destruct (Z.ltb_spec (Z.of_nat (length s)) 0); [lia|]. apply take_ge. lia.
Qed.

Lemma outbox_event_id e : event_fits e = true -> read_event (bind_event e) = e.
Proof.
  unfold event_fits. rewrite andb_true_iff, !forallb_Forall. intros [Hs Hi].
  assert (forall s, (Z.of_nat (length s) <? 2 ^ 31)%Z && (cstr s =$ s) = true ->
    text_column (bind_text s) = s) as Ht.
  { intros s. breflect. intros [H1 H2]. by rewrite bind_text_id. }
  assert (forall z, (i32 z =? z)%Z = true -> i32 z = z) as Hz by (intros z; apply Z.eqb_eq).
  destruct e. unfold read_event, bind_event. simpl in *.
  repeat match goal with
  | H : Forall _ (_ :: _) |- _ => apply Forall_cons in H as [?%Ht ?]
  end.
  repeat match goal with
  | H : Forall _ (_ :: _) |- _ => apply Forall_cons in H as [?%Hz ?]
  end.
  f_equal; assumption.
Qed.

Lemma insert_by_last {A} (key : A -> Z) y l x :
  (key y <= key x)%Z -> insert_by key y (l ++ [x]) = insert_by key y l ++ [x].
Proof.
  intros H. induction l as [|z l IH]; simpl.
  - by destruct (Z.leb_spec (key y) (key x)); [|lia].
  - destruct (key y <=? key z)%Z; [done|]. by rewrite IH.
Qed.

(** A row inserted by a clock that does not run backwards comes last. *)
Lemma order_by_last {A} (key : A -> Z) l x :
  Forall (λ y, key y <= key x)%Z l -> order_by key (l ++ [x]) = order_by key l ++ [x].
Proof.
  unfold order_by. induction 1 as [|y l Hy _ IH]; simpl; [done|].
  by rewrite IH, insert_by_last.
Qed.

Lemma elem_of_insert_by {A} (key : A -> Z) x l y : y ∈ insert_by key x l <-> y = x \/ y ∈ l.
Proof.
  induction l as [|z l IH]; simpl; [set_solver|]. split_if; [set_solver|].
  rewrite !elem_of_cons, IH. tauto.
Qed.

Lemma elem_of_order_by {A} (key : A -> Z) l y : y ∈ order_by key l <-> y ∈ l.
Proof.
  unfold order_by. induction l as [|x l IH]; simpl; [done|].
  by rewrite elem_of_insert_by, IH, elem_of_cons.
Qed.

Lemma filter_app' {A} (f : A -> bool) l k : List.filter f (l ++ k) = List.filter f l ++ List.filter f k.
Proof. induction l as [|x l IH]; simpl; [done|]. rewrite IH. by destruct (f x). Qed.

Lemma elem_of_filter' {A} (f : A -> bool) l x : x ∈ List.filter f l <-> x ∈ l /\ f x = true.
Proof. by rewrite !list_elem_of_In, filter_In. Qed.

(** The lease tokens of the outbox: its primary key. *)
Definition leases (d : Db) : list str := (λ r, ue_lease_token (row_event r)) <$> usage_outbox d.

Definition keys_unique (c : Collector) : Prop :=
  match db c with None => True | Some d => NoDup (leases d) end.

Lemma insert_usage_fresh now e d :
  ue_lease_token (bind_event e) ∉ leases d ->
  sql_insert_usage now e d
  = mkDb (usage_outbox d ++ [mkUsageRow (bind_event e) now None []]) (evidence_outbox d).
Proof.
  intros H. unfold sql_insert_usage. destruct (existsb _ _) eqn:E; [|done].
  exfalso. apply H. apply existsb_exists in E as (r & Hr & Hl).
  apply str_eqb_eq in Hl. rewrite <- Hl. apply list_elem_of_fmap.
  exists r. split; [done|]. by apply list_elem_of_In.
Qed.

Lemma insert_usage_dup now e d :
  ue_lease_token (bind_event e) ∈ leases d -> sql_insert_usage now e d = d.
Proof.
  intros (r & Hl & Hr)%list_elem_of_fmap. unfold sql_insert_usage.
  replace (existsb _ _) with true; [done|]. symmetry. apply existsb_exists.
  exists r. split; [by apply list_elem_of_In|]. by apply str_eqb_eq.
Qed.

Lemma leases_delete token d : leases (sql_delete_usage token d) `sublist_of` leases d.
Proof.
  unfold leases, sql_delete_usage. simpl. induction (usage_outbox d) as [|r l IH]; simpl; [done|].
  split_if; simpl; by constructor.
Qed.

Lemma leases_dead_letter now error token d : leases (sql_dead_letter now error token d) = leases d.
Proof.
  unfold leases, sql_dead_letter. simpl. rewrite <- list_fmap_compose.
  apply list_fmap_ext. intros i r _. unfold compose, mark_dead. by split_if.
Qed.

Lemma dml_keys o f c d :
  db c = Some d -> (NoDup (leases d) -> NoDup (leases (f d))) ->
  keys_unique c -> keys_unique (dml o f c d).1.
Proof. unfold keys_unique. intros Hd Hf Hu. destruct o; simpl; rewrite ?Hd in *; auto. Qed.

(** ** Properties of the collector *)

(** C28: The durable outbox gives back what it was given: recording an event
    under a lease token it does not hold yet succeeds, an unlimited [peek] then
    returns the events pending before followed by exactly this event, every one of
    its 36 members included, and recording anything again under the same token
    changes nothing, so that no lease is ever billed twice. *)
Theorem record_then_peek c d now e e'
    (Hdb : db c = Some d)
    (Hfits : event_fits e = true)
    (Hfresh : ue_lease_token (bind_event e) ∉ leases d)
    (Hclock : Forall (λ r, row_created_at r <= now)%Z (usage_outbox d))
    (Hsame : ue_lease_token e' = ue_lease_token e) :
  let c' := (record SqlDone now e c).1 in
  (record SqlDone now e c).2 = Ok ()
  /\ peek SqlDone (2 ^ 64 - 1) c' = (c', Ok (sql_select_usage (2 ^ 64 - 1) d ++ [e]))
  /\ record SqlDone now e' c' = (c', Ok ()).
Proof.
  unfold record. rewrite Hdb. simpl. rewrite insert_usage_fresh by done.
  split; [done|]. split.
  - unfold peek, sql_select_usage. simpl. rewrite filter_app'. simpl.
    rewrite order_by_last.
    + unfold sql_limit. change (i32 (2 ^ 64 - 1)) with (-1)%Z. simpl.
      rewrite fmap_app. simpl. by rewrite outbox_event_id.
    + apply Forall_forall. intros r [Hr _]%elem_of_filter'. rewrite Forall_forall in Hclock.
      by apply Hclock.
  - simpl. rewrite insert_usage_dup; [done|]. unfold leases. simpl. rewrite fmap_app.
    apply elem_of_app. right. simpl. rewrite Hsame. by left.
Qed.
Definition sample_event (lease : str) : UsageEvent :=
  mkUsageEvent lease "request_id" 1 2 3 4 "model" "upstream_model" 5 6 7 8 9 10 true true 11 12 13 "image_size" 14 "video_resolution" 15 16 17 "disconnect_reason" "provider_usage_json" 18 "service_tier" "upstream_endpoint" "cancellation_reason" "media_operation_id" "pricing_version" 19 "response_content_type" "response_body".

Definition one_row : Collector :=
  mkCollector (Some (mkDb [mkUsageRow (sample_event "L0") 5 None []] [])) [].

Lemma record_then_peek_witness :
  let c' := (record SqlDone 6 (sample_event "L1") one_row).1 in
  (peek SqlDone (2 ^ 64 - 1) c').2 = Ok [sample_event "L0"; sample_event "L1"].
Proof.
  cbv zeta.
  edestruct (record_then_peek one_row _ 6 (sample_event "L1") (sample_event "L1") eq_refl)
    as (_ & H & _); [| | | |rewrite H; vm_compute; reflexivity].
  - vm_compute. reflexivity.
  - change (lit "L1" ∉ [lit "L0"]). set_solver.
  - repeat constructor. vm_compute. discriminate.
  - reflexivity.
Defined.

(** The operations the rest of the gateway calls. *)
Inductive CollectorOp :=
| OpRecord (o : Sql) (now : Z) (e : UsageEvent)
| OpAcknowledge (o : Sql) (lease : str)
| OpDeadLetter (o : Sql) (now : Z) (lease error : str)
| OpDrain (o : nat -> Sql)
| OpRecordEvidence (o : Sql) (now : Z) (e : Evidence)
| OpAcknowledgeEvidence (o : Sql) (now : Z) (lease stage : str)
| OpDeadLetterEvidence (o : Sql) (now : Z) (lease stage error : str).

Definition collector_step (c : Collector) (op : CollectorOp) : Collector :=
  match op with
  | OpRecord o now e => (record o now e c).1
  | OpAcknowledge o l => (acknowledge o l c).1
  | OpDeadLetter o now l e => (dead_letter o now l e c).1
  | OpDrain o => (drain o c).1
  | OpRecordEvidence o now e => (record_evidence o now e c).1
  | OpAcknowledgeEvidence o now l s => (acknowledge_evidence o now l s c).1
  | OpDeadLetterEvidence o now l s e => (dead_letter_evidence o now l s e c).1
  end.

Lemma record_keys o now e : preserves keys_unique (record o now e).
Proof.
  intros c Hc. unfold record. destruct (db c) as [d|] eqn:Hd; [|done].
  apply dml_keys; [done| |done]. intros Hn.
  destruct (decide (ue_lease_token (bind_event e) ∈ leases d)).
  - by rewrite insert_usage_dup.
  - rewrite insert_usage_fresh by done. unfold leases in *. simpl.
    rewrite fmap_app. apply NoDup_app. split; [done|]. split; [|by apply NoDup_singleton].
    intros t Ht [->|Hf]%elem_of_cons; [done|]. by apply elem_of_nil in Hf.
Qed.

Lemma acknowledge_keys o l : preserves keys_unique (acknowledge o l).
Proof.
  intros c Hc. unfold acknowledge. destruct (db c) as [d|] eqn:Hd.
  - apply dml_keys; [done| |done]. intros Hn. eapply sublist_NoDup; [done|apply leases_delete].
  - unfold pop_front_if. repeat split_match; simpl; unfold keys_unique in *; simpl; by rewrite ?Hd.
Qed.

Lemma dead_letter_keys o now l e : preserves keys_unique (dead_letter o now l e).
Proof.
  intros c Hc. unfold dead_letter. destruct (db c) as [d|] eqn:Hd.
  - apply dml_keys; [done| |done]. by rewrite leases_dead_letter.
  - unfold pop_front_if. repeat split_match; simpl; unfold keys_unique in *; simpl; by rewrite ?Hd.
Qed.

#[export] Hint Resolve record_keys acknowledge_keys dead_letter_keys : gw.

Lemma drain_keys o : preserves keys_unique (drain o).
Proof.
  intros c Hc. unfold drain. destruct (db c) as [d|] eqn:Hd; [|done].
  revert c Hc Hd. enough (preserves keys_unique (peek (o 0) (2 ^ 64 - 1) ≫= λ events,
       for_each (λ '(i, e), acknowledge (o (S i)) (ue_lease_token e))
         (imap pair events) ≫= λ _, mret events)) as H by (intros; by apply H).
  apply preserves_bind; [|intros events; apply preserves_bind].
  - intros c Hc. unfold peek. by repeat split_match.
  - apply preserves_for_each. intros [i e] _. auto with gw.
  - by intros _ c Hc.
Qed.

(** C39: The lease token is a key of the durable outbox: whatever sequence of
    operations runs on a collector whose tokens are distinct, whichever of their
    statements the engine fails, the tokens stay distinct. *)
Theorem outbox_keys_unique c ops (Hinit : keys_unique c) :
  keys_unique (fold_left collector_step ops c).
Proof.
  revert c Hinit. induction ops as [|op ops IH]; intros c Hc; simpl; [done|]. apply IH.
  destruct op; simpl; try (apply record_keys || apply acknowledge_keys
    || apply dead_letter_keys || apply drain_keys; done).
  all: unfold record_evidence, acknowledge_evidence, dead_letter_evidence;
    destruct (db c) as [d|] eqn:Hd; [|done].
  all: apply dml_keys; [done| |done].
  - unfold sql_insert_evidence. by split_if.
  - done.
  - done.
Qed.

Lemma outbox_keys_unique_witness :
  keys_unique (fold_left collector_step
    [OpRecord SqlDone 6 (sample_event "L0"); OpRecord SqlDone 7 (sample_event "L1");
     OpAcknowledge (StepFails 0 "disk I/O error") "L1"; OpDeadLetter SqlDone 8 "L0" "invalid"]
    one_row).
Proof. apply outbox_keys_unique. change (NoDup [lit "L0"]). apply NoDup_singleton. Defined.

(** ** Properties of the reporter *)

(** What a flush may do to a row, given the calls [calls] that were made on the
    dispatcher: nothing, or remove it because a report under its token was
    acknowledged, or mark it dead because one was refused for good. *)
Inductive row_fate (calls : list (UsageReportData * RpcAck)) (d' : Db) (row : UsageRow) : Prop :=
| FateKept : row ∈ usage_outbox d' -> row_fate calls d' row
| FateReported report ack :
    (report, ack) ∈ calls -> acknowledged ack = true ->
    ue_lease_token (row_event row) = bind_text (ur_lease_token report) ->
    row_fate calls d' row
| FateDead report ack now :
    (report, ack) ∈ calls -> acknowledged ack = false -> retryable ack = false ->
    ue_lease_token (row_event row) = bind_text (ur_lease_token report) ->
    mkUsageRow (row_event row) (row_created_at row) (Some now) (bind_text (error_code ack))
      ∈ usage_outbox d' ->
    row_fate calls d' row.

Lemma row_fate_calls calls calls' d' row :
  calls ⊆ calls' -> row_fate calls d' row -> row_fate calls' d' row.
Proof.
  intros Hs [?|????|?????]; [by apply FateKept|eapply FateReported|eapply FateDead]; eauto.
Qed.

(** Only the outcome of a lookup in the table matters. *)
Lemma row_fate_delete calls d row report ack :
  (report, ack) ∈ calls -> acknowledged ack = true ->
  row_fate calls d row ->
  row_fate calls (sql_delete_usage (bind_text (ur_lease_token report)) d) row.
Proof.
  intros Hc Ha Hf.
  destruct (decide (ue_lease_token (row_event row) = bind_text (ur_lease_token report))) as [He|He].
  { by eapply FateReported. }
  assert (forall r, ue_lease_token (row_event r) <> bind_text (ur_lease_token report) ->
    r ∈ usage_outbox d ->
    r ∈ usage_outbox (sql_delete_usage (bind_text (ur_lease_token report)) d)) as Hk.
  { intros r Hr Hin. apply elem_of_filter'. split; [done|]. unfold has_lease.
    apply negb_true_iff. by apply str_eqb_neq. }
  destruct Hf as [?|????|?????]; [apply FateKept|eapply FateReported|eapply FateDead]; eauto.
Qed.

Lemma row_fate_dead calls d row report ack now :
  (report, ack) ∈ calls -> acknowledged ack = false -> retryable ack = false ->
  row_fate calls d row ->
  row_fate calls (sql_dead_letter now (bind_text (error_code ack))
                    (bind_text (ur_lease_token report)) d) row.
Proof.
  intros Hc Ha Hr Hf. set (mark := mark_dead now (bind_text (error_code ack)) (bind_text (ur_lease_token report))).
  assert (forall r, r ∈ usage_outbox d -> mark r ∈ mark <$> usage_outbox d) as Hm.
  { intros r H. apply list_elem_of_fmap. by exists r. }
  destruct Hf as [Hin|????|?? now' ???? Hin].
  - apply Hm in Hin. assert (E : mark row = mark row) by done. unfold mark at 2, mark_dead in E.
    rewrite E in Hin. clear E.
    destruct (has_lease _ row && row_live row) eqn:E; [|by apply FateKept].
    apply andb_true_iff in E as [E%str_eqb_eq _]. by eapply FateDead.
  - by eapply FateReported.
  - apply Hm in Hin. eapply FateDead; [done..|].
    assert (E : forall r, row_live r = false -> mark r = r)
      by (intros r E; unfold mark, mark_dead; by rewrite E, andb_false_r).
    by rewrite E in Hin by done.
Qed.

(** The loop invariant of a flush that started with the rows [rows0]. *)
Definition flush_inv (rows0 : list UsageRow) (r : Reporter) : Prop :=
  exists d, db (collector r) = Some d
    /\ forall row, row ∈ rows0 -> row_fate (usage_calls r) d row.

Section FlushInv.
Context (report_usage : nat -> UsageReportData -> RpcAck).
Context (record_lease_evidence : nat -> str -> LeaseEvidenceStage -> str -> RpcAck).
Context (sql : nat -> Sql) (now : Z) (rows0 : list UsageRow).

Lemma flush_inv_dec : preserves (flush_inv rows0) dec_buffered.
Proof. intros r (d & H). by exists d. Qed.
Lemma flush_inv_inc : preserves (flush_inv rows0) inc_failures.
Proof. intros r (d & H). by exists d. Qed.

(** A collector operation that is one statement with effect [f], after the
    calls recorded in [r]. *)
Lemma flush_inv_dml (f : Db -> Db) (op : Sql -> stm Collector unit) r :
  (forall o c d, db c = Some d -> op o c = dml o f c d) ->
  (forall d, (forall row, row ∈ rows0 -> row_fate (usage_calls r) d row) ->
             forall row, row ∈ rows0 -> row_fate (usage_calls r) (f d) row) ->
  flush_inv rows0 r -> flush_inv rows0 (on_collector sql op r).1.
Proof.
  intros Hop Hf (d & Hd & H). unfold on_collector. rewrite (Hop _ _ _ Hd).
  destruct (sql (sql_calls r)); simpl; [exists (f d)|exists d..]; (split; [done|]); auto.
Qed.

Lemma flush_event_inv ev :
  preserves (flush_inv rows0) (flush_event report_usage sql now ev).
Proof.
  intros r (d & Hd & H). unfold flush_event, mbind at 1, stm_bind at 1, call_usage.
  set (ack := report_usage _ _). set (r1 := mkReporter _ _ _ _ _ _).
  assert (flush_inv rows0 r1) as H1.
  { exists d. split; [done|]. intros row Hr. eapply row_fate_calls; [|by apply H].
    simpl. set_solver. }
  assert ((to_report ev, ack) ∈ usage_calls r1) as Hin by (simpl; set_solver).
  clearbody r1 ack. clear r d Hd H. destruct (acknowledged ack) eqn:Ea.
  - unfold mbind, stm_bind. match goal with |- context [on_collector ?s ?o r1] =>
      assert (flush_inv rows0 (on_collector s o r1).1) as H2;
        [|destruct (on_collector s o r1) as [? []]; [by apply flush_inv_dec|done]] end.
    apply (flush_inv_dml (sql_delete_usage (bind_text (ur_lease_token (to_report ev))))); [|intros d Hd row Hr; eapply row_fate_delete; eauto|done].
    intros o c d Hd. unfold acknowledge. by rewrite Hd.
  - destruct (retryable ack) eqn:Er; simpl; [by apply flush_inv_inc|].
    unfold mbind, stm_bind. match goal with |- context [on_collector ?s ?o r1] =>
      assert (flush_inv rows0 (on_collector s o r1).1) as H2;
        [|destruct (on_collector s o r1) as [? []]; [by apply flush_inv_inc, flush_inv_dec|done]] end.
    apply (flush_inv_dml (sql_dead_letter now (bind_text (error_code ack))
      (bind_text (ur_lease_token (to_report ev))))); [|intros d Hd row Hr; eapply row_fate_dead; eauto|done].
    intros o c d Hd. unfold dead_letter. by rewrite Hd.
Qed.

Lemma flush_evidence_inv ev :
  preserves (flush_inv rows0) (flush_evidence record_lease_evidence sql now ev).
Proof.
  unfold flush_evidence. apply preserves_bind; [by intros r (d & H); exists d|].
  assert (forall f op, (forall o c d, db c = Some d -> op o c = dml o f c d) ->
    (forall d, usage_outbox (f d) = usage_outbox d) ->
    preserves (flush_inv rows0) (on_collector sql op)) as Hop.
  { intros f op H1 H2 r Hr. eapply flush_inv_dml; [done| |done].
    intros d Hd row Hin. destruct (Hd row Hin) as [?|????|?????];
      [apply FateKept|eapply FateReported|eapply FateDead]; eauto; by rewrite H2. }
  intros ack. destruct (acknowledged ack); [|destruct (negb (retryable ack))].
  - eapply (Hop (sql_close_evidence now None _ _)); [|done].
    intros o c d Hd. unfold acknowledge_evidence. by rewrite Hd.
  - apply preserves_bind; [|intros _; apply flush_inv_inc].
    eapply (Hop (sql_close_evidence now (Some _) _ _)); [|done].
    intros o c d Hd. unfold dead_letter_evidence. by rewrite Hd.
  - apply flush_inv_inc.
Qed.

Lemma flush_preserves_inv :
  preserves (flush_inv rows0) (flush report_usage record_lease_evidence sql now).
Proof.
  unfold flush. apply preserves_bind.
  - intros r (d & Hd & H). unfold on_collector, peek. rewrite Hd.
    destruct (sql (sql_calls r)); by exists d.
  - intros [|ev evs]; [by intros r|].
    apply preserves_bind; [apply preserves_for_each; intros; apply flush_event_inv|intros _].
    apply preserves_bind; [by intros r (d & H); exists d|intros es].
    apply preserves_for_each. intros; apply flush_evidence_inv.
Qed.
End FlushInv.

(** C17: A flush never loses a usage event: whatever the dispatcher answers and
    whichever statements the engine fails (the exception that ends the round
    included), every row of the durable outbox afterwards is unchanged, or was
    removed after the dispatcher acknowledged a report under its lease token, or
    is kept as dead-lettered with the dispatcher's error code after a refusal that
    is not retryable. *)
Theorem flush_conserves report_usage record_lease_evidence sql now r d row
    (Hdb : db (collector r) = Some d)
    (Hrow : row ∈ usage_outbox d) :
  let r' := (flush report_usage record_lease_evidence sql now r).1 in
  exists d', db (collector r') = Some d' /\ row_fate (usage_calls r') d' row.
Proof.
  destruct (flush_preserves_inv report_usage record_lease_evidence sql now (usage_outbox d) r)
    as (d' & Hd' & H).
  - exists d. split; [done|]. intros row' Hin. by apply FateKept.
  - exists d'. split; [done|]. by apply H.
Qed.

Definition ack_ok : RpcAck := mkRpcAck true false false [].
Definition ack_retry : RpcAck := mkRpcAck false false true "platform_unavailable".
Definition reporter_of (c : Collector) : Reporter := mkReporter c 1 0 [] [] 0.

Lemma flush_conserves_witness :
  let r' := (flush (λ _ _, ack_ok) (λ _ _ _ _, ack_ok) (λ _, SqlDone) 9 (reporter_of one_row)).1 in
  exists d', db (collector r') = Some d'
    /\ row_fate (usage_calls r') d' (mkUsageRow (sample_event "L0") 5 None []).
Proof. apply (flush_conserves _ _ _ _ (reporter_of one_row) _ _ eq_refl). by left. Defined.

(** ** What a flush reports *)

Section FlushDone.
Context (report_usage : nat -> UsageReportData -> RpcAck).
Context (record_lease_evidence : nat -> str -> LeaseEvidenceStage -> str -> RpcAck).
Context (now : Z).
#[local] Abbreviation all_done := (λ _ : nat, SqlDone).

(** The reports of [r'] are those of [r] followed by [l]; the deque or the
    table survive. *)
Definition reports (r : Reporter) : list UsageReportData := fst <$> usage_calls r.

Lemma dml_done_ok (f : Db -> Db) c d : (dml SqlDone f c d).2 = Ok ().
Proof. reflexivity. Qed.

Lemma flush_event_done ev r :
  (flush_event report_usage all_done now ev r).2 = Ok ()
  /\ reports (flush_event report_usage all_done now ev r).1 = reports r ++ [to_report ev].
Proof.
  unfold flush_event, mbind, stm_bind, call_usage, on_collector, reports. simpl.
  destruct (acknowledged _); [|destruct (retryable _)]; simpl.
  - unfold acknowledge. destruct (db (collector r)); simpl; split; try reflexivity; by rewrite fmap_app.
  - split; [reflexivity|by rewrite fmap_app].
  - unfold dead_letter. destruct (db (collector r)); simpl; split; try reflexivity; by rewrite fmap_app.
Qed.

Lemma flush_events_done evs r :
  (for_each (flush_event report_usage all_done now) evs r).2 = Ok ()
  /\ reports (for_each (flush_event report_usage all_done now) evs r).1
     = reports r ++ (to_report <$> evs).
Proof.
  revert r. induction evs as [|ev evs IH]; intros r; simpl; [by rewrite app_nil_r|].
  unfold mbind, stm_bind. destruct (flush_event_done ev r) as [H1 H2].
  destruct (flush_event _ _ _ _ r) as [r1 res]. simpl in *. subst res.
  destruct (IH r1) as [H3 H4]. split; [done|]. rewrite H4, H2. by rewrite <- app_assoc.
Qed.

Lemma flush_evidence_done ev r :
  (flush_evidence record_lease_evidence all_done now ev r).2 = Ok ()
  /\ reports (flush_evidence record_lease_evidence all_done now ev r).1 = reports r.
Proof.
  unfold flush_evidence, mbind, stm_bind, call_evidence, on_collector, reports. simpl.
  destruct (acknowledged _); [|destruct (retryable _)]; simpl; [|done|].
  - unfold acknowledge_evidence. by destruct (db (collector r)).
  - unfold dead_letter_evidence. by destruct (db (collector r)).
Qed.

Lemma flush_evidences_done evs r :
  (for_each (flush_evidence record_lease_evidence all_done now) evs r).2 = Ok ()
  /\ reports (for_each (flush_evidence record_lease_evidence all_done now) evs r).1 = reports r.
Proof.
  revert r. induction evs as [|ev evs IH]; intros r; simpl; [done|].
  unfold mbind, stm_bind. destruct (flush_evidence_done ev r) as [H1 H2].
  destruct (flush_evidence _ _ _ _ r) as [r1 res]. simpl in *. subst res.
  destruct (IH r1) as [H3 H4]. split; [done|]. by rewrite H4.
Qed.

Lemma flush_done r d :
  db (collector r) = Some d ->
  (flush report_usage record_lease_evidence all_done now r).2 = Ok ()
  /\ reports (flush report_usage record_lease_evidence all_done now r).1
     = reports r ++ (to_report <$> sql_select_usage kPeekLimit d).
Proof.
  intros Hd. unfold flush. set (evs := sql_select_usage kPeekLimit d).
  erewrite stm_bind_Ok by (unfold on_collector, peek; rewrite Hd; reflexivity).
  cbn [delivered]. fold evs. set (r0 := mkReporter _ _ _ _ _ _).
  change (reports r) with (reports r0). clearbody r0.
  destruct evs as [|ev evs']; [split; [reflexivity|symmetry; apply app_nil_r]|].
  set (l := ev :: evs'). clearbody l.
  destruct (flush_events_done l r0) as [H1 H2].
  destruct (for_each _ l r0) as [r1 res] eqn:E1. simpl in H1, H2. subst res.
  rewrite (stm_bind_Ok _ _ _ _ _ E1).
  erewrite stm_bind_Ok by reflexivity. cbv beta.
  match goal with |- context [for_each _ ?e ?r2] =>
    destruct (flush_evidences_done e r2) as [H3 H4] end.
  split; [done|]. rewrite H4. exact H2.
Qed.
End FlushDone.

(** When the engine completes its statements a round of the reporter
    returns, and it reports exactly the first hundred pending events, in the order
    of the outbox, each of them once. *)
Theorem flush_reports_pending report_usage record_lease_evidence now r d
    (Hdb : db (collector r) = Some d) :
  let '(r', res) := flush report_usage record_lease_evidence (λ _, SqlDone) now r in
  res = Ok ()
  /\ reports r' = reports r ++ (to_report <$> sql_select_usage kPeekLimit d).
Proof.
  pose proof (flush_done report_usage record_lease_evidence now r d Hdb) as [H1 H2].
  by destruct (flush _ _ _ _ r).
Qed.

Lemma flush_reports_pending_witness :
  let '(r', res) := flush (λ _ _, ack_retry) (λ _ _ _ _, ack_ok) (λ _, SqlDone) 9
                      (reporter_of one_row) in
  res = Ok () /\ reports r' = [to_report (sample_event "L0")].
Proof.
  pose proof (flush_reports_pending (λ _ _, ack_retry) (λ _ _ _ _, ack_ok) 9
    (reporter_of one_row) _ eq_refl) as H.
  destruct (flush _ _ _ _ _) as [r' res]. destruct H as [H1 H2]. split; [exact H1|].
  rewrite H2. vm_compute. reflexivity.
Defined.

(** ** Flaws of the flush loop *)

(** Evidence waits for usage: with no pending usage event a round makes no
    call at all, so evidence that is still open stays unreported however often the
    loop runs. *)
Theorem evidence_waits_for_usage report_usage record_lease_evidence sql now r d
    (Hdb : db (collector r) = Some d)
    (Hnone : List.filter row_live (usage_outbox d) = []) :
  let r' := (flush report_usage record_lease_evidence sql now r).1 in
  collector r' = collector r /\ evidence_calls r' = evidence_calls r
  /\ usage_calls r' = usage_calls r.
Proof.
  assert (delivered (sql (sql_calls r)) (sql_select_usage kPeekLimit d) = []) as E.
  { unfold sql_select_usage. rewrite Hnone. simpl. unfold sql_limit. simpl.
    destruct (sql _); simpl; [done..|]. apply take_nil. }
  cbv zeta. unfold flush, mbind, stm_bind, on_collector, peek. rewrite Hdb.
  destruct (sql (sql_calls r)); cbn [delivered] in *; by rewrite ?E.
Qed.

Definition open_evidence : Collector :=
  mkCollector (Some (mkDb [] [mkEvidenceRow (mkEvidence "L1" "forwarded" "gateway" []) 1 None []])) [].

Lemma evidence_waits_for_usage_witness :
  pending_evidence SqlDone open_evidence = 1
  /\ evidence_calls (flush (λ _ _, ack_ok) (λ _ _ _ _, ack_ok) (λ _, SqlDone) 9
                       (reporter_of open_evidence)).1 = [].
Proof.
  split; [reflexivity|].
  apply (evidence_waits_for_usage _ _ _ _ (reporter_of open_evidence) _ eq_refl). reflexivity.
Defined.

Definition usage_same (d0 : Db) (r : Reporter) : Prop :=
  exists d, db (collector r) = Some d /\ usage_outbox d = usage_outbox d0.

Section Starvation.
Context (report_usage : nat -> UsageReportData -> RpcAck).
Context (record_lease_evidence : nat -> str -> LeaseEvidenceStage -> str -> RpcAck).
Context (sql : nat -> Sql) (now : Z) (d0 : Db).

Lemma usage_same_dml (f : Db -> Db) (op : Sql -> stm Collector unit) :
  (forall o c d, db c = Some d -> op o c = dml o f c d) ->
  (forall d, usage_outbox (f d) = usage_outbox d) ->
  preserves (usage_same d0) (on_collector sql op).
Proof.
  intros Hop Hf r (d & Hd & H). unfold on_collector. rewrite (Hop _ _ _ Hd).
  destruct (sql (sql_calls r)); simpl; [exists (f d)|exists d..]; (split; [done|]); [by rewrite Hf|done..].
Qed.

Lemma usage_same_inc : preserves (usage_same d0) inc_failures.
Proof. intros r (d & H). by exists d. Qed.

Lemma usage_same_retry ev :
  (forall n, acknowledged (report_usage n (to_report ev)) = false
             /\ retryable (report_usage n (to_report ev)) = true) ->
  preserves (usage_same d0) (flush_event report_usage sql now ev).
Proof.
  intros H r Hr. unfold flush_event. erewrite stm_bind_Ok by reflexivity.
  destruct (H (length (usage_calls r))) as [-> ->]. cbn [negb].
  apply usage_same_inc. destruct Hr as (d & Hr). by exists d.
Qed.

Lemma usage_same_evidence ev :
  preserves (usage_same d0) (flush_evidence record_lease_evidence sql now ev).
Proof.
  unfold flush_evidence. apply preserves_bind; [by intros r (d & H); exists d|].
  intros ack. destruct (acknowledged ack); [|destruct (negb (retryable ack))].
  - eapply (usage_same_dml (sql_close_evidence now None _ _)); [|done].
    intros o c d Hd. unfold acknowledge_evidence. by rewrite Hd.
  - apply preserves_bind; [|intros _; apply usage_same_inc].
    eapply (usage_same_dml (sql_close_evidence now (Some _) _ _)); [|done].
    intros o c d Hd. unfold dead_letter_evidence. by rewrite Hd.
  - apply usage_same_inc.
Qed.

Lemma usage_same_flush r :
  (forall n report, report ∈ to_report <$> sql_select_usage kPeekLimit d0 ->
     acknowledged (report_usage n report) = false /\ retryable (report_usage n report) = true) ->
  usage_same d0 r -> usage_same d0 (flush report_usage record_lease_evidence sql now r).1.
Proof.
  intros Hack Hr. unfold flush.
  assert (exists r0 evs e, on_collector sql (λ o, peek o kPeekLimit) r = (r0, Ok evs)
            /\ usage_same d0 r0 /\ evs ⊆ sql_select_usage kPeekLimit d0
          \/ on_collector sql (λ o, peek o kPeekLimit) r = (r0, Err e) /\ usage_same d0 r0)
    as (r0 & evs & e & [(E & H0 & Hs)|(E & H0)]).
  { destruct Hr as (d & Hd & Hs). unfold on_collector, peek. rewrite Hd.
    destruct (sql (sql_calls r)) as [|m|n m].
    - do 2 eexists. exists AssertFail. left. split; [reflexivity|]. split; [by exists d|].
      cbn [delivered]. unfold sql_select_usage. by rewrite Hs.
    - eexists. exists []. eexists. right. split; [reflexivity|]. by exists d.
    - do 2 eexists. exists AssertFail. left. split; [reflexivity|]. split; [by exists d|].
      cbn [delivered]. unfold sql_select_usage. rewrite Hs. apply subseteq_take. }
  2:{ by rewrite (stm_bind_Err _ _ _ _ _ E). }
  rewrite (stm_bind_Ok _ _ _ _ _ E). destruct evs as [|ev evs]; [done|].
  revert r0 H0 E. generalize dependent (ev :: evs). intros l Hs r0 H0 _. revert r0 H0.
  apply preserves_bind; [|intros _; apply preserves_bind].
  - apply preserves_for_each. intros x Hx. apply usage_same_retry. intros n. apply Hack.
    apply list_elem_of_fmap. exists x. split; [done|]. by apply Hs.
  - intros r1 (d & H). by exists d.
  - intros es. apply preserves_for_each. intros; apply usage_same_evidence.
Qed.
End Starvation.

Definition rounds report_usage record_lease_evidence now n (r : Reporter) : Reporter :=
  Nat.iter n (λ r, (flush report_usage record_lease_evidence (λ _, SqlDone) now r).1) r.

(** A hundred retryable leases block every later one: as long as the
    dispatcher answers "retry" to the first hundred pending events, each round
    reports these hundred again and nothing else, and the outbox does not change. *)
Theorem retryable_head_blocks_tail report_usage record_lease_evidence now r d n
    (Hdb : db (collector r) = Some d)
    (Hretry : forall k report, report ∈ to_report <$> sql_select_usage kPeekLimit d ->
       acknowledged (report_usage k report) = false /\ retryable (report_usage k report) = true) :
  let r' := rounds report_usage record_lease_evidence now n r in
  reports r' = reports r
               ++ concat (replicate n (to_report <$> sql_select_usage kPeekLimit d))
  /\ usage_same d r'.
Proof.
  unfold rounds. induction n as [|n [IH1 IH2]]; simpl.
  { rewrite app_nil_r. split; [done|]. by exists d. }
  set (rn := Nat.iter n _ r) in *. split.
  - destruct IH2 as (dn & Hdn & Hsame).
    rewrite (proj2 (flush_done report_usage record_lease_evidence now rn dn Hdn)), IH1.
    replace (sql_select_usage kPeekLimit dn) with (sql_select_usage kPeekLimit d)
      by (unfold sql_select_usage; by rewrite Hsame).
    rewrite <- app_assoc. f_equal.
    clear. induction n as [|n IH]; simpl; [by rewrite app_nil_r|]. by rewrite <- app_assoc, IH.
  - by apply usage_same_flush.
Qed.

(** A table of [n] events. *)
Definition lease_no (i : nat) : str := [ascii_of_nat (S i)].

Definition many_rows (n : nat) : Collector :=
  mkCollector (Some (mkDb
    ((λ i, mkUsageRow (sample_event (lease_no i)) 5 None []) <$> seq 0 n) [])) [].

Definition retry_dispatcher (k : nat) (report : UsageReportData) : RpcAck :=
  if ur_lease_token report =$ lease_no 100 then ack_ok else ack_retry.

Lemma retryable_head_blocks_tail_witness :
  let r' := rounds retry_dispatcher (λ _ _ _ _, ack_ok) 9 2 (reporter_of (many_rows 101)) in
  length (reports r') = 200
  /\ existsb (λ report, ur_lease_token report =$ lease_no 100) (reports r') = false.
Proof.
  pose proof (retryable_head_blocks_tail retry_dispatcher (λ _ _ _ _, ack_ok) 9
    (reporter_of (many_rows 101)) _ 2 eq_refl) as H.
  destruct H as [H _].
  - intros k report Hin. unfold retry_dispatcher.
    destruct (ur_lease_token report =$ lease_no 100) eqn:E; [|by split].
    exfalso. apply list_elem_of_In in Hin.
    assert (forallb (λ report, negb (ur_lease_token report =$ lease_no 100))
      (to_report <$> sql_select_usage kPeekLimit
         (mkDb ((λ i, mkUsageRow (sample_event (lease_no i)) 5 None []) <$> seq 0 101) [])) = true)
      as F by (vm_compute; reflexivity).
    rewrite forallb_forall in F. apply F in Hin. by rewrite E in Hin.
  - cbv zeta. rewrite H. vm_compute. split; reflexivity.
Defined.

(** Without a database an acknowledged event behind one that is retried is
    never removed: the deque only gives up its front.  With [a] retried and [b]
    acknowledged every time, after [n] rounds the deque still holds both, [b] was
    reported [n] times, and the gauge of buffered events has been decremented [n]
    times (modulo 2^64). *)
Theorem memory_mode_reports_again a b buffered n
    (Hne : ue_lease_token a <> ue_lease_token b) :
  let dispatcher := λ (_ : nat) report,
    if ur_lease_token report =$ ue_lease_token a then ack_retry else ack_ok in
  let r := mkReporter (mkCollector None [a; b]) (u64 buffered) 0 [] [] 0 in
  let r' := rounds dispatcher (λ _ _ _ _, ack_ok) 0 n r in
  collector r' = mkCollector None [a; b]
  /\ reports r' = concat (replicate n [to_report a; to_report b])
  /\ usage_events_buffered r' = u64 (buffered - Z.of_nat n).
Proof.
  cbv zeta. unfold rounds. induction n as [|n (IH1 & IH2 & IH3)]; simpl.
  { split; [done|]. split; [done|]. by rewrite Z.sub_0_r. }
  set (rn := Nat.iter n _ _) in *. clearbody rn. destruct rn as [c g f calls ecalls k].
  simpl in *. subst c g. apply str_eqb_neq in Hne as Hne'.
  assert ((ue_lease_token b =$ ue_lease_token a) = false) as Hba by (apply str_eqb_neq; congruence).
  unfold flush, mbind, stm_bind, on_collector, flush_event, call_usage. simpl.
  rewrite !str_eqb_refl. simpl. rewrite Hba. simpl.
  unfold acknowledge, pop_front_if, on_collector. simpl. rewrite Hne'. simpl.
  split; [done|]. split.
  - unfold reports in *. simpl in *. rewrite !fmap_app, IH2. simpl. rewrite <- app_assoc. simpl.
    clear. induction n as [|n IH]; simpl; [done|]. by rewrite IH.
  - unfold u64. rewrite Zminus_mod_idemp_l. f_equal. lia.
Qed.

Lemma memory_mode_reports_again_witness :
  let dispatcher := λ (_ : nat) report,
    if ur_lease_token report =$ "La" then ack_retry else ack_ok in
  let r' := rounds dispatcher (λ _ _ _ _, ack_ok) 0 3
    (mkReporter (mkCollector None [sample_event "La"; sample_event "Lb"]) (u64 2) 0 [] [] 0) in
  usage_events_buffered r' = (2 ^ 64 - 1)%Z.
Proof.
  cbv zeta.
  destruct (memory_mode_reports_again (sample_event "La") (sample_event "Lb") 2 3) as (_ & _ & H).
  - discriminate.
  - exact H.
Defined.

(** A schema statement the constructor gets past. *)
Definition tolerated (sqlite3_exec : str -> option str) (s : Ddl) : Prop :=
  match s with
  | Execute q => sqlite3_exec q = None
  | AddColumn q => forall m, sqlite3_exec q = Some m -> contains m "duplicate column name" = true
  end.

Lemma migrate_spec exec l : migrate exec l = Ok () <-> Forall (tolerated exec) l.
Proof.
  induction l as [|[s|s] l IH]; simpl; [done| |]; rewrite Forall_cons; simpl.
  - unfold execute. destruct (exec s); simpl; [naive_solver|]. unfold mbind, res_bind. naive_solver.
  - unfold add_column_if_missing. destruct (exec s) as [m|]; simpl.
    + destruct (contains m _) eqn:E; unfold mbind, res_bind; simpl; [naive_solver|].
      split; [done|]. intros [H _]. specialize (H m eq_refl). congruence.
    + unfold mbind, res_bind. naive_solver.
Qed.

(** Opening a database keeps its pending rows and migrates it: the
    constructor succeeds exactly when every statement of the schema does, a column
    that is already there excepted; every other error is raised. *)
Theorem collector_create_iff exec path d (Hpath : path <> []) :
  collector_create exec path (inl d) = Ok (mkCollector (Some d) [])
  <-> Forall (tolerated exec) kSchema.
Proof.
  unfold collector_create. destruct path as [|ch path]; [done|]. cbn [empty].
  rewrite <- migrate_spec. unfold mbind, res_bind.
  destruct (migrate exec kSchema) as [[]|e]; naive_solver.
Qed.

(** An engine whose tables exist already. *)
Definition migrated_exec (sql : str) : option str :=
  if starts_with sql "ALTER TABLE" then Some (lit "duplicate column name: x") else None.

Lemma collector_create_iff_witness :
  collector_create migrated_exec "outbox.db" (inl (mkDb [] [])) =
  Ok (mkCollector (Some (mkDb [] [])) []).
Proof.
  apply collector_create_iff; [discriminate|].
  unfold kSchema. repeat apply Forall_cons_2; try apply Forall_nil_2;
    first [reflexivity | intros m Hm; vm_compute in Hm; injection Hm as <-; vm_compute; reflexivity].
Defined.
