(* ===== verification/Json.v ===== *)
(** * JSON values as the gateway handles them

    The [rapidjson::Value] interface the source uses: a tree with its type
    predicates and accessors.  The parser and the writer of RapidJSON are not part
    of the repository: they are the class [RapidJson], an argument of everything
    that parses or prints. *)
From S2P Require Import Prelude.

(** A number is an integer of the 64-bit ranges RapidJSON keeps exactly, or a
    [double], carried as its bit pattern. *)
#[warnings="-register-all"]
Inductive json :=
| JNull
| JBool (b : bool)
| JInt (z : Z)
| JDouble (bits : Z)
| JString (s : str)
| JArray (l : list json)
| JObject (l : list (str * json)).

Section JsonInd.
Context (P : json -> Prop).
Context (Hnull : P JNull) (Hbool : forall b, P (JBool b)) (Hint : forall z, P (JInt z)).
Context (Hdouble : forall z, P (JDouble z)) (Hstring : forall s, P (JString s)).
Context (Harray : forall l, Forall P l -> P (JArray l)).
Context (Hobject : forall l, Forall (λ kv, P kv.2) l -> P (JObject l)).

Fixpoint json_nested_ind (j : json) : P j :=
  match j with
  | JNull => Hnull
  | JBool b => Hbool b
  | JInt z => Hint z
  | JDouble z => Hdouble z
  | JString s => Hstring s
  | JArray l => Harray l
      ((fix go l : Forall P l :=
          match l with
          | [] => Forall_nil_2 _
          | j :: l => Forall_cons_2 _ _ _ (json_nested_ind j) (go l)
          end) l)
  | JObject l => Hobject l
      ((fix go l : Forall (λ kv, P kv.2) l :=
          match l with
          | [] => Forall_nil_2 _
          | kv :: l => Forall_cons_2 _ kv _ (json_nested_ind kv.2) (go l)
          end) l)
  end.
End JsonInd.

(** [Parse] is [None] when [HasParseError()] holds afterwards. *)
Class RapidJson := {
  Parse : str -> option json;
  Write : json -> str;
}.

(** ** Type predicates *)

Definition IsObject (j : json) : bool := match j with JObject _ => true | _ => false end.
Definition IsArray (j : json) : bool := match j with JArray _ => true | _ => false end.
Definition IsString (j : json) : bool := match j with JString _ => true | _ => false end.
Definition IsBool (j : json) : bool := match j with JBool _ => true | _ => false end.
Definition IsNull (j : json) : bool := match j with JNull => true | _ => false end.
Definition IsNumber (j : json) : bool :=
  match j with JInt _ | JDouble _ => true | _ => false end.

(** The width flags of an integer. *)
Definition IsInt (j : json) : bool :=
  match j with JInt z => (- 2 ^ 31 <=? z)%Z && (z <? 2 ^ 31)%Z | _ => false end.
Definition IsUint (j : json) : bool :=
  match j with JInt z => (0 <=? z)%Z && (z <? 2 ^ 32)%Z | _ => false end.
Definition IsInt64 (j : json) : bool :=
  match j with JInt z => (- 2 ^ 63 <=? z)%Z && (z <? 2 ^ 63)%Z | _ => false end.
Definition IsUint64 (j : json) : bool :=
  match j with JInt z => (0 <=? z)%Z && (z <? 2 ^ 64)%Z | _ => false end.

(** ** Accessors

    [GetString] yields a C string; the integer accessors are only called under
    their predicate, so their value there is the integer itself. *)
Definition GetString (j : json) : res str :=
  match j with JString s => Ok (cstr s) | _ => Err AssertFail end.
Definition get_int (j : json) : Z := match j with JInt z => z | _ => 0%Z end.
Definition get_string (j : json) : str := match j with JString s => s | _ => [] end.
Definition elements (j : json) : list json := match j with JArray l => l | _ => [] end.

(** [FindMember]: the first member of that name. *)
Fixpoint find_member (key : str) (l : list (str * json)) : option json :=
  match l with
  | [] => None
  | (k, v) :: l' => if k =$ key then Some v else find_member key l'
  end.

(** Member lookup in a value known to be an object. *)
Definition member (j : json) (key : str) : option json :=
  match j with JObject l => find_member key l | _ => None end.

Definition HasMember (j : json) (key : str) : bool :=
  match member j key with Some _ => true | None => false end.

(** [j.HasMember(key) && p(j[key])]. *)
Definition has (j : json) (key : str) (p : json -> bool) : bool :=
  match member j key with Some v => p v | None => false end.

(** [HasMember] and [operator[]] assert that the value is an object. *)
Definition CheckedHasMember (j : json) (key : str) : res bool :=
  if IsObject j then Ok (HasMember j key) else Err AssertFail.

Lemma IsInt_range z : IsInt (JInt z) = true <-> (- 2 ^ 31 <= z < 2 ^ 31)%Z.
Proof. simpl. rewrite andb_true_iff, Z.leb_le, Z.ltb_lt. lia. Qed.
