(* ===== verification/JsonText.v ===== *)
(** * Printed JSON and numbers

    What the formats of [protocol/] use of RapidJSON beyond a parsed tree: printing
    a value into a string, building objects member by member, and reading a number
    as a [double].  The laws of printing and reading back that round trips rely on
    are the class [RapidJsonLaws]; [coded_json] is a concrete printer and parser
    that satisfy them. *)
From stdpp Require Import countable.
From S2P Require Import Prelude Json.

(** ** Printing *)

Section Text.
Context {RJ : RapidJson}.

(** [value.Accept(writer)] followed by [std::string(sb.GetString())]. *)
Definition dump (j : json) : str := cstr (Write j).

(** A value that RapidJSON reads back as it was: integers it keeps exactly, and
    doubles whose shortest decimal form is read as the same double (its fast path
    for numbers does not promise that for all of them). *)
Fixpoint printable (j : json) : Prop :=
  match j with
  | JInt z => (- 2 ^ 63 <= z < 2 ^ 64)%Z
  | JDouble b => Parse (Write (JDouble b)) = Some (JDouble b)
  | JArray l => (fix all l := match l with [] => True | j :: l' => printable j /\ all l' end) l
  | JObject l => (fix all l := match l with [] => True | kv :: l' => printable kv.2 /\ all l' end) l
  | _ => True
  end.

Lemma printable_array l : printable (JArray l) <-> Forall printable l.
Proof.
  simpl. induction l as [|j l IH]; [split; [intros _; constructor|done]|].
  by rewrite Forall_cons, IH.
Qed.

Lemma printable_object l : printable (JObject l) <-> Forall (λ kv, printable kv.2) l.
Proof.
  simpl. induction l as [|j l IH]; [split; [intros _; constructor|done]|].
  by rewrite Forall_cons, IH.
Qed.
End Text.

(** The documented behaviour of the writer and the parser: the text of a value is on
    one line without control characters and does not begin with a blank, neither the
    empty text nor the marker that ends a stream is a document, and the text of a
    printable value is read back. *)
Class RapidJsonLaws {RJ : RapidJson} := {
  Write_line : forall j, Forall (λ c, 32 <= code c) (Write j);
  Write_first : forall j, head (Write j) <> Some " "%char;
  Parse_empty : Parse [] = None;
  Parse_marker : Parse "[DONE]" = None;
  Parse_Write : forall j, printable j -> Parse (Write j) = Some j;
}.

Section Laws.
Context `{RL : RapidJsonLaws}.

Lemma Write_no_control j c : code c < 32 -> c ∉ Write j.
Proof.
  intros Hc Hin. pose proof (Write_line j) as H. rewrite Forall_forall in H. apply H in Hin. lia.
Qed.

Lemma dump_Write j : dump j = Write j.
Proof. apply cstr_no_NUL, Write_no_control. vm_compute. lia. Qed.

Lemma Parse_dump j : printable j -> Parse (dump j) = Some j.
Proof. rewrite dump_Write. apply Parse_Write. Qed.

Lemma Write_nonempty j : printable j -> Write j <> [].
Proof. intros H E. pose proof (Parse_Write j H) as P. rewrite E, Parse_empty in P. done. Qed.

Lemma dump_nonempty j : printable j -> empty (dump j) = false.
Proof. intros H. apply empty_false. rewrite dump_Write. by apply Write_nonempty. Qed.
End Laws.

Lemma cstr_dump {RJ : RapidJson} j : cstr (dump j) = dump j.
Proof. apply cstr_idemp. Qed.

(** ** Building objects *)

(** [rj::Value(s.c_str(), alloc)]. *)
Definition jstr (s : str) : json := JString (cstr s).

(** [if (b) object.AddMember(key, value)]. *)
Definition when (b : bool) (key : str) (value : json) : list (str * json) :=
  if b then [(key, value)] else [].

Lemma find_member_app key l k :
  find_member key (l ++ k)
  = match find_member key l with Some v => Some v | None => find_member key k end.
Proof. induction l as [|[a v] l IH]; simpl; [done|]. by destruct (a =$ key). Qed.

Lemma find_member_when key b k v :
  find_member key (when b k v) = if b && (k =$ key) then Some v else None.
Proof. by destruct b; simpl; [destruct (k =$ key)|]. Qed.

(** ** Reading members *)

(** The function [get_str] each format file declares, and [member_string] of
    [converter.cpp]. *)
Definition get_str (obj : json) (key : str) : str :=
  match member obj key with Some (JString s) => cstr s | _ => [] end.

Definition bool_member (obj : json) (key : str) (default : bool) : bool :=
  match member obj key with Some (JBool b) => b | _ => default end.

Definition int_member (obj : json) (key : str) (default : Z) : Z :=
  match member obj key with
  | Some v => if IsInt v then get_int v else default
  | None => default
  end.

(** The elements of a member that is an array. *)
Definition array_member (obj : json) (key : str) : list json :=
  match member obj key with Some (JArray l) => l | _ => [] end.

(** [if (v.IsString()) out.push_back(v.GetString())], over an array. *)
Definition strings_of (l : list json) : list str :=
  omap (λ v, match v with JString s => Some (cstr s) | _ => None end) l.

(** ** [GetDouble]

    The bit pattern of the double nearest to an integer, ties to even. *)
#[local] Open Scope Z_scope.

Definition round_even (a k : Z) : Z :=
  let quotient := Z.shiftr a k in
  let rest := a mod 2 ^ k in
  let half := 2 ^ (k - 1) in
  if (half <? rest) || ((rest =? half) && Z.odd quotient) then quotient + 1 else quotient.

Definition double_of_int (z : Z) : Z :=
  let a := Z.abs z in
  if a =? 0 then 0
  else
    let e := Z.log2 a in
    let m := if e <=? 52 then Z.shiftl a (52 - e) else round_even a (e - 52) in
    (if z <? 0 then 2 ^ 63 else 0) + (e + 1023) * 2 ^ 52 + (m - 2 ^ 52).

Definition GetDouble (j : json) : Z :=
  match j with JDouble b => b | JInt z => double_of_int z | _ => 0 end.

(** [std::isfinite]. *)
Definition isfinite (bits : Z) : bool := negb ((bits / 2 ^ 52) mod 2 ^ 11 =? 2047).

Definition number_member (obj : json) (key : str) : option Z :=
  match member obj key with
  | Some v => if IsNumber v then Some (GetDouble v) else None
  | None => None
  end.

Example double_of_small :
  double_of_int 1 = 0x3FF0000000000000 /\ double_of_int (-2) = 0xC000000000000000
  /\ double_of_int (2 ^ 53 + 1) = double_of_int (2 ^ 53)
  /\ double_of_int (2 ^ 64 - 1) = 0x43F0000000000000.
Proof. vm_compute. auto. Qed.

(** ** A printer and parser with the laws

    A value is numbered, its number printed in binary. *)
#[local] Close Scope Z_scope.

Fixpoint tree_of_json (j : json) : gen_tree (() + bool + Z + Z + str) :=
  match j with
  | JNull => GenLeaf (inl (inl (inl (inl ()))))
  | JBool b => GenLeaf (inl (inl (inl (inr b))))
  | JInt z => GenLeaf (inl (inl (inr z)))
  | JDouble z => GenLeaf (inl (inr z))
  | JString s => GenLeaf (inr s)
  | JArray l => GenNode 0 (tree_of_json <$> l)
  | JObject l => GenNode 1 ((λ kv, GenNode 0 [GenLeaf (inr kv.1); tree_of_json kv.2]) <$> l)
  end.

Fixpoint json_of_tree (t : gen_tree (() + bool + Z + Z + str)) : json :=
  match t with
  | GenLeaf (inl (inl (inl (inl _)))) => JNull
  | GenLeaf (inl (inl (inl (inr b)))) => JBool b
  | GenLeaf (inl (inl (inr z))) => JInt z
  | GenLeaf (inl (inr z)) => JDouble z
  | GenLeaf (inr s) => JString s
  | GenNode 0 l => JArray (json_of_tree <$> l)
  | GenNode _ l => JObject ((λ t,
      match t with GenNode _ [GenLeaf (inr k); v] => (k, json_of_tree v) | _ => ([], JNull) end) <$> l)
  end.

Lemma json_of_tree_of_json j : json_of_tree (tree_of_json j) = j.
Proof.
  induction j as [| | | | |l IH|l IH] using json_nested_ind; simpl; try done; f_equal;
    induction IH as [|x l Hx _ IHl]; simpl; try done; f_equal; try done.
  destruct x as [k v]; simpl in *. by rewrite Hx.
Qed.

#[global] Instance tree_of_json_inj : Inj eq eq tree_of_json.
Proof. intros x y H. by rewrite <- (json_of_tree_of_json x), H, json_of_tree_of_json. Qed.

#[global] Instance json_eq_dec : EqDecision json := inj_eq_dec tree_of_json.

#[global] Instance json_countable : Countable json :=
  inj_countable' tree_of_json json_of_tree json_of_tree_of_json.

Fixpoint binary (p : positive) : str :=
  match p with
  | xH => ["1"%char]
  | xO p' => "0"%char :: binary p'
  | xI p' => "1"%char :: binary p'
  end.

Fixpoint of_binary (s : str) : option positive :=
  match s with
  | [] => None
  | [c] => if (c =? "1")%char then Some xH else None
  | c :: s' => (if (c =? "1")%char then xI else xO) <$> of_binary s'
  end.

Lemma of_binary_binary p : of_binary (binary p) = Some p.
Proof.
  induction p as [p IH|p IH|]; simpl; [| |done]; rewrite IH; by destruct (binary p) eqn:E; [destruct p|].
Qed.

Definition coded_json : RapidJson := {|
  Parse := λ s, of_binary s ≫= decode;
  Write := λ j, binary (encode j);
|}.

Lemma binary_chars p : Forall (λ c, 32 <= code c) (binary p).
Proof. induction p; repeat constructor; try done; vm_compute; lia. Qed.

#[global] Instance coded_json_laws : @RapidJsonLaws coded_json.
Proof.
  split; simpl.
  - intros j. apply binary_chars.
  - intros j. by destruct (encode j).
  - done.
  - done.
  - intros j _. by rewrite of_binary_binary; simpl; rewrite decode_encode.
Qed.
