(* ===== verification/ChatIr.v ===== *)
(** * The intermediate representation of chat requests and stream events

    [protocol/chat_ir.h]: every format parses into these records and prints from
    them.  A [double] is the bit pattern of its value. *)
From S2P Require Import Prelude Json JsonText.

Record ToolCall := mkToolCall { tc_id : str; tc_name : str; tc_arguments : str }.

Inductive FinishReason := Stop | Length | ToolCalls | ContentFilter | Safety | Recitation | Unknown.

#[global] Instance FinishReason_eq_dec : EqDecision FinishReason.
Proof. solve_decision. Defined.

Inductive BlockType := Text | Image | ToolUse | ToolResult.

#[global] Instance BlockType_eq_dec : EqDecision BlockType.
Proof. solve_decision. Defined.

Record ContentBlock := mkBlock {
  cb_type : BlockType;
  cb_text : str;
  cb_tool_call_id : str;
  cb_tool_name : str;
  cb_tool_arguments : str;
}.

Record Message := mkMessage {
  msg_role : str;
  msg_content : list ContentBlock;
  msg_tool_calls : list ToolCall;
  msg_tool_call_id : str;
}.

Definition text_block (t : str) : ContentBlock := mkBlock Text t [] [] [].

(** [msg.content.push_back(block)]. *)
Definition push_block (b : ContentBlock) (m : Message) : Message :=
  mkMessage (msg_role m) (msg_content m ++ [b]) (msg_tool_calls m) (msg_tool_call_id m).

Definition push_tool_call (c : ToolCall) (m : Message) : Message :=
  mkMessage (msg_role m) (msg_content m) (msg_tool_calls m ++ [c]) (msg_tool_call_id m).

Definition set_tool_call_id (id : str) (m : Message) : Message :=
  mkMessage (msg_role m) (msg_content m) (msg_tool_calls m) id.

Definition add_text (t : str) (m : Message) : Message := push_block (text_block t) m.

(** [if (!out.empty()) out += "\n"; out += text]. *)
Definition append_line (out text : str) : str := (if empty out then [] else out ++ [LF]) ++ text.

Definition text_content (m : Message) : str :=
  fold_left (λ out b, match cb_type b with Text => append_line out (cb_text b) | _ => out end)
    (msg_content m) [].

Record ToolDef := mkToolDef { td_name : str; td_description : str; td_parameters_json : str }.

Record ChatRequest := mkRequest {
  rq_model : str;
  rq_system : str;
  rq_messages : list Message;
  rq_tools : list ToolDef;
  rq_stream : bool;
  rq_max_tokens : Z;
  rq_temperature : option Z;
  rq_top_p : option Z;
  rq_stop : list str;
  rq_metadata_user_id : str;
  rq_unsupported_content : bool;
}.

(** The member initialisers: what a body that is not a JSON object parses to. *)
Definition default_request : ChatRequest := mkRequest [] [] [] [] false 4096 None None [] [] false.

Definition set_model (model : str) (r : ChatRequest) : ChatRequest :=
  mkRequest model (rq_system r) (rq_messages r) (rq_tools r) (rq_stream r) (rq_max_tokens r)
    (rq_temperature r) (rq_top_p r) (rq_stop r) (rq_metadata_user_id r) (rq_unsupported_content r).

Lemma request_eta r :
  mkRequest (rq_model r) (rq_system r) (rq_messages r) (rq_tools r) (rq_stream r) (rq_max_tokens r)
    (rq_temperature r) (rq_top_p r) (rq_stop r) (rq_metadata_user_id r) (rq_unsupported_content r) = r.
Proof. by destruct r. Qed.

(** What the loop over the messages of a request changes. *)
Record Conversation := mkConversation {
  cv_system : str;
  cv_messages : list Message;
  cv_unsupported : bool;
}.

Definition push_message (m : Message) (c : Conversation) : Conversation :=
  mkConversation (cv_system c) (cv_messages c ++ [m]) (cv_unsupported c).

Definition mark_unsupported (c : Conversation) : Conversation :=
  mkConversation (cv_system c) (cv_messages c) true.

Inductive DeltaType :=
| MessageStart | ContentStart | TextDelta | ContentEnd | MessageEnd | ToolCallDelta | Done.

#[global] Instance DeltaType_eq_dec : EqDecision DeltaType.
Proof. solve_decision. Defined.

Record StreamDelta := mkDelta {
  sd_type : DeltaType;
  sd_id : str;
  sd_text : str;
  sd_tool_call_id : str;
  sd_tool_name : str;
  sd_tool_arguments_delta : str;
  sd_index : Z;
  sd_model : str;
  sd_finish_reason : str;
  sd_input_tokens : Z;
  sd_output_tokens : Z;
}.

Definition default_delta : StreamDelta := mkDelta TextDelta [] [] [] [] [] 0 [] [] 0 0.

Definition nonempty {A} (l : list A) : bool := match l with [] => false | _ => true end.

(** ** Shared pieces of the format files *)

Section Shared.
Context {RJ : RapidJson}.

(** [if (obj.HasMember(key) && obj[key].IsObject()) s = print(obj[key])]. *)
Definition printed_object (obj : json) (key : str) : str :=
  match member obj key with
  | Some ((JObject _) as v) => dump v
  | _ => []
  end.

(** A member that is an object; every lookup in [JNull] finds nothing. *)
Definition object_member (obj : json) (key : str) : json :=
  match member obj key with Some ((JObject _) as v) => v | _ => JNull end.

(** [Document d; if (!s.empty()) d.Parse(s.c_str());
    if (d.HasParseError() || !d.IsObject()) d.SetObject();] *)
Definition object_or_empty (s : str) : json :=
  if empty s then JObject []
  else match Parse (cstr s) with
       | Some ((JObject _) as v) => v
       | _ => JObject []
       end.

Definition tool_use_block (id name arguments : str) : ContentBlock :=
  mkBlock ToolUse [] id name arguments.

(** The content of a tool result: a string, or the texts of an array of parts. *)
Definition result_part (acc : str * bool) (sub : json) : res (str * bool) :=
  let '(text, unsupported) := acc in
  if negb (IsObject sub) then Ok acc
  else
    match member sub "text" with
    | Some v =>
        if get_str sub "type" =$ "text" then s ← GetString v; Ok (text ++ s, unsupported)
        else Ok (text, true)
    | None => Ok (text, true)
    end.

Definition result_text (part : json) (unsupported : bool) : res (str * bool) :=
  match member part "content" with
  | Some (JString s) => Ok (cstr s, unsupported)
  | Some (JArray l) => fold_res result_part ([], unsupported) l
  | _ => Ok ([], unsupported)
  end.

Definition string_array (l : list str) : json := JArray (jstr <$> l).

(** [if (o) object.AddMember(key, *o)] for an optional double. *)
Definition double_member (key : str) (o : option Z) : list (str * json) :=
  match o with Some d => [(key, JDouble d)] | None => [] end.

End Shared.

(** ** Texts without NUL bytes

    Every string of the representation passes through [c_str()] when printed. *)
Definition clean (s : str) : Prop := NUL ∉ s.

#[global] Instance clean_dec s : Decision (clean s).
Proof. unfold clean. solve_decision. Defined.

Lemma clean_cstr s : clean (cstr s).
Proof. apply cstr_NUL. Qed.

Lemma clean_nil : clean [].
Proof. apply not_elem_of_nil. Qed.

Lemma clean_get_str j key : clean (get_str j key).
Proof. unfold get_str. repeat case_match; auto using clean_cstr, clean_nil. Qed.

Lemma clean_printed {RJ : RapidJson} j key : clean (printed_object j key).
Proof. unfold printed_object, dump. repeat case_match; auto using clean_cstr, clean_nil. Qed.

Lemma clean_lit s : bool_decide (clean (lit s)) = true -> clean (lit s).
Proof. apply bool_decide_eq_true_1. Qed.

#[export] Hint Resolve clean_cstr clean_nil clean_get_str clean_printed : gw.
#[export] Hint Extern 1 (clean (lit _)) => apply clean_lit; vm_compute; reflexivity : gw.

Lemma jstr_clean s : clean s -> jstr s = JString s.
Proof. intros H. unfold jstr. by rewrite cstr_no_NUL. Qed.

Lemma strings_of_array l : Forall clean l -> strings_of (jstr <$> l) = l.
Proof.
  induction 1 as [|s l Hs _ IH]; [done|]. change (strings_of (jstr <$> s :: l))
    with (cstr (cstr s) :: strings_of (jstr <$> l)).
  rewrite IH. by rewrite cstr_idemp, cstr_no_NUL.
Qed.

Lemma find_member_double key k o :
  find_member key (double_member k o)
  = match o with Some d => if k =$ key then Some (JDouble d) else None | None => None end.
Proof. by destruct o; simpl; [destruct (k =$ key)|]. Qed.

Lemma find_member_cons key k v l :
  find_member key ((k, v) :: l) = if k =$ key then Some v else find_member key l.
Proof. done. Qed.

Lemma find_member_nil key : find_member key [] = None.
Proof. done. Qed.

Create Rewrite HintDb members.
#[export] Hint Rewrite find_member_nil find_member_app find_member_when find_member_double find_member_cons : members.

(** Decides the comparisons between literals. *)
Ltac eval_keys :=
  repeat match goal with
  | |- context [str_eqb ?a ?b] =>
      let v := eval vm_compute in (str_eqb a b) in
      lazymatch v with true => idtac | false => idtac end;
      change (str_eqb a b) with v; cbn beta iota delta [andb orb negb]
  end.

(** Looks members up in an object built from literal keys. *)
Ltac members :=
  unfold get_str, printed_object, bool_member, int_member, number_member, array_member, HasMember, has;
  cbn [member IsObject negb]; autorewrite with members; eval_keys;
  rewrite ?andb_false_r, ?andb_true_r; cbn beta iota.

(** Settles an equation between two ways to look a member up. *)
Ltac lookup :=
  members; try reflexivity;
  repeat match goal with
  | |- context [if ?b then _ else _] => destruct b; cbn beta iota; try reflexivity
  | |- context [double_member _ ?o] => destruct o; cbn beta iota; try reflexivity
  | |- context [match ?o with Some _ => _ | None => _ end] => destruct o; cbn beta iota; try reflexivity
  end.

Lemma text_content_single role t calls id :
  text_content (mkMessage role [text_block t] calls id) = t.
Proof. done. Qed.

Lemma object_or_empty_dump `{RL : RapidJsonLaws} l :
  printable (JObject l) -> object_or_empty (dump (JObject l)) = JObject l.
Proof.
  intros H. unfold object_or_empty. by rewrite dump_nonempty, cstr_dump, Parse_dump.
Qed.

(** ** Loops that undo printing *)

Lemma fold_res_print {A B X} (body : A -> B -> res A) (step : A -> X -> A) (print : X -> B)
    (ok : X -> Prop) acc l :
  (forall acc x, ok x -> body acc (print x) = Ok (step acc x)) -> Forall ok l ->
  fold_res body acc (print <$> l) = Ok (fold_left step l acc).
Proof.
  intros Hbody H. revert acc. induction H as [|x l Hx _ IH]; intros acc; simpl; [done|].
  rewrite Hbody by done. apply IH.
Qed.

Lemma omap_print {A B} (f : B -> option A) (print : A -> B) (ok : A -> Prop) l :
  (forall x, ok x -> f (print x) = Some x) -> Forall ok l -> omap f (print <$> l) = l.
Proof.
  intros Hf. induction 1 as [|x l Hx _ IH]; [done|].
  change (omap f (print <$> x :: l))
    with (match f (print x) with Some y => y :: omap f (print <$> l) | None => omap f (print <$> l) end).
  by rewrite Hf, IH.
Qed.

Lemma fold_push_messages l c :
  fold_left (λ c m, push_message m c) l c
  = mkConversation (cv_system c) (cv_messages c ++ l) (cv_unsupported c).
Proof.
  revert c. induction l as [|m l IH]; intros c; simpl; [by rewrite app_nil_r; destruct c|].
  rewrite IH. simpl. by rewrite <- app_assoc.
Qed.

(** ** Members read back *)

Lemma cstr_clean s : clean s -> cstr s = s.
Proof. apply cstr_no_NUL. Qed.

Lemma cstr_cstr_clean s : clean s -> cstr (cstr s) = s.
Proof. intros H. by rewrite cstr_idemp, cstr_clean. Qed.

Lemma get_str_always j key s : member j key = Some (jstr s) -> clean s -> get_str j key = s.
Proof. unfold get_str. intros -> H. by apply cstr_cstr_clean. Qed.

(** A string that is printed only when it is not empty. *)
Lemma get_str_when j key s :
  member j key = (if negb (empty s) then Some (jstr s) else None) -> clean s -> get_str j key = s.
Proof. unfold get_str. intros -> H. destruct s as [|c s]; [done|]. by apply cstr_cstr_clean. Qed.

Lemma array_member_always j key l : member j key = Some (JArray l) -> array_member j key = l.
Proof. unfold array_member. by intros ->. Qed.

(** An array that is printed only when it is not empty. *)
Lemma array_member_when {A} j key (print : A -> json) l :
  member j key = (if nonempty l then Some (JArray (print <$> l)) else None) -> array_member j key = print <$> l.
Proof. unfold array_member. intros ->. by destruct l. Qed.

Lemma number_member_double j key o :
  member j key = (match o with Some d => Some (JDouble d) | None => None end) -> number_member j key = o.
Proof. unfold number_member. intros ->. by destruct o. Qed.

Lemma bool_member_when j key (b : bool) :
  member j key = (if b then Some (JBool true) else None) -> bool_member j key false = b.
Proof. unfold bool_member. intros ->. by destruct b. Qed.

Lemma int_member_always j key z d :
  member j key = Some (JInt z) -> (- 2 ^ 31 <= z < 2 ^ 31)%Z -> int_member j key d = z.
Proof. unfold int_member. intros -> H. by rewrite (proj2 (IsInt_range z) H). Qed.

Lemma Forall_when (P : json -> Prop) b k v : P v -> Forall (λ kv : str * json, P kv.2) (when b k v).
Proof. intros H. destruct b; repeat constructor; done. Qed.

Lemma Forall_double (P : json -> Prop) k o :
  (forall d, o = Some d -> P (JDouble d)) -> Forall (λ kv : str * json, P kv.2) (double_member k o).
Proof. intros H. destruct o; repeat constructor. by apply H. Qed.

Lemma printable_jstr {RJ : RapidJson} s : printable (jstr s).
Proof. done. Qed.

Lemma printable_strings {RJ : RapidJson} l : printable (string_array l).
Proof. apply printable_array. induction l; constructor; done. Qed.

Lemma Forall_mapped {X} (P : json -> Prop) (print : X -> json) (ok : X -> Prop) l :
  (forall x, ok x -> P (print x)) -> Forall ok l -> Forall P (print <$> l).
Proof. intros HP. induction 1; constructor; [by apply HP|done]. Qed.

Lemma Forall_mapped_all {X} (P : json -> Prop) (print : X -> json) l :
  (forall x, P (print x)) -> Forall P (print <$> l).
Proof. intros HP. induction l; constructor; done. Qed.

(** Decides that a document built from literals, strings and parts known to be
    printable is printable. *)
Ltac printable_parts :=
  repeat (cbn [snd]; lazymatch goal with
  | |- printable (JObject _) => apply printable_object
  | |- printable (JArray _) => apply printable_array
  | |- printable (jstr _) => apply printable_jstr
  | |- printable (JString _) => exact I
  | |- printable (JBool _) => exact I
  | |- printable JNull => exact I
  | |- printable (string_array _) => apply printable_strings
  | |- printable (JDouble _) => first [assumption | eauto; fail]
  | |- Forall _ (_ ++ _) => apply Forall_app; split
  | |- Forall _ (_ :: _) => apply Forall_cons; split
  | |- Forall _ [] => constructor
  | |- Forall _ (when _ _ _) => apply Forall_when
  | |- Forall _ (double_member _ _) => apply Forall_double; intros ? ?
  | |- (_ <= _ < _)%Z => lia
  end).

(** A tool description as a parser leaves it: the schema is absent or the text of
    an object that is read back. *)
Definition schema_text {RJ : RapidJson} (s : str) : Prop :=
  exists l, printable (JObject l) /\ s = dump (JObject l).

Definition clean_call (c : ToolCall) : Prop := clean (tc_id c) /\ clean (tc_name c) /\ clean (tc_arguments c).

(** The members of a request that every format prints and reads alike. *)
Record clean_request {RJ : RapidJson} (r : ChatRequest) : Prop := {
  cq_model : clean (rq_model r);
  cq_system : clean (rq_system r);
  cq_stop : Forall clean (rq_stop r);
  cq_user : clean (rq_metadata_user_id r);
  cq_max_tokens : (0 < rq_max_tokens r < 2 ^ 31)%Z;
  cq_temperature : forall d, rq_temperature r = Some d -> printable (JDouble d);
  cq_top_p : forall d, rq_top_p r = Some d -> printable (JDouble d);
  cq_unsupported : rq_unsupported_content r = false;
}.

(** ** Messages made of blocks

    The formats that keep tool calls among the content blocks list them a second
    time in [tool_calls], and the last tool result names the message's
    [tool_call_id]. *)
Definition read_block (m : Message) (b : ContentBlock) : Message :=
  match cb_type b with
  | ToolUse => push_tool_call (mkToolCall (cb_tool_call_id b) (cb_tool_name b) (cb_tool_arguments b)) (push_block b m)
  | ToolResult => push_block b (set_tool_call_id (cb_tool_call_id b) m)
  | _ => push_block b m
  end.

Definition calls_of (bs : list ContentBlock) : list ToolCall :=
  omap (λ b, match cb_type b with
             | ToolUse => Some (mkToolCall (cb_tool_call_id b) (cb_tool_name b) (cb_tool_arguments b))
             | _ => None
             end) bs.

Definition last_result (id : str) (bs : list ContentBlock) : str :=
  fold_left (λ id b, match cb_type b with ToolResult => cb_tool_call_id b | _ => id end) bs id.

Lemma fold_read_block bs m :
  fold_left read_block bs m
  = mkMessage (msg_role m) (msg_content m ++ bs) (msg_tool_calls m ++ calls_of bs)
      (last_result (msg_tool_call_id m) bs).
Proof.
  revert m. induction bs as [|b bs IH]; intros m; cbn [fold_left last_result].
  - destruct m; cbn. by rewrite !app_nil_r.
  - rewrite IH. unfold read_block, last_result, calls_of. cbn [fold_left].
    destruct b as [[] t i n a]; cbn; by rewrite <- ?app_assoc.
Qed.

Lemma fold_read_blocks bs m (u : bool) :
  fold_left (λ acc b, (read_block acc.1 b, acc.2)) bs (m, u) = (fold_left read_block bs m, u).
Proof. revert m. induction bs as [|b bs IH]; intros m; simpl; [done|]. apply IH. Qed.

(** A message whose parts are all in its blocks. *)
Definition from_blocks (m : Message) : Prop :=
  msg_tool_calls m = calls_of (msg_content m) /\ msg_tool_call_id m = last_result [] (msg_content m).

Lemma from_blocks_read m : from_blocks m ->
  fold_left read_block (msg_content m) (mkMessage (msg_role m) [] [] []) = m.
Proof. intros [Hc Hi]. rewrite fold_read_block. cbn. rewrite <- Hc, <- Hi. by destruct m. Qed.

Lemma schema_object `{RL : RapidJsonLaws} s : schema_text s ->
  exists l, object_or_empty s = JObject l /\ printable (JObject l) /\ dump (JObject l) = s.
Proof. intros (l & Hl & ->). exists l. by rewrite object_or_empty_dump. Qed.
