(* ===== verification/OpenAiFormat.v ===== *)
(** * The OpenAI chat completions format

    [protocol/openai_format.cpp]: reading and printing of requests and of stream
    events, and the round trip of requests. *)
From S2P Require Import Prelude Json JsonText ChatIr.
#[local] Arguments lit : simpl never.

Section Format.
Context {RJ : RapidJson}.

(** ** Requests *)

Definition extract_content_block (acc : Message * bool) (part : json) : res (Message * bool) :=
  let '(msg, unsupported) := acc in
  if negb (IsObject part) then Ok acc
  else
    let type := get_str part "type" in
    if type =$ "text" then Ok (add_text (get_str part "text") msg, unsupported)
    else if type =$ "tool_use" then
      Ok (push_block (tool_use_block (get_str part "id") (get_str part "name")
            (printed_object part "input")) msg, unsupported)
    else if type =$ "tool_result" then
      '(text, unsupported) ← result_text part unsupported;
      Ok (push_block (mkBlock ToolResult text (get_str part "tool_use_id") [] []) msg, unsupported)
    else Ok (msg, true).

Definition extract_content_blocks (content : json) (msg : Message) (unsupported : bool)
  : res (Message * bool) :=
  match content with
  | JString s => Ok (add_text (cstr s) msg, unsupported)
  | JArray l => fold_res extract_content_block (msg, unsupported) l
  | _ => Ok (msg, unsupported)
  end.

(** The text of a system message: a string, or the texts of its parts. *)
Definition system_text (content : json) : str :=
  match content with
  | JString s => cstr s
  | JArray l => concat ((λ p, get_str p "text") <$> l)
  | _ => []
  end.

Definition parse_tool_calls (m : json) : list ToolCall :=
  omap (λ tc,
    if negb (IsObject tc) then None
    else Some (
      let id := get_str tc "id" in
      match member tc "function" with
      | Some ((JObject _) as fn) => mkToolCall id (get_str fn "name") (get_str fn "arguments")
      | _ => mkToolCall id [] []
      end)) (array_member m "tool_calls").

Definition parse_message (c : Conversation) (m : json) : res Conversation :=
  if negb (IsObject m) then Ok c
  else
    let role := get_str m "role" in
    if (role =$ "system") || (role =$ "developer") then
      Ok (match member m "content" with
          | Some content =>
              mkConversation (append_line (cv_system c) (system_text content)) (cv_messages c)
                (cv_unsupported c)
          | None => c
          end)
    else
      '(msg, unsupported) ←
        match member m "content" with
        | Some content => extract_content_blocks content (mkMessage role [] [] []) (cv_unsupported c)
        | None => Ok (mkMessage role [] [] [], cv_unsupported c)
        end;
      Ok (mkConversation (cv_system c)
            (cv_messages c ++ [mkMessage role (msg_content msg) (parse_tool_calls m) (get_str m "tool_call_id")])
            unsupported).

Definition parse_tools (doc : json) : list ToolDef :=
  omap (λ t,
    if negb (IsObject t) then None
    else if negb (get_str t "type" =$ "function") then None
    else Some (
      match member t "function" with
      | Some ((JObject _) as fn) =>
          mkToolDef (get_str fn "name") (get_str fn "description") (printed_object fn "parameters")
      | _ => mkToolDef [] [] []
      end)) (array_member doc "tools").

Definition parse_stop (doc : json) : list str :=
  match member doc "stop" with
  | Some (JString s) => [cstr s]
  | Some (JArray l) => strings_of l
  | _ => []
  end.

Definition request_of_document (doc : json) : res ChatRequest :=
  c ← fold_res parse_message (mkConversation [] [] false) (array_member doc "messages");
  Ok (mkRequest (get_str doc "model") (cv_system c) (cv_messages c) (parse_tools doc)
        (bool_member doc "stream" false)
        (int_member doc "max_tokens" (int_member doc "max_completion_tokens" 4096))
        (number_member doc "temperature") (number_member doc "top_p") (parse_stop doc)
        (get_str doc "user") (cv_unsupported c)).

Definition parse_request (body : str) : res ChatRequest :=
  match Parse body with
  | Some ((JObject _) as doc) => request_of_document doc
  | _ => Ok default_request
  end.

Definition is_tool_block (b : ContentBlock) : bool :=
  match cb_type b with ToolUse | ToolResult => true | _ => false end.

Definition block_json (b : ContentBlock) : json :=
  match cb_type b with
  | Text => JObject [("type" : str, jstr "text"); ("text" : str, jstr (cb_text b))]
  | ToolResult =>
      JObject [("type" : str, jstr "tool_result"); ("tool_use_id" : str, jstr (cb_tool_call_id b));
               ("content" : str, jstr (cb_text b))]
  | _ => JObject []
  end.

Definition tool_call_json (id name arguments : str) : json :=
  JObject [("id" : str, jstr id); ("type" : str, jstr "function");
           ("function" : str, JObject [("name" : str, jstr name); ("arguments" : str, jstr arguments)])].

Definition message_json (m : Message) : json :=
  JObject (
    [("role" : str, jstr (msg_role m))]
    ++ when (negb (empty (msg_tool_call_id m))) "tool_call_id" (jstr (msg_tool_call_id m))
    ++ [("content" : str,
          if negb (existsb is_tool_block (msg_content m)) && negb (nonempty (msg_tool_calls m))
          then jstr (text_content m)
          else JArray (block_json <$> msg_content m))]
    ++ when (nonempty (msg_tool_calls m)) "tool_calls"
         (JArray ((λ tc, tool_call_json (tc_id tc) (tc_name tc) (tc_arguments tc)) <$> msg_tool_calls m))).

Definition tool_json (t : ToolDef) : json :=
  JObject [("type" : str, jstr "function");
    ("function" : str, JObject (
      [("name" : str, jstr (td_name t))]
      ++ when (negb (empty (td_description t))) "description" (jstr (td_description t))
      ++ (if empty (td_parameters_json t) then []
          else match Parse (cstr (td_parameters_json t)) with
               | Some params => [("parameters" : str, params)]
               | None => []
               end)))].

Definition system_message (system : str) : json :=
  JObject [("role" : str, jstr "system"); ("content" : str, jstr system)].

Definition document_of_request (r : ChatRequest) : json :=
  JObject (
    [("model" : str, jstr (rq_model r));
     ("messages" : str, JArray (
       (if empty (rq_system r) then [] else [system_message (rq_system r)])
       ++ (message_json <$> rq_messages r)))]
    ++ when (rq_stream r) "stream" (JBool true)
    ++ when (0 <? rq_max_tokens r)%Z "max_tokens" (JInt (rq_max_tokens r))
    ++ double_member "temperature" (rq_temperature r)
    ++ double_member "top_p" (rq_top_p r)
    ++ when (nonempty (rq_stop r)) "stop" (string_array (rq_stop r))
    ++ when (negb (empty (rq_metadata_user_id r))) "user" (jstr (rq_metadata_user_id r))
    ++ when (nonempty (rq_tools r)) "tools"
         (JArray (tool_json <$> rq_tools r))).

Definition serialize_request (r : ChatRequest) : str := dump (document_of_request r).

(** ** Stream events *)

Definition tool_delta_json (d : StreamDelta) : json :=
  JObject (
    [("index" : str, JInt (sd_index d))]
    ++ when (negb (empty (sd_tool_call_id d))) "id" (jstr (sd_tool_call_id d))
    ++ (if negb (empty (sd_tool_name d)) then
          [("type" : str, jstr "function");
           ("function" : str, JObject [("name" : str, jstr (sd_tool_name d)); ("arguments" : str, jstr [])])]
        else if negb (empty (sd_tool_arguments_delta d)) then
          [("function" : str, JObject [("name" : str, jstr []);
              ("arguments" : str, jstr (sd_tool_arguments_delta d))])]
        else [])).

Definition delta_json (d : StreamDelta) : list (str * json) :=
  match sd_type d with
  | MessageStart => [("role" : str, jstr "assistant"); ("content" : str, jstr [])]
  | TextDelta => [("content" : str, jstr (sd_text d))]
  | ToolCallDelta => [("tool_calls" : str, JArray [tool_delta_json d])]
  | _ => []
  end.

Definition document_of_delta (d : StreamDelta) : json :=
  JObject (
    [("object" : str, jstr "chat.completion.chunk")]
    ++ when (negb (empty (sd_id d))) "id" (jstr (sd_id d))
    ++ when (negb (empty (sd_model d))) "model" (jstr (sd_model d))
    ++ [("choices" : str, JArray [JObject [
          ("index" : str, JInt (sd_index d)); ("delta" : str, JObject (delta_json d));
          ("finish_reason" : str,
             if empty (sd_finish_reason d) then JNull else jstr (sd_finish_reason d))]])]).

Definition serialize_stream_event (d : StreamDelta) : str :=
  match sd_type d with
  | Done => "data: [DONE]" ++ [LF; LF]
  | _ => "data: " ++ dump (document_of_delta d) ++ [LF; LF]
  end.

Definition tool_call_delta (id model finish : str) (tc : json) : StreamDelta :=
  let '(name, arguments) :=
    match member tc "function" with
    | Some ((JObject _) as fn) => (get_str fn "name", get_str fn "arguments")
    | _ => ([], [])
    end in
  mkDelta ToolCallDelta id [] (get_str tc "id") name arguments (int_member tc "index" 0) model finish 0 0.

Definition delta_of_document (doc : json) : res StreamDelta :=
  let model := get_str doc "model" in
  let id := get_str doc "id" in
  match array_member doc "choices" with
  | [] => Ok (mkDelta TextDelta id [] [] [] [] 0 model [] 0 0)
  | choice :: _ =>
      if negb (IsObject choice) then Err AssertFail
      else
        let finish := get_str choice "finish_reason" in
        match member choice "delta" with
        | Some ((JObject _) as d) =>
            if HasMember d "role" && HasMember d "content" then
              Ok (mkDelta MessageStart id [] [] [] [] 0 model finish 0 0)
            else
              match member d "content" with
              | Some (JString s) => Ok (mkDelta TextDelta id (cstr s) [] [] [] 0 model finish 0 0)
              | _ =>
                  match array_member d "tool_calls" with
                  | tc :: _ => if IsObject tc then Ok (tool_call_delta id model finish tc) else Err AssertFail
                  | [] => Ok (mkDelta (if empty finish then TextDelta else MessageEnd)
                                id [] [] [] [] 0 model finish 0 0)
                  end
              end
        | _ => Ok (mkDelta TextDelta id [] [] [] [] 0 model finish 0 0)
        end
  end.

Definition parse_stream_event (data : str) : res StreamDelta :=
  if data =$ "[DONE]" then Ok (mkDelta Done [] [] [] [] [] 0 [] [] 0 0)
  else
    match Parse data with
    | Some ((JObject _) as doc) => delta_of_document doc
    | _ => Ok default_delta
    end.
End Format.

(** ** The round trip of requests

    The requests that survive are those a parser can produce: messages of text, tool
    results and tool calls, tools whose schema is an object, no empty defaults. *)
Section RoundTrip.
Context `{RL : RapidJsonLaws}.

Definition stable_block (b : ContentBlock) : Prop :=
  clean (cb_text b) /\ clean (cb_tool_call_id b)
  /\ (b = text_block (cb_text b) \/ b = mkBlock ToolResult (cb_text b) (cb_tool_call_id b) [] []).

Record stable_message (m : Message) : Prop := {
  sm_role : clean (msg_role m);
  sm_not_system : msg_role m <> "system" /\ msg_role m <> "developer";
  sm_blocks : Forall stable_block (msg_content m);
  sm_text : existsb is_tool_block (msg_content m) = false -> msg_tool_calls m = [] ->
            exists t, msg_content m = [text_block t];
  sm_calls : Forall clean_call (msg_tool_calls m);
  sm_id : clean (msg_tool_call_id m);
}.

Definition stable_tool (t : ToolDef) : Prop :=
  clean (td_name t) /\ clean (td_description t)
  /\ (td_parameters_json t = [] \/ schema_text (td_parameters_json t)).

Record stable_request (r : ChatRequest) : Prop := {
  sr_clean : clean_request r;
  sr_messages : Forall stable_message (rq_messages r);
  sr_tools : Forall stable_tool (rq_tools r);
}.

Lemma extract_block_json msg u b : stable_block b ->
  extract_content_block (msg, u) (block_json b) = Ok (push_block b msg, u).
Proof.
  intros (Ht & Hi & [E|E]); rewrite E; unfold extract_content_block, block_json, result_text, jstr;
    cbn [cb_type cb_text cb_tool_call_id text_block]; members.
  - by rewrite cstr_cstr_clean.
  - by rewrite !cstr_cstr_clean.
Qed.

Lemma extract_blocks_json role bs u : Forall stable_block bs ->
  extract_content_blocks (JArray (block_json <$> bs)) (mkMessage role [] [] []) u
  = Ok (mkMessage role bs [] [], u).
Proof.
  intros H. simpl. rewrite (fold_res_print _ (λ acc b, (push_block b acc.1, acc.2)) block_json stable_block).
  - f_equal. assert (forall m, fold_left (λ acc b, (push_block b acc.1, acc.2)) bs (m, u)
      = (mkMessage (msg_role m) (msg_content m ++ bs) (msg_tool_calls m) (msg_tool_call_id m), u)) as E.
    { clear H. induction bs as [|b bs IH]; intros m; simpl; [by rewrite app_nil_r; destruct m|].
      rewrite IH. simpl. by rewrite <- app_assoc. }
    by rewrite E.
  - intros [m u'] b Hb. by apply extract_block_json.
  - done.
Qed.

Lemma parse_tool_calls_json calls : Forall clean_call calls ->
  omap (λ tc,
    if negb (IsObject tc) then None
    else Some (
      let id := get_str tc "id" in
      match member tc "function" with
      | Some ((JObject _) as fn) => mkToolCall id (get_str fn "name") (get_str fn "arguments")
      | _ => mkToolCall id [] []
      end)) ((λ tc, tool_call_json (tc_id tc) (tc_name tc) (tc_arguments tc)) <$> calls) = calls.
Proof.
  apply omap_print. intros [i n a] (Hi & Hn & Ha). unfold tool_call_json, jstr.
  cbn [tc_id tc_name tc_arguments]. members. members. by rewrite !cstr_cstr_clean.
Qed.

Lemma openai_parse_message_json c m : stable_message m -> parse_message c (message_json m) = Ok (push_message m c).
Proof.
  intros [Hr [Hs Hd] Hb Ht Hc Hi]. unfold parse_message.
  change (IsObject (message_json m)) with true. cbn [negb]. cbv zeta.
  rewrite (get_str_always _ "role" (msg_role m)), (get_str_when _ "tool_call_id" (msg_tool_call_id m))
    by (done || (unfold message_json; lookup)).
  apply str_eqb_neq in Hs as ->, Hd as ->. cbn [orb].
  assert (parse_tool_calls (message_json m) = msg_tool_calls m) as ->.
  { unfold parse_tool_calls. erewrite array_member_when; [|unfold message_json; lookup].
    by apply parse_tool_calls_json. }
  assert (member (message_json m) "content" = Some (
    if negb (existsb is_tool_block (msg_content m)) && negb (nonempty (msg_tool_calls m))
    then jstr (text_content m) else JArray (block_json <$> msg_content m))) as ->
    by (unfold message_json; lookup).
  destruct (negb _ && negb _) eqn:E.
  - apply andb_true_iff in E as [E1 E2]. apply negb_true_iff in E1, E2.
    assert (msg_tool_calls m = []) as Ec by by destruct (msg_tool_calls m).
    destruct m as [role content calls id]. simpl in *. subst calls.
    destruct (Ht E1 eq_refl) as [t ->]. apply Forall_cons in Hb as [(Hclean & _) _]. simpl in Hclean.
    rewrite text_content_single. unfold jstr, add_text, push_block, push_message. simpl.
    by rewrite cstr_cstr_clean.
  - rewrite extract_blocks_json by done. by destruct m.
Qed.

Lemma openai_parse_tool_json t : stable_tool t ->
  (λ t, if negb (IsObject t) then None
    else if negb (get_str t "type" =$ "function") then None
    else Some (
      match member t "function" with
      | Some ((JObject _) as fn) =>
          mkToolDef (get_str fn "name") (get_str fn "description") (printed_object fn "parameters")
      | _ => mkToolDef [] [] []
      end)) (tool_json t) = Some t.
Proof.
  intros (Hn & Hd & Hp). destruct t as [name desc params]. cbn [td_name td_description td_parameters_json] in *.
  cbn beta. change (IsObject (tool_json (mkToolDef name desc params))) with true.
  change (get_str (tool_json (mkToolDef name desc params)) "type") with (cstr (cstr "function")).
  eval_keys. unfold tool_json. cbn [member]. autorewrite with members. eval_keys.
  cbn [td_name td_description td_parameters_json].
  set (fn := JObject _). cbv iota.
  rewrite (get_str_always fn "name" name), (get_str_when fn "description" desc)
    by (assumption || (subst fn; destruct (empty params); [|destruct (Parse _)]; lookup)).
  do 2 f_equal.
  assert (member fn "parameters" = if empty params then None else Parse (cstr params)) as E.
  { subst fn. destruct (empty params); [|destruct (Parse _)]; lookup. }
  unfold printed_object. rewrite E. destruct Hp as [->|(l & Hl & ->)]; [done|].
  by rewrite dump_nonempty, cstr_dump, Parse_dump.
Qed.

Lemma openai_request_document_roundtrip r : stable_request r -> request_of_document (document_of_request r) = Ok r.
Proof.
  intros [[Hm Hs Hst Hu Hmax _ _ Hun] Hms Hts]. unfold request_of_document.
  erewrite array_member_always; [|unfold document_of_request; lookup].
  assert (forall c, fold_res parse_message c (message_json <$> rq_messages r)
    = Ok (mkConversation (cv_system c) (cv_messages c ++ rq_messages r) (cv_unsupported c))) as Hfold.
  { intros c. rewrite (fold_res_print _ (λ c m, push_message m c) message_json stable_message);
      [by rewrite fold_push_messages|apply openai_parse_message_json|done]. }
  assert (fold_res parse_message (mkConversation [] [] false)
      ((if empty (rq_system r) then [] else [system_message (rq_system r)]) ++ (message_json <$> rq_messages r))
    = Ok (mkConversation (rq_system r) (rq_messages r) false)) as ->.
  { destruct (empty (rq_system r)) eqn:E.
    - apply empty_true in E as ->. apply Hfold.
    - cbn [app fold_res]. assert (forall c, parse_message c (system_message (rq_system r))
        = Ok (mkConversation (append_line (cv_system c) (rq_system r)) (cv_messages c) (cv_unsupported c))) as ->.
      { intros c. unfold parse_message, system_message, jstr. members. simpl. by rewrite cstr_cstr_clean. }
      simpl. rewrite Hfold. done. }
  etransitivity; [|apply (f_equal Ok), request_eta]. rewrite Hun. cbn [mbind res_bind cv_system cv_messages cv_unsupported].
  f_equal. f_equal.
  - apply get_str_always; [unfold document_of_request; lookup|done].
  - unfold parse_tools. erewrite (array_member_when _ _ tool_json (rq_tools r)); [|unfold document_of_request; lookup].
    eapply omap_print, Hts. apply openai_parse_tool_json.
  - apply bool_member_when. unfold document_of_request. lookup.
  - apply int_member_always; [|lia]. unfold document_of_request.
    rewrite (proj2 (Z.ltb_lt 0 (rq_max_tokens r))) by lia. lookup.
  - apply number_member_double. unfold document_of_request. lookup.
  - apply number_member_double. unfold document_of_request. lookup.
  - unfold parse_stop.
    assert (member (document_of_request r) "stop"
      = if nonempty (rq_stop r) then Some (string_array (rq_stop r)) else None) as -> by (unfold document_of_request; lookup).
    destruct (rq_stop r); [done|]. by apply strings_of_array.
  - apply get_str_when; [unfold document_of_request; lookup|done].
Qed.

Lemma openai_block_json_printable b : printable (block_json b).
Proof. unfold block_json. by destruct (cb_type b). Qed.

Lemma openai_message_json_printable m : printable (message_json m).
Proof.
  unfold message_json. printable_parts.
  - destruct (_ && _); [done|]. apply printable_array, Forall_mapped_all, openai_block_json_printable.
  - by apply Forall_mapped_all.
Qed.

Lemma openai_tool_json_printable t : stable_tool t -> printable (tool_json t).
Proof.
  intros (_ & _ & Hp). unfold tool_json. printable_parts. destruct Hp as [->|(l & Hl & ->)]; [constructor|].
  rewrite dump_nonempty, cstr_dump, Parse_dump by done. constructor; [exact Hl|constructor].
Qed.

Lemma openai_document_printable r : stable_request r -> printable (document_of_request r).
Proof.
  intros [[_ _ _ _ Hmax Ht Hp _] Hms Hts]. unfold document_of_request. printable_parts.
  - by destruct (empty (rq_system r)); repeat constructor.
  - apply Forall_mapped_all, openai_message_json_printable.
  - simpl. lia.
  - eapply Forall_mapped; [|exact Hts]. apply openai_tool_json_printable.
Qed.

Lemma openai_roundtrip r : stable_request r -> parse_request (serialize_request r) = Ok r.
Proof.
  intros H. unfold parse_request, serialize_request.
  rewrite Parse_dump by by apply openai_document_printable. by apply openai_request_document_roundtrip.
Qed.
End RoundTrip.
