(* ===== verification/AnthropicFormat.v ===== *)
(** * The Anthropic messages format

    [protocol/anthropic_format.cpp]: reading and printing of requests and of stream
    events, and the round trip of requests. *)
From S2P Require Import Prelude Json JsonText ChatIr.
#[local] Arguments lit : simpl never.

Section Format.
Context {RJ : RapidJson}.

(** ** Requests *)

(** [system] is a string, or an array whose texts are joined line by line. *)
Definition parse_system (doc : json) : str :=
  match member doc "system" with
  | Some (JString s) => cstr s
  | Some (JArray l) =>
      fold_left (λ system block,
        match member block "text" with
        | Some (JString t) => append_line system (cstr t)
        | _ => system
        end) l []
  | _ => []
  end.

Definition parse_block (acc : Message * bool) (block : json) : res (Message * bool) :=
  let '(msg, unsupported) := acc in
  if negb (IsObject block) then Ok acc
  else
    let type := get_str block "type" in
    if type =$ "text" then Ok (add_text (get_str block "text") msg, unsupported)
    else if type =$ "tool_use" then
      let id := get_str block "id" in
      let name := get_str block "name" in
      let arguments := printed_object block "input" in
      Ok (push_tool_call (mkToolCall id name arguments)
            (push_block (tool_use_block id name arguments) msg), unsupported)
    else if type =$ "tool_result" then
      let id := get_str block "tool_use_id" in
      '(text, unsupported) ← result_text block unsupported;
      Ok (push_block (mkBlock ToolResult text id [] []) (set_tool_call_id id msg), unsupported)
    else Ok (msg, true).

Definition parse_message (c : Conversation) (m : json) : res Conversation :=
  if negb (IsObject m) then Ok c
  else
    let msg := mkMessage (get_str m "role") [] [] [] in
    '(msg, unsupported) ←
      match member m "content" with
      | Some (JString s) => Ok (add_text (cstr s) msg, cv_unsupported c)
      | Some (JArray l) => fold_res parse_block (msg, cv_unsupported c) l
      | _ => Ok (msg, cv_unsupported c)
      end;
    Ok (mkConversation (cv_system c) (cv_messages c ++ [msg]) unsupported).

Definition parse_tool (t : json) : option ToolDef :=
  if negb (IsObject t) then None
  else Some (mkToolDef (get_str t "name") (get_str t "description") (printed_object t "input_schema")).

Definition request_of_document (doc : json) : res ChatRequest :=
  c ← fold_res parse_message (mkConversation (parse_system doc) [] false) (array_member doc "messages");
  Ok (mkRequest (get_str doc "model") (cv_system c) (cv_messages c)
        (omap parse_tool (array_member doc "tools")) (bool_member doc "stream" false)
        (int_member doc "max_tokens" 4096) (number_member doc "temperature") (number_member doc "top_p")
        (strings_of (array_member doc "stop_sequences"))
        (match member doc "metadata" with Some meta => get_str meta "user_id" | None => [] end)
        (cv_unsupported c)).

Definition parse_request (body : str) : res ChatRequest :=
  match Parse body with
  | Some ((JObject _) as doc) => request_of_document doc
  | _ => Ok default_request
  end.

Definition block_json (b : ContentBlock) : json :=
  match cb_type b with
  | Text => JObject [("type" : str, jstr "text"); ("text" : str, jstr (cb_text b))]
  | ToolUse =>
      JObject [("type" : str, jstr "tool_use"); ("id" : str, jstr (cb_tool_call_id b));
               ("name" : str, jstr (cb_tool_name b)); ("input" : str, object_or_empty (cb_tool_arguments b))]
  | ToolResult =>
      JObject [("type" : str, jstr "tool_result"); ("tool_use_id" : str, jstr (cb_tool_call_id b));
               ("content" : str, jstr (cb_text b))]
  | Image => JObject []
  end.

Definition is_text_block (b : ContentBlock) : bool := bool_decide (cb_type b = Text).

Definition needs_blocks (m : Message) : bool :=
  existsb (λ b, negb (is_text_block b)) (msg_content m) || nonempty (msg_tool_calls m).

Definition message_json (m : Message) : json :=
  JObject [("role" : str, jstr (msg_role m));
           ("content" : str,
             if negb (needs_blocks m) then jstr (text_content m) else JArray (block_json <$> msg_content m))].

Definition tool_json (t : ToolDef) : json :=
  JObject (
    [("name" : str, jstr (td_name t))]
    ++ when (negb (empty (td_description t))) "description" (jstr (td_description t))
    ++ [("input_schema" : str, object_or_empty (td_parameters_json t))]).

Definition document_of_request (r : ChatRequest) : json :=
  JObject (
    [("model" : str, jstr (rq_model r));
     ("max_tokens" : str, JInt (if 0 <? rq_max_tokens r then rq_max_tokens r else 4096)%Z)]
    ++ when (negb (empty (rq_system r))) "system" (jstr (rq_system r))
    ++ when (rq_stream r) "stream" (JBool true)
    ++ double_member "temperature" (rq_temperature r)
    ++ double_member "top_p" (rq_top_p r)
    ++ when (nonempty (rq_stop r)) "stop_sequences" (string_array (rq_stop r))
    ++ when (negb (empty (rq_metadata_user_id r))) "metadata"
         (JObject [("user_id" : str, jstr (rq_metadata_user_id r))])
    ++ [("messages" : str, JArray (message_json <$> rq_messages r))]
    ++ when (nonempty (rq_tools r)) "tools" (JArray (tool_json <$> rq_tools r))).

Definition serialize_request (r : ChatRequest) : str := dump (document_of_request r).

(** ** Stream events *)

Definition event_name (t : DeltaType) : str :=
  match t with
  | MessageStart => "message_start"
  | ContentStart => "content_block_start"
  | TextDelta | ToolCallDelta => "content_block_delta"
  | ContentEnd => "content_block_stop"
  | MessageEnd => "message_delta"
  | Done => "message_stop"
  end.

Definition stop_reason (finish_reason : str) : str :=
  let reason := if empty finish_reason then ("end_turn" : str) else finish_reason in
  if reason =$ "stop" then "end_turn"
  else if reason =$ "tool_calls" then "tool_use"
  else reason.

Definition document_of_delta (d : StreamDelta) : json :=
  JObject (("type" : str, jstr (event_name (sd_type d))) ::
    match sd_type d with
    | MessageStart =>
        [("message" : str, JObject [
            ("id" : str, if empty (sd_id d) then jstr "msg_gateway" else jstr (sd_id d));
            ("type" : str, jstr "message"); ("role" : str, jstr "assistant");
            ("model" : str, jstr (sd_model d));
            ("usage" : str, JObject [("input_tokens" : str, JInt (sd_input_tokens d));
                                     ("output_tokens" : str, JInt 0)])])]
    | ContentStart =>
        [("index" : str, JInt (sd_index d));
         ("content_block" : str, JObject (
            if negb (empty (sd_tool_name d)) then
              [("type" : str, jstr "tool_use"); ("id" : str, jstr (sd_tool_call_id d));
               ("name" : str, jstr (sd_tool_name d)); ("input" : str, JObject [])]
            else [("type" : str, jstr "text"); ("text" : str, jstr [])]))]
    | TextDelta =>
        [("index" : str, JInt (sd_index d));
         ("delta" : str, JObject [("type" : str, jstr "text_delta"); ("text" : str, jstr (sd_text d))])]
    | ToolCallDelta =>
        [("index" : str, JInt (sd_index d));
         ("delta" : str, JObject [("type" : str, jstr "input_json_delta");
                                  ("partial_json" : str, jstr (sd_tool_arguments_delta d))])]
    | ContentEnd => [("index" : str, JInt (sd_index d))]
    | MessageEnd =>
        [("delta" : str, JObject [("stop_reason" : str, jstr (stop_reason (sd_finish_reason d)))]);
         ("usage" : str, JObject [("output_tokens" : str, JInt (sd_output_tokens d))])]
    | Done => []
    end).

Definition serialize_stream_event (d : StreamDelta) : str :=
  "event: " ++ event_name (sd_type d) ++ [LF] ++ "data: " ++ dump (document_of_delta d) ++ [LF; LF].

Definition finish_of_stop_reason (reason : str) : str :=
  if reason =$ "end_turn" then "stop"
  else if reason =$ "tool_use" then "tool_calls"
  else reason.

Definition delta_of_document (event_type : str) (doc : json) : StreamDelta :=
  if event_type =$ "message_start" then
    let msg := object_member doc "message" in
    mkDelta MessageStart (get_str msg "id") [] [] [] [] 0 (get_str msg "model") []
      (int_member (object_member msg "usage") "input_tokens" 0) 0
  else if event_type =$ "content_block_start" then
    let block := object_member doc "content_block" in
    let index := int_member doc "index" 0 in
    if get_str block "type" =$ "tool_use" then
      mkDelta ContentStart [] [] (get_str block "id") (get_str block "name") [] index [] [] 0 0
    else mkDelta ContentStart [] [] [] [] [] index [] [] 0 0
  else if event_type =$ "content_block_delta" then
    let index := int_member doc "index" 0 in
    let d := object_member doc "delta" in
    let dtype := get_str d "type" in
    if dtype =$ "text_delta" then mkDelta TextDelta [] (get_str d "text") [] [] [] index [] [] 0 0
    else if dtype =$ "input_json_delta" then
      mkDelta ToolCallDelta [] [] [] [] (get_str d "partial_json") index [] [] 0 0
    else mkDelta TextDelta [] [] [] [] [] index [] [] 0 0
  else if event_type =$ "content_block_stop" then
    mkDelta ContentEnd [] [] [] [] [] (int_member doc "index" 0) [] [] 0 0
  else if event_type =$ "message_delta" then
    mkDelta MessageEnd [] [] [] [] [] 0 []
      (finish_of_stop_reason (get_str (object_member doc "delta") "stop_reason")) 0
      (int_member (object_member doc "usage") "output_tokens" 0)
  else if event_type =$ "message_stop" then mkDelta Done [] [] [] [] [] 0 [] [] 0 0
  else default_delta.

Definition parse_stream_event (event_type data : str) : StreamDelta :=
  match Parse data with
  | Some ((JObject _) as doc) => delta_of_document event_type doc
  | _ => default_delta
  end.
End Format.

(** ** The round trip of requests *)
Section RoundTrip.
Context `{RL : RapidJsonLaws}.

Definition stable_block (b : ContentBlock) : Prop :=
  clean (cb_text b) /\ clean (cb_tool_call_id b) /\ clean (cb_tool_name b)
  /\ match cb_type b with
     | Text => b = text_block (cb_text b)
     | ToolUse => b = tool_use_block (cb_tool_call_id b) (cb_tool_name b) (cb_tool_arguments b)
                  /\ schema_text (cb_tool_arguments b)
     | ToolResult => b = mkBlock ToolResult (cb_text b) (cb_tool_call_id b) [] []
     | Image => False
     end.

Record stable_message (m : Message) : Prop := {
  sm_role : clean (msg_role m);
  sm_blocks : Forall stable_block (msg_content m);
  sm_text : needs_blocks m = false -> exists t, msg_content m = [text_block t];
  sm_shape : from_blocks m;
}.

Definition stable_tool (t : ToolDef) : Prop :=
  clean (td_name t) /\ clean (td_description t) /\ schema_text (td_parameters_json t).

Record stable_request (r : ChatRequest) : Prop := {
  sr_clean : clean_request r;
  sr_messages : Forall stable_message (rq_messages r);
  sr_tools : Forall stable_tool (rq_tools r);
}.

Lemma parse_block_json msg u b : stable_block b ->
  parse_block (msg, u) (block_json b) = Ok (read_block msg b, u).
Proof.
  intros (Ht & Hi & Hn & Hb). unfold parse_block, block_json, read_block, result_text, jstr.
  destruct (cb_type b).
  - rewrite Hb. cbn [cb_text text_block]. members. by rewrite cstr_cstr_clean.
  - done.
  - destruct Hb as [E Ha]. destruct (schema_object _ Ha) as (l & -> & _ & Hl). members. members.
    rewrite Hl, !cstr_cstr_clean by done. by rewrite E.
  - rewrite Hb. cbn [cb_text cb_tool_call_id]. members. by rewrite !cstr_cstr_clean.
Qed.

Lemma anthropic_parse_message_json c m : stable_message m -> parse_message c (message_json m) = Ok (push_message m c).
Proof.
  intros [Hr Hb Ht Hs]. unfold parse_message. change (IsObject (message_json m)) with true. cbn [negb]. cbv zeta.
  rewrite (get_str_always _ "role" (msg_role m)) by (done || (unfold message_json; lookup)).
  change (member (message_json m) "content")
    with (Some (if negb (needs_blocks m) then jstr (text_content m) else JArray (block_json <$> msg_content m))).
  destruct (needs_blocks m) eqn:E; cbn [negb].
  - rewrite (fold_res_print _ (λ acc b, (read_block acc.1 b, acc.2)) block_json stable_block).
    + rewrite fold_read_blocks, from_blocks_read by done. done.
    + intros [m' u]. apply parse_block_json.
    + done.
  - destruct (Ht eq_refl) as [t Et]. destruct m as [role content calls id]. destruct Hs as [Hc Hi]. simpl in *. subst.
    apply Forall_cons in Hb as [(Hclean & _) _]. simpl in Hclean. rewrite text_content_single.
    unfold add_text, push_block, push_message; simpl. by rewrite cstr_cstr_clean.
Qed.

Lemma anthropic_parse_tool_json t : stable_tool t -> parse_tool (tool_json t) = Some t.
Proof.
  intros (Hn & Hd & Hp). destruct (schema_object _ Hp) as (l & El & _ & Hl). unfold parse_tool.
  change (IsObject (tool_json t)) with true. cbn [negb].
  rewrite (get_str_always _ "name" (td_name t)), (get_str_when _ "description" (td_description t))
    by (assumption || (unfold tool_json; lookup)).
  unfold printed_object. assert (member (tool_json t) "input_schema" = Some (JObject l)) as ->.
  { unfold tool_json. rewrite El. lookup. }
  rewrite Hl. by destruct t.
Qed.

Lemma anthropic_request_document_roundtrip r : stable_request r -> request_of_document (document_of_request r) = Ok r.
Proof.
  intros [[Hm Hs Hst Hu Hmax _ _ Hun] Hms Hts]. unfold request_of_document.
  erewrite (array_member_always _ "messages"); [|unfold document_of_request; lookup].
  rewrite (fold_res_print _ (λ c m, push_message m c) message_json stable_message);
    [rewrite fold_push_messages|apply anthropic_parse_message_json|done].
  etransitivity; [|apply (f_equal Ok), request_eta]. rewrite Hun. cbn [mbind res_bind cv_system cv_messages cv_unsupported].
  f_equal. f_equal.
  - apply get_str_always; [unfold document_of_request; lookup|done].
  - unfold parse_system.
    assert (member (document_of_request r) "system"
      = if negb (empty (rq_system r)) then Some (jstr (rq_system r)) else None) as ->
      by (unfold document_of_request; lookup).
    destruct (rq_system r); [done|]. by apply cstr_cstr_clean.
  - erewrite (array_member_when _ _ tool_json (rq_tools r)); [|unfold document_of_request; lookup].
    eapply omap_print, Hts. apply anthropic_parse_tool_json.
  - apply bool_member_when. unfold document_of_request. lookup.
  - apply int_member_always; [|lia]. unfold document_of_request.
    rewrite (proj2 (Z.ltb_lt 0 (rq_max_tokens r))) by lia. lookup.
  - apply number_member_double. unfold document_of_request. lookup.
  - apply number_member_double. unfold document_of_request. lookup.
  - erewrite (array_member_when _ _ jstr (rq_stop r)); [|unfold document_of_request; lookup].
    by apply strings_of_array.
  - assert (member (document_of_request r) "metadata" = if negb (empty (rq_metadata_user_id r))
      then Some (JObject [("user_id" : str, jstr (rq_metadata_user_id r))]) else None) as ->
      by (unfold document_of_request; lookup).
    destruct (rq_metadata_user_id r); [done|]. apply get_str_always; [by members|done].
Qed.

Lemma anthropic_block_json_printable b : stable_block b -> printable (block_json b).
Proof.
  intros (_ & _ & _ & Hb). unfold block_json. destruct (cb_type b); try done.
  destruct Hb as [_ Ha]. destruct (schema_object _ Ha) as (l & -> & Hl & _). repeat split; done.
Qed.

Lemma anthropic_message_json_printable m : stable_message m -> printable (message_json m).
Proof.
  intros H. unfold message_json. printable_parts. destruct (negb _); [done|].
  apply printable_array. eapply Forall_mapped; [apply anthropic_block_json_printable|apply (sm_blocks _ H)].
Qed.

Lemma anthropic_tool_json_printable t : stable_tool t -> printable (tool_json t).
Proof.
  intros (_ & _ & Hp). unfold tool_json. destruct (schema_object _ Hp) as (l & -> & Hl & _).
  printable_parts. by apply printable_object in Hl.
Qed.

Lemma anthropic_document_printable r : stable_request r -> printable (document_of_request r).
Proof.
  intros [[_ _ _ _ Hmax Ht Hp _] Hms Hts]. unfold document_of_request. printable_parts.
  - simpl. destruct (0 <? _)%Z; lia.
  - eapply Forall_mapped; [|exact Hms]. apply anthropic_message_json_printable.
  - eapply Forall_mapped; [|exact Hts]. apply anthropic_tool_json_printable.
Qed.

Lemma anthropic_roundtrip r : stable_request r -> parse_request (serialize_request r) = Ok r.
Proof.
  intros H. unfold parse_request, serialize_request.
  rewrite Parse_dump by by apply anthropic_document_printable. by apply anthropic_request_document_roundtrip.
Qed.
End RoundTrip.
