(* ===== verification/GeminiFormat.v ===== *)
(** * The Gemini format

    [protocol/gemini_format.cpp]: reading and printing of requests and of stream
    events, and the round trip of requests. *)
From S2P Require Import Prelude Numbers Json JsonText ChatIr.
#[local] Arguments lit : simpl never.

Section Format.
Context {RJ : RapidJson}.

(** ** Requests *)

Definition parse_system (doc : json) : str :=
  fold_left (λ system p,
    match member p "text" with
    | Some (JString t) => append_line system (cstr t)
    | _ => system
    end) (array_member (object_member doc "systemInstruction") "parts") [].

(** What the loop over the parts changes: the message, the counter of tool calls and
    the mark of unsupported content. *)
Record Parts := mkParts { pt_message : Message; pt_counter : Z; pt_unsupported : bool }.

Definition numbered_id (name : str) (counter : Z) : str := name ++ "_" ++ to_string counter.

Definition parse_part (s : Parts) (p : json) : Parts :=
  if negb (IsObject p) then s
  else
    match member p "text" with
    | Some (JString t) => mkParts (add_text (cstr t) (pt_message s)) (pt_counter s) (pt_unsupported s)
    | _ =>
        match member p "functionCall" with
        | Some ((JObject _) as fc) =>
            let name := get_str fc "name" in
            let counter := i32 (pt_counter s + 1) in
            let id := numbered_id name counter in
            let arguments := printed_object fc "args" in
            mkParts (push_tool_call (mkToolCall id name arguments)
                       (push_block (tool_use_block id name arguments) (pt_message s)))
              counter (pt_unsupported s)
        | _ =>
            match member p "functionResponse" with
            | Some ((JObject _) as fr) =>
                let name := get_str fr "name" in
                mkParts (push_block (mkBlock ToolResult (printed_object fr "response") name name [])
                           (set_tool_call_id name (pt_message s)))
                  (pt_counter s) (pt_unsupported s)
            | _ => mkParts (pt_message s) (pt_counter s) true
            end
        end
    end.

Definition parse_content (c : Conversation) (m : json) : Conversation :=
  if negb (IsObject m) then c
  else
    let role := get_str m "role" in
    let msg := mkMessage (if role =$ "model" then "assistant" else role) [] [] [] in
    let s := fold_left parse_part (array_member m "parts") (mkParts msg 0 (cv_unsupported c)) in
    mkConversation (cv_system c) (cv_messages c ++ [pt_message s]) (pt_unsupported s).

Definition parse_declaration (fd : json) : option ToolDef :=
  if negb (IsObject fd) then None
  else Some (mkToolDef (get_str fd "name") (get_str fd "description") (printed_object fd "parameters")).

Definition parse_tools (doc : json) : list ToolDef :=
  concat ((λ t, omap parse_declaration (array_member t "functionDeclarations")) <$> array_member doc "tools").

Definition request_of_document (doc : json) : ChatRequest :=
  let c := fold_left parse_content (array_member doc "contents")
             (mkConversation (parse_system doc) [] false) in
  let gc := object_member doc "generationConfig" in
  mkRequest (get_str doc "model") (cv_system c) (cv_messages c) (parse_tools doc) false
    (int_member gc "maxOutputTokens" 4096) (number_member gc "temperature") (number_member gc "topP")
    (strings_of (array_member gc "stopSequences")) [] (cv_unsupported c).

Definition parse_request (body : str) : ChatRequest :=
  match Parse body with
  | Some ((JObject _) as doc) => request_of_document doc
  | _ => default_request
  end.

(** [Document resp; resp.Parse(text.c_str())], wrapped when it is not an object. *)
Definition result_object (text : str) : json :=
  match Parse (cstr text) with
  | Some ((JObject _) as v) => v
  | _ => JObject [("result" : str, jstr text)]
  end.

Definition part_json (b : ContentBlock) : json :=
  match cb_type b with
  | Text => JObject [("text" : str, jstr (cb_text b))]
  | ToolUse =>
      JObject [("functionCall" : str, JObject [("name" : str, jstr (cb_tool_name b));
                                               ("args" : str, object_or_empty (cb_tool_arguments b))])]
  | ToolResult =>
      JObject [("functionResponse" : str, JObject [("name" : str, jstr (cb_tool_name b));
                                                   ("response" : str, result_object (cb_text b))])]
  | Image => JObject []
  end.

Definition content_json (m : Message) : json :=
  JObject [("role" : str, if msg_role m =$ "assistant" then jstr "model" else jstr (msg_role m));
           ("parts" : str, JArray (part_json <$> msg_content m))].

Definition declaration_json (t : ToolDef) : json :=
  JObject (
    [("name" : str, jstr (td_name t))]
    ++ when (negb (empty (td_description t))) "description" (jstr (td_description t))
    ++ (if empty (td_parameters_json t) then []
        else match Parse (cstr (td_parameters_json t)) with
             | Some ((JObject _) as params) => [("parameters" : str, params)]
             | _ => []
             end)).

Definition generation_config (r : ChatRequest) : list (str * json) :=
  when (0 <? rq_max_tokens r)%Z "maxOutputTokens" (JInt (rq_max_tokens r))
  ++ double_member "temperature" (rq_temperature r)
  ++ double_member "topP" (rq_top_p r)
  ++ when (nonempty (rq_stop r)) "stopSequences" (string_array (rq_stop r)).

Definition document_of_request (r : ChatRequest) : json :=
  JObject (
    when (negb (empty (rq_system r))) "systemInstruction"
      (JObject [("parts" : str, JArray [JObject [("text" : str, jstr (rq_system r))]])])
    ++ [("contents" : str, JArray (content_json <$> rq_messages r))]
    ++ when (nonempty (generation_config r)) "generationConfig" (JObject (generation_config r))
    ++ when (nonempty (rq_tools r)) "tools"
         (JArray [JObject [("functionDeclarations" : str, JArray (declaration_json <$> rq_tools r))]])).

Definition serialize_request (r : ChatRequest) : str := dump (document_of_request r).

(** ** Stream events *)

Definition finish_reason_name (finish_reason : str) : str :=
  if (finish_reason =$ "length") || (finish_reason =$ "max_tokens") then "MAX_TOKENS"
  else if finish_reason =$ "content_filter" then "SAFETY"
  else if finish_reason =$ "recitation" then "RECITATION"
  else "STOP".

Definition document_of_delta (d : StreamDelta) : json :=
  let parts :=
    match sd_type d with
    | TextDelta => JObject [("text" : str, jstr (sd_text d))]
    | ToolCallDelta =>
        JObject [("functionCall" : str, JObject [("name" : str, jstr (sd_tool_name d)); ("args" : str, JObject [])])]
    | _ => JObject [("text" : str, jstr [])]
    end in
  JObject [("candidates" : str, JArray [JObject (
    when (bool_decide (sd_type d = MessageEnd)) "finishReason" (jstr (finish_reason_name (sd_finish_reason d)))
    ++ [("content" : str, JObject [("role" : str, jstr "model"); ("parts" : str, JArray [parts])]);
        ("index" : str, JInt 0)])])].

Definition serialize_stream_event (d : StreamDelta) : str :=
  match sd_type d with
  | Done => "data: [DONE]" ++ [LF; LF]
  | _ => "data: " ++ dump (document_of_delta d) ++ [LF; LF]
  end.

Definition finish_of_name (reason : str) : str :=
  if reason =$ "MAX_TOKENS" then "length"
  else if reason =$ "SAFETY" then "content_filter"
  else if reason =$ "RECITATION" then "recitation"
  else "stop".

(** The first part with a text that is not empty, or with a function call. *)
Fixpoint delta_of_parts (type : DeltaType) (finish : str) (parts : list json) : StreamDelta :=
  match parts with
  | [] => mkDelta type [] [] [] [] [] 0 [] finish 0 0
  | p :: parts' =>
      match member p "text" with
      | Some (JString t) =>
          if empty (cstr t) then delta_of_parts type finish parts'
          else mkDelta TextDelta [] (cstr t) [] [] [] 0 [] finish 0 0
      | _ =>
          match member p "functionCall" with
          | Some ((JObject _) as fc) =>
              mkDelta ToolCallDelta [] [] [] (get_str fc "name") (printed_object fc "args") 0 [] finish 0 0
          | _ => delta_of_parts type finish parts'
          end
      end
  end.

Definition delta_of_document (doc : json) : res StreamDelta :=
  match array_member doc "candidates" with
  | [] => Ok default_delta
  | cand :: _ =>
      if negb (IsObject cand) then Err AssertFail
      else
        let '(type, finish) :=
          match member cand "finishReason" with
          | Some (JString s) => (MessageEnd, finish_of_name (cstr s))
          | _ => (TextDelta, [])
          end in
        Ok (delta_of_parts type finish (array_member (object_member cand "content") "parts"))
  end.

Definition parse_stream_event (data : str) : res StreamDelta :=
  if data =$ "[DONE]" then Ok (mkDelta Done [] [] [] [] [] 0 [] [] 0 0)
  else
    match Parse data with
    | Some ((JObject _) as doc) => delta_of_document doc
    | _ => Ok default_delta
    end.
End Format.

(** ** The round trip of requests

    The format has no place for the model, the stream flag and the user; a tool call
    is identified by its name and position, a tool result by the name of its tool. *)
Section RoundTrip.
Context `{RL : RapidJsonLaws}.

Definition stable_block (b : ContentBlock) : Prop :=
  clean (cb_text b) /\ clean (cb_tool_name b)
  /\ match cb_type b with
     | Text => b = text_block (cb_text b)
     | ToolUse => b = tool_use_block (cb_tool_call_id b) (cb_tool_name b) (cb_tool_arguments b)
                  /\ schema_text (cb_tool_arguments b)
     | ToolResult => b = mkBlock ToolResult (cb_text b) (cb_tool_name b) (cb_tool_name b) []
                     /\ schema_text (cb_text b)
     | Image => False
     end.

(** The tool calls are numbered in their order, from the one after [counter]. *)
Fixpoint numbered (counter : Z) (bs : list ContentBlock) : Prop :=
  match bs with
  | [] => True
  | b :: bs' =>
      match cb_type b with
      | ToolUse => cb_tool_call_id b = numbered_id (cb_tool_name b) (counter + 1) /\ numbered (counter + 1) bs'
      | _ => numbered counter bs'
      end
  end.

Record stable_message (m : Message) : Prop := {
  sm_role : clean (msg_role m) /\ msg_role m <> "model";
  sm_blocks : Forall stable_block (msg_content m);
  sm_numbered : numbered 0 (msg_content m);
  sm_length : (Z.of_nat (length (msg_content m)) < 2 ^ 31)%Z;
  sm_shape : from_blocks m;
}.

Definition stable_tool (t : ToolDef) : Prop :=
  clean (td_name t) /\ clean (td_description t)
  /\ (td_parameters_json t = [] \/ schema_text (td_parameters_json t)).

Record stable_request (r : ChatRequest) : Prop := {
  sr_clean : clean_request r;
  sr_absent : rq_model r = [] /\ rq_stream r = false /\ rq_metadata_user_id r = [];
  sr_messages : Forall stable_message (rq_messages r);
  sr_tools : Forall stable_tool (rq_tools r);
}.

Lemma result_object_schema s : schema_text s ->
  exists l, result_object s = JObject l /\ printable (JObject l) /\ dump (JObject l) = s.
Proof. intros (l & Hl & ->). exists l. unfold result_object. by rewrite cstr_dump, Parse_dump. Qed.

Definition next_counter (counter : Z) (b : ContentBlock) : Z :=
  match cb_type b with ToolUse => (counter + 1)%Z | _ => counter end.

Lemma parse_part_json m k u b :
  stable_block b -> numbered k [b] -> (0 <= k < 2 ^ 31 - 1)%Z ->
  parse_part (mkParts m k u) (part_json b) = mkParts (read_block m b) (next_counter k b) u.
Proof.
  intros (Ht & Hn & Hb) Hk Hr. unfold parse_part, part_json, read_block, next_counter, jstr. simpl in Hk.
  destruct (cb_type b).
  - rewrite Hb. cbn [cb_text text_block]. members. by rewrite cstr_cstr_clean.
  - done.
  - destruct Hb as [E Ha], Hk as [Hid _]. destruct (schema_object _ Ha) as (l & -> & _ & Hl). members. members.
    cbn [pt_message pt_counter pt_unsupported].
    rewrite Hl, i32_small, !cstr_cstr_clean, <- Hid by (done || lia). by rewrite E.
  - destruct Hb as [E Ha]. destruct (result_object_schema _ Ha) as (l & -> & _ & Hl). members. members.
    cbn [pt_message pt_counter pt_unsupported].
    rewrite Hl, !cstr_cstr_clean by done. by rewrite E.
Qed.

Lemma parse_parts_json bs m k u :
  Forall stable_block bs -> numbered k bs -> (0 <= k)%Z -> (k + Z.of_nat (length bs) < 2 ^ 31)%Z ->
  fold_left parse_part (part_json <$> bs) (mkParts m k u)
  = mkParts (fold_left read_block bs m) (fold_left next_counter bs k) u.
Proof.
  intros Hb. revert m k. induction Hb as [|b bs Hb _ IH]; intros m k Hn Hk Hl; [done|].
  cbn [fmap list_fmap fold_left length] in *. rewrite parse_part_json; [|done| |lia].
  - rewrite IH; [done| | |]; unfold next_counter; simpl in Hn; destruct (cb_type b); try lia; tauto.
  - simpl in *. destruct (cb_type b); tauto.
Qed.

Lemma parse_content_json c m : stable_message m -> parse_content c (content_json m) = push_message m c.
Proof.
  intros [[Hr Hm] Hb Hn Hl Hs]. unfold parse_content. change (IsObject (content_json m)) with true. cbn [negb]. cbv zeta.
  assert ((if get_str (content_json m) "role" =$ "model" then ("assistant" : str) else get_str (content_json m) "role")
    = msg_role m) as ->.
  { unfold get_str, content_json. members. destruct (msg_role m =$ "assistant") eqn:E.
    - apply str_eqb_eq in E as ->. done.
    - unfold jstr. rewrite cstr_cstr_clean by done. by apply str_eqb_neq in Hm as ->. }
  erewrite array_member_always; [|unfold content_json; lookup].
  rewrite parse_parts_json by (done || lia). cbn [pt_message pt_unsupported]. by rewrite from_blocks_read.
Qed.

Lemma parse_declaration_json t : stable_tool t -> parse_declaration (declaration_json t) = Some t.
Proof.
  intros (Hn & Hd & Hp). unfold parse_declaration. change (IsObject (declaration_json t)) with true. cbn [negb].
  assert (declaration_json t = JObject (
    [("name" : str, jstr (td_name t))]
    ++ when (negb (empty (td_description t))) "description" (jstr (td_description t))
    ++ match object_or_empty (td_parameters_json t) with
       | v => when (negb (empty (td_parameters_json t))) "parameters" v end)) as ->.
  { unfold declaration_json. destruct Hp as [->|(l & Hl & ->)]; [done|].
    by rewrite object_or_empty_dump, dump_nonempty, cstr_dump, Parse_dump. }
  rewrite (get_str_always _ "name" (td_name t)), (get_str_when _ "description" (td_description t))
    by (assumption || lookup).
  assert (forall l, l = td_parameters_json t -> Some (mkToolDef (td_name t) (td_description t) l) = Some t) as E
    by (intros ? ->; by destruct t).
  apply E. unfold printed_object. members.
  destruct Hp as [->|(l & Hl & ->)]; [by destruct (empty (td_description t))|].
  rewrite object_or_empty_dump, dump_nonempty by done. by destruct (empty (td_description t)).
Qed.

Lemma generation_config_nonempty r : (0 < rq_max_tokens r)%Z -> nonempty (generation_config r) = true.
Proof. intros H. unfold generation_config. by rewrite (proj2 (Z.ltb_lt 0 (rq_max_tokens r))). Qed.

Lemma gemini_request_document_roundtrip r : stable_request r -> request_of_document (document_of_request r) = r.
Proof.
  intros [[_ Hs Hst _ Hmax _ _ Hun] (Hm & Hstr & Hu) Hms Hts]. unfold request_of_document. cbv zeta.
  erewrite (array_member_always _ "contents"); [|unfold document_of_request; lookup].
  assert (forall ms c, Forall stable_message ms -> fold_left parse_content (content_json <$> ms) c
    = fold_left (λ c m, push_message m c) ms c) as Hfold.
  { intros ms c H. revert c. induction H as [|m ms Hm' _ IH]; intros c; [done|].
    cbn [fmap list_fmap fold_left]. by rewrite parse_content_json, IH. }
  rewrite Hfold, fold_push_messages by done. cbn [cv_system cv_messages cv_unsupported app].
  assert (object_member (document_of_request r) "generationConfig" = JObject (generation_config r)) as ->.
  { unfold object_member.
    assert (member (document_of_request r) "generationConfig" = Some (JObject (generation_config r))) as ->; [|done].
    unfold document_of_request. rewrite generation_config_nonempty by lia. lookup. }
  etransitivity; [|apply request_eta]. rewrite Hun, Hm, Hstr, Hu. f_equal.
  - unfold get_str, document_of_request. lookup.
  - unfold parse_system. assert (array_member (object_member (document_of_request r) "systemInstruction") "parts"
      = if empty (rq_system r) then [] else [JObject [("text" : str, jstr (rq_system r))]]) as ->.
    { unfold object_member. assert (member (document_of_request r) "systemInstruction"
        = if negb (empty (rq_system r))
          then Some (JObject [("parts" : str, JArray [JObject [("text" : str, jstr (rq_system r))]])])
          else None) as ->
        by (unfold document_of_request; lookup).
      by destruct (empty (rq_system r)). }
    destruct (empty (rq_system r)) eqn:E; [by apply empty_true in E as ->|].
    cbn [fold_left]. members. by apply cstr_cstr_clean.
  - unfold parse_tools. erewrite (array_member_when _ _ (λ ts, JObject [("functionDeclarations" : str,
      JArray (declaration_json <$> ts))]) (if nonempty (rq_tools r) then [rq_tools r] else []));
      [|unfold document_of_request; lookup].
    destruct (nonempty (rq_tools r)) eqn:E; [|by destruct (rq_tools r)].
    cbn [fmap list_fmap concat]. rewrite app_nil_r. erewrite array_member_always; [|by members].
    eapply omap_print, Hts. apply parse_declaration_json.
  - apply int_member_always; [|lia]. unfold generation_config.
    rewrite (proj2 (Z.ltb_lt 0 (rq_max_tokens r))) by lia. lookup.
  - apply number_member_double. unfold generation_config. lookup.
  - apply number_member_double. unfold generation_config. lookup.
  - erewrite (array_member_when _ _ jstr (rq_stop r)); [|unfold generation_config; lookup].
    by apply strings_of_array.
Qed.

Lemma part_json_printable b : stable_block b -> printable (part_json b).
Proof.
  intros (_ & _ & Hb). unfold part_json. destruct (cb_type b); try done; destruct Hb as [_ Ha].
  - destruct (schema_object _ Ha) as (l & -> & Hl & _). repeat split; done.
  - destruct (result_object_schema _ Ha) as (l & -> & Hl & _). repeat split; done.
Qed.

Lemma content_json_printable m : stable_message m -> printable (content_json m).
Proof.
  intros H. unfold content_json. printable_parts; [by destruct (_ =$ _)|].
  eapply Forall_mapped; [apply part_json_printable|apply (sm_blocks _ H)].
Qed.

Lemma declaration_json_printable t : stable_tool t -> printable (declaration_json t).
Proof.
  intros (_ & _ & Hp). unfold declaration_json. printable_parts.
  destruct Hp as [->|(l & Hl & ->)]; [constructor|].
  rewrite dump_nonempty, cstr_dump, Parse_dump by done. constructor; [exact Hl|constructor].
Qed.

Lemma gemini_document_printable r : stable_request r -> printable (document_of_request r).
Proof.
  intros [[_ _ _ _ Hmax Ht Hp _] _ Hms Hts]. unfold document_of_request, generation_config. printable_parts.
  - eapply Forall_mapped; [|exact Hms]. apply content_json_printable.
  - simpl. lia.
  - eapply Forall_mapped; [|exact Hts]. apply declaration_json_printable.
Qed.

Lemma gemini_roundtrip r : stable_request r -> parse_request (serialize_request r) = r.
Proof.
  intros H. unfold parse_request, serialize_request.
  rewrite Parse_dump by by apply gemini_document_printable. by apply gemini_request_document_roundtrip.
Qed.
End RoundTrip.
