(* ===== verification/ResponsesFormat.v ===== *)
(** * The OpenAI responses format

    [protocol/openai_responses_format.cpp]: reading and printing of requests and of
    stream events, and the round trip of requests. *)
From S2P Require Import Prelude Json JsonText ChatIr.
#[local] Arguments lit : simpl never.

Section Format.
Context {RJ : RapidJson}.

(** ** Requests *)

Definition parse_part (acc : Message * bool) (part : json) : Message * bool :=
  let '(msg, unsupported) := acc in
  if negb (IsObject part) then acc
  else
    let pt := get_str part "type" in
    if (pt =$ "input_text") || (pt =$ "text") || (pt =$ "output_text")
    then (add_text (get_str part "text") msg, unsupported)
    else (msg, true).

Definition parse_message_item (c : Conversation) (item : json) : Conversation :=
  let role := get_str item "role" in
  let role := if empty role then ("user" : str) else role in
  if (role =$ "system") || (role =$ "developer") then
    match member item "content" with
    | Some (JString s) => mkConversation (append_line (cv_system c) (cstr s)) (cv_messages c) (cv_unsupported c)
    | _ => c
    end
  else
    let msg := mkMessage role [] [] [] in
    let '(msg, unsupported) :=
      match member item "content" with
      | Some (JString s) => (add_text (cstr s) msg, cv_unsupported c)
      | Some (JArray l) => fold_left parse_part l (msg, cv_unsupported c)
      | _ => (msg, cv_unsupported c)
      end in
    mkConversation (cv_system c) (cv_messages c ++ [msg]) unsupported.

Definition parse_item (c : Conversation) (item : json) : Conversation :=
  if negb (IsObject item) then c
  else
    let type := get_str item "type" in
    if (type =$ "message") || HasMember item "role" then parse_message_item c item
    else if type =$ "function_call" then
      push_message (mkMessage "assistant" []
        [mkToolCall (get_str item "call_id") (get_str item "name") (get_str item "arguments")] []) c
    else if type =$ "function_call_output" then
      push_message (add_text (get_str item "output") (mkMessage "tool" [] [] (get_str item "call_id"))) c
    else c.

Definition parse_input (doc : json) (c : Conversation) : Conversation :=
  match member doc "input" with
  | Some (JString s) => push_message (add_text (cstr s) (mkMessage "user" [] [] [])) c
  | Some (JArray l) => fold_left parse_item l c
  | _ => c
  end.

Definition parse_tool (t : json) : option ToolDef :=
  if negb (IsObject t) then None
  else if negb (get_str t "type" =$ "function") then None
  else Some (mkToolDef (get_str t "name") (get_str t "description") (printed_object t "parameters")).

Definition request_of_document (doc : json) : ChatRequest :=
  let c := parse_input doc (mkConversation (get_str doc "instructions") [] false) in
  mkRequest (get_str doc "model") (cv_system c) (cv_messages c)
    (omap parse_tool (array_member doc "tools")) (bool_member doc "stream" false)
    (int_member doc "max_output_tokens" (int_member doc "max_tokens" 4096))
    (number_member doc "temperature") (number_member doc "top_p") []
    (match member doc "metadata" with Some meta => get_str meta "user_id" | None => [] end)
    (cv_unsupported c).

Definition parse_request (body : str) : ChatRequest :=
  match Parse body with
  | Some ((JObject _) as doc) => request_of_document doc
  | _ => default_request
  end.

Definition call_json (tc : ToolCall) : json :=
  JObject [("type" : str, jstr "function_call"); ("call_id" : str, jstr (tc_id tc));
           ("name" : str, jstr (tc_name tc)); ("arguments" : str, jstr (tc_arguments tc))].

(** The items one message is printed as. *)
Definition message_items (m : Message) : list json :=
  if nonempty (msg_tool_calls m) then call_json <$> msg_tool_calls m
  else if (msg_role m =$ "tool") && negb (empty (msg_tool_call_id m)) then
    [JObject [("type" : str, jstr "function_call_output"); ("call_id" : str, jstr (msg_tool_call_id m));
              ("output" : str, jstr (text_content m))]]
  else
    [JObject [("type" : str, jstr "message"); ("role" : str, jstr (msg_role m));
              ("content" : str, JArray [JObject [("type" : str, jstr "input_text");
                                                 ("text" : str, jstr (text_content m))]])]].

Definition tool_json (t : ToolDef) : json :=
  JObject (
    [("type" : str, jstr "function"); ("name" : str, jstr (td_name t))]
    ++ when (negb (empty (td_description t))) "description" (jstr (td_description t))
    ++ (if empty (td_parameters_json t) then []
        else match Parse (cstr (td_parameters_json t)) with
             | Some params => [("parameters" : str, params)]
             | None => []
             end)).

Definition document_of_request (r : ChatRequest) : json :=
  JObject (
    [("model" : str, jstr (rq_model r))]
    ++ when (negb (empty (rq_system r))) "instructions" (jstr (rq_system r))
    ++ [("input" : str, JArray (concat (message_items <$> rq_messages r)))]
    ++ when (rq_stream r) "stream" (JBool true)
    ++ when (0 <? rq_max_tokens r)%Z "max_output_tokens" (JInt (rq_max_tokens r))
    ++ double_member "temperature" (rq_temperature r)
    ++ double_member "top_p" (rq_top_p r)
    ++ when (nonempty (rq_tools r)) "tools" (JArray (tool_json <$> rq_tools r))
    ++ when (negb (empty (rq_metadata_user_id r))) "metadata"
         (JObject [("user_id" : str, jstr (rq_metadata_user_id r))])).

Definition serialize_request (r : ChatRequest) : str := dump (document_of_request r).

(** ** Stream events *)

Definition event_name (t : DeltaType) : str :=
  match t with
  | MessageStart => "response.created"
  | ContentStart => "response.output_item.added"
  | TextDelta | ContentEnd => "response.output_text.delta"
  | ToolCallDelta => "response.function_call_arguments.delta"
  | MessageEnd | Done => "response.completed"
  end.

Definition document_of_delta (d : StreamDelta) : json :=
  JObject (("type" : str, jstr (event_name (sd_type d))) ::
    match sd_type d with
    | TextDelta => [("delta" : str, jstr (sd_text d))]
    | ToolCallDelta =>
        [("delta" : str, jstr (sd_tool_arguments_delta d))]
        ++ when (negb (empty (sd_tool_call_id d))) "call_id" (jstr (sd_tool_call_id d))
        ++ when (negb (empty (sd_tool_name d))) "name" (jstr (sd_tool_name d))
    | _ => []
    end).

Definition serialize_stream_event (d : StreamDelta) : str :=
  match sd_type d with
  | Done =>
      "event: response.completed" ++ [LF] ++ q "data: {'type':'response.completed'}" ++ [LF; LF]
  | _ =>
      "event: " ++ event_name (sd_type d) ++ [LF] ++ "data: " ++ dump (document_of_delta d) ++ [LF; LF]
  end.

Definition delta_of_document (doc : json) : StreamDelta :=
  let type := get_str doc "type" in
  if type =$ "response.created" then mkDelta MessageStart [] [] [] [] [] 0 [] [] 0 0
  else if type =$ "response.output_item.added" then mkDelta ContentStart [] [] [] [] [] 0 [] [] 0 0
  else if type =$ "response.output_text.delta" then
    mkDelta TextDelta [] (get_str doc "delta") [] [] [] 0 [] [] 0 0
  else if type =$ "response.function_call_arguments.delta" then
    mkDelta ToolCallDelta [] [] (get_str doc "call_id") (get_str doc "name") (get_str doc "delta") 0 [] [] 0 0
  else if type =$ "response.completed" then mkDelta Done [] [] [] [] [] 0 [] [] 0 0
  else if (type =$ "response.output_text.done") || (type =$ "response.output_item.done")
          || (type =$ "response.content_part.done") || (type =$ "response.content_part.added")
  then mkDelta ContentEnd [] [] [] [] [] 0 [] [] 0 0
  else default_delta.

Definition parse_stream_event (data : str) : StreamDelta :=
  match Parse data with
  | Some ((JObject _) as doc) => delta_of_document doc
  | _ => default_delta
  end.
End Format.

(** ** The round trip of requests

    The format has no stop sequences.  A message is a text, one tool call of the
    assistant, or the output of a tool. *)
Section RoundTrip.
Context `{RL : RapidJsonLaws}.

Inductive stable_message : Message -> Prop :=
| stable_text role t :
    clean role -> clean t -> role <> [] -> role <> "system" -> role <> "developer" ->
    stable_message (mkMessage role [text_block t] [] [])
| stable_call tc : clean_call tc -> stable_message (mkMessage "assistant" [] [tc] [])
| stable_output id t :
    clean id -> clean t -> id <> [] -> stable_message (mkMessage "tool" [text_block t] [] id).

Definition stable_tool (t : ToolDef) : Prop :=
  clean (td_name t) /\ clean (td_description t)
  /\ (td_parameters_json t = [] \/ schema_text (td_parameters_json t)).

Record stable_request (r : ChatRequest) : Prop := {
  sr_clean : clean_request r;
  sr_absent : rq_stop r = [];
  sr_messages : Forall stable_message (rq_messages r);
  sr_tools : Forall stable_tool (rq_tools r);
}.

Lemma parse_items_json c m : stable_message m -> fold_left parse_item (message_items m) c = push_message m c.
Proof.
  intros [role t Hr Ht Hne Hs Hd|tc (Hi & Hn & Ha)|id t Hi Ht Hne]; unfold message_items.
  - cbn [msg_tool_calls nonempty msg_role msg_tool_call_id empty negb]. rewrite andb_false_r. cbn [fold_left].
    rewrite text_content_single. unfold parse_item, parse_message_item, jstr. members.
    rewrite cstr_cstr_clean by done. apply empty_false in Hne as ->. apply str_eqb_neq in Hs as ->, Hd as ->.
    cbn [orb fold_left parse_part]. members. by rewrite cstr_cstr_clean.
  - destruct tc as [i n a]. cbn in Hi, Hn, Ha. cbn [msg_tool_calls nonempty fmap list_fmap fold_left].
    unfold parse_item, call_json, jstr. cbn [tc_id tc_name tc_arguments]. members. by rewrite !cstr_cstr_clean.
  - cbn [msg_tool_calls nonempty msg_role msg_tool_call_id]. apply empty_false in Hne as ->. eval_keys.
    cbn [andb negb fold_left]. rewrite text_content_single. unfold parse_item, jstr. members.
    by rewrite !cstr_cstr_clean.
Qed.

Lemma responses_parse_tool_json t : stable_tool t -> parse_tool (tool_json t) = Some t.
Proof.
  intros (Hn & Hd & Hp). unfold parse_tool. change (IsObject (tool_json t)) with true.
  change (get_str (tool_json t) "type") with (cstr (cstr "function")). eval_keys.
  assert (tool_json t = JObject (
    [("type" : str, jstr "function"); ("name" : str, jstr (td_name t))]
    ++ when (negb (empty (td_description t))) "description" (jstr (td_description t))
    ++ when (negb (empty (td_parameters_json t))) "parameters" (object_or_empty (td_parameters_json t)))) as ->.
  { unfold tool_json. destruct Hp as [->|(l & Hl & ->)]; [done|].
    by rewrite object_or_empty_dump, dump_nonempty, cstr_dump, Parse_dump. }
  rewrite (get_str_always _ "name" (td_name t)), (get_str_when _ "description" (td_description t))
    by (assumption || lookup).
  assert (forall l, l = td_parameters_json t -> Some (mkToolDef (td_name t) (td_description t) l) = Some t) as E
    by (intros ? ->; by destruct t).
  apply E. unfold printed_object. members.
  destruct Hp as [->|(l & Hl & ->)]; [by destruct (empty (td_description t))|].
  rewrite object_or_empty_dump, dump_nonempty by done. by destruct (empty (td_description t)).
Qed.

Lemma responses_request_document_roundtrip r : stable_request r -> request_of_document (document_of_request r) = r.
Proof.
  intros [[Hm Hs _ Hu Hmax _ _ Hun] Hst Hms Hts]. unfold request_of_document, parse_input. cbv zeta.
  assert (member (document_of_request r) "input" = Some (JArray (concat (message_items <$> rq_messages r)))) as ->
    by (unfold document_of_request; lookup).
  assert (forall ms c, Forall stable_message ms -> fold_left parse_item (concat (message_items <$> ms)) c
    = fold_left (λ c m, push_message m c) ms c) as Hfold.
  { intros ms c H. revert c. induction H as [|m ms Hm' _ IH]; intros c; [done|].
    cbn [fmap list_fmap fold_left concat]. by rewrite fold_left_app, parse_items_json, IH. }
  rewrite Hfold, fold_push_messages by done. cbn [cv_system cv_messages cv_unsupported app].
  etransitivity; [|apply request_eta]. rewrite Hun, Hst. f_equal.
  - apply get_str_always; [unfold document_of_request; lookup|done].
  - apply get_str_when; [unfold document_of_request; lookup|done].
  - erewrite (array_member_when _ _ tool_json (rq_tools r)); [|unfold document_of_request; lookup].
    eapply omap_print, Hts. apply responses_parse_tool_json.
  - apply bool_member_when. unfold document_of_request. lookup.
  - apply int_member_always; [|lia]. unfold document_of_request.
    rewrite (proj2 (Z.ltb_lt 0 (rq_max_tokens r))) by lia. lookup.
  - apply number_member_double. unfold document_of_request. lookup.
  - apply number_member_double. unfold document_of_request. lookup.
  - assert (member (document_of_request r) "metadata" = if negb (empty (rq_metadata_user_id r))
      then Some (JObject [("user_id" : str, jstr (rq_metadata_user_id r))]) else None) as ->
      by (unfold document_of_request; lookup).
    destruct (rq_metadata_user_id r); [done|]. apply get_str_always; [by members|done].
Qed.

Lemma message_items_printable m : Forall printable (message_items m).
Proof.
  unfold message_items. destruct (nonempty _); [by apply Forall_mapped_all|].
  by destruct (_ && _); repeat constructor.
Qed.

Lemma responses_tool_json_printable t : stable_tool t -> printable (tool_json t).
Proof.
  intros (_ & _ & Hp). unfold tool_json. printable_parts.
  destruct Hp as [->|(l & Hl & ->)]; [constructor|].
  rewrite dump_nonempty, cstr_dump, Parse_dump by done. constructor; [exact Hl|constructor].
Qed.

Lemma responses_document_printable r : stable_request r -> printable (document_of_request r).
Proof.
  intros [[_ _ _ _ Hmax Ht Hp _] _ Hms Hts]. unfold document_of_request. printable_parts.
  - clear. induction (rq_messages r) as [|m ms IH]; [constructor|].
    cbn [fmap list_fmap concat]. apply Forall_app. split; [apply message_items_printable|done].
  - simpl. lia.
  - eapply Forall_mapped; [|exact Hts]. apply responses_tool_json_printable.
Qed.

Lemma responses_roundtrip r : stable_request r -> parse_request (serialize_request r) = r.
Proof.
  intros H. unfold parse_request, serialize_request.
  rewrite Parse_dump by by apply responses_document_printable. by apply responses_request_document_roundtrip.
Qed.
End RoundTrip.
