(* ===== verification/StreamPipe.v ===== *)
(** * The streaming pipe

    [forwarder/stream_pipe.{h,cpp}]: server-sent events are read from the
    provider, split, inspected for usage and terminal events, submitted to the
    content policy, optionally converted, and written to the client.

    The outside world is made of arguments: the results of the successive reads
    are a script, the socket of the client and the steady clock are functions of
    the number of the call, the content policy is a function of the number of the
    call and of the content, RapidJSON is the class [RapidJson] and the conversion
    between provider formats the class [StreamCodec]. *)
From S2P Require Import Prelude Json Capability.
#[local] Open Scope Z_scope.

(** ** Data *)

Inductive StreamPolicyDisposition := PolicyAllow | PolicyBlock | PolicyFailClosed.

#[global] Instance disposition_eq_dec : EqDecision StreamPolicyDisposition.
Proof. solve_decision. Defined.

Record StreamPolicyDecision := mkDecision {
  disposition : StreamPolicyDisposition;
  dec_error_code : str;
  dec_message : str;
}.

Record StreamResult := mkResult {
  bytes_forwarded : Z;
  input_tokens : Z;
  output_tokens : Z;
  cache_create_tokens : Z;
  cache_read_tokens : Z;
  reasoning_tokens : Z;
  first_token_ms : Z;
  total_duration_ms : Z;
  completed : bool;
  terminal_event_seen : bool;
  incomplete : bool;
  provider_disconnect : bool;
  timed_out : bool;
  client_disconnect : bool;
  malformed_usage : bool;
  policy_blocked : bool;
  policy_failed_closed : bool;
  policy_error_code : str;
  policy_message : str;
  provider_usage_json : str;
}.

Definition set_bytes_forwarded (v : Z) (r : StreamResult) : StreamResult :=
  mkResult v (input_tokens r) (output_tokens r) (cache_create_tokens r) (cache_read_tokens r)
    (reasoning_tokens r) (first_token_ms r) (total_duration_ms r) (completed r)
    (terminal_event_seen r) (incomplete r) (provider_disconnect r) (timed_out r)
    (client_disconnect r) (malformed_usage r) (policy_blocked r) (policy_failed_closed r)
    (policy_error_code r) (policy_message r) (provider_usage_json r).
Definition set_input_tokens (v : Z) (r : StreamResult) : StreamResult :=
  mkResult (bytes_forwarded r) v (output_tokens r) (cache_create_tokens r) (cache_read_tokens r)
    (reasoning_tokens r) (first_token_ms r) (total_duration_ms r) (completed r)
    (terminal_event_seen r) (incomplete r) (provider_disconnect r) (timed_out r)
    (client_disconnect r) (malformed_usage r) (policy_blocked r) (policy_failed_closed r)
    (policy_error_code r) (policy_message r) (provider_usage_json r).
Definition set_output_tokens (v : Z) (r : StreamResult) : StreamResult :=
  mkResult (bytes_forwarded r) (input_tokens r) v (cache_create_tokens r) (cache_read_tokens r)
    (reasoning_tokens r) (first_token_ms r) (total_duration_ms r) (completed r)
    (terminal_event_seen r) (incomplete r) (provider_disconnect r) (timed_out r)
    (client_disconnect r) (malformed_usage r) (policy_blocked r) (policy_failed_closed r)
    (policy_error_code r) (policy_message r) (provider_usage_json r).
Definition set_cache_create_tokens (v : Z) (r : StreamResult) : StreamResult :=
  mkResult (bytes_forwarded r) (input_tokens r) (output_tokens r) v (cache_read_tokens r)
    (reasoning_tokens r) (first_token_ms r) (total_duration_ms r) (completed r)
    (terminal_event_seen r) (incomplete r) (provider_disconnect r) (timed_out r)
    (client_disconnect r) (malformed_usage r) (policy_blocked r) (policy_failed_closed r)
    (policy_error_code r) (policy_message r) (provider_usage_json r).
Definition set_cache_read_tokens (v : Z) (r : StreamResult) : StreamResult :=
  mkResult (bytes_forwarded r) (input_tokens r) (output_tokens r) (cache_create_tokens r) v
    (reasoning_tokens r) (first_token_ms r) (total_duration_ms r) (completed r)
    (terminal_event_seen r) (incomplete r) (provider_disconnect r) (timed_out r)
    (client_disconnect r) (malformed_usage r) (policy_blocked r) (policy_failed_closed r)
    (policy_error_code r) (policy_message r) (provider_usage_json r).
Definition set_reasoning_tokens (v : Z) (r : StreamResult) : StreamResult :=
  mkResult (bytes_forwarded r) (input_tokens r) (output_tokens r) (cache_create_tokens r)
    (cache_read_tokens r) v (first_token_ms r) (total_duration_ms r) (completed r)
    (terminal_event_seen r) (incomplete r) (provider_disconnect r) (timed_out r)
    (client_disconnect r) (malformed_usage r) (policy_blocked r) (policy_failed_closed r)
    (policy_error_code r) (policy_message r) (provider_usage_json r).
Definition set_first_token_ms (v : Z) (r : StreamResult) : StreamResult :=
  mkResult (bytes_forwarded r) (input_tokens r) (output_tokens r) (cache_create_tokens r)
    (cache_read_tokens r) (reasoning_tokens r) v (total_duration_ms r) (completed r)
    (terminal_event_seen r) (incomplete r) (provider_disconnect r) (timed_out r)
    (client_disconnect r) (malformed_usage r) (policy_blocked r) (policy_failed_closed r)
    (policy_error_code r) (policy_message r) (provider_usage_json r).
Definition set_total_duration_ms (v : Z) (r : StreamResult) : StreamResult :=
  mkResult (bytes_forwarded r) (input_tokens r) (output_tokens r) (cache_create_tokens r)
    (cache_read_tokens r) (reasoning_tokens r) (first_token_ms r) v (completed r)
    (terminal_event_seen r) (incomplete r) (provider_disconnect r) (timed_out r)
    (client_disconnect r) (malformed_usage r) (policy_blocked r) (policy_failed_closed r)
    (policy_error_code r) (policy_message r) (provider_usage_json r).
Definition set_completed (v : bool) (r : StreamResult) : StreamResult :=
  mkResult (bytes_forwarded r) (input_tokens r) (output_tokens r) (cache_create_tokens r)
    (cache_read_tokens r) (reasoning_tokens r) (first_token_ms r) (total_duration_ms r) v
    (terminal_event_seen r) (incomplete r) (provider_disconnect r) (timed_out r)
    (client_disconnect r) (malformed_usage r) (policy_blocked r) (policy_failed_closed r)
    (policy_error_code r) (policy_message r) (provider_usage_json r).
Definition set_terminal_event_seen (v : bool) (r : StreamResult) : StreamResult :=
  mkResult (bytes_forwarded r) (input_tokens r) (output_tokens r) (cache_create_tokens r)
    (cache_read_tokens r) (reasoning_tokens r) (first_token_ms r) (total_duration_ms r)
    (completed r) v (incomplete r) (provider_disconnect r) (timed_out r) (client_disconnect r)
    (malformed_usage r) (policy_blocked r) (policy_failed_closed r) (policy_error_code r)
    (policy_message r) (provider_usage_json r).
Definition set_incomplete (v : bool) (r : StreamResult) : StreamResult :=
  mkResult (bytes_forwarded r) (input_tokens r) (output_tokens r) (cache_create_tokens r)
    (cache_read_tokens r) (reasoning_tokens r) (first_token_ms r) (total_duration_ms r)
    (completed r) (terminal_event_seen r) v (provider_disconnect r) (timed_out r)
    (client_disconnect r) (malformed_usage r) (policy_blocked r) (policy_failed_closed r)
    (policy_error_code r) (policy_message r) (provider_usage_json r).
Definition set_provider_disconnect (v : bool) (r : StreamResult) : StreamResult :=
  mkResult (bytes_forwarded r) (input_tokens r) (output_tokens r) (cache_create_tokens r)
    (cache_read_tokens r) (reasoning_tokens r) (first_token_ms r) (total_duration_ms r)
    (completed r) (terminal_event_seen r) (incomplete r) v (timed_out r) (client_disconnect r)
    (malformed_usage r) (policy_blocked r) (policy_failed_closed r) (policy_error_code r)
    (policy_message r) (provider_usage_json r).
Definition set_timed_out (v : bool) (r : StreamResult) : StreamResult :=
  mkResult (bytes_forwarded r) (input_tokens r) (output_tokens r) (cache_create_tokens r)
    (cache_read_tokens r) (reasoning_tokens r) (first_token_ms r) (total_duration_ms r)
    (completed r) (terminal_event_seen r) (incomplete r) (provider_disconnect r) v
    (client_disconnect r) (malformed_usage r) (policy_blocked r) (policy_failed_closed r)
    (policy_error_code r) (policy_message r) (provider_usage_json r).
Definition set_client_disconnect (v : bool) (r : StreamResult) : StreamResult :=
  mkResult (bytes_forwarded r) (input_tokens r) (output_tokens r) (cache_create_tokens r)
    (cache_read_tokens r) (reasoning_tokens r) (first_token_ms r) (total_duration_ms r)
    (completed r) (terminal_event_seen r) (incomplete r) (provider_disconnect r) (timed_out r)
    v (malformed_usage r) (policy_blocked r) (policy_failed_closed r) (policy_error_code r)
    (policy_message r) (provider_usage_json r).
Definition set_malformed_usage (v : bool) (r : StreamResult) : StreamResult :=
  mkResult (bytes_forwarded r) (input_tokens r) (output_tokens r) (cache_create_tokens r)
    (cache_read_tokens r) (reasoning_tokens r) (first_token_ms r) (total_duration_ms r)
    (completed r) (terminal_event_seen r) (incomplete r) (provider_disconnect r) (timed_out r)
    (client_disconnect r) v (policy_blocked r) (policy_failed_closed r) (policy_error_code r)
    (policy_message r) (provider_usage_json r).
Definition set_policy_blocked (v : bool) (r : StreamResult) : StreamResult :=
  mkResult (bytes_forwarded r) (input_tokens r) (output_tokens r) (cache_create_tokens r)
    (cache_read_tokens r) (reasoning_tokens r) (first_token_ms r) (total_duration_ms r)
    (completed r) (terminal_event_seen r) (incomplete r) (provider_disconnect r) (timed_out r)
    (client_disconnect r) (malformed_usage r) v (policy_failed_closed r) (policy_error_code r)
    (policy_message r) (provider_usage_json r).
Definition set_policy_failed_closed (v : bool) (r : StreamResult) : StreamResult :=
  mkResult (bytes_forwarded r) (input_tokens r) (output_tokens r) (cache_create_tokens r)
    (cache_read_tokens r) (reasoning_tokens r) (first_token_ms r) (total_duration_ms r)
    (completed r) (terminal_event_seen r) (incomplete r) (provider_disconnect r) (timed_out r)
    (client_disconnect r) (malformed_usage r) (policy_blocked r) v (policy_error_code r)
    (policy_message r) (provider_usage_json r).
Definition set_policy_error_code (v : str) (r : StreamResult) : StreamResult :=
  mkResult (bytes_forwarded r) (input_tokens r) (output_tokens r) (cache_create_tokens r)
    (cache_read_tokens r) (reasoning_tokens r) (first_token_ms r) (total_duration_ms r)
    (completed r) (terminal_event_seen r) (incomplete r) (provider_disconnect r) (timed_out r)
    (client_disconnect r) (malformed_usage r) (policy_blocked r) (policy_failed_closed r) v
    (policy_message r) (provider_usage_json r).
Definition set_policy_message (v : str) (r : StreamResult) : StreamResult :=
  mkResult (bytes_forwarded r) (input_tokens r) (output_tokens r) (cache_create_tokens r)
    (cache_read_tokens r) (reasoning_tokens r) (first_token_ms r) (total_duration_ms r)
    (completed r) (terminal_event_seen r) (incomplete r) (provider_disconnect r) (timed_out r)
    (client_disconnect r) (malformed_usage r) (policy_blocked r) (policy_failed_closed r)
    (policy_error_code r) v (provider_usage_json r).
Definition set_provider_usage_json (v : str) (r : StreamResult) : StreamResult :=
  mkResult (bytes_forwarded r) (input_tokens r) (output_tokens r) (cache_create_tokens r)
    (cache_read_tokens r) (reasoning_tokens r) (first_token_ms r) (total_duration_ms r)
    (completed r) (terminal_event_seen r) (incomplete r) (provider_disconnect r) (timed_out r)
    (client_disconnect r) (malformed_usage r) (policy_blocked r) (policy_failed_closed r)
    (policy_error_code r) (policy_message r) v.

Definition default_result : StreamResult :=
  mkResult 0 0 0 0 0 0 0 0 false false false false false false false false false [] [] [].

Inductive ProtocolMode :=
| Passthrough | AnthropicToOpenAI | OpenAIToAnthropic | GeminiCompat | CrossProtocol.

#[global] Instance ProtocolMode_eq_dec : EqDecision ProtocolMode.
Proof. solve_decision. Defined.

Record StreamPipeConfig := mkConfig {
  read_buf_size : nat;
  write_buf_size : nat;
  first_token_timeout_ms : Z;
  inter_chunk_timeout_ms : Z;
  total_timeout_ms : Z;
  keepalive_interval_ms : Z;
  max_policy_event_bytes : nat;
  inject_keepalive_enabled : bool;
  policy : option (nat -> str -> StreamPolicyDecision);
}.

(** The member initialisers of the structure. *)
Definition default_config : StreamPipeConfig :=
  mkConfig (64 * 1024)%nat (64 * 1024)%nat 60000 120000 300000 15000 (128 * 1024)%nat true None.

(** What one call of the read function yields. *)
Inductive ReadResult :=
| Chunk (bytes : str)
| Eof
| ReadError (errno : Z).

(** The format conversions of [protocol/], per format. *)
Class StreamCodec := {
  StreamDelta : Type;
  parse_stream_event : Format -> str -> str -> res StreamDelta;
  serialize_stream_event : Format -> StreamDelta -> str;
}.

(** ** Usage counts *)

Definition valid_usage_count (v : json) : bool :=
  if IsInt v then 0 <=? get_int v
  else if IsInt64 v then (0 <=? get_int v) && (get_int v <=? 2 ^ 31 - 1)
  else if IsUint v then get_int v <=? 2 ^ 31 - 1
  else if IsUint64 v then get_int v <=? 2 ^ 31 - 1
  else false.

Definition count_fields : list str :=
  ["input_tokens" : str; "prompt_tokens" : str; "output_tokens" : str;
   "completion_tokens" : str; "cache_creation_input_tokens" : str;
   "cache_read_input_tokens" : str; "promptTokenCount" : str; "candidatesTokenCount" : str;
   "cachedContentTokenCount" : str; "reasoning_tokens" : str; "thoughtsTokenCount" : str].

Definition usage_has_invalid_counts (usage : json) : bool :=
  existsb (λ field, has usage field (λ v, negb (valid_usage_count v))) count_fields
  || existsb (λ details_name, has usage details_name (λ details,
        negb (IsObject details)
        || existsb (λ field, has details field (λ v, negb (valid_usage_count v)))
             ["cached_tokens" : str; "reasoning_tokens" : str]))
       ["prompt_tokens_details" : str; "input_tokens_details" : str;
        "output_tokens_details" : str].

(** [ECONNRESET], [ECONNABORTED], [EPIPE], [ENOTCONN]. *)
Definition provider_disconnect_errno (error : Z) : bool :=
  (error =? 0) || (error =? 104) || (error =? 103) || (error =? 32) || (error =? 107).

(** ** Server-sent events *)

(** The lines a scan of an event visits: the text before each line feed, and
    what follows the last one when it is not empty. *)
Fixpoint sse_lines (cur s : str) : list str :=
  match s with
  | [] => match cur with [] => [] | _ => [rev cur] end
  | c :: s' => if (c =? LF)%char then rev cur :: sse_lines [] s' else sse_lines (c :: cur) s'
  end.

Definition is_blank (c : ascii) : bool := (c =? " ")%char.
Definition is_cr (c : ascii) : bool := (c =? CR)%char.

(** The fields of an event: the last [event:] and the last [data:] line;
    [is_terminal_event] also strips carriage returns from the data. *)
Definition scan_line (strip_data : bool) (fields : str * str) (line : str) : str * str :=
  if starts_with line "event:" then
    (drop_while_back is_cr (drop_while is_blank (drop 6 line)), fields.2)
  else if starts_with line "data:" then
    (fields.1, (if strip_data then drop_while_back is_cr else id)
                 (drop_while is_blank (drop 5 line)))
  else fields.

Definition sse_fields (strip_data : bool) (event_data : str) : str * str :=
  fold_left (scan_line strip_data) (sse_lines [] event_data) ([], []).

(** The first complete event of the accumulator and what follows it: the
    earlier of the two delimiters ends it. *)
Definition next_event (acc : str) : option (str * str) :=
  let lf := sfind [LF; LF] acc in
  let crlf := sfind [CR; LF; CR; LF] acc in
  let choose :=
    match lf, crlf with
    | None, None => None
    | Some d, None => Some (d, 2%nat)
    | None, Some d => Some (d, 4%nat)
    | Some d, Some d' => if (d' <? d)%nat then Some (d', 4%nat) else Some (d, 2%nat)
    end in
  match choose with
  | None => None
  | Some (delim, size) =>
      Some (take (delim + size) acc, drop (delim + size) acc)
  end.

(** ** Quoting *)

Definition hex_char (n : nat) : ascii :=
  nth n (lit "0123456789abcdef") NUL.

Definition BACKSLASH : ascii := "\"%char.

Definition quote_char (c : ascii) : str :=
  if (c =? DQ)%char then [BACKSLASH; DQ]
  else if (c =? BACKSLASH)%char then [BACKSLASH; BACKSLASH]
  else if (code c =? 8)%nat then [BACKSLASH; "b"%char]
  else if (code c =? 12)%nat then [BACKSLASH; "f"%char]
  else if (c =? LF)%char then [BACKSLASH; "n"%char]
  else if (c =? CR)%char then [BACKSLASH; "r"%char]
  else if (code c =? 9)%nat then [BACKSLASH; "t"%char]
  else if (code c <? 32)%nat
  then [BACKSLASH; "u"%char; "0"%char; "0"%char; hex_char (code c / 16); hex_char (code c mod 16)]
  else [c].

Definition json_quote (value : str) : str :=
  [DQ] ++ concat (map quote_char value) ++ [DQ].

(** ** The state of a running pipe

    Its result, its event accumulator, the bytes the client's socket took, the
    numbers of calls made on the world, and the local variables of the loop. *)
Record Pipe := mkPipe {
  p_result : StreamResult;
  p_acc : str;
  p_out : str;
  p_writes : nat;
  p_ticks : nat;
  p_policy_calls : nat;
  p_start : Z;
  p_last_data : Z;
  p_last_write : Z;
  p_first : bool;
}.

Definition set_p_result (v : StreamResult) (r : Pipe) : Pipe :=
  mkPipe v (p_acc r) (p_out r) (p_writes r) (p_ticks r) (p_policy_calls r) (p_start r) (p_last_data
    r) (p_last_write r) (p_first r).
Definition set_p_acc (v : str) (r : Pipe) : Pipe :=
  mkPipe (p_result r) v (p_out r) (p_writes r) (p_ticks r) (p_policy_calls r) (p_start r)
    (p_last_data r) (p_last_write r) (p_first r).
Definition set_p_out (v : str) (r : Pipe) : Pipe :=
  mkPipe (p_result r) (p_acc r) v (p_writes r) (p_ticks r) (p_policy_calls r) (p_start r)
    (p_last_data r) (p_last_write r) (p_first r).
Definition set_p_writes (v : nat) (r : Pipe) : Pipe :=
  mkPipe (p_result r) (p_acc r) (p_out r) v (p_ticks r) (p_policy_calls r) (p_start r) (p_last_data
    r) (p_last_write r) (p_first r).
Definition set_p_ticks (v : nat) (r : Pipe) : Pipe :=
  mkPipe (p_result r) (p_acc r) (p_out r) (p_writes r) v (p_policy_calls r) (p_start r)
    (p_last_data r) (p_last_write r) (p_first r).
Definition set_p_policy_calls (v : nat) (r : Pipe) : Pipe :=
  mkPipe (p_result r) (p_acc r) (p_out r) (p_writes r) (p_ticks r) v (p_start r) (p_last_data r)
    (p_last_write r) (p_first r).
Definition set_p_start (v : Z) (r : Pipe) : Pipe :=
  mkPipe (p_result r) (p_acc r) (p_out r) (p_writes r) (p_ticks r) (p_policy_calls r) v
    (p_last_data r) (p_last_write r) (p_first r).
Definition set_p_last_data (v : Z) (r : Pipe) : Pipe :=
  mkPipe (p_result r) (p_acc r) (p_out r) (p_writes r) (p_ticks r) (p_policy_calls r) (p_start r) v
    (p_last_write r) (p_first r).
Definition set_p_last_write (v : Z) (r : Pipe) : Pipe :=
  mkPipe (p_result r) (p_acc r) (p_out r) (p_writes r) (p_ticks r) (p_policy_calls r) (p_start r)
    (p_last_data r) v (p_first r).
Definition set_p_first (v : bool) (r : Pipe) : Pipe :=
  mkPipe (p_result r) (p_acc r) (p_out r) (p_writes r) (p_ticks r) (p_policy_calls r) (p_start r)
    (p_last_data r) (p_last_write r) v.

Definition on_result (f : StreamResult -> StreamResult) (p : Pipe) : Pipe :=
  set_p_result (f (p_result p)) p.

(** How a step of the loop goes on. *)
Inductive flow := Continue (p : Pipe) | Return (p : Pipe) | Throw (p : Pipe) (e : fault).

Definition flow_pipe (f : flow) : Pipe :=
  match f with Continue p | Return p | Throw p _ => p end.

Section StreamPipe.
Context {RJ : RapidJson} {SC : StreamCodec}.
Context (config : StreamPipeConfig) (mode : ProtocolMode).
Context (source_format target_format : Format).
(** The [n]-th write returns [client_write n data]; [clock n] is the [n]-th
    reading of the steady clock. *)
Context (client_write : nat -> str -> Z) (clock : nat -> Z).

Definition now_ms (p : Pipe) : Pipe * Z := (set_p_ticks (S (p_ticks p)) p, clock (p_ticks p)).

Definition do_write (data : str) (p : Pipe) : Pipe * Z :=
  let count := client_write (p_writes p) data in
  (set_p_out (p_out p ++ take (Z.to_nat count) data) (set_p_writes (S (p_writes p)) p), count).

(** ** [write_all] *)

(** The loop makes progress with every successful write: the length of the
    data is enough fuel. *)
Fixpoint write_loop (fuel : nat) (data : str) (p : Pipe) : Pipe * bool :=
  match data, fuel with
  | [], _ => (p, true)
  | _, O => (p, true)
  | _, S fuel' =>
      let '(p, count) := do_write data p in
      if count <=? 0 then (on_result (set_client_disconnect true) p, false)
      else write_loop fuel' (drop (Z.to_nat count) data) p
  end.

Definition add_bytes (n : nat) (r : StreamResult) : StreamResult :=
  set_bytes_forwarded (bytes_forwarded r + Z.of_nat n) r.

Definition write_all (data : str) (p : Pipe) : Pipe * bool :=
  let '(p, ok) := write_loop (length data) data p in
  if ok then (on_result (add_bytes (length data)) p, true) else (p, false).

(** ** Content policy *)

Definition policy_exempt (provider_event : str) : bool :=
  contains provider_event "data: [DONE]"
  || bool_decide (source_format = Anthropic) && contains provider_event "event: message_stop".

Definition refused (d : StreamPolicyDecision) (r : StreamResult) : StreamResult :=
  let blocked := bool_decide (disposition d = PolicyBlock) in
  set_incomplete true
    (set_policy_message
       (if empty (dec_message d)
        then (if blocked then "Provider response was withheld by the active content policy"
              else "Provider response could not be cleared for delivery")
        else dec_message d)
    (set_policy_error_code
       (if empty (dec_error_code d)
        then (if blocked then "content_policy_blocked" else "content_policy_unavailable")
        else dec_error_code d)
    (set_policy_failed_closed (bool_decide (disposition d = PolicyFailClosed))
    (set_policy_blocked blocked r)))).

Definition too_large : StreamPolicyDecision :=
  mkDecision PolicyFailClosed "content_policy_payload_too_large"
    "A streaming response event exceeded the content policy limit".

Definition apply_policy (provider_event client_event : str) (p : Pipe) : Pipe * bool :=
  match policy config with
  | None => (p, true)
  | Some evaluate =>
      if policy_exempt provider_event then (p, true)
      else
        let content := if empty client_event then provider_event else client_event in
        let '(p, d) :=
          if (max_policy_event_bytes config <? length content)%nat then (p, too_large)
          else (set_p_policy_calls (S (p_policy_calls p)) p, evaluate (p_policy_calls p) content) in
        if bool_decide (disposition d = PolicyAllow) then (p, true)
        else (on_result (refused d) p, false)
  end.

Definition policy_error_event (r : StreamResult) : str :=
  let code := json_quote (policy_error_code r) in
  let message := json_quote (policy_message r) in
  match target_format with
  | Anthropic =>
      "event: error" ++ [LF] ++ q "data: {'type':'error','error':{'type':"
        ++ code ++ q ",'message':" ++ message ++ "}}" ++ [LF; LF]
  | OpenAIResponses =>
      "event: response.failed" ++ [LF]
        ++ q "data: {'type':'response.failed','response':{'status':'failed','error':{'code':"
        ++ code ++ q ",'message':" ++ message ++ "}}}" ++ [LF; LF]
  | _ =>
      q "data: {'error':{'type':" ++ code ++ q ",'message':" ++ message ++ "}}" ++ [LF; LF]
  end.

Definition emit_policy_error (p : Pipe) : Pipe :=
  (write_all (policy_error_event (p_result p)) p).1.

(** [true] only when the client write failed. *)
Definition keepalive : str := ": keepalive" ++ [LF; LF].

Definition inject_keepalive (p : Pipe) : Pipe * bool :=
  let '(p, now) := now_ms p in
  if now - p_last_write p <? keepalive_interval_ms config then (p, false)
  else let '(p, count) := do_write keepalive p in (p, count <=? 0).

(** ** Terminal events *)

Definition nonempty_string (v : json) : bool :=
  match v with JString s => negb (empty (cstr s)) | _ => false end.

Definition is_terminal_event (event_data : str) : bool :=
  let '(event_type, data_payload) := sse_fields true event_data in
  match source_format with
  | Anthropic => event_type =$ "message_stop"
  | _ =>
      if data_payload =$ "[DONE]" then true
      else match Parse data_payload with
           | Some ((JObject _) as document) =>
               match source_format with
               | OpenAIResponses =>
                   has document "type"
                     (λ t, IsString t && (cstr (get_string t) =$ "response.completed"))
               | OpenAIChatCompletions =>
                   has document "choices" (λ choices,
                     existsb (λ choice, IsObject choice && has choice "finish_reason" nonempty_string)
                       (elements choices))
               | Gemini =>
                   has document "candidates" (λ candidates,
                     existsb (λ candidate, IsObject candidate
                                && has candidate "finishReason" nonempty_string)
                       (elements candidates))
               | Anthropic => false
               end
           | _ => false
           end
  end.

(** ** Usage *)

(** The [data:] payload as [extract_usage_from_event] delimits it. *)
Definition is_blank_or_tab (c : ascii) : bool := (c =? " ")%char || (code c =? 9)%nat.

Definition usage_payload (event_data : str) : option str :=
  match sfind "data:" event_data with
  | None => None
  | Some i =>
      let rest := drop_while is_blank_or_tab (drop (i + 5)%nat event_data) in
      let payload := drop_while_back is_cr (upto (sfind [LF] rest) rest) in
      if empty payload || (payload =$ "[DONE]") then None else Some payload
  end.

Definition usage_object (document : json) : option json :=
  let objects := [member document "usage"; member document "usageMetadata";
                  (m ← member document "message"; member m "usage");
                  (m ← member document "response"; member m "usage")] in
  head (omap (λ o, u ← o; if IsObject u then Some u else None) objects).

(** The lambda [integer]. *)
Definition usage_integer (v : json) : Z :=
  if IsInt v then get_int v else if IsInt64 v then i32 (get_int v) else 0.

Definition max_member (usage : json) (keys : list str) (n : Z) : Z :=
  fold_left (λ n key, match member usage key with
                      | Some v => Z.max n (usage_integer v)
                      | None => n
                      end) keys n.

Definition merge_usage (usage : json) (r : StreamResult) : StreamResult :=
  let r := set_malformed_usage (usage_has_invalid_counts usage) r in
  let r := set_input_tokens (max_member usage
    ["input_tokens" : str; "prompt_tokens" : str; "promptTokenCount" : str] (input_tokens r)) r in
  let r := set_output_tokens (max_member usage
    ["output_tokens" : str; "completion_tokens" : str; "candidatesTokenCount" : str]
    (output_tokens r)) r in
  let r := set_cache_create_tokens (max_member usage
    ["cache_creation_input_tokens" : str] (cache_create_tokens r)) r in
  let r := set_cache_read_tokens (max_member usage
    ["cache_read_input_tokens" : str; "cachedContentTokenCount" : str] (cache_read_tokens r)) r in
  let r := set_reasoning_tokens (max_member usage
    ["reasoning_tokens" : str; "thoughtsTokenCount" : str] (reasoning_tokens r)) r in
  let r := match member usage "output_tokens_details" with
           | Some ((JObject _) as details) =>
               set_reasoning_tokens
                 (max_member details ["reasoning_tokens" : str] (reasoning_tokens r)) r
           | _ => r
           end in
  set_provider_usage_json (take (1024 * 1024)%nat (Write usage)) r.

Definition extract_usage_from_event (event_data : str) (r : StreamResult) : StreamResult :=
  match usage_payload event_data with
  | None => r
  | Some payload =>
      match Parse payload with
      | Some ((JObject _) as document) =>
          match usage_object document with
          | Some usage => merge_usage usage r
          | None => r
          end
      | _ => r
      end
  end.

(** ** Conversion *)

Definition recode (from to : Format) (event_type data_payload : str) : res str :=
  delta ← parse_stream_event from event_type data_payload;
  Ok (serialize_stream_event to delta).

Definition transform_event (event_data : str) : res str :=
  let '(event_type, data_payload) := sse_fields false event_data in
  if empty data_payload then Ok event_data
  else if bool_decide (mode = CrossProtocol) || bool_decide (source_format <> target_format)
  then recode source_format target_format event_type data_payload
  else match mode with
       | AnthropicToOpenAI => recode Anthropic OpenAIChatCompletions event_type data_payload
       | OpenAIToAnthropic => recode OpenAIChatCompletions Anthropic event_type data_payload
       | GeminiCompat => recode Gemini OpenAIChatCompletions event_type data_payload
       | _ => Ok event_data
       end.

(** ** The loops *)

Definition finish (p : Pipe) : Pipe :=
  let '(p, now) := now_ms p in on_result (set_total_duration_ms (i32 (now - p_start p))) p.

(** A write to a client that went away. *)
Definition client_gone (p : Pipe) : Pipe :=
  finish (on_result (λ r, set_incomplete (negb (terminal_event_seen r)) r) p).

Definition note_terminal (event : str) (p : Pipe) : Pipe :=
  if is_terminal_event event then on_result (set_terminal_event_seen true) p else p.

(** The inner loop of [run_passthrough]; every event is at least two
    characters, so the length of the accumulator is enough fuel. *)
Fixpoint passthrough_events (fuel : nat) (acc : str) (p : Pipe) : flow :=
  match fuel with
  | O => Continue (set_p_acc acc p)
  | S fuel' =>
      match next_event acc with
      | None => Continue (set_p_acc acc p)
      | Some (event, rest) =>
          let p := on_result (extract_usage_from_event event) p in
          let p := note_terminal event p in
          match policy config with
          | None => passthrough_events fuel' rest p
          | Some _ =>
              let '(p, allowed) := apply_policy event event p in
              if negb allowed then Return (finish (emit_policy_error p))
              else
                let '(p, ok) := write_all event p in
                if negb ok then Return (client_gone p)
                else let '(p, now) := now_ms p in
                     passthrough_events fuel' rest (set_p_last_write now p)
          end
      end
  end.

(** The zero-copy write of a chunk. *)
Fixpoint raw_write (fuel : nat) (data : str) (p : Pipe) : Pipe * bool :=
  match data, fuel with
  | [], _ => (p, true)
  | _, O => (p, true)
  | _, S fuel' =>
      let '(p, w) := do_write data p in
      if w <=? 0 then (on_result (set_client_disconnect true) p, false)
      else let '(p, now) := now_ms p in
           raw_write fuel' (drop (Z.to_nat w) data) (set_p_last_write now p)
  end.

Definition note_first_token (p : Pipe) : Pipe :=
  let '(p, now) := now_ms p in
  let p := set_p_last_data now p in
  if p_first p then p
  else on_result (set_first_token_ms (i32 (now - p_start p))) (set_p_first true p).

(** A failed read: the provider went away, a timeout passed, or the loop goes
    on ([None]). *)
Definition read_failed (errno : Z) (p : Pipe) : Pipe * bool :=
  if provider_disconnect_errno errno then
    (on_result (λ r, set_provider_disconnect true (set_incomplete true r)) p, true)
  else
    let '(p, now) := now_ms p in
    let since_last := now - p_last_data p in
    if negb (p_first p) && (first_token_timeout_ms config <? since_last)
       || p_first p && (inter_chunk_timeout_ms config <? since_last)
    then (on_result (λ r, set_timed_out true (set_incomplete true r)) p, true)
    else (p, false).

Definition upstream_closed (p : Pipe) : Pipe :=
  on_result (λ r, let r := set_completed true r in
    if terminal_event_seen r then r
    else set_provider_disconnect true (set_incomplete true r)) p.

Definition trim_accumulator (p : Pipe) : Pipe :=
  let acc := p_acc p in
  if (read_buf_size config * 4 <? length acc)%nat
  then set_p_acc (drop (length acc - read_buf_size config) acc) p else p.

Definition passthrough_chunk (bytes : str) (p : Pipe) : flow :=
  let p := note_first_token p in
  let '(p, ok) :=
    match policy config with
    | Some _ => (p, true)
    | None => let '(p, ok) := raw_write (length bytes) bytes p in
              if ok then (on_result (add_bytes (length bytes)) p, true) else (p, false)
    end in
  if negb ok then Return (client_gone p)
  else
    let acc := p_acc p ++ bytes in
    match passthrough_events (S (length acc)) acc p with
    | Continue p =>
        match policy config with
        | Some _ =>
            if (max_policy_event_bytes config <? length (p_acc p))%nat
            then Return (finish (emit_policy_error (apply_policy (p_acc p) (p_acc p) p).1))
            else Continue (trim_accumulator p)
        | None => Continue (trim_accumulator p)
        end
    | other => other
    end.

(** One round of the outer loop, after the check of the total timeout. *)
Definition passthrough_round (read : ReadResult) (p : Pipe) : flow :=
  match read with
  | ReadError errno =>
      let '(p, stop) := read_failed errno p in
      if stop then Return (finish p)
      else if inject_keepalive_enabled config then
        let '(p, gone) := inject_keepalive p in
        if gone then Return (finish (on_result (set_client_disconnect true) p)) else Continue p
      else Continue p
  | Eof => Return (finish (upstream_closed p))
  | Chunk bytes => passthrough_chunk bytes p
  end.

(** [None]: the script of reads is used up and the loop still runs. *)
Definition total_timeout (p : Pipe) : Pipe * bool :=
  let '(p, now) := now_ms p in
  (p, total_timeout_ms config <? now - p_start p).

Definition timed_out_result (p : Pipe) : Pipe :=
  on_result (λ r, set_timed_out true (set_incomplete true r)) p.

Fixpoint pipe_loop (round : ReadResult -> Pipe -> flow) (script : list ReadResult) (p : Pipe)
    : flow :=
  let '(p, late) := total_timeout p in
  if late then Return (finish (timed_out_result p))
  else match script with
       | [] => Continue p
       | read :: script' =>
           match round read p with
           | Continue p => pipe_loop round script' p
           | other => other
           end
       end.

Definition pipe_start (acc : str) : Pipe :=
  let start := clock 0%nat in
  mkPipe default_result acc [] 0 1 0 start start start false.

Definition run_passthrough (script : list ReadResult) (p : Pipe) : flow :=
  pipe_loop passthrough_round script p.

(** The inner loop of [run_transform]. *)
Fixpoint transform_events (fuel : nat) (acc : str) (p : Pipe) : flow :=
  match fuel with
  | O => Continue (set_p_acc acc p)
  | S fuel' =>
      match next_event acc with
      | None => Continue (set_p_acc acc p)
      | Some (event, rest) =>
          match transform_event event with
          | Err e => Throw p e
          | Ok transformed =>
              let p := if contains event (q "'usage'") || contains event (q "'usageMetadata'")
                          || contains event "message_stop"
                       then on_result (extract_usage_from_event event) p else p in
              let p := note_terminal event p in
              let '(p, allowed) := apply_policy event transformed p in
              if negb allowed then Return (finish (emit_policy_error p))
              else
                let '(p, ok) := if empty transformed then (p, true) else write_all transformed p in
                if negb ok then Return (client_gone p)
                else transform_events fuel' rest p
          end
      end
  end.

Definition transform_chunk (bytes : str) (p : Pipe) : flow :=
  let acc := p_acc p ++ bytes in transform_events (S (length acc)) acc p.

Definition transform_round (read : ReadResult) (p : Pipe) : flow :=
  match read with
  | ReadError errno =>
      let '(p, stop) := read_failed errno p in
      if stop then Return (finish p) else Continue p
  | Eof => Return (finish (upstream_closed p))
  | Chunk bytes =>
      transform_chunk bytes (note_first_token p)
  end.

Definition run_transform (script : list ReadResult) (p : Pipe) : flow :=
  pipe_loop transform_round script p.

Definition run (script : list ReadResult) : flow :=
  let p := pipe_start [] in
  match mode with
  | Passthrough => run_passthrough script p
  | _ => run_transform script p
  end.
End StreamPipe.

(** ** Lemmas: splitting events *)

Lemma sfind_app_l p s t i : p <> [] -> sfind p s = Some i -> sfind p (s ++ t) = Some i.
Proof.
  intros Hp (H1 & H2 & H3)%sfind_Some. apply sfind_Some.
  assert (i + length p <= length s)%nat as Hl.
  { apply starts_with_spec in H1 as [u Hu]. apply (f_equal length) in Hu.
    rewrite length_drop, length_app in Hu. destruct p; [done|]. simpl in *. lia. }
  split; [|split; [rewrite length_app; lia|]].
  - rewrite drop_app_le by lia. by apply starts_with_weaken.
  - intros j Hj. specialize (H3 j Hj). destruct (starts_with (drop j (s ++ t)) p) eqn:E; [|done].
    rewrite <- H3. symmetry. apply (starts_with_app_inv _ t); [rewrite length_drop; lia|].
    rewrite <- drop_app_le by lia. done.
Qed.

(** An occurrence in an extension is an occurrence before it, or it reaches into
    the extension. *)
Lemma sfind_app_cases p s t i :
  sfind p (s ++ t) = Some i -> sfind p s = Some i \/ (length s < i + length p)%nat.
Proof.
  intros (H1 & H2 & H3)%sfind_Some.
  destruct (decide (i + length p <= length s)%nat) as [Hl|Hl]; [left|right; lia].
  apply sfind_Some. split; [|split; [lia|]].
  - apply (starts_with_app_inv _ t); [rewrite length_drop; lia|]. by rewrite <- drop_app_le by lia.
  - intros j Hj. destruct (starts_with (drop j s) p) eqn:E; [|done].
    rewrite <- (H3 j Hj), drop_app_le by lia. symmetry. by apply starts_with_weaken.
Qed.

Lemma sfind_at p s i j c :
  sfind p s = Some i -> p !! j = Some c -> s !! (i + j)%nat = Some c.
Proof.
  intros (H1 & _)%sfind_Some Hj. apply starts_with_spec in H1 as [u Hu].
  rewrite <- lookup_drop, Hu. by apply lookup_app_l_Some.
Qed.

(** Where the first event ends: the position after the earlier delimiter. *)
Definition event_end (acc : str) : option nat :=
  match sfind [LF; LF] acc, sfind [CR; LF; CR; LF] acc with
  | None, None => None
  | Some d, None => Some (d + 2)%nat
  | None, Some d => Some (d + 4)%nat
  | Some d, Some d' => if (d' <? d)%nat then Some (d' + 4)%nat else Some (d + 2)%nat
  end.

Lemma next_event_end acc :
  next_event acc = n ← event_end acc; Some (take n acc, drop n acc).
Proof.
  unfold next_event, event_end. destruct (sfind _ acc), (sfind _ acc); simpl; try done.
  by split_if.
Qed.

Lemma sfind_bound p s i : sfind p s = Some i -> (i + length p <= length s)%nat.
Proof.
  intros (H & Hi & _)%sfind_Some. apply starts_with_spec in H as [u Hu].
  apply (f_equal length) in Hu. rewrite length_drop, length_app in Hu. lia.
Qed.

Lemma event_end_bounds acc n : event_end acc = Some n -> (2 <= n <= length acc)%nat.
Proof.
  unfold event_end. destruct (sfind [LF; LF] acc) as [d|] eqn:E1, (sfind [CR; LF; CR; LF] acc) as [d'|] eqn:E2;
    try apply sfind_bound in E1; try apply sfind_bound in E2; simpl in *; intros H;
    try split_if; simplify_eq; lia.
Qed.

(** Bytes that arrive later do not move the end of the first event. *)
Lemma event_end_app acc t n : event_end acc = Some n -> event_end (acc ++ t) = Some n.
Proof.
  unfold event_end. intros H.
  destruct (sfind [LF; LF] acc) as [d|] eqn:E1.
  - rewrite (sfind_app_l [LF; LF] _ t _ ltac:(discriminate) E1).
    destruct (sfind [CR; LF; CR; LF] acc) as [d'|] eqn:E2.
    { by rewrite (sfind_app_l [CR; LF; CR; LF] _ t _ ltac:(discriminate) E2). }
    destruct (sfind [CR; LF; CR; LF] (acc ++ t)) as [d'|] eqn:E3; [|done].
    destruct (Nat.ltb_spec d' d) as [Hlt|]; [exfalso|done].
    apply sfind_app_cases in E3 as Hc. destruct Hc as [?|Hc]; [congruence|].
    pose proof (sfind_bound _ _ _ E1) as Hb. simpl in Hc, Hb.
    assert (d' = d - 1)%nat as -> by lia.
    pose proof (sfind_at _ _ _ 2 CR E3 eq_refl) as A.
    pose proof (sfind_at _ _ _ 1 LF E1 eq_refl) as B.
    rewrite lookup_app_l in A by lia. replace (d - 1 + 2)%nat with (d + 1)%nat in A by lia.
    rewrite A in B. discriminate B.
  - destruct (sfind [CR; LF; CR; LF] acc) as [d'|] eqn:E2; [|done].
    rewrite (sfind_app_l [CR; LF; CR; LF] _ t _ ltac:(discriminate) E2).
    destruct (sfind [LF; LF] (acc ++ t)) as [d|] eqn:E3; [|done].
    destruct (Nat.ltb_spec d' d) as [|Hge]; [done|exfalso].
    apply sfind_app_cases in E3 as Hc. destruct Hc as [?|Hc]; [congruence|].
    pose proof (sfind_bound _ _ _ E2) as Hb. simpl in Hc, Hb. lia.
Qed.

Lemma next_event_app acc t e r :
  next_event acc = Some (e, r) -> next_event (acc ++ t) = Some (e, r ++ t).
Proof.
  rewrite !next_event_end. destruct (event_end acc) as [n|] eqn:E; [|done]. simpl.
  intros [= <- <-]. rewrite (event_end_app _ t _ E). simpl.
  apply event_end_bounds in E. by rewrite take_app_le, drop_app_le by lia.
Qed.

Lemma next_event_split acc e r :
  next_event acc = Some (e, r) -> acc = e ++ r /\ (2 <= length e)%nat.
Proof.
  rewrite next_event_end. destruct (event_end acc) as [n|] eqn:E; [|done]. simpl.
  intros [= <- <-]. apply event_end_bounds in E. rewrite take_drop, length_take. split; [done|lia].
Qed.

(** A quoted string holds no line feed, so an error event is one event. *)
Definition no_ctl (s : str) : Prop := Forall (λ c, (32 <= code c)%nat) s.

Lemma quote_char_no_ctl c : no_ctl (quote_char c).
Proof.
  assert (forall c, forallb (λ d, (32 <=? code d)%nat) (quote_char c) = true) as H by by_chars.
  specialize (H c). apply forallb_Forall in H. eapply Forall_impl; [exact H|].
  intros x. apply Nat.leb_le.
Qed.

Lemma json_quote_no_ctl s : no_ctl (json_quote s).
Proof.
  unfold json_quote, no_ctl. apply Forall_app. split; [by repeat constructor; vm_compute; lia|].
  apply Forall_app. split; [|by repeat constructor; vm_compute; lia].
  induction s as [|c s IH]; simpl; [constructor|]. apply Forall_app. split; [apply quote_char_no_ctl|done].
Qed.

(** The inverse of [quote_char] on one escape. *)
Definition unquote_one (s : str) : option (ascii * str) :=
  match s with
  | c :: s' =>
      if (c =? DQ)%char then None
      else if negb (c =? BACKSLASH)%char then Some (c, s')
      else match s' with
           | d :: s'' =>
               if (d =? "b")%char then Some (ascii_of_nat 8, s'')
               else if (d =? "f")%char then Some (ascii_of_nat 12, s'')
               else if (d =? "n")%char then Some (LF, s'')
               else if (d =? "r")%char then Some (CR, s'')
               else if (d =? "t")%char then Some (ascii_of_nat 9, s'')
               else if (d =? "u")%char then
                 match s'' with
                 | _ :: _ :: h :: l :: s''' =>
                     Some (ascii_of_nat
                       (16 * default 0%nat (list_find (eq h) (lit "0123456789abcdef") ≫= λ x, Some x.1)
                        + default 0%nat (list_find (eq l) (lit "0123456789abcdef") ≫= λ x, Some x.1)),
                       s''')
                 | _ => None
                 end
               else Some (d, s'')
           | [] => None
           end
  | [] => None
  end.

Lemma unquote_quote_char c s : unquote_one (quote_char c ++ s) = Some (c, s).
Proof. destruct c as [[] [] [] [] [] [] [] []]; reflexivity. Qed.

(** A JSON string literal, decoded. *)
Fixpoint unquote_loop (fuel : nat) (s : str) : option (str * str) :=
  match fuel, s with
  | S fuel', c :: s' =>
      if (c =? DQ)%char then Some ([], s')
      else '(d, rest) ← unquote_one s;
           '(ds, rest) ← unquote_loop fuel' rest;
           Some (d :: ds, rest)
  | _, _ => None
  end.

Definition json_unquote (s : str) : option (str * str) :=
  match s with
  | c :: s' => if (c =? DQ)%char then unquote_loop (length s) s' else None
  | [] => None
  end.

Lemma unquote_loop_quote s t fuel :
  (length s < fuel)%nat ->
  unquote_loop fuel (concat (map quote_char s) ++ [DQ] ++ t) = Some (s, t).
Proof.
  revert fuel. induction s as [|c s IH]; intros [|fuel] Hf; simpl in *; try lia; [done|].
  rewrite <- app_assoc. destruct (quote_char c) as [|d u] eqn:E.
  { exfalso. revert E. unfold quote_char. repeat split_if; discriminate. }
  assert (d <> DQ) as Hd.
  { intros ->. pose proof (unquote_quote_char c []) as H. rewrite E in H. discriminate H. }
  pose proof (unquote_quote_char c (concat (map quote_char s) ++ [DQ] ++ t)) as H.
  rewrite E in H. cbn [app unquote_loop] in *. apply Ascii.eqb_neq in Hd. rewrite Hd.
  unfold mbind, option_bind at 1. rewrite H. simpl. rewrite IH by lia. done.
Qed.

Lemma no_ctl_app a b : no_ctl (a ++ b) <-> no_ctl a /\ no_ctl b.
Proof. apply Forall_app. Qed.

Lemma no_ctl_cr s : no_ctl s -> CR ∉ s.
Proof.
  unfold no_ctl. rewrite Forall_forall. intros Hs Hin. apply Hs in Hin. vm_compute in Hin. lia.
Qed.

Lemma sfind_lflf_line a s :
  no_ctl a -> sfind [LF; LF] (a ++ LF :: s) =
  Nat.add (length a) <$> sfind [LF; LF] (LF :: s).
Proof.
  induction 1 as [|c a Hc Ha IH].
  - change ([] ++ LF :: s) with (LF :: s). by destruct (sfind [LF; LF] (LF :: s)).
  - change ((c :: a) ++ LF :: s) with (c :: (a ++ LF :: s)).
    assert (sfind [LF; LF] (c :: (a ++ LF :: s)) = S <$> sfind [LF; LF] (a ++ LF :: s)) as ->.
    { cbn [sfind starts_with].
      destruct (Ascii.eqb_spec LF c) as [<-|_]; [vm_compute in Hc; lia|done]. }
    rewrite IH. by destruct (sfind [LF; LF] (LF :: s)).
Qed.

Lemma sfind_cr_none s : CR ∉ s -> sfind [CR; LF; CR; LF] s = None.
Proof.
  intros H. apply sfind_None. intros j _. destruct (starts_with _ _) eqn:E; [|done].
  exfalso. apply starts_with_spec in E as [t Ht]. apply H.
  apply (list_elem_of_lookup_2 _ j). rewrite <- (Nat.add_0_r j), <- lookup_drop, Ht. done.
Qed.

Lemma next_event_whole s :
  CR ∉ s -> sfind [LF; LF] s = Some (length s - 2)%nat -> (2 <= length s)%nat ->
  next_event s = Some (s, []).
Proof.
  intros Hcr Hlf Hl. rewrite next_event_end. unfold event_end. rewrite sfind_cr_none, Hlf by done.
  cbn. rewrite Nat.sub_add by done. by rewrite firstn_all, drop_all.
Qed.

(** One line, or two, before the blank line. *)
Lemma next_event_data b : no_ctl b -> next_event (b ++ [LF; LF]) = Some (b ++ [LF; LF], []).
Proof.
  intros Hb. apply next_event_whole.
  - intros [H|H]%elem_of_app; [by apply no_ctl_cr in H|set_solver].
  - rewrite sfind_lflf_line by done.
    change (Some (length b + 0) = Some (length (b ++ [LF; LF]) - 2))%nat.
    rewrite length_app. simpl length. f_equal. lia.
  - rewrite length_app. simpl length. lia.
Qed.

Lemma next_event_event_data a c b :
  no_ctl a -> no_ctl (c :: b) ->
  next_event (a ++ [LF] ++ (c :: b) ++ [LF; LF]) = Some (a ++ [LF] ++ (c :: b) ++ [LF; LF], []).
Proof.
  intros Ha Hb. apply next_event_whole.
  - intros [H|[H|H]%elem_of_app]%elem_of_app.
    + by apply no_ctl_cr in H.
    + set_solver.
    + apply elem_of_app in H as [H|H]; [by apply no_ctl_cr in H|set_solver].
  - change ([LF] ++ ?x) with (LF :: x). rewrite sfind_lflf_line by done.
    change (LF :: (c :: b) ++ [LF; LF]) with ([LF] ++ (c :: b) ++ [LF; LF]).
    assert (LF <> c) as Hc%Ascii.eqb_neq.
    { intros <-. by apply Forall_cons in Hb as [Hb _]; vm_compute in Hb; lia. }
    assert (forall t, sfind [LF; LF] (LF :: c :: t) = S <$> sfind [LF; LF] (c :: t)) as Hs.
    { intros t. cbn [sfind starts_with]. rewrite Ascii.eqb_refl, Hc. reflexivity. }
    change ([LF] ++ (c :: b) ++ [LF; LF]) with (LF :: c :: (b ++ [LF; LF])). rewrite Hs.
    change (c :: b ++ [LF; LF]) with ((c :: b) ++ [LF; LF]).
    rewrite (sfind_lflf_line (c :: b)) by exact Hb.
    change (Some (length a + S (length (c :: b) + 0))
      = Some (length (a ++ [LF] ++ (c :: b) ++ [LF; LF]) - 2))%nat.
    rewrite !length_app. simpl length. f_equal. lia.
  - rewrite !length_app. simpl length. lia.
Qed.

(** A refusal is reported to the client as exactly one server-sent event,
    whatever the error code and message of the policy contain, in every client
    format; and the quoted code and message decode to the originals. *)
Theorem policy_error_is_one_event target_format r :
  let event := policy_error_event target_format r in
  next_event event = Some (event, [])
  /\ json_unquote (json_quote (policy_error_code r)) = Some (policy_error_code r, [])
  /\ json_unquote (json_quote (policy_message r)) = Some (policy_message r, []).
Proof.
  assert (forall s, json_unquote (json_quote s) = Some (s, [])) as Hq.
  { intros s. unfold json_quote, json_unquote. cbn [app]. rewrite Ascii.eqb_refl.
    apply (unquote_loop_quote s []). cbn [length]. rewrite length_app.
    enough (length s <= length (concat (map quote_char s)))%nat by lia.
    induction s as [|c s IH]; simpl; [lia|]. rewrite length_app.
    enough (1 <= length (quote_char c))%nat by lia. unfold quote_char. repeat split_if; simpl; lia. }
  assert (forall (a b c : str), no_ctl a -> no_ctl b -> no_ctl c ->
    no_ctl (a ++ json_quote (policy_error_code r) ++ b ++ json_quote (policy_message r) ++ c)) as Hn.
  { intros a b c Ha Hb Hc. rewrite !no_ctl_app. auto using json_quote_no_ctl. }
  split; [|by split; apply Hq]. unfold policy_error_event.
  assert (forall s : str, forallb (λ d, (32 <=? code d)%nat) s = true -> no_ctl s) as Hl.
  { intros s H. apply forallb_Forall in H. eapply Forall_impl; [exact H|]. intros x. apply Nat.leb_le. }
  destruct target_format.
  - match goal with |- next_event (?a ++ [LF] ++ ?b ++ ?c ++ ?d ++ ?e ++ ?f ++ [LF; LF]) = _ =>
      assert (b ++ c ++ d ++ e ++ f ++ [LF; LF] = (b ++ c ++ d ++ e ++ f) ++ [LF; LF]) as ->
        by (by rewrite <- !app_assoc);
      apply (next_event_event_data a); [|apply (Hn b d f)]; apply Hl; reflexivity end.
  - rewrite !(app_assoc _ _ [LF; LF]). apply next_event_data.
    apply Hn; apply Hl; reflexivity.
  - match goal with |- next_event (?a ++ [LF] ++ ?b ++ ?c ++ ?d ++ ?e ++ ?f ++ [LF; LF]) = _ =>
      assert (b ++ c ++ d ++ e ++ f ++ [LF; LF] = (b ++ c ++ d ++ e ++ f) ++ [LF; LF]) as ->
        by (by rewrite <- !app_assoc);
      apply (next_event_event_data a); [|apply (Hn b d f)]; apply Hl; reflexivity end.
  - rewrite !(app_assoc _ _ [LF; LF]). apply next_event_data.
    apply Hn; apply Hl; reflexivity.
Qed.

(** ** Content policy: nothing reaches the client uncleared *)

Section Cleared.
Context {RJ : RapidJson} {SC : StreamCodec}.
Context (config : StreamPipeConfig) (mode : ProtocolMode).
Context (source_format target_format : Format).
Context (client_write : nat -> str -> Z) (clock : nat -> Z).
Context (evaluate : nat -> str -> StreamPolicyDecision).
Context (Hpolicy : policy config = Some evaluate).

(** What may be written: a keepalive, an error event, an event that was allowed
    by the policy, or one that comes from a provider event exempt from it. *)
Definition cleared_item (x : str) : Prop :=
  x = keepalive
  \/ (exists r, x = policy_error_event target_format r)
  \/ (exists pe, policy_exempt source_format pe = true
        /\ (x = pe \/ transform_event mode source_format target_format pe = Ok x))
  \/ (exists n, (length x <= max_policy_event_bytes config)%nat
        /\ disposition (evaluate n x) = PolicyAllow).

(** The bytes a client got: prefixes of cleared items. *)
Definition cleared_out (p : Pipe) : Prop :=
  exists pieces, p_out p = concat pieces
    /\ Forall (λ w, exists rest, cleared_item (w ++ rest)) pieces.

Lemma cleared_out_same p p' : p_out p' = p_out p -> cleared_out p -> cleared_out p'.
Proof. intros E (l & H1 & H2). exists l. by rewrite E. Qed.

Lemma cleared_out_add p p' w rest :
  p_out p' = p_out p ++ w -> cleared_item (w ++ rest) -> cleared_out p -> cleared_out p'.
Proof.
  intros E Hi (l & H1 & H2). exists (l ++ [w]).
  rewrite E, H1, concat_app. simpl. rewrite app_nil_r. split; [done|].
  apply Forall_app. split; [done|]. apply Forall_singleton. by exists rest.
Qed.

Lemma write_loop_out fuel data p :
  exists w rest, data = w ++ rest /\ p_out (write_loop client_write fuel data p).1 = p_out p ++ w.
Proof.
  revert data p. induction fuel as [|fuel IH]; intros [|c data] p; cbn [write_loop].
  1-3: exists []; eexists; split; [reflexivity|]; cbn; by rewrite app_nil_r.
  unfold do_write. set (count := client_write _ _). destruct (count <=? 0) eqn:E.
  - exists [], (c :: data). split; [done|]. cbn. apply Z.leb_le in E.
    replace (Z.to_nat count) with 0%nat by lia. by rewrite take_0.
  - match goal with |- context [write_loop _ _ _ ?p1] => destruct (IH (drop (Z.to_nat count) (c :: data)) p1)
      as (w & rest & Hw & Ho) end.
    exists (take (Z.to_nat count) (c :: data) ++ w), rest.
    rewrite <- app_assoc, <- Hw, take_drop. split; [done|]. rewrite Ho. cbn. by rewrite <- app_assoc.
Qed.

Lemma write_all_cleared x p :
  cleared_item x -> cleared_out p -> cleared_out (write_all client_write x p).1.
Proof.
  intros Hx Hp. unfold write_all. destruct (write_loop_out (length x) x p) as (w & rest & Hw & Ho).
  destruct (write_loop _ _ _ _) as [p' ok]. cbn in Ho. subst x.
  destruct ok; (eapply cleared_out_add; [cbn; exact Ho|exact Hx|done]).
Qed.

Lemma apply_policy_spec pe ce p :
  let '(p', ok) := apply_policy config source_format pe ce p in
  p_out p' = p_out p
  /\ (ok = true -> policy_exempt source_format pe = true
      \/ exists n, let content := if empty ce then pe else ce in
           (length content <= max_policy_event_bytes config)%nat
           /\ disposition (evaluate n content) = PolicyAllow).
Proof.
  unfold apply_policy. rewrite Hpolicy. destruct (policy_exempt _ pe); [by auto|].
  set (content := if empty ce then pe else ce).
  destruct (Nat.ltb_spec (max_policy_event_bytes config) (length content)).
  - cbn. split; [done|]. done.
  - cbn. destruct (bool_decide _) eqn:E; [|done]. split; [done|]. intros _. right.
    exists (p_policy_calls p). split; [done|]. by apply bool_decide_eq_true in E.
Qed.

Lemma emit_cleared p : cleared_out p -> cleared_out (emit_policy_error target_format client_write p).
Proof. intros Hp. apply write_all_cleared; [|done]. right. left. by eexists. Qed.

Lemma finish_cleared p : cleared_out p -> cleared_out (finish clock p).
Proof. by apply cleared_out_same. Qed.

Lemma client_gone_cleared p : cleared_out p -> cleared_out (client_gone clock p).
Proof. by apply cleared_out_same. Qed.


Lemma note_terminal_cleared e p : cleared_out p -> cleared_out (note_terminal source_format e p).
Proof. unfold note_terminal. split_if; by apply cleared_out_same. Qed.

Lemma passthrough_events_cleared fuel acc p :
  cleared_out p ->
  cleared_out (flow_pipe
    (passthrough_events config source_format target_format client_write clock fuel acc p)).
Proof.
  revert acc p. induction fuel as [|fuel IH]; intros acc p Hp; cbn [passthrough_events].
  { by apply (cleared_out_same p). }
  destruct (next_event acc) as [[e rest]|] eqn:Ee; [|by apply (cleared_out_same p)].
  rewrite Hpolicy. set (p1 := note_terminal _ _ _).
  assert (cleared_out p1) as H1 by (apply note_terminal_cleared; by apply (cleared_out_same p)).
  clearbody p1. pose proof (apply_policy_spec e e p1) as Hs.
  destruct (apply_policy _ _ e e p1) as [p2 ok]. destruct Hs as [Ho Hs].
  assert (cleared_out p2) as H2 by (by apply (cleared_out_same p1)).
  destruct ok; cbn [negb]; [|by apply finish_cleared, emit_cleared].
  assert (cleared_item e) as He.
  { destruct (Hs eq_refl) as [Hx|(n & Hl & Ha)].
    - right. right. left. exists e. auto.
    - right. right. right. exists n. by destruct e. }
  pose proof (write_all_cleared e p2 He H2) as H3.
  destruct (write_all _ e p2) as [p3 ok]. destruct ok; cbn [negb]; [|by apply client_gone_cleared].
  cbn. apply IH. by apply (cleared_out_same p3).
Qed.

Lemma transform_events_cleared fuel acc p :
  cleared_out p ->
  cleared_out (flow_pipe
    (transform_events config mode source_format target_format client_write clock fuel acc p)).
Proof.
  revert acc p. induction fuel as [|fuel IH]; intros acc p Hp; cbn [transform_events].
  { by apply (cleared_out_same p). }
  destruct (next_event acc) as [[e rest]|] eqn:Ee; [|by apply (cleared_out_same p)].
  destruct (transform_event _ _ _ e) as [x|] eqn:Et; [|done].
  set (p1 := note_terminal _ _ _).
  assert (cleared_out p1) as H1.
  { apply note_terminal_cleared. split_if; [by apply (cleared_out_same p)|done]. }
  clearbody p1. pose proof (apply_policy_spec e x p1) as Hs.
  destruct (apply_policy _ _ e x p1) as [p2 ok]. destruct Hs as [Ho Hs].
  assert (cleared_out p2) as H2 by (by apply (cleared_out_same p1)).
  destruct ok; cbn [negb]; [|by apply finish_cleared, emit_cleared].
  destruct (empty x) eqn:Ex; cbn [negb].
  { by apply IH. }
  assert (cleared_item x) as He.
  { destruct (Hs eq_refl) as [Hx|(n & Hl & Ha)].
    - right. right. left. exists e. auto.
    - right. right. right. exists n. by split. }
  pose proof (write_all_cleared x p2 He H2) as H3.
  destruct (write_all _ x p2) as [p3 ok]. destruct ok; cbn [negb]; [by apply IH|].
  by apply client_gone_cleared.
Qed.

Lemma read_failed_cleared errno p : cleared_out p -> cleared_out (read_failed config clock errno p).1.
Proof.
  intros Hp. unfold read_failed. repeat split_if; cbn; repeat split_if; by apply (cleared_out_same p).
Qed.

Lemma passthrough_round_cleared read p :
  cleared_out p -> cleared_out (flow_pipe
    (passthrough_round config source_format target_format client_write clock read p)).
Proof.
  intros Hp. destruct read as [bytes| |errno]; cbn [passthrough_round].
  - unfold passthrough_chunk. rewrite Hpolicy. cbv zeta. cbn [negb].
    match goal with |- context [passthrough_events _ _ _ _ _ ?f ?a ?p1] =>
      pose proof (passthrough_events_cleared f a p1) as H;
      destruct (passthrough_events _ _ _ _ _ f a p1) as [p2|p2|p2 e] end; cbn [flow_pipe] in *.
    2-3: apply H; unfold note_first_token; cbn; split_if; by apply (cleared_out_same p).
    assert (cleared_out p2) as H2
      by (apply H; unfold note_first_token; cbn; split_if; by apply (cleared_out_same p)).
    split_if; cbn [flow_pipe].
    + apply finish_cleared, emit_cleared. pose proof (apply_policy_spec (p_acc p2) (p_acc p2) p2) as Hs.
      destruct (apply_policy _ _ _ _ p2) as [p3 ok]. destruct Hs as [Ho _]. by apply (cleared_out_same p2).
    + unfold trim_accumulator. split_if; by apply (cleared_out_same p2).
  - apply finish_cleared. by apply (cleared_out_same p).
  - pose proof (read_failed_cleared errno p Hp) as H1.
    destruct (read_failed _ _ errno p) as [p1 stop]. cbn in H1. destruct stop; [by apply finish_cleared|].
    split_if; [|done]. unfold inject_keepalive. cbn [now_ms].
    split_if; cbn; [by apply (cleared_out_same p1)|].
    set (count := client_write _ _). 
    assert (cleared_out (set_p_out (p_out p1 ++ take (Z.to_nat count) keepalive) p1)) as H2.
    { eapply (cleared_out_add p1 _ _ (drop (Z.to_nat count) keepalive)); [reflexivity| |done].
      rewrite take_drop. by left. }
    destruct (count <=? 0); cbn; (eapply cleared_out_same; [|exact H2]; reflexivity).
Qed.

Lemma transform_round_cleared read p :
  cleared_out p -> cleared_out (flow_pipe
    (transform_round config mode source_format target_format client_write clock read p)).
Proof.
  intros Hp. destruct read as [bytes| |errno]; cbn [transform_round].
  - apply transform_events_cleared. unfold note_first_token. cbn. split_if; by apply (cleared_out_same p).
  - apply finish_cleared. by apply (cleared_out_same p).
  - pose proof (read_failed_cleared errno p Hp) as H1.
    destruct (read_failed _ _ errno p) as [p1 stop]. destruct stop; cbn; [by apply finish_cleared|done].
Qed.

Lemma pipe_loop_cleared round script p :
  (forall read p, cleared_out p -> cleared_out (flow_pipe (round read p))) ->
  cleared_out p -> cleared_out (flow_pipe (pipe_loop config clock round script p)).
Proof.
  intros Hr. revert p. induction script as [|read script IH]; intros p Hp; cbn [pipe_loop];
    unfold total_timeout; cbn [now_ms]; (split_if; [apply finish_cleared; by apply (cleared_out_same p)|]).
  { by apply (cleared_out_same p). }
  match goal with |- context [round read ?p1] =>
    assert (cleared_out p1) as H1 by (by apply (cleared_out_same p));
    specialize (Hr read p1 H1); destruct (round read p1) as [p2|p2|p2 e] end; cbn [flow_pipe] in *;
    [by apply IH|done|done].
Qed.
End Cleared.


(** A small codec and policy for the concrete runs: RapidJSON that parses
    nothing, a codec that passes the data on, a policy that refuses everything
    that contains "secret". *)
Definition no_json : RapidJson := {| Parse := λ _, None; Write := λ _, [] |}.
Definition data_codec : StreamCodec := {|
  StreamDelta := str;
  parse_stream_event := λ _ _ data, Ok data;
  serialize_stream_event := λ _ d, "data: " ++ d ++ [LF; LF] |}.
Definition sample_policy (_ : nat) (content : str) : StreamPolicyDecision :=
  if contains content "secret" then mkDecision PolicyBlock [] [] else mkDecision PolicyAllow [] [].
Definition sample_config : StreamPipeConfig :=
  mkConfig 64 64 60 120 300 15 64 true (Some sample_policy).
Definition full_write (_ : nat) (data : str) : Z := Z.of_nat (length data).

Definition sample_run (script : list ReadResult) : flow :=
  run (RJ := no_json) (SC := data_codec) sample_config CrossProtocol OpenAIChatCompletions
    OpenAIChatCompletions full_write (λ _, 0) script.


(** A client that takes at least a byte of what it is offered gets everything. *)
Definition accepting (client_write : nat -> str -> Z) : Prop :=
  forall n data, data <> [] -> 0 < client_write n data.

Lemma full_write_accepting : accepting full_write.
Proof. intros n [|c data]; [done|]. unfold full_write. simpl. lia. Qed.

Lemma write_loop_all client_write fuel data p :
  accepting client_write -> (length data <= fuel)%nat ->
  exists n, write_loop client_write fuel data p = (set_p_out (p_out p ++ data) (set_p_writes n p), true).
Proof.
  intros Hw. revert data p. induction fuel as [|fuel IH]; intros [|c data] p Hl; cbn [write_loop].
  1,3: exists (p_writes p); rewrite app_nil_r; by destruct p.
  { simpl in Hl. lia. }
  unfold do_write. specialize (Hw (p_writes p) (c :: data) ltac:(done)).
  set (count := client_write _ _) in *. destruct (Z.leb_spec count 0); [lia|].
  match goal with |- context [write_loop _ _ _ ?p1] =>
    destruct (IH (drop (Z.to_nat count) (c :: data)) p1) as [n ->] end.
  { rewrite length_drop. simpl in *. lia. }
  exists n. cbn. f_equal. rewrite <- app_assoc, take_drop. by destruct p.
Qed.

Lemma write_all_all client_write data p :
  accepting client_write ->
  exists n, write_all client_write data p
    = (on_result (add_bytes (length data)) (set_p_out (p_out p ++ data) (set_p_writes n p)), true).
Proof.
  intros Hw. unfold write_all.
  destruct (write_loop_all client_write (length data) data p Hw ltac:(done)) as [n ->]. by exists n.
Qed.

Lemma next_event_nil : next_event [] = None.
Proof. reflexivity. Qed.

(** The exemption is too wide: the policy is skipped whenever the bytes of
    an event contain [data: [DONE]] anywhere, so a provider event that merely quotes
    it is delivered although the policy refuses everything. *)
Theorem policy_skipped_by_quoted_done {RJ : RapidJson} {SC : StreamCodec} config source_format
    target_format evaluate event
    (Hpolicy : policy config = Some evaluate)
    (Hrefuse : forall n content, disposition (evaluate n content) <> PolicyAllow)
    (Htimeout : 0 <= total_timeout_ms config)
    (Hone : next_event event = Some (event, []))
    (Hquote : contains event "data: [DONE]" = true) :
  p_out (flow_pipe (run config Passthrough source_format target_format full_write (λ _, 0)
                      [Chunk event])) = event.
Proof.
  unfold run, run_passthrough. cbn [pipe_loop]. unfold total_timeout. cbn [now_ms].
  split_if; [cbn in Heqb; apply Z.ltb_lt in Heqb; lia|].
  cbn [passthrough_round]. unfold passthrough_chunk. rewrite Hpolicy. cbv zeta. cbn [negb].
  set (p1 := note_first_token _ _). assert (p_acc p1 = [] /\ p_out p1 = []) as [-> Ho] by done.
  clearbody p1. cbn [app passthrough_events]. rewrite Hone, Hpolicy. cbv zeta.
  set (p2 := note_terminal _ _ _).
  assert (p_out p2 = []) as Ho2 by (unfold p2, note_terminal; by split_if).
  clearbody p2. unfold apply_policy. rewrite Hpolicy. unfold policy_exempt. rewrite Hquote. cbn [orb negb].
  destruct (write_all_all full_write event p2 full_write_accepting) as [n ->]. cbn [negb now_ms].
  destruct event as [|c event]; [discriminate Hone|]. cbn [length passthrough_events].
  rewrite next_event_nil. set (p3 := set_p_acc [] _).
  assert (p_acc p3 = [] /\ p_out p3 = c :: event) as [Ha3 Ho3] by (by cbn; rewrite Ho2).
  clearbody p3. rewrite Ha3. cbn [length].
  destruct (Nat.ltb_spec (max_policy_event_bytes config) 0); [lia|].
  unfold trim_accumulator. rewrite Ha3. cbn [length].
  destruct (Nat.ltb_spec (read_buf_size config * 4) 0); [lia|].
  split_if; exact Ho3.
Qed.

Definition quoting_event : str := q "data: {'text':'data: [DONE] secret'}" ++ [LF; LF].

Lemma policy_skipped_by_quoted_done_witness :
  p_out (flow_pipe (run (RJ := no_json) (SC := data_codec)
    (mkConfig 64 64 60 120 300 15 64 true (Some (λ _ _, mkDecision PolicyBlock [] [])))
    Passthrough OpenAIChatCompletions OpenAIChatCompletions full_write (λ _, 0)
    [Chunk quoting_event])) = quoting_event.
Proof.
  eapply (@policy_skipped_by_quoted_done no_json data_codec); [reflexivity|..].
  - intros n content. discriminate.
  - cbn. lia.
  - reflexivity.
  - reflexivity.
Defined.

(** ** Chunks do not matter *)

(** Two outcomes that differ at most in what a pipe that is done still holds in
    its accumulator. *)
Inductive flow_eq : flow -> flow -> Prop :=
| FeContinue p : flow_eq (Continue p) (Continue p)
| FeReturn p a : flow_eq (Return p) (Return (set_p_acc a p))
| FeThrow p a e : flow_eq (Throw p e) (Throw (set_p_acc a p) e).

Lemma set_acc_acc a b p : set_p_acc a (set_p_acc b p) = set_p_acc a p.
Proof. reflexivity. Qed.
Lemma set_acc_self p : set_p_acc (p_acc p) p = p.
Proof. by destruct p. Qed.

#[global] Instance flow_eq_equivalence : Equivalence flow_eq.
Proof.
  split.
  - intros [p|p|p e]; [constructor|rewrite <- (set_acc_self p) at 2; constructor..].
  - intros ? ? [p|p a|p a e]; [constructor|..];
      rewrite <- (set_acc_self p) at 2; rewrite <- (set_acc_acc (p_acc p) a p); constructor.
  - intros ? ? ? [p|p a|p a e] H; inversion H; subst; rewrite ?set_acc_acc; constructor.
Qed.

Section Chunks.
Context {RJ : RapidJson} {SC : StreamCodec}.
Context (config : StreamPipeConfig) (mode : ProtocolMode).
Context (source_format target_format : Format).
Context (client_write : nat -> str -> Z) (clock : nat -> Z).

#[local] Abbreviation events := (transform_events config mode source_format target_format
  client_write clock).
#[local] Abbreviation chunk := (transform_chunk config mode source_format target_format
  client_write clock).

(** The operations of the loop do not look at the accumulator. *)
Lemma write_loop_acc fuel data a p :
  write_loop client_write fuel data (set_p_acc a p)
  = (set_p_acc a (write_loop client_write fuel data p).1, (write_loop client_write fuel data p).2).
Proof.
  revert data p. induction fuel as [|fuel IH]; intros [|c data] p; cbn [write_loop]; try done.
  unfold do_write. cbn [p_writes set_p_acc].
  match goal with |- context [?n <=? 0] => destruct (n <=? 0) end; [done|].
  etransitivity; [|apply IH]. reflexivity.
Qed.

Lemma write_all_acc data a p :
  write_all client_write data (set_p_acc a p)
  = (set_p_acc a (write_all client_write data p).1, (write_all client_write data p).2).
Proof.
  unfold write_all. rewrite write_loop_acc.
  by destruct (write_loop _ _ _ p) as [p' []].
Qed.

Lemma apply_policy_acc pe ce a p :
  apply_policy config source_format pe ce (set_p_acc a p)
  = (set_p_acc a (apply_policy config source_format pe ce p).1,
     (apply_policy config source_format pe ce p).2).
Proof.
  unfold apply_policy. destruct (policy config) as [evaluate|]; [|done].
  destruct (policy_exempt _ _); [done|]. cbv zeta.
  destruct (_ <? _)%nat; cbn [p_policy_calls set_p_acc]; by destruct (bool_decide _).
Qed.

Lemma events_acc fuel acc a p : flow_eq (events fuel acc p) (events fuel acc (set_p_acc a p)).
Proof.
  revert acc p. induction fuel as [|fuel IH]; intros acc p; cbn [transform_events].
  { rewrite set_acc_acc. constructor. }
  destruct (next_event acc) as [[e rest]|]; [|rewrite set_acc_acc; constructor].
  destruct (transform_event _ _ _ e) as [x|]; [|constructor].
  cbv zeta. set (p1 := note_terminal source_format e _).
  match goal with |- flow_eq _ ?g =>
    match g with context [apply_policy _ _ e x ?p2] =>
      replace p2 with (set_p_acc a p1) by (unfold p1, note_terminal; by repeat split_if) end end.
  clearbody p1. rewrite apply_policy_acc. destruct (apply_policy _ _ e x p1) as [p2 ok]. cbn [fst snd].
  destruct ok; cbn [negb].
  - destruct (empty x); cbn [negb]; [apply IH|]. rewrite write_all_acc.
    destruct (write_all _ x p2) as [p3 ok]. cbn [fst snd]. destruct ok; cbn [negb]; [apply IH|].
    apply (FeReturn (client_gone clock p3) a).
  - unfold emit_policy_error. cbn [p_result set_p_acc]. rewrite write_all_acc. cbn [fst].
    apply (FeReturn (finish clock (write_all _ _ p2).1) a).
Qed.

(** More fuel than there are characters changes nothing. *)
Lemma events_fuel fuel fuel' acc p :
  (length acc < fuel)%nat -> (length acc < fuel')%nat -> events fuel acc p = events fuel' acc p.
Proof.
  revert fuel' acc p. induction fuel as [|fuel IH]; intros [|fuel'] acc p H1 H2; try lia.
  cbn [transform_events]. destruct (next_event acc) as [[e rest]|] eqn:E; [|done].
  apply next_event_split in E as [-> He]. rewrite length_app in *.
  destruct (transform_event _ _ _ e) as [x|]; [|done].
  destruct (apply_policy _ _ _ _ _) as [p2 []]; cbn [negb]; [|done].
  destruct (empty x); cbn [negb]; [by apply IH; lia|].
  destruct (write_all _ _ _) as [p3 []]; cbn [negb]; [by apply IH; lia|done].
Qed.

Definition and_then (f : flow) (k : Pipe -> flow) : flow :=
  match f with Continue p => k p | other => other end.

Lemma and_then_flow_eq f g k :
  flow_eq f g -> flow_eq (and_then f k) (and_then g k).
Proof. intros [p|p a|p a e]; cbn; [reflexivity|constructor..]. Qed.

Lemma events_app fuel fuel' acc bytes p :
  (length acc < fuel)%nat -> (length (acc ++ bytes) < fuel')%nat ->
  flow_eq (events fuel' (acc ++ bytes) p) (and_then (events fuel acc p) (chunk bytes)).
Proof.
  revert fuel' acc p. induction fuel as [|fuel IH]; intros [|fuel'] acc p H1 H2; try lia.
  cbn [transform_events]. destruct (next_event acc) as [[e rest]|] eqn:E.
  - rewrite (next_event_app _ bytes _ _ E). apply next_event_split in E as [-> He].
    rewrite !length_app in *.
    destruct (transform_event _ _ _ e) as [x|]; [|reflexivity].
    destruct (apply_policy _ _ _ _ _) as [p2 []]; cbn [negb]; [|reflexivity].
    destruct (empty x); cbn [negb]; [apply IH; rewrite ?length_app; lia|].
    destruct (write_all _ _ _) as [p3 []]; cbn [negb]; [|reflexivity].
    apply IH; rewrite ?length_app; lia.
  - cbn [and_then]. unfold transform_chunk. cbn [p_acc set_p_acc].
    rewrite <- events_acc. rewrite (events_fuel _ (S fuel') _ p); [reflexivity|lia|done].
Qed.

(** Feeding the chunks one after the other. *)
Fixpoint feed (chunks : list str) (p : Pipe) : flow :=
  match chunks with
  | [] => Continue p
  | c :: chunks' => and_then (chunk c p) (feed chunks')
  end.

Lemma chunk_app a b p : flow_eq (chunk (a ++ b) p) (and_then (chunk a p) (chunk b)).
Proof.
  unfold transform_chunk at 1. rewrite app_assoc. apply events_app; lia.
Qed.

Lemma and_then_ext f k k' :
  (forall p, flow_eq (k p) (k' p)) -> flow_eq (and_then f k) (and_then f k').
Proof. intros H. destruct f; cbn; [apply H|reflexivity..]. Qed.

Lemma chunk_nil p : next_event (p_acc p) = None -> chunk [] p = Continue p.
Proof.
  intros H. unfold transform_chunk. rewrite app_nil_r. cbn [transform_events]. rewrite H.
  by rewrite set_acc_self.
Qed.

Lemma events_rest fuel acc p p' :
  (length acc < fuel)%nat -> events fuel acc p = Continue p' -> next_event (p_acc p') = None.
Proof.
  revert acc p. induction fuel as [|fuel IH]; intros acc p Hl; [lia|]. cbn [transform_events].
  destruct (next_event acc) as [[e rest]|] eqn:E; [|by intros [= <-]].
  apply next_event_split in E as [-> He]. rewrite length_app in Hl.
  destruct (transform_event _ _ _ e) as [x|]; [|done].
  destruct (apply_policy _ _ _ _ _) as [p2 []]; cbn [negb]; [|done].
  destruct (empty x); cbn [negb]; [apply IH; lia|].
  destruct (write_all _ _ _) as [p3 []]; cbn [negb]; [apply IH; lia|done].
Qed.

Lemma feed_concat chunks p :
  next_event (p_acc p) = None -> flow_eq (feed chunks p) (chunk (concat chunks) p).
Proof.
  revert p. induction chunks as [|c chunks IH]; intros p Hp; cbn [feed concat].
  { by rewrite chunk_nil. }
  rewrite chunk_app. destruct (chunk c p) as [p'|p'|p' e] eqn:E; cbn [and_then]; [|reflexivity..].
  apply IH. eapply events_rest; [|exact E]. lia.
Qed.
End Chunks.

(** C20: How the network cuts the provider's stream into reads is irrelevant: a
    converting pipe that holds no complete event processes any two sequences of
    chunks with the same concatenation to the same outcome, with the same bytes
    written, the same policy calls and the same result, delimiters split across
    reads included. *)
Theorem chunking_irrelevant {RJ : RapidJson} {SC : StreamCodec} config mode source_format
    target_format client_write clock chunks chunks' p
    (Hheld : next_event (p_acc p) = None)
    (Hsame : concat chunks = concat chunks') :
  flow_eq (feed config mode source_format target_format client_write clock chunks p)
          (feed config mode source_format target_format client_write clock chunks' p).
Proof. by rewrite !feed_concat, Hsame by done. Qed.

Lemma chunking_irrelevant_witness :
  let feed := feed (RJ := no_json) (SC := data_codec) sample_config CrossProtocol
    OpenAIChatCompletions Anthropic full_write (λ _, 0) in
  flow_eq (feed ["data: a" ++ [LF]; [LF] ++ "data: b" ++ [CR; LF; CR]; [LF]] (pipe_start (λ _, 0) []))
          (feed ["data: a" ++ [LF; LF] ++ "data: b" ++ [CR; LF; CR; LF]] (pipe_start (λ _, 0) [])).
Proof. cbv zeta. apply (@chunking_irrelevant no_json data_codec); reflexivity. Defined.

(** ** The zero-copy path *)

Section Identity.
Context {RJ : RapidJson} {SC : StreamCodec}.
Context (config : StreamPipeConfig) (source_format target_format : Format).
Context (client_write : nat -> str -> Z) (clock : nat -> Z).
Context (Hpolicy : policy config = None) (Hwrite : accepting client_write).

(** What the client can see of a pipe, and its start time. *)
Definition seen (p : Pipe) : str * Z * Z := (p_out p, bytes_forwarded (p_result p), p_start p).

Lemma extract_usage_bytes e r : bytes_forwarded (extract_usage_from_event e r) = bytes_forwarded r.
Proof.
  unfold extract_usage_from_event. repeat (split_match; try done). unfold merge_usage. cbv zeta.
  destruct (member _ "output_tokens_details") as [[]|]; reflexivity.
Qed.

Lemma raw_write_all fuel data p :
  (length data <= fuel)%nat ->
  exists p', raw_write client_write clock fuel data p = (p', true)
    /\ seen p' = (p_out p ++ data, bytes_forwarded (p_result p), p_start p) /\ p_acc p' = p_acc p.
Proof.
  revert data p. induction fuel as [|fuel IH]; intros [|c data] p Hl; cbn [raw_write].
  1,3: exists p; by rewrite app_nil_r.
  { simpl in Hl. lia. }
  unfold do_write. specialize (Hwrite (p_writes p) (c :: data) ltac:(done)).
  set (count := client_write _ _) in *. destruct (Z.leb_spec count 0); [lia|]. cbn [now_ms].
  match goal with |- context [raw_write _ _ _ _ ?p1] =>
    destruct (IH (drop (Z.to_nat count) (c :: data)) p1) as (p' & -> & Hs & Ha) end.
  { rewrite length_drop. simpl in *. lia. }
  exists p'. split; [done|]. split; [|done]. rewrite Hs. cbn. by rewrite <- app_assoc, take_drop.
Qed.

Lemma note_terminal_seen e p : seen (note_terminal source_format e p) = seen p.
Proof. unfold note_terminal. by split_if. Qed.

Lemma passthrough_events_seen fuel acc p :
  exists p', passthrough_events config source_format target_format client_write clock fuel acc p
    = Continue p' /\ seen p' = seen p.
Proof.
  revert acc p. induction fuel as [|fuel IH]; intros acc p; cbn [passthrough_events]; [by eexists|].
  destruct (next_event acc) as [[e rest]|]; [|by eexists]. rewrite Hpolicy.
  destruct (IH rest (note_terminal source_format e (on_result (extract_usage_from_event e) p)))
    as (p' & -> & Hs).
  exists p'. split; [done|]. rewrite Hs, note_terminal_seen. unfold seen. cbn.
  by rewrite extract_usage_bytes.
Qed.

Lemma passthrough_chunk_seen bytes p :
  exists p', passthrough_chunk config source_format target_format client_write clock bytes p
    = Continue p'
    /\ seen p' = (p_out p ++ bytes, bytes_forwarded (p_result p) + Z.of_nat (length bytes), p_start p).
Proof.
  unfold passthrough_chunk. rewrite Hpolicy. cbv zeta.
  set (p1 := note_first_token clock p).
  assert (seen p1 = seen p) as H1 by (unfold p1, note_first_token; cbn; by split_if).
  clearbody p1. destruct (raw_write_all (length bytes) bytes p1 ltac:(done)) as (p2 & -> & H2 & _).
  cbn [negb]. match goal with |- context [passthrough_events _ _ _ _ _ ?f ?a ?p3] =>
    destruct (passthrough_events_seen f a p3) as (p4 & -> & H4) end.
  exists (trim_accumulator config p4). split; [done|].
  transitivity (seen p4); [unfold trim_accumulator; by split_if|]. rewrite H4.
  unfold seen in *. cbn. congruence.
Qed.

Lemma passthrough_chunks_seen chunks p :
  (forall n, clock n - p_start p <= total_timeout_ms config) ->
  exists p', run_passthrough config source_format target_format client_write clock
               ((Chunk <$> chunks) ++ [Eof]) p = Return p'
    /\ seen p' = (p_out p ++ concat chunks,
                  bytes_forwarded (p_result p) + Z.of_nat (length (concat chunks)), p_start p)
    /\ completed (p_result p') = true.
Proof.
  revert p. induction chunks as [|c chunks IH]; intros p Hc; unfold run_passthrough;
    cbn [fmap list_fmap app pipe_loop]; unfold total_timeout; cbn [now_ms p_start set_p_ticks].
  - destruct (Z.ltb_spec (total_timeout_ms config) (clock (p_ticks p) - p_start p));
      [specialize (Hc (p_ticks p)); lia|].
    cbn [passthrough_round]. eexists. split; [reflexivity|]. cbn [concat]. rewrite app_nil_r, Z.add_0_r.
    unfold seen, finish, upstream_closed. cbn. by split_if.
  - destruct (Z.ltb_spec (total_timeout_ms config) (clock (p_ticks p) - p_start p));
      [specialize (Hc (p_ticks p)); lia|].
    cbn [passthrough_round].
    match goal with |- context [passthrough_chunk _ _ _ _ _ c ?p1] =>
      destruct (passthrough_chunk_seen c p1) as (p2 & -> & H2) end.
    unfold seen in H2. cbn in H2. injection H2 as Ho Hb Hst.
    destruct (IH p2) as (p' & Hr & Hs & Hd); [intros n; rewrite Hst; apply Hc|].
    exists p'. split; [exact Hr|]. split; [|done]. rewrite Hs, Ho, Hb, Hst.
    cbn [concat]. rewrite length_app, <- app_assoc. f_equal. f_equal. lia.
Qed.
End Identity.

(** C34: Without a policy the passthrough mode is the identity on bytes: for any
    chunks that end with a closed connection, a client that takes at least one byte
    per write gets exactly the provider's bytes, they are all counted, and the
    stream is completed, provided the total timeout does not pass. *)
Theorem passthrough_identity {RJ : RapidJson} {SC : StreamCodec} config source_format target_format
    client_write clock chunks
    (Hpolicy : policy config = None)
    (Hwrite : accepting client_write)
    (Hclock : forall n, clock n - clock 0%nat <= total_timeout_ms config) :
  exists p, run config Passthrough source_format target_format client_write clock
              ((Chunk <$> chunks) ++ [Eof]) = Return p
    /\ p_out p = concat chunks
    /\ bytes_forwarded (p_result p) = Z.of_nat (length (concat chunks))
    /\ completed (p_result p) = true.
Proof.
  destruct (passthrough_chunks_seen config source_format target_format client_write clock
    Hpolicy Hwrite chunks (pipe_start clock []) Hclock) as (p & Hr & Hs & Hd).
  exists p. split; [exact Hr|]. unfold seen in Hs. by injection Hs.
Qed.

Lemma passthrough_identity_witness :
  exists p, run (RJ := no_json) (SC := data_codec) default_config Passthrough Anthropic Anthropic
              (λ n _, Z.of_nat (n mod 3) + 1) (λ n, Z.of_nat (Nat.min n 100))
              [Chunk ("data: x" ++ [LF]); Chunk ([LF] ++ "event: message_stop"); Eof] = Return p
    /\ p_out p = "data: x" ++ [LF; LF] ++ "event: message_stop".
Proof.
  edestruct (@passthrough_identity no_json data_codec default_config Anthropic Anthropic
    (λ n _, Z.of_nat (n mod 3) + 1) (λ n, Z.of_nat (Nat.min n 100))
    ["data: x" ++ [LF]; [LF] ++ "event: message_stop"]) as (p & H1 & H2 & _).
  - reflexivity.
  - intros n data _. lia.
  - intros n. cbn [total_timeout_ms default_config]. lia.
  - exists p. split; [exact H1|]. rewrite H2. reflexivity.
Defined.

Section Keepalive.
Context {RJ : RapidJson} {SC : StreamCodec}.
Context (config : StreamPipeConfig) (source_format target_format : Format) (clock : nat -> Z).
Context (Hpolicy : policy config = None).

Lemma passthrough_events_frame fuel acc p :
  exists r acc', passthrough_events config source_format target_format full_write clock fuel acc p
    = Continue (set_p_acc acc' (set_p_result r p)).
Proof.
  revert acc p. induction fuel as [|fuel IH]; intros acc p; cbn [passthrough_events].
  { exists (p_result p), acc. by destruct p. }
  destruct (next_event acc) as [[e rest]|]; [|exists (p_result p), acc; by destruct p].
  rewrite Hpolicy.
  destruct (IH rest (note_terminal source_format e (on_result (extract_usage_from_event e) p)))
    as (r & acc' & ->).
  exists r, acc'. unfold note_terminal. by split_if.
Qed.

(** A chunk written in one go, tick by tick. *)
Lemma passthrough_chunk_frame bytes p :
  bytes <> [] ->
  exists r acc', passthrough_chunk config source_format target_format full_write clock bytes p
    = Continue (mkPipe r acc' (p_out p ++ bytes) (S (p_writes p)) (S (S (p_ticks p)))
                  (p_policy_calls p) (p_start p) (clock (p_ticks p)) (clock (S (p_ticks p))) true).
Proof.
  intros Hne. unfold passthrough_chunk. rewrite Hpolicy. cbv zeta.
  assert (exists r, note_first_token clock p = set_p_first true (set_p_last_data (clock (p_ticks p))
            (set_p_ticks (S (p_ticks p)) (set_p_result r p)))) as [r ->].
  { unfold note_first_token. cbn. destruct (p_first p) eqn:E; [exists (p_result p)|eexists].
    - destruct p. cbn in *. by subst.
    - reflexivity. }
  assert (forall q, raw_write full_write clock (length bytes) bytes q
    = (set_p_last_write (clock (p_ticks q)) (set_p_ticks (S (p_ticks q))
        (set_p_out (p_out q ++ bytes) (set_p_writes (S (p_writes q)) q))), true)) as Hw.
  { intros q. destruct bytes as [|c bytes]; [done|]. cbn [length raw_write]. unfold do_write, full_write.
    destruct (Z.leb_spec (Z.of_nat (length (c :: bytes))) 0); [simpl in *; lia|].
    cbn [now_ms]. rewrite Nat2Z.id, firstn_all, drop_all. by destruct (length bytes). }
  rewrite Hw. cbn [negb].
  match goal with |- context [passthrough_events _ _ _ _ _ ?f ?a ?p3] =>
    destruct (passthrough_events_frame f a p3) as (r' & acc' & ->) end.
  unfold trim_accumulator. cbv zeta. split_if; by eexists _, _.
Qed.
End Keepalive.

(** A keepalive may land inside an event: on the zero-copy path the bytes of
    an incomplete event have already been written when a silent provider makes the
    pipe write its keepalive comment, so the client receives the comment in the
    middle of the event. *)
Theorem keepalive_inside_event {RJ : RapidJson} {SC : StreamCodec} config source_format
    target_format a b
    (Hpolicy : policy config = None)
    (Hkeep : inject_keepalive_enabled config = true)
    (Hinterval : keepalive_interval_ms config = 15000)
    (Htotal : 20000 <= total_timeout_ms config)
    (Hchunk : 20000 <= inter_chunk_timeout_ms config)
    (clock := λ n, if (n <? 4)%nat then 0 else 20000)
    (Ha : a <> []) :
  p_out (flow_pipe (run config Passthrough source_format target_format full_write clock
                      [Chunk a; ReadError 11; Chunk b])) = a ++ keepalive ++ b.
Proof.
  assert (clock 1%nat = 0 /\ clock 2%nat = 0 /\ clock 3%nat = 0 /\ clock 4%nat = 20000
    /\ clock 5%nat = 20000 /\ clock 6%nat = 20000) as (C1 & C2 & C3 & C4 & C5 & C6) by done.
  unfold run, run_passthrough. cbn [pipe_loop]. unfold total_timeout. cbn [now_ms pipe_start p_ticks p_start set_p_ticks].
  change (clock 0%nat) with 0. rewrite C1. destruct (Z.ltb_spec (total_timeout_ms config) (0 - 0)); [lia|].
  cbn [passthrough_round].
  match goal with |- context [passthrough_chunk _ _ _ _ _ a ?p] =>
    destruct (passthrough_chunk_frame config source_format target_format clock Hpolicy a p Ha)
      as (r & acc & ->) end.
  cbn [p_out p_writes p_ticks p_policy_calls p_start set_p_ticks now_ms app].
  rewrite C2, C3, C4. change (p_start (pipe_start clock [])) with 0.
  destruct (Z.ltb_spec (total_timeout_ms config) (20000 - 0)); [lia|].
  cbn [passthrough_round]. unfold read_failed. change (provider_disconnect_errno 11) with false.
  cbn [now_ms p_ticks set_p_ticks p_last_data p_first negb andb orb]. rewrite C5.
  destruct (Z.ltb_spec (inter_chunk_timeout_ms config) (20000 - 0)); [lia|]. rewrite Hkeep.
  unfold inject_keepalive. cbn [now_ms p_ticks set_p_ticks p_last_write]. rewrite C6, Hinterval.
  change (20000 - 0 <? 15000) with false. cbv iota. unfold do_write.
  change (full_write _ keepalive) with 13. cbn [Z.leb].
  change (13 <=? 0) with false. cbv iota. cbn [pipe_loop].
  set (p1 := set_p_out _ _).
  assert (p_out p1 = a ++ keepalive /\ p_start p1 = 0) as [Ho Hst] by done. clearbody p1.
  assert (forall n, clock n <= 20000) as Hmax by (intros n; unfold clock; split_if; lia).
  unfold total_timeout. cbn [now_ms p_start set_p_ticks]. rewrite Hst.
  destruct (Z.ltb_spec (total_timeout_ms config) (clock (p_ticks p1) - 0));
    [specialize (Hmax (p_ticks p1)); lia|].
  cbn [passthrough_round]. match goal with |- context [passthrough_chunk _ _ _ _ _ b ?p] =>
    destruct (passthrough_chunk_seen config source_format target_format full_write clock Hpolicy
      full_write_accepting b p) as (p2 & -> & Hs2) end.
  injection Hs2 as Ho2 _ _. cbn [p_out set_p_ticks] in Ho2. rewrite Ho, <- app_assoc in Ho2.
  split_if; exact Ho2.
Qed.

Lemma keepalive_inside_event_witness :
  p_out (flow_pipe (run (RJ := no_json) (SC := data_codec) default_config Passthrough Gemini Gemini
    full_write (λ n, if (n <? 4)%nat then 0 else 20000)
    [Chunk "data: {"; ReadError 11; Chunk ("}" ++ [LF; LF])]))
  = "data: {" ++ keepalive ++ "}" ++ [LF; LF].
Proof.
  apply (@keepalive_inside_event no_json data_codec default_config Gemini Gemini "data: {"
    ("}" ++ [LF; LF])); cbn; (reflexivity || lia || discriminate).
Defined.

(** ** Termination *)

(** Time only moves forward and the start is fixed. *)
Definition later (p p' : Pipe) : Prop := (p_ticks p <= p_ticks p')%nat /\ p_start p' = p_start p.

#[global] Instance later_preorder : PreOrder later.
Proof. split; [by split|]. intros p q r [H1 H2] [H3 H4]. split; [lia|congruence]. Qed.

Section Later.
Context {RJ : RapidJson} {SC : StreamCodec}.
Context (config : StreamPipeConfig) (mode : ProtocolMode).
Context (source_format target_format : Format).
Context (client_write : nat -> str -> Z) (clock : nat -> Z).

Lemma write_loop_later fuel data p : later p (write_loop client_write fuel data p).1.
Proof.
  revert data p. induction fuel as [|fuel IH]; intros [|c data] p; cbn [write_loop]; try reflexivity.
  unfold do_write. split_if; [by split|]. etransitivity; [|apply IH]. by split.
Qed.

Lemma write_all_later data p : later p (write_all client_write data p).1.
Proof.
  unfold write_all. pose proof (write_loop_later (length data) data p) as H.
  destruct (write_loop _ _ _ _) as [p' []]; [|done]. etransitivity; [exact H|by split].
Qed.

Lemma raw_write_later fuel data p : later p (raw_write client_write clock fuel data p).1.
Proof.
  revert data p. induction fuel as [|fuel IH]; intros [|c data] p; cbn [raw_write]; try reflexivity.
  unfold do_write. split_if; [by split|]. cbn [now_ms]. etransitivity; [|apply IH].
  split; [cbn; lia|done].
Qed.

Lemma apply_policy_later pe ce p : later p (apply_policy config source_format pe ce p).1.
Proof.
  unfold apply_policy. destruct (policy config); [|reflexivity]. split_if; [reflexivity|]. cbv zeta.
  destruct (_ <? _)%nat; cbn; [by split|]. destruct (bool_decide _); (split; [cbn; lia|done]).
Qed.

Lemma emit_later p : later p (emit_policy_error target_format client_write p).
Proof. apply write_all_later. Qed.
Lemma finish_later p : later p (finish clock p).
Proof. split; [cbn; lia|done]. Qed.
Lemma client_gone_later p : later p (client_gone clock p).
Proof. split; [cbn; lia|done]. Qed.

Lemma note_terminal_later e p : later p (note_terminal source_format e p).
Proof. unfold note_terminal. split_if; by split. Qed.
Lemma note_first_later p : later p (note_first_token clock p).
Proof. unfold note_first_token. cbn. split_if; (split; [cbn; lia|done]). Qed.

Lemma transform_events_later fuel acc p :
  later p (flow_pipe (transform_events config mode source_format target_format client_write clock fuel acc p)).
Proof.
  revert acc p. induction fuel as [|fuel IH]; intros acc p; cbn [transform_events]; [by split|].
  destruct (next_event acc) as [[e rest]|]; [|by split].
  destruct (transform_event _ _ _ e) as [x|]; [|reflexivity]. cbv zeta.
  set (p1 := note_terminal _ _ _). assert (later p p1) as H1.
  { unfold p1. etransitivity; [|apply note_terminal_later]. split_if; by split. }
  clearbody p1. pose proof (apply_policy_later e x p1) as H2.
  destruct (apply_policy _ _ e x p1) as [p2 ok]. cbn [fst] in H2.
  assert (later p p2) as H by (by transitivity p1).
  destruct ok; cbn [negb].
  - destruct (empty x); cbn [negb]; [by etransitivity; [exact H|apply IH]|].
    pose proof (write_all_later x p2) as H3. destruct (write_all _ x p2) as [p3 ok]. cbn [fst] in H3.
    assert (later p p3) as H' by (by transitivity p2).
    destruct ok; cbn [negb]; [by etransitivity; [exact H'|apply IH]|].
    etransitivity; [exact H'|apply client_gone_later].
  - etransitivity; [exact H|]. etransitivity; [apply emit_later|apply finish_later].
Qed.

Lemma passthrough_events_later fuel acc p :
  later p (flow_pipe (passthrough_events config source_format target_format client_write clock fuel acc p)).
Proof.
  revert acc p. induction fuel as [|fuel IH]; intros acc p; cbn [passthrough_events]; [by split|].
  destruct (next_event acc) as [[e rest]|]; [|by split]. cbv zeta.
  set (p1 := note_terminal _ _ _). assert (later p p1) as H1.
  { unfold p1. etransitivity; [|apply note_terminal_later]. by split. }
  clearbody p1. destruct (policy config); [|by etransitivity; [exact H1|apply IH]].
  pose proof (apply_policy_later e e p1) as H2.
  destruct (apply_policy _ _ e e p1) as [p2 ok]. cbn [fst] in H2.
  assert (later p p2) as H by (by transitivity p1).
  destruct ok; cbn [negb].
  - pose proof (write_all_later e p2) as H3. destruct (write_all _ e p2) as [p3 ok]. cbn [fst] in H3.
    assert (later p p3) as H' by (by transitivity p2).
    destruct ok; cbn [negb]; [|etransitivity; [exact H'|apply client_gone_later]].
    cbn [now_ms]. etransitivity; [exact H'|]. etransitivity; [|apply IH]. split; [cbn; lia|done].
  - etransitivity; [exact H|]. etransitivity; [apply emit_later|apply finish_later].
Qed.

Lemma read_failed_later errno p : later p (read_failed config clock errno p).1.
Proof.
  unfold read_failed. split_if; [by split|]. cbn [now_ms]. split_if; (split; [cbn; lia|done]).
Qed.

Lemma passthrough_round_later read p :
  later p (flow_pipe (passthrough_round config source_format target_format client_write clock read p)).
Proof.
  destruct read as [bytes| |errno]; cbn [passthrough_round].
  - unfold passthrough_chunk. cbv zeta. pose proof (note_first_later p) as H1.
    set (p1 := note_first_token clock p) in *. clearbody p1.
    match goal with |- context [let '(p, ok) := ?m in _] =>
      assert (later p1 m.1) as H2; [|destruct m as [p2 ok]] end.
    { destruct (policy config); [reflexivity|]. pose proof (raw_write_later (length bytes) bytes p1) as H.
      destruct (raw_write _ _ _ _ p1) as [p2 []]; [|done]. etransitivity; [exact H|by split]. }
    cbn [fst] in H2. assert (later p p2) as H by (by transitivity p1).
    destruct ok; cbn [negb]; [|etransitivity; [exact H|apply client_gone_later]].
    pose proof (passthrough_events_later (S (length (p_acc p2 ++ bytes))) (p_acc p2 ++ bytes) p2) as H3.
    destruct (passthrough_events _ _ _ _ _ _ _ p2) as [p3|p3|p3 e]; cbn [flow_pipe] in *;
      (etransitivity; [exact H|]); [|done..].
    etransitivity; [exact H3|]. assert (later p3 (trim_accumulator config p3)) as H4
      by (unfold trim_accumulator; split_if; by split).
    destruct (policy config); [|done]. split_if; [|done]. cbn [flow_pipe].
    etransitivity; [apply apply_policy_later|]. etransitivity; [apply emit_later|apply finish_later].
  - etransitivity; [|apply finish_later]. by split.
  - pose proof (read_failed_later errno p) as H. destruct (read_failed _ _ errno p) as [p1 stop].
    cbn [fst] in H. destruct stop; [etransitivity; [exact H|apply finish_later]|].
    split_if; [|done]. etransitivity; [exact H|]. unfold inject_keepalive. cbn [now_ms].
    split_if; [split; [cbn; lia|done]|]. unfold do_write. split_if; (split; [cbn; lia|done]).
Qed.

Lemma transform_round_later read p :
  later p (flow_pipe (transform_round config mode source_format target_format client_write clock read p)).
Proof.
  destruct read as [bytes| |errno]; cbn [transform_round].
  - etransitivity; [apply note_first_later|apply transform_events_later].
  - etransitivity; [|apply finish_later]. by split.
  - pose proof (read_failed_later errno p) as H. destruct (read_failed _ _ errno p) as [p1 stop].
    destruct stop; [etransitivity; [exact H|apply finish_later]|done].
Qed.

(** Every round reads the clock, so a clock that moves by a millisecond per
    reading bounds the number of rounds. *)
Lemma pipe_loop_terminates round script p :
  (forall n, p_start p + Z.of_nat n <= clock n) ->
  (forall read p, later p (flow_pipe (round read p))) ->
  total_timeout_ms config < Z.of_nat (p_ticks p + length script) ->
  match pipe_loop config clock round script p with Continue _ => False | _ => True end.
Proof.
  intros Hc Hr. revert p Hc. induction script as [|read script IH]; intros p Hc Ht;
    cbn [pipe_loop]; unfold total_timeout; cbn [now_ms p_start set_p_ticks].
  - destruct (Z.ltb_spec (total_timeout_ms config) (clock (p_ticks p) - p_start p)); [done|].
    specialize (Hc (p_ticks p)). simpl in Ht. lia.
  - split_if; [done|]. match goal with |- context [round read ?p1] =>
      pose proof (Hr read p1) as [H1 H2]; destruct (round read p1) as [p2|p2|p2 e] end; [|done..].
    cbn in H1, H2. apply IH; [by rewrite H2|]. simpl in Ht. lia.
Qed.
End Later.



(** ** Usage counts *)

Lemma valid_usage_count_iff v :
  valid_usage_count v = true <-> exists z, v = JInt z /\ 0 <= z < 2 ^ 31.
Proof.
  unfold valid_usage_count. destruct v; cbn [IsInt IsInt64 IsUint IsUint64 get_int];
    try (split; [discriminate|by intros (? & ? & ?)]).
  repeat (match goal with |- context [if ?b then _ else _] => destruct b eqn:? end);
    rewrite ?andb_true_iff, ?andb_false_iff, ?Z.leb_le, ?Z.leb_gt, ?Z.ltb_lt, ?Z.ltb_ge in *;
    (split; [intros; eexists; split; [done|lia]|intros (? & [= <-] & ?); lia]).
Qed.

Lemma max_member_ge usage keys n : n <= max_member usage keys n.
Proof.
  unfold max_member. revert n. induction keys as [|k keys IH]; intros n; cbn [fold_left]; [lia|].
  etransitivity; [|apply IH]. destruct (member usage k); lia.
Qed.

#[local] Arguments max_member : simpl never.

(** Token counts only grow: whatever an event contains, extracting its usage
    never lowers a counter of the result; and a count is
    accepted exactly when it is an integer between 0 and 2^31 - 1. *)
Theorem usage_counts_monotone {RJ : RapidJson} event r :
  let r' := extract_usage_from_event event r in
  input_tokens r <= input_tokens r' /\ output_tokens r <= output_tokens r'
  /\ cache_create_tokens r <= cache_create_tokens r'
  /\ cache_read_tokens r <= cache_read_tokens r'
  /\ reasoning_tokens r <= reasoning_tokens r'
  /\ forall v, valid_usage_count v = true <-> exists z, v = JInt z /\ 0 <= z < 2 ^ 31.
Proof.
  cbv zeta. unfold extract_usage_from_event.
  assert (forall v, valid_usage_count v = true <-> exists z, v = JInt z /\ 0 <= z < 2 ^ 31) as Hv
    by apply valid_usage_count_iff.
  repeat (split_match; try (do 5 (split; [reflexivity|]); exact Hv)).
  unfold merge_usage. cbv zeta. match goal with |- context [member ?u _] => rename u into usage end.
  destruct (member usage "output_tokens_details") as [[]|]; do 4 (split; [apply max_member_ge|]);
    (split; [|exact Hv]); try apply max_member_ge.
  etransitivity; apply max_member_ge.
Qed.
