(* ===== verification/StreamFormats.v ===== *)
(** * Stream events between formats

    The conversions of [protocol/] as the codec of the stream pipe, what a client
    reads from an event the pipe prints for it, and which parts of a streamed answer
    survive the conversion. *)
From S2P Require Import Prelude Json JsonText Capability StreamPipe ChatIr.
From S2P Require Import OpenAiFormat AnthropicFormat GeminiFormat ResponsesFormat.
#[local] Arguments lit : simpl never.
#[local] Open Scope nat_scope.

(** The two [switch] statements of [StreamPipe::transform_event]. *)
Definition protocol_codec {RJ : RapidJson} : StreamCodec := {|
  StreamPipe.StreamDelta := ChatIr.StreamDelta;
  StreamPipe.parse_stream_event := λ from event_type data,
    match from with
    | Anthropic => Ok (AnthropicFormat.parse_stream_event event_type data)
    | OpenAIChatCompletions => OpenAiFormat.parse_stream_event data
    | OpenAIResponses => Ok (ResponsesFormat.parse_stream_event data)
    | Gemini => GeminiFormat.parse_stream_event data
    end;
  StreamPipe.serialize_stream_event := λ to d,
    match to with
    | Anthropic => AnthropicFormat.serialize_stream_event d
    | OpenAIChatCompletions => OpenAiFormat.serialize_stream_event d
    | OpenAIResponses => ResponsesFormat.serialize_stream_event d
    | Gemini => GeminiFormat.serialize_stream_event d
    end;
|}.
#[global] Existing Instance protocol_codec.

(** ** What a parser yields *)

Definition int32 (z : Z) : Prop := (- 2 ^ 31 <= z < 2 ^ 31)%Z.

Record wf_delta (d : ChatIr.StreamDelta) : Prop := {
  wd_id : clean (sd_id d);
  wd_text : clean (sd_text d);
  wd_tool_call_id : clean (sd_tool_call_id d);
  wd_tool_name : clean (sd_tool_name d);
  wd_arguments : clean (sd_tool_arguments_delta d);
  wd_model : clean (sd_model d);
  wd_finish : clean (sd_finish_reason d);
  wd_index : int32 (sd_index d);
  wd_input : int32 (sd_input_tokens d);
  wd_output : int32 (sd_output_tokens d);
}.

Lemma int32_member j key d : int32 d -> int32 (int_member j key d).
Proof.
  intros H. unfold int_member. repeat case_match; try done.
  destruct j0; try done. by apply IsInt_range.
Qed.

Lemma int32_zero : int32 0.
Proof. unfold int32. lia. Qed.

#[export] Hint Resolve int32_member int32_zero : gw.

Section Parsed.
Context {RJ : RapidJson}.

Lemma openai_delta_wf doc d : OpenAiFormat.delta_of_document doc = Ok d -> wf_delta d.
Proof.
  unfold OpenAiFormat.delta_of_document, tool_call_delta.
  repeat case_match; intros [= <-]; split; simpl; auto with gw;
    repeat case_match; simplify_eq; auto with gw.
Qed.

Lemma anthropic_delta_wf ev doc : wf_delta (AnthropicFormat.delta_of_document ev doc).
Proof.
  unfold AnthropicFormat.delta_of_document, finish_of_stop_reason.
  repeat case_match; split; simpl; auto with gw.
Qed.

Lemma gemini_parts_wf type finish parts : clean finish -> wf_delta (delta_of_parts type finish parts).
Proof.
  intros H. induction parts as [|p parts IH]; simpl; [split; simpl; auto with gw|].
  repeat case_match; auto; split; simpl; auto with gw.
Qed.

Lemma responses_delta_wf doc : wf_delta (ResponsesFormat.delta_of_document doc).
Proof. unfold ResponsesFormat.delta_of_document. repeat case_match; split; simpl; auto with gw. Qed.

Lemma default_delta_wf : wf_delta default_delta.
Proof. split; simpl; auto with gw. Qed.

Lemma parsed_delta_wf from event_type data (d : ChatIr.StreamDelta) :
  StreamPipe.parse_stream_event from event_type data = Ok d -> wf_delta d.
Proof.
  destruct from; simpl.
  - unfold AnthropicFormat.parse_stream_event. intros [= <-].
    repeat case_match; auto using anthropic_delta_wf, default_delta_wf.
  - unfold OpenAiFormat.parse_stream_event.
    repeat case_match; try (intros [= <-]; split; simpl; auto with gw; fail). apply openai_delta_wf.
  - unfold ResponsesFormat.parse_stream_event. intros [= <-].
    repeat case_match; auto using responses_delta_wf, default_delta_wf.
  - unfold GeminiFormat.parse_stream_event, GeminiFormat.delta_of_document.
    repeat case_match; try done; intros [= <-]; try (split; simpl; auto with gw; fail);
      simplify_eq; apply gemini_parts_wf; unfold finish_of_name; repeat case_match; auto with gw.
Qed.
End Parsed.

(** ** Framing: the fields of a printed event *)

Lemma sse_lines_line line rest cur :
  LF ∉ line -> sse_lines cur (line ++ LF :: rest) = (rev cur ++ line) :: sse_lines [] rest.
Proof.
  revert cur. induction line as [|c line IH]; intros cur H; cbn [app sse_lines].
  - rewrite Ascii.eqb_refl, app_nil_r. done.
  - apply not_elem_of_cons in H as [Hc Hl]. destruct (Ascii.eqb_spec c LF); [congruence|].
    rewrite IH by done. cbn [rev]. by rewrite <- app_assoc.
Qed.

(** A text that is one line and does not begin with a blank. *)
Definition one_line (s : str) : Prop := (LF ∉ s) /\ (CR ∉ s) /\ head s <> Some " "%char.

Lemma drop_blank s : head s <> Some " "%char -> drop_while is_blank s = s.
Proof.
  intros H. destruct s as [|c s]; [done|]. simpl. unfold is_blank.
  destruct (Ascii.eqb_spec c " "%char); [by subst|done].
Qed.

Lemma drop_cr s : CR ∉ s -> drop_while_back is_cr s = s.
Proof.
  intros H. apply drop_while_back_none, Forall_forall. intros c Hc. unfold is_cr.
  destruct (Ascii.eqb_spec c CR); [by subst|done].
Qed.

Lemma not_elem_lit c s : bool_decide (c ∉ lit s) = true -> c ∉ lit s.
Proof. apply bool_decide_eq_true_1. Qed.

Lemma scan_data f w : scan_line false f ("data: " ++ w) = (f.1, drop_while is_blank w).
Proof. reflexivity. Qed.

Lemma scan_event f n :
  scan_line false f ("event: " ++ n) = (drop_while_back is_cr (drop_while is_blank n), f.2).
Proof. reflexivity. Qed.

Lemma scan_end f : fold_left (scan_line false) (sse_lines [] [LF]) f = f.
Proof. reflexivity. Qed.

Lemma data_event_fields w : one_line w -> sse_fields false ("data: " ++ w ++ [LF; LF]) = ([], w).
Proof.
  intros (Hlf & Hcr & Hb). unfold sse_fields. rewrite app_assoc. change [LF; LF] with (LF :: [LF]).
  rewrite (sse_lines_line ("data: " ++ w)).
  - cbn [rev app fold_left]. by rewrite scan_data, scan_end, drop_blank.
  - apply not_elem_of_app. split; [apply not_elem_lit; vm_compute; reflexivity|done].
Qed.

Lemma named_event_fields n w : one_line n -> one_line w ->
  sse_fields false ("event: " ++ n ++ [LF] ++ "data: " ++ w ++ [LF; LF]) = (n, w).
Proof.
  intros (Hlfn & Hcrn & Hbn) (Hlf & Hcr & Hb). unfold sse_fields.
  change ([LF] ++ "data: " ++ w ++ [LF; LF]) with (LF :: "data: " ++ w ++ LF :: [LF]).
  rewrite app_assoc, (sse_lines_line ("event: " ++ n)), (app_assoc "data: " w), (sse_lines_line ("data: " ++ w)).
  - cbn [rev app fold_left]. by rewrite scan_event, scan_data, scan_end, drop_blank, drop_cr, drop_blank.
  - apply not_elem_of_app. split; [apply not_elem_lit; vm_compute; reflexivity|done].
  - apply not_elem_of_app. split; [apply not_elem_lit; vm_compute; reflexivity|done].
Qed.

(** ** What a client reads

    The part of an event that each format has a place for. *)
Section Carried.
Context {RJ : RapidJson}.

Definition carried (to : Format) (d : ChatIr.StreamDelta) : ChatIr.StreamDelta :=
  let plain type := mkDelta type [] [] [] [] [] 0 [] [] 0 0 in
  match to, sd_type d with
  | OpenAIChatCompletions, (MessageStart | TextDelta) =>
      mkDelta (sd_type d) (sd_id d) (match sd_type d with TextDelta => sd_text d | _ => [] end) [] [] [] 0
        (sd_model d) (sd_finish_reason d) 0 0
  | OpenAIChatCompletions, ToolCallDelta =>
      mkDelta ToolCallDelta (sd_id d) [] (sd_tool_call_id d) (sd_tool_name d)
        (if empty (sd_tool_name d) then sd_tool_arguments_delta d else []) (sd_index d)
        (sd_model d) (sd_finish_reason d) 0 0
  | OpenAIChatCompletions, (ContentStart | ContentEnd | MessageEnd) =>
      mkDelta (if empty (sd_finish_reason d) then TextDelta else MessageEnd) (sd_id d) [] [] [] [] 0
        (sd_model d) (sd_finish_reason d) 0 0
  | Anthropic, MessageStart =>
      mkDelta MessageStart (if empty (sd_id d) then "msg_gateway" else sd_id d) [] [] [] [] 0 (sd_model d) []
        (sd_input_tokens d) 0
  | Anthropic, ContentStart =>
      if empty (sd_tool_name d) then mkDelta ContentStart [] [] [] [] [] (sd_index d) [] [] 0 0
      else mkDelta ContentStart [] [] (sd_tool_call_id d) (sd_tool_name d) [] (sd_index d) [] [] 0 0
  | Anthropic, TextDelta => mkDelta TextDelta [] (sd_text d) [] [] [] (sd_index d) [] [] 0 0
  | Anthropic, ToolCallDelta =>
      mkDelta ToolCallDelta [] [] [] [] (sd_tool_arguments_delta d) (sd_index d) [] [] 0 0
  | Anthropic, ContentEnd => mkDelta ContentEnd [] [] [] [] [] (sd_index d) [] [] 0 0
  | Anthropic, MessageEnd =>
      mkDelta MessageEnd [] [] [] [] [] 0 [] (finish_of_stop_reason (stop_reason (sd_finish_reason d))) 0
        (sd_output_tokens d)
  | Gemini, TextDelta => mkDelta TextDelta [] (sd_text d) [] [] [] 0 [] [] 0 0
  | Gemini, ToolCallDelta => mkDelta ToolCallDelta [] [] [] (sd_tool_name d) (dump (JObject [])) 0 [] [] 0 0
  | Gemini, MessageEnd =>
      mkDelta MessageEnd [] [] [] [] [] 0 [] (finish_of_name (finish_reason_name (sd_finish_reason d))) 0 0
  | Gemini, (MessageStart | ContentStart | ContentEnd) => plain TextDelta
  | OpenAIResponses, TextDelta => mkDelta TextDelta [] (sd_text d) [] [] [] 0 [] [] 0 0
  | OpenAIResponses, ToolCallDelta =>
      mkDelta ToolCallDelta [] [] (sd_tool_call_id d) (sd_tool_name d) (sd_tool_arguments_delta d) 0 [] [] 0 0
  | OpenAIResponses, ContentEnd => plain TextDelta
  | OpenAIResponses, (MessageStart | ContentStart) => plain (sd_type d)
  | OpenAIResponses, (MessageEnd | Done) | _, Done => plain Done
  end.

Lemma openai_tool_carried d id model finish : wf_delta d ->
  tool_call_delta id model finish (tool_delta_json d)
  = mkDelta ToolCallDelta id [] (sd_tool_call_id d) (sd_tool_name d)
      (if empty (sd_tool_name d) then sd_tool_arguments_delta d else []) (sd_index d) model finish 0 0.
Proof.
  intros [_ _ Hc Hn Ha _ _ Hx _ _]. unfold tool_call_delta.
  rewrite (get_str_when _ "id" (sd_tool_call_id d)), (int_member_always _ "index" (sd_index d))
    by (assumption || (unfold tool_delta_json; lookup)).
  unfold tool_delta_json. cbn [member]. autorewrite with members. eval_keys. rewrite andb_false_r. cbn iota.
  destruct (sd_tool_name d) as [|c n]; [|cbn [empty negb]; unfold jstr; members; members; by rewrite cstr_cstr_clean].
  destruct (sd_tool_arguments_delta d) as [|c a]; [done|].
  cbn [empty negb]. unfold jstr. members. members. by rewrite !cstr_cstr_clean by auto with gw.
Qed.

Lemma openai_carried d : wf_delta d -> sd_type d <> Done ->
  OpenAiFormat.delta_of_document (OpenAiFormat.document_of_delta d) = Ok (carried OpenAIChatCompletions d).
Proof.
  intros H Hd. destruct (H) as [Hi Ht _ _ _ Hm Hf _ _ _]. unfold OpenAiFormat.delta_of_document. cbv zeta.
  rewrite (get_str_when _ "model" (sd_model d)), (get_str_when _ "id" (sd_id d))
    by (assumption || (unfold OpenAiFormat.document_of_delta; lookup)).
  erewrite array_member_always; [|unfold OpenAiFormat.document_of_delta; lookup].
  set (choice := JObject _). change (IsObject choice) with true. cbn [negb].
  assert (get_str choice "finish_reason" = sd_finish_reason d) as ->.
  { unfold get_str, choice. members. destruct (sd_finish_reason d); [done|]. by apply cstr_cstr_clean. }
  change (member choice "delta") with (Some (JObject (delta_json d))). cbv iota.
  unfold delta_json, carried, jstr. destruct (sd_type d); try done; unfold HasMember, array_member; members; try done.
  - by rewrite cstr_cstr_clean.
  - by rewrite openai_tool_carried.
Qed.

Lemma IsInt_int32 z : int32 z -> IsInt (JInt z) = true.
Proof. apply IsInt_range. Qed.

(** Looks up what was printed. *)
Local Ltac carry :=
  unfold jstr; repeat (progress members); cbn [fst snd];
  rewrite ?IsInt_int32, ?cstr_cstr_clean by auto with gw; cbn [get_int].

Lemma anthropic_carried d : wf_delta d ->
  AnthropicFormat.delta_of_document (AnthropicFormat.event_name (sd_type d)) (AnthropicFormat.document_of_delta d)
  = carried Anthropic d.
Proof.
  intros [Hi Ht Hc Hn Ha Hm Hf Hx Hin Hout].
  unfold AnthropicFormat.delta_of_document, AnthropicFormat.document_of_delta, carried, AnthropicFormat.event_name, object_member.
  destruct (sd_type d); eval_keys; try done.
  - destruct (empty (sd_id d)); by carry.
  - destruct (empty (sd_tool_name d)); by carry.
  - by carry.
  - by carry.
  - carry. rewrite cstr_cstr_clean; [done|]. unfold stop_reason. repeat case_match; auto with gw.
  - by carry.
Qed.

Lemma gemini_carried d : wf_delta d -> sd_type d <> Done ->
  GeminiFormat.delta_of_document (GeminiFormat.document_of_delta d) = Ok (carried Gemini d).
Proof.
  intros [Hi Ht Hc Hn Ha Hm Hf Hx Hin Hout] Hd.
  unfold GeminiFormat.delta_of_document, GeminiFormat.document_of_delta, carried, object_member.
  destruct (sd_type d); try done; cbn [bool_decide]; carry; cbn [delta_of_parts]; carry; try done.
  - destruct (sd_text d); [done|]. done.
  - rewrite bool_decide_eq_true_2 by done. cbv iota. rewrite cstr_cstr_clean; [done|].
    unfold finish_reason_name. repeat case_match; auto with gw.
Qed.

Lemma responses_carried d : wf_delta d -> sd_type d <> Done ->
  ResponsesFormat.delta_of_document (ResponsesFormat.document_of_delta d) = carried OpenAIResponses d.
Proof.
  intros [Hi Ht Hc Hn Ha Hm Hf Hx Hin Hout] Hd. unfold ResponsesFormat.delta_of_document, carried.
  assert (get_str (ResponsesFormat.document_of_delta d) "type" = ResponsesFormat.event_name (sd_type d)) as ->.
  { apply get_str_always; [done|]. unfold ResponsesFormat.event_name. destruct (sd_type d); auto with gw. }
  unfold ResponsesFormat.event_name. destruct (sd_type d) eqn:E; try done; eval_keys.
  - rewrite (get_str_always _ "delta" (sd_text d)); [done| |done].
    unfold ResponsesFormat.document_of_delta. rewrite E. by members.
  - unfold ResponsesFormat.document_of_delta. rewrite E. by members.
  - rewrite (get_str_always _ "delta" (sd_tool_arguments_delta d)), (get_str_when _ "call_id" (sd_tool_call_id d)),
      (get_str_when _ "name" (sd_tool_name d)); try done;
      unfold ResponsesFormat.document_of_delta; rewrite E; lookup.
Qed.
End Carried.

Section Printed.
Context `{RL : RapidJsonLaws}.

Lemma one_line_Write j : one_line (Write j).
Proof.
  repeat split; [apply Write_no_control; vm_compute; lia..|apply Write_first].
Qed.

Lemma printable_int32 z : int32 z -> printable (JInt z).
Proof. unfold int32. simpl. lia. Qed.

Lemma openai_delta_printable d : wf_delta d -> printable (OpenAiFormat.document_of_delta d).
Proof.
  intros [_ _ _ _ _ _ _ Hx _ _]. apply printable_int32 in Hx.
  unfold OpenAiFormat.document_of_delta, delta_json, tool_delta_json. destruct (sd_type d); printable_parts; try done;
    try by destruct (empty _).
  destruct (negb _); [|destruct (negb _)]; by printable_parts.
Qed.

Lemma anthropic_delta_printable d : wf_delta d -> printable (AnthropicFormat.document_of_delta d).
Proof.
  intros [_ _ _ _ _ _ _ Hx Hi Ho]. apply printable_int32 in Hx, Hi, Ho.
  unfold AnthropicFormat.document_of_delta. destruct (sd_type d); printable_parts; try done;
    try (by destruct (empty _)); destruct (negb _); by printable_parts.
Qed.

Lemma gemini_delta_printable d : printable (GeminiFormat.document_of_delta d).
Proof. unfold GeminiFormat.document_of_delta. destruct (sd_type d); by printable_parts. Qed.

Lemma responses_delta_printable d : printable (ResponsesFormat.document_of_delta d).
Proof. unfold ResponsesFormat.document_of_delta. destruct (sd_type d); by printable_parts. Qed.

Lemma Write_not_marker j : printable j -> Write j <> "[DONE]".
Proof. intros H E. pose proof (Parse_Write j H) as P. rewrite E, Parse_marker in P. done. Qed.

Lemma one_line_name n : bool_decide ((LF ∉ n) /\ (CR ∉ n) /\ head n <> Some " "%char) = true -> one_line n.
Proof. apply bool_decide_eq_true_1. Qed.

Lemma done_event_fields : sse_fields false ("data: [DONE]" ++ [LF; LF]) = ([], lit "[DONE]").
Proof. reflexivity. Qed.

(** What a client reads from the event printed for [d]: its name, its data, and the
    delta these parse to. *)
Definition reads_as (to : Format) (event : str) (d : ChatIr.StreamDelta) : Prop :=
  exists event_type data,
    sse_fields false event = (event_type, data) /\ data <> []
    /\ StreamPipe.parse_stream_event to event_type data = Ok d.

Lemma reads_as_data to j d : printable j ->
  StreamPipe.parse_stream_event to [] (Write j) = Ok d -> reads_as to ("data: " ++ dump j ++ [LF; LF]) d.
Proof.
  intros P H. exists [], (Write j). rewrite dump_Write. split; [apply data_event_fields, one_line_Write|].
  split; [by apply Write_nonempty|done].
Qed.

Lemma reads_as_named to n j d : one_line n -> printable j ->
  StreamPipe.parse_stream_event to n (Write j) = Ok d ->
  reads_as to ("event: " ++ n ++ [LF] ++ "data: " ++ dump j ++ [LF; LF]) d.
Proof.
  intros Hn P H. exists n, (Write j). rewrite dump_Write.
  split; [apply named_event_fields; [done|apply one_line_Write]|]. split; [by apply Write_nonempty|done].
Qed.

Lemma printed_event_read to (d : ChatIr.StreamDelta) :
  wf_delta d -> (to = OpenAIResponses -> sd_type d <> Done) ->
  reads_as to (StreamPipe.serialize_stream_event to d) (carried to d).
Proof.
  intros H Hd. destruct to; cbn [StreamPipe.serialize_stream_event protocol_codec].
  - pose proof (anthropic_delta_printable d H) as P. apply reads_as_named; [|done|].
    + apply one_line_name. by destruct (sd_type d).
    + cbn [StreamPipe.parse_stream_event protocol_codec]. unfold AnthropicFormat.parse_stream_event.
      rewrite Parse_Write by done. by rewrite <- anthropic_carried.
  - pose proof (openai_delta_printable d H) as P. unfold OpenAiFormat.serialize_stream_event.
    destruct (decide (sd_type d = Done)) as [E|E].
    { rewrite E. exists [], (lit "[DONE]"). split; [apply done_event_fields|]. split; [done|].
      unfold carried. by rewrite E. }
    assert (reads_as OpenAIChatCompletions ("data: " ++ dump (OpenAiFormat.document_of_delta d) ++ [LF; LF])
      (carried OpenAIChatCompletions d)); [|by destruct (sd_type d)].
    apply reads_as_data; [done|]. cbn [StreamPipe.parse_stream_event protocol_codec].
    unfold OpenAiFormat.parse_stream_event. rewrite (proj2 (str_eqb_neq _ _) (Write_not_marker _ P)), Parse_Write by done.
    by apply openai_carried.
  - pose proof (responses_delta_printable d) as P. specialize (Hd eq_refl).
    assert (reads_as OpenAIResponses ("event: " ++ ResponsesFormat.event_name (sd_type d) ++ [LF] ++ "data: "
      ++ dump (ResponsesFormat.document_of_delta d) ++ [LF; LF]) (carried OpenAIResponses d));
      [|unfold ResponsesFormat.serialize_stream_event; by destruct (sd_type d)].
    apply reads_as_named; [|done|].
    + apply one_line_name. by destruct (sd_type d).
    + cbn [StreamPipe.parse_stream_event protocol_codec]. unfold ResponsesFormat.parse_stream_event.
      rewrite Parse_Write by done. by rewrite <- responses_carried.
  - pose proof (gemini_delta_printable d) as P. unfold GeminiFormat.serialize_stream_event.
    destruct (decide (sd_type d = Done)) as [E|E].
    { rewrite E. exists [], (lit "[DONE]"). split; [apply done_event_fields|]. split; [done|].
      unfold carried. by rewrite E. }
    assert (reads_as Gemini ("data: " ++ dump (GeminiFormat.document_of_delta d) ++ [LF; LF])
      (carried Gemini d)); [|by destruct (sd_type d)].
    apply reads_as_data; [done|]. cbn [StreamPipe.parse_stream_event protocol_codec].
    unfold GeminiFormat.parse_stream_event. rewrite (proj2 (str_eqb_neq _ _) (Write_not_marker _ P)), Parse_Write by done.
    by apply gemini_carried.
Qed.
End Printed.

(** ** Properties *)

Section Conversion.
Context `{RL : RapidJsonLaws}.


(** A streamed tool call of a Gemini provider reaches an OpenAI client with its
    name and without its arguments: the provider sends both in one event, and the
    printer drops the arguments of an event that has a name. *)
Theorem gemini_stream_arguments_lost mode event (d : ChatIr.StreamDelta)
    (Hread : reads_as Gemini event d) (Htype : sd_type d = ToolCallDelta) (Hname : sd_tool_name d <> []) :
  exists event', transform_event mode Gemini OpenAIChatCompletions event = Ok event'
    /\ reads_as OpenAIChatCompletions event'
         (mkDelta ToolCallDelta (sd_id d) [] (sd_tool_call_id d) (sd_tool_name d) [] (sd_index d)
            (sd_model d) (sd_finish_reason d) 0 0).
Proof.
  destruct Hread as (event_type & data & Hf & Hd & Hp).
  exists (@StreamPipe.serialize_stream_event protocol_codec OpenAIChatCompletions d). split.
  - unfold transform_event. rewrite Hf. apply empty_false in Hd as ->.
    rewrite (bool_decide_eq_true_2 (Gemini <> OpenAIChatCompletions)) by done. rewrite orb_true_r.
    unfold recode. by rewrite Hp.
  - pose proof (printed_event_read OpenAIChatCompletions d) as H. unfold carried in H. rewrite Htype in H.
    apply empty_false in Hname. rewrite Hname in H. apply H; [by eapply parsed_delta_wf|done].
Qed.
End Conversion.

(** ** Witnesses *)

Definition hello_delta : ChatIr.StreamDelta := mkDelta TextDelta "chatcmpl-1" "Hello" [] [] [] 0 "m" [] 0 0.

Lemma hello_wf : wf_delta hello_delta.
Proof. split; simpl; auto with gw. Qed.


(** A function call as Gemini streams it. *)
Definition gemini_call : json :=
  JObject [("candidates" : str, JArray [JObject [("content" : str, JObject [("parts" : str, JArray [
    JObject [("functionCall" : str, JObject [("name" : str, JString "f");
      ("args" : str, JObject [("x" : str, JInt 1)])])]])])]])].

Lemma gemini_stream_arguments_lost_witness :
  exists event', @transform_event (@protocol_codec coded_json) CrossProtocol Gemini OpenAIChatCompletions
      ("data: " ++ @dump coded_json gemini_call ++ [LF; LF]) = Ok event'
    /\ @reads_as coded_json OpenAIChatCompletions event'
         (mkDelta ToolCallDelta [] [] [] "f" [] 0 [] [] 0 0).
Proof.
  apply (@gemini_stream_arguments_lost coded_json coded_json_laws CrossProtocol
    ("data: " ++ @dump coded_json gemini_call ++ [LF; LF])
    (mkDelta ToolCallDelta [] [] [] "f" (@dump coded_json (JObject [("x" : str, JInt 1)])) 0 [] [] 0 0)).
  - apply (@reads_as_data coded_json coded_json_laws); [simpl; repeat split; lia|].
    cbn [StreamPipe.parse_stream_event protocol_codec]. unfold GeminiFormat.parse_stream_event.
    rewrite (proj2 (str_eqb_neq _ _)).
    + rewrite Parse_Write by (simpl; repeat split; lia). reflexivity.
    + apply Write_not_marker. simpl. repeat split; lia.
  - reflexivity.
  - discriminate.
Defined.
