(* ===== verification/Forwarder.v ===== *)
(** * Forwarding a request to a provider

    [forwarder/forwarder.{h,cpp}] and [forwarder/connection_pool].  Photon's HTTP
    client is outside the repository: what [op->call()] and the reads of the
    response yield is the argument [call] of [forward]; whether the cancellation
    watcher has seen the client leave is observed at the two points where the code
    looks. *)
From S2P Require Import Prelude Numbers Json Capability DispatchTypes StreamPipe.
#[local] Open Scope Z_scope.

(** ** Proxy URLs *)

Definition unreserved (c : ascii) : bool :=
  is_alnum c || (c =? "-")%char || (c =? "_")%char || (c =? ".")%char || (c =? "~")%char.

Definition upper_hex (n : nat) : ascii := nth n (lit "0123456789ABCDEF") NUL.

Definition encode_char (c : ascii) : str :=
  if unreserved c then [c]
  else ["%"%char; upper_hex (code c / 16); upper_hex (code c mod 16)].

Definition url_encode_component (value : str) : str := concat (map encode_char value).

Definition build_proxy_auth_url (base_url username password : str) : str :=
  match sfind "://" base_url with
  | None => base_url
  | Some scheme_end =>
      let host_start := (scheme_end + 3)%nat in
      take host_start base_url ++ url_encode_component username ++ ":"
        ++ url_encode_component password ++ "@" ++ drop host_start base_url
  end.

(** ** Content types and payloads *)

(** The media type up to its parameters, in lower case. *)
Definition media_type_of (content_type : str) : str :=
  let m := lower content_type in
  drop_while_back is_space (upto (sfind ";" m) m).

Definition provider_disconnect_error (error : Z) : bool :=
  (error =? 0) || (error =? 104) || (error =? 103) || (error =? 32) || (error =? 107).

Definition has_invalid_success_payload {RJ : RapidJson} (status_code : Z) (content_type body : str)
    : bool :=
  if (status_code <? 200) || (300 <=? status_code) || (status_code =? 204) || (status_code =? 205)
  then false
  else if empty body then true
  else
    let media_type := media_type_of content_type in
    let json_type := (media_type =$ "application/json")
      || (5 <? length media_type)%nat && ends_with media_type "+json" in
    if negb json_type then false
    else match Parse body with Some _ => false | None => true end.

Definition is_event_stream_content_type (content_type : str) : bool :=
  drop_while is_space (media_type_of content_type) =$ "text/event-stream".

(** ** Headers *)

Definition hop_by_hop (name : str) : bool :=
  eq_any (lower name)
    ["connection" : str; "keep-alive" : str; "proxy-authenticate" : str;
     "proxy-authorization" : str; "te" : str; "trailer" : str; "transfer-encoding" : str;
     "upgrade" : str].

Definition token_char (c : ascii) : bool :=
  is_alnum c || existsb (λ d, (c =? d)%char) (lit "!#$%&'*+-.^_`|~").

Definition reserved_headers : list str :=
  ["host" : str; "content-length" : str; "content-type" : str; "accept" : str;
   "user-agent" : str; "x-request-id" : str; "idempotency-key" : str; "api_key" : str;
   "anthropic_version" : str; "anthropic_beta" : str; "provider_scenario" : str].

(** The body of the loop of [validate_target_auth_headers]: the names seen so
    far and the bytes counted so far go from one round to the next. *)
Fixpoint validate_loop (names : list str) (total_bytes : nat) (headers : list (str * str)) : bool :=
  match headers with
  | [] => true
  | (name, value) :: headers' =>
      if empty name || (64 <? length name)%nat || empty value || (4096 <? length value)%nat
      then false
      else if negb (forallb token_char name) then false
      else if existsb (λ c, (c =? CR)%char || (c =? LF)%char || (c =? NUL)%char) value then false
      else
        let key := lower name in
        if bool_decide (key ∈ names) then false
        else if hop_by_hop key || eq_any key reserved_headers then false
        else
          let total_bytes := (total_bytes + (length name + length value))%nat in
          if (32 * 1024 <? Z.of_nat total_bytes) then false
          else validate_loop (key :: names) total_bytes headers'
  end.

Definition validate_target_auth_headers (headers : list (str * str)) : bool :=
  if (16 <? length headers)%nat then false else validate_loop [] 0 headers.

Definition safe_request_header (name : str) : bool :=
  if hop_by_hop name then false
  else eq_any (lower name)
         ["accept" : str; "user-agent" : str; "x-request-id" : str; "idempotency-key" : str].

Definition safe_response_header (name : str) (target : UpstreamTarget) : bool :=
  if hop_by_hop name then false
  else
    let key := lower name in
    match ut_allowed_response_headers target with
    | [] => eq_any key ["content-type" : str; "retry-after" : str; "x-request-id" : str;
                        "openai-request-id" : str]
            || starts_with key "x-ratelimit-" || starts_with key "ratelimit-"
    | allowed => existsb (λ a, key =$ lower a) allowed
    end.

(** ** Results *)

Record ForwardResult := mkForwardResult {
  fr_status_code : Z;
  fr_stream : bool;
  fr_body : str;
  fr_input_tokens : Z;
  fr_output_tokens : Z;
  fr_cache_create_tokens : Z;
  fr_cache_read_tokens : Z;
  fr_first_token_ms : Z;
  fr_duration_ms : Z;
  fr_client_disconnect : bool;
  fr_stream_incomplete : bool;
  fr_stream_timeout : bool;
  fr_output_started : bool;
  fr_provider_response_received : bool;
  fr_provider_status_code : Z;
  fr_malformed_usage : bool;
  fr_policy_blocked : bool;
  fr_policy_failed_closed : bool;
  fr_policy_error_code : str;
  fr_policy_message : str;
  fr_content_type : str;
  fr_response_headers : list (str * str);
  fr_retry_after_ms : Z;
  fr_reasoning_tokens : Z;
  fr_provider_usage_json : str;
  fr_disconnect_reason : str;
  fr_cancellation_reason : str;
  fr_service_tier : str;
  fr_error : str;
}.

Definition set_fr_status_code (v : Z) (r : ForwardResult) : ForwardResult :=
  mkForwardResult v (fr_stream r) (fr_body r) (fr_input_tokens r) (fr_output_tokens r)
    (fr_cache_create_tokens r) (fr_cache_read_tokens r) (fr_first_token_ms r) (fr_duration_ms
    r) (fr_client_disconnect r) (fr_stream_incomplete r) (fr_stream_timeout r)
    (fr_output_started r) (fr_provider_response_received r) (fr_provider_status_code r)
    (fr_malformed_usage r) (fr_policy_blocked r) (fr_policy_failed_closed r)
    (fr_policy_error_code r) (fr_policy_message r) (fr_content_type r) (fr_response_headers r)
    (fr_retry_after_ms r) (fr_reasoning_tokens r) (fr_provider_usage_json r)
    (fr_disconnect_reason r) (fr_cancellation_reason r) (fr_service_tier r) (fr_error r).
Definition set_fr_stream (v : bool) (r : ForwardResult) : ForwardResult :=
  mkForwardResult (fr_status_code r) v (fr_body r) (fr_input_tokens r) (fr_output_tokens r)
    (fr_cache_create_tokens r) (fr_cache_read_tokens r) (fr_first_token_ms r) (fr_duration_ms
    r) (fr_client_disconnect r) (fr_stream_incomplete r) (fr_stream_timeout r)
    (fr_output_started r) (fr_provider_response_received r) (fr_provider_status_code r)
    (fr_malformed_usage r) (fr_policy_blocked r) (fr_policy_failed_closed r)
    (fr_policy_error_code r) (fr_policy_message r) (fr_content_type r) (fr_response_headers r)
    (fr_retry_after_ms r) (fr_reasoning_tokens r) (fr_provider_usage_json r)
    (fr_disconnect_reason r) (fr_cancellation_reason r) (fr_service_tier r) (fr_error r).
Definition set_fr_body (v : str) (r : ForwardResult) : ForwardResult :=
  mkForwardResult (fr_status_code r) (fr_stream r) v (fr_input_tokens r) (fr_output_tokens r)
    (fr_cache_create_tokens r) (fr_cache_read_tokens r) (fr_first_token_ms r) (fr_duration_ms
    r) (fr_client_disconnect r) (fr_stream_incomplete r) (fr_stream_timeout r)
    (fr_output_started r) (fr_provider_response_received r) (fr_provider_status_code r)
    (fr_malformed_usage r) (fr_policy_blocked r) (fr_policy_failed_closed r)
    (fr_policy_error_code r) (fr_policy_message r) (fr_content_type r) (fr_response_headers r)
    (fr_retry_after_ms r) (fr_reasoning_tokens r) (fr_provider_usage_json r)
    (fr_disconnect_reason r) (fr_cancellation_reason r) (fr_service_tier r) (fr_error r).
Definition set_fr_input_tokens (v : Z) (r : ForwardResult) : ForwardResult :=
  mkForwardResult (fr_status_code r) (fr_stream r) (fr_body r) v (fr_output_tokens r)
    (fr_cache_create_tokens r) (fr_cache_read_tokens r) (fr_first_token_ms r) (fr_duration_ms
    r) (fr_client_disconnect r) (fr_stream_incomplete r) (fr_stream_timeout r)
    (fr_output_started r) (fr_provider_response_received r) (fr_provider_status_code r)
    (fr_malformed_usage r) (fr_policy_blocked r) (fr_policy_failed_closed r)
    (fr_policy_error_code r) (fr_policy_message r) (fr_content_type r) (fr_response_headers r)
    (fr_retry_after_ms r) (fr_reasoning_tokens r) (fr_provider_usage_json r)
    (fr_disconnect_reason r) (fr_cancellation_reason r) (fr_service_tier r) (fr_error r).
Definition set_fr_output_tokens (v : Z) (r : ForwardResult) : ForwardResult :=
  mkForwardResult (fr_status_code r) (fr_stream r) (fr_body r) (fr_input_tokens r) v (fr_cache_create_tokens
    r) (fr_cache_read_tokens r) (fr_first_token_ms r) (fr_duration_ms r) (fr_client_disconnect
    r) (fr_stream_incomplete r) (fr_stream_timeout r) (fr_output_started r)
    (fr_provider_response_received r) (fr_provider_status_code r) (fr_malformed_usage r)
    (fr_policy_blocked r) (fr_policy_failed_closed r) (fr_policy_error_code r)
    (fr_policy_message r) (fr_content_type r) (fr_response_headers r) (fr_retry_after_ms r)
    (fr_reasoning_tokens r) (fr_provider_usage_json r) (fr_disconnect_reason r)
    (fr_cancellation_reason r) (fr_service_tier r) (fr_error r).
Definition set_fr_cache_create_tokens (v : Z) (r : ForwardResult) : ForwardResult :=
  mkForwardResult (fr_status_code r) (fr_stream r) (fr_body r) (fr_input_tokens r) (fr_output_tokens r) v
    (fr_cache_read_tokens r) (fr_first_token_ms r) (fr_duration_ms r) (fr_client_disconnect r)
    (fr_stream_incomplete r) (fr_stream_timeout r) (fr_output_started r)
    (fr_provider_response_received r) (fr_provider_status_code r) (fr_malformed_usage r)
    (fr_policy_blocked r) (fr_policy_failed_closed r) (fr_policy_error_code r)
    (fr_policy_message r) (fr_content_type r) (fr_response_headers r) (fr_retry_after_ms r)
    (fr_reasoning_tokens r) (fr_provider_usage_json r) (fr_disconnect_reason r)
    (fr_cancellation_reason r) (fr_service_tier r) (fr_error r).
Definition set_fr_cache_read_tokens (v : Z) (r : ForwardResult) : ForwardResult :=
  mkForwardResult (fr_status_code r) (fr_stream r) (fr_body r) (fr_input_tokens r) (fr_output_tokens r)
    (fr_cache_create_tokens r) v (fr_first_token_ms r) (fr_duration_ms r)
    (fr_client_disconnect r) (fr_stream_incomplete r) (fr_stream_timeout r) (fr_output_started
    r) (fr_provider_response_received r) (fr_provider_status_code r) (fr_malformed_usage r)
    (fr_policy_blocked r) (fr_policy_failed_closed r) (fr_policy_error_code r)
    (fr_policy_message r) (fr_content_type r) (fr_response_headers r) (fr_retry_after_ms r)
    (fr_reasoning_tokens r) (fr_provider_usage_json r) (fr_disconnect_reason r)
    (fr_cancellation_reason r) (fr_service_tier r) (fr_error r).
Definition set_fr_first_token_ms (v : Z) (r : ForwardResult) : ForwardResult :=
  mkForwardResult (fr_status_code r) (fr_stream r) (fr_body r) (fr_input_tokens r) (fr_output_tokens r)
    (fr_cache_create_tokens r) (fr_cache_read_tokens r) v (fr_duration_ms r)
    (fr_client_disconnect r) (fr_stream_incomplete r) (fr_stream_timeout r) (fr_output_started
    r) (fr_provider_response_received r) (fr_provider_status_code r) (fr_malformed_usage r)
    (fr_policy_blocked r) (fr_policy_failed_closed r) (fr_policy_error_code r)
    (fr_policy_message r) (fr_content_type r) (fr_response_headers r) (fr_retry_after_ms r)
    (fr_reasoning_tokens r) (fr_provider_usage_json r) (fr_disconnect_reason r)
    (fr_cancellation_reason r) (fr_service_tier r) (fr_error r).
Definition set_fr_duration_ms (v : Z) (r : ForwardResult) : ForwardResult :=
  mkForwardResult (fr_status_code r) (fr_stream r) (fr_body r) (fr_input_tokens r) (fr_output_tokens r)
    (fr_cache_create_tokens r) (fr_cache_read_tokens r) (fr_first_token_ms r) v
    (fr_client_disconnect r) (fr_stream_incomplete r) (fr_stream_timeout r) (fr_output_started
    r) (fr_provider_response_received r) (fr_provider_status_code r) (fr_malformed_usage r)
    (fr_policy_blocked r) (fr_policy_failed_closed r) (fr_policy_error_code r)
    (fr_policy_message r) (fr_content_type r) (fr_response_headers r) (fr_retry_after_ms r)
    (fr_reasoning_tokens r) (fr_provider_usage_json r) (fr_disconnect_reason r)
    (fr_cancellation_reason r) (fr_service_tier r) (fr_error r).
Definition set_fr_client_disconnect (v : bool) (r : ForwardResult) : ForwardResult :=
  mkForwardResult (fr_status_code r) (fr_stream r) (fr_body r) (fr_input_tokens r) (fr_output_tokens r)
    (fr_cache_create_tokens r) (fr_cache_read_tokens r) (fr_first_token_ms r) (fr_duration_ms
    r) v (fr_stream_incomplete r) (fr_stream_timeout r) (fr_output_started r)
    (fr_provider_response_received r) (fr_provider_status_code r) (fr_malformed_usage r)
    (fr_policy_blocked r) (fr_policy_failed_closed r) (fr_policy_error_code r)
    (fr_policy_message r) (fr_content_type r) (fr_response_headers r) (fr_retry_after_ms r)
    (fr_reasoning_tokens r) (fr_provider_usage_json r) (fr_disconnect_reason r)
    (fr_cancellation_reason r) (fr_service_tier r) (fr_error r).
Definition set_fr_stream_incomplete (v : bool) (r : ForwardResult) : ForwardResult :=
  mkForwardResult (fr_status_code r) (fr_stream r) (fr_body r) (fr_input_tokens r) (fr_output_tokens r)
    (fr_cache_create_tokens r) (fr_cache_read_tokens r) (fr_first_token_ms r) (fr_duration_ms
    r) (fr_client_disconnect r) v (fr_stream_timeout r) (fr_output_started r)
    (fr_provider_response_received r) (fr_provider_status_code r) (fr_malformed_usage r)
    (fr_policy_blocked r) (fr_policy_failed_closed r) (fr_policy_error_code r)
    (fr_policy_message r) (fr_content_type r) (fr_response_headers r) (fr_retry_after_ms r)
    (fr_reasoning_tokens r) (fr_provider_usage_json r) (fr_disconnect_reason r)
    (fr_cancellation_reason r) (fr_service_tier r) (fr_error r).
Definition set_fr_stream_timeout (v : bool) (r : ForwardResult) : ForwardResult :=
  mkForwardResult (fr_status_code r) (fr_stream r) (fr_body r) (fr_input_tokens r) (fr_output_tokens r)
    (fr_cache_create_tokens r) (fr_cache_read_tokens r) (fr_first_token_ms r) (fr_duration_ms
    r) (fr_client_disconnect r) (fr_stream_incomplete r) v (fr_output_started r)
    (fr_provider_response_received r) (fr_provider_status_code r) (fr_malformed_usage r)
    (fr_policy_blocked r) (fr_policy_failed_closed r) (fr_policy_error_code r)
    (fr_policy_message r) (fr_content_type r) (fr_response_headers r) (fr_retry_after_ms r)
    (fr_reasoning_tokens r) (fr_provider_usage_json r) (fr_disconnect_reason r)
    (fr_cancellation_reason r) (fr_service_tier r) (fr_error r).
Definition set_fr_output_started (v : bool) (r : ForwardResult) : ForwardResult :=
  mkForwardResult (fr_status_code r) (fr_stream r) (fr_body r) (fr_input_tokens r) (fr_output_tokens r)
    (fr_cache_create_tokens r) (fr_cache_read_tokens r) (fr_first_token_ms r) (fr_duration_ms
    r) (fr_client_disconnect r) (fr_stream_incomplete r) (fr_stream_timeout r) v
    (fr_provider_response_received r) (fr_provider_status_code r) (fr_malformed_usage r)
    (fr_policy_blocked r) (fr_policy_failed_closed r) (fr_policy_error_code r)
    (fr_policy_message r) (fr_content_type r) (fr_response_headers r) (fr_retry_after_ms r)
    (fr_reasoning_tokens r) (fr_provider_usage_json r) (fr_disconnect_reason r)
    (fr_cancellation_reason r) (fr_service_tier r) (fr_error r).
Definition set_fr_provider_response_received (v : bool) (r : ForwardResult) : ForwardResult :=
  mkForwardResult (fr_status_code r) (fr_stream r) (fr_body r) (fr_input_tokens r) (fr_output_tokens r)
    (fr_cache_create_tokens r) (fr_cache_read_tokens r) (fr_first_token_ms r) (fr_duration_ms
    r) (fr_client_disconnect r) (fr_stream_incomplete r) (fr_stream_timeout r)
    (fr_output_started r) v (fr_provider_status_code r) (fr_malformed_usage r)
    (fr_policy_blocked r) (fr_policy_failed_closed r) (fr_policy_error_code r)
    (fr_policy_message r) (fr_content_type r) (fr_response_headers r) (fr_retry_after_ms r)
    (fr_reasoning_tokens r) (fr_provider_usage_json r) (fr_disconnect_reason r)
    (fr_cancellation_reason r) (fr_service_tier r) (fr_error r).
Definition set_fr_provider_status_code (v : Z) (r : ForwardResult) : ForwardResult :=
  mkForwardResult (fr_status_code r) (fr_stream r) (fr_body r) (fr_input_tokens r) (fr_output_tokens r)
    (fr_cache_create_tokens r) (fr_cache_read_tokens r) (fr_first_token_ms r) (fr_duration_ms
    r) (fr_client_disconnect r) (fr_stream_incomplete r) (fr_stream_timeout r)
    (fr_output_started r) (fr_provider_response_received r) v (fr_malformed_usage r)
    (fr_policy_blocked r) (fr_policy_failed_closed r) (fr_policy_error_code r)
    (fr_policy_message r) (fr_content_type r) (fr_response_headers r) (fr_retry_after_ms r)
    (fr_reasoning_tokens r) (fr_provider_usage_json r) (fr_disconnect_reason r)
    (fr_cancellation_reason r) (fr_service_tier r) (fr_error r).
Definition set_fr_malformed_usage (v : bool) (r : ForwardResult) : ForwardResult :=
  mkForwardResult (fr_status_code r) (fr_stream r) (fr_body r) (fr_input_tokens r) (fr_output_tokens r)
    (fr_cache_create_tokens r) (fr_cache_read_tokens r) (fr_first_token_ms r) (fr_duration_ms
    r) (fr_client_disconnect r) (fr_stream_incomplete r) (fr_stream_timeout r)
    (fr_output_started r) (fr_provider_response_received r) (fr_provider_status_code r) v
    (fr_policy_blocked r) (fr_policy_failed_closed r) (fr_policy_error_code r)
    (fr_policy_message r) (fr_content_type r) (fr_response_headers r) (fr_retry_after_ms r)
    (fr_reasoning_tokens r) (fr_provider_usage_json r) (fr_disconnect_reason r)
    (fr_cancellation_reason r) (fr_service_tier r) (fr_error r).
Definition set_fr_policy_blocked (v : bool) (r : ForwardResult) : ForwardResult :=
  mkForwardResult (fr_status_code r) (fr_stream r) (fr_body r) (fr_input_tokens r) (fr_output_tokens r)
    (fr_cache_create_tokens r) (fr_cache_read_tokens r) (fr_first_token_ms r) (fr_duration_ms
    r) (fr_client_disconnect r) (fr_stream_incomplete r) (fr_stream_timeout r)
    (fr_output_started r) (fr_provider_response_received r) (fr_provider_status_code r)
    (fr_malformed_usage r) v (fr_policy_failed_closed r) (fr_policy_error_code r)
    (fr_policy_message r) (fr_content_type r) (fr_response_headers r) (fr_retry_after_ms r)
    (fr_reasoning_tokens r) (fr_provider_usage_json r) (fr_disconnect_reason r)
    (fr_cancellation_reason r) (fr_service_tier r) (fr_error r).
Definition set_fr_policy_failed_closed (v : bool) (r : ForwardResult) : ForwardResult :=
  mkForwardResult (fr_status_code r) (fr_stream r) (fr_body r) (fr_input_tokens r) (fr_output_tokens r)
    (fr_cache_create_tokens r) (fr_cache_read_tokens r) (fr_first_token_ms r) (fr_duration_ms
    r) (fr_client_disconnect r) (fr_stream_incomplete r) (fr_stream_timeout r)
    (fr_output_started r) (fr_provider_response_received r) (fr_provider_status_code r)
    (fr_malformed_usage r) (fr_policy_blocked r) v (fr_policy_error_code r) (fr_policy_message
    r) (fr_content_type r) (fr_response_headers r) (fr_retry_after_ms r) (fr_reasoning_tokens
    r) (fr_provider_usage_json r) (fr_disconnect_reason r) (fr_cancellation_reason r)
    (fr_service_tier r) (fr_error r).
Definition set_fr_policy_error_code (v : str) (r : ForwardResult) : ForwardResult :=
  mkForwardResult (fr_status_code r) (fr_stream r) (fr_body r) (fr_input_tokens r) (fr_output_tokens r)
    (fr_cache_create_tokens r) (fr_cache_read_tokens r) (fr_first_token_ms r) (fr_duration_ms
    r) (fr_client_disconnect r) (fr_stream_incomplete r) (fr_stream_timeout r)
    (fr_output_started r) (fr_provider_response_received r) (fr_provider_status_code r)
    (fr_malformed_usage r) (fr_policy_blocked r) (fr_policy_failed_closed r) v
    (fr_policy_message r) (fr_content_type r) (fr_response_headers r) (fr_retry_after_ms r)
    (fr_reasoning_tokens r) (fr_provider_usage_json r) (fr_disconnect_reason r)
    (fr_cancellation_reason r) (fr_service_tier r) (fr_error r).
Definition set_fr_policy_message (v : str) (r : ForwardResult) : ForwardResult :=
  mkForwardResult (fr_status_code r) (fr_stream r) (fr_body r) (fr_input_tokens r) (fr_output_tokens r)
    (fr_cache_create_tokens r) (fr_cache_read_tokens r) (fr_first_token_ms r) (fr_duration_ms
    r) (fr_client_disconnect r) (fr_stream_incomplete r) (fr_stream_timeout r)
    (fr_output_started r) (fr_provider_response_received r) (fr_provider_status_code r)
    (fr_malformed_usage r) (fr_policy_blocked r) (fr_policy_failed_closed r)
    (fr_policy_error_code r) v (fr_content_type r) (fr_response_headers r) (fr_retry_after_ms
    r) (fr_reasoning_tokens r) (fr_provider_usage_json r) (fr_disconnect_reason r)
    (fr_cancellation_reason r) (fr_service_tier r) (fr_error r).
Definition set_fr_content_type (v : str) (r : ForwardResult) : ForwardResult :=
  mkForwardResult (fr_status_code r) (fr_stream r) (fr_body r) (fr_input_tokens r) (fr_output_tokens r)
    (fr_cache_create_tokens r) (fr_cache_read_tokens r) (fr_first_token_ms r) (fr_duration_ms
    r) (fr_client_disconnect r) (fr_stream_incomplete r) (fr_stream_timeout r)
    (fr_output_started r) (fr_provider_response_received r) (fr_provider_status_code r)
    (fr_malformed_usage r) (fr_policy_blocked r) (fr_policy_failed_closed r)
    (fr_policy_error_code r) (fr_policy_message r) v (fr_response_headers r)
    (fr_retry_after_ms r) (fr_reasoning_tokens r) (fr_provider_usage_json r)
    (fr_disconnect_reason r) (fr_cancellation_reason r) (fr_service_tier r) (fr_error r).
Definition set_fr_response_headers (v : list (str * str)) (r : ForwardResult) : ForwardResult :=
  mkForwardResult (fr_status_code r) (fr_stream r) (fr_body r) (fr_input_tokens r) (fr_output_tokens r)
    (fr_cache_create_tokens r) (fr_cache_read_tokens r) (fr_first_token_ms r) (fr_duration_ms
    r) (fr_client_disconnect r) (fr_stream_incomplete r) (fr_stream_timeout r)
    (fr_output_started r) (fr_provider_response_received r) (fr_provider_status_code r)
    (fr_malformed_usage r) (fr_policy_blocked r) (fr_policy_failed_closed r)
    (fr_policy_error_code r) (fr_policy_message r) (fr_content_type r) v (fr_retry_after_ms r)
    (fr_reasoning_tokens r) (fr_provider_usage_json r) (fr_disconnect_reason r)
    (fr_cancellation_reason r) (fr_service_tier r) (fr_error r).
Definition set_fr_retry_after_ms (v : Z) (r : ForwardResult) : ForwardResult :=
  mkForwardResult (fr_status_code r) (fr_stream r) (fr_body r) (fr_input_tokens r) (fr_output_tokens r)
    (fr_cache_create_tokens r) (fr_cache_read_tokens r) (fr_first_token_ms r) (fr_duration_ms
    r) (fr_client_disconnect r) (fr_stream_incomplete r) (fr_stream_timeout r)
    (fr_output_started r) (fr_provider_response_received r) (fr_provider_status_code r)
    (fr_malformed_usage r) (fr_policy_blocked r) (fr_policy_failed_closed r)
    (fr_policy_error_code r) (fr_policy_message r) (fr_content_type r) (fr_response_headers r)
    v (fr_reasoning_tokens r) (fr_provider_usage_json r) (fr_disconnect_reason r)
    (fr_cancellation_reason r) (fr_service_tier r) (fr_error r).
Definition set_fr_reasoning_tokens (v : Z) (r : ForwardResult) : ForwardResult :=
  mkForwardResult (fr_status_code r) (fr_stream r) (fr_body r) (fr_input_tokens r) (fr_output_tokens r)
    (fr_cache_create_tokens r) (fr_cache_read_tokens r) (fr_first_token_ms r) (fr_duration_ms
    r) (fr_client_disconnect r) (fr_stream_incomplete r) (fr_stream_timeout r)
    (fr_output_started r) (fr_provider_response_received r) (fr_provider_status_code r)
    (fr_malformed_usage r) (fr_policy_blocked r) (fr_policy_failed_closed r)
    (fr_policy_error_code r) (fr_policy_message r) (fr_content_type r) (fr_response_headers r)
    (fr_retry_after_ms r) v (fr_provider_usage_json r) (fr_disconnect_reason r)
    (fr_cancellation_reason r) (fr_service_tier r) (fr_error r).
Definition set_fr_provider_usage_json (v : str) (r : ForwardResult) : ForwardResult :=
  mkForwardResult (fr_status_code r) (fr_stream r) (fr_body r) (fr_input_tokens r) (fr_output_tokens r)
    (fr_cache_create_tokens r) (fr_cache_read_tokens r) (fr_first_token_ms r) (fr_duration_ms
    r) (fr_client_disconnect r) (fr_stream_incomplete r) (fr_stream_timeout r)
    (fr_output_started r) (fr_provider_response_received r) (fr_provider_status_code r)
    (fr_malformed_usage r) (fr_policy_blocked r) (fr_policy_failed_closed r)
    (fr_policy_error_code r) (fr_policy_message r) (fr_content_type r) (fr_response_headers r)
    (fr_retry_after_ms r) (fr_reasoning_tokens r) v (fr_disconnect_reason r)
    (fr_cancellation_reason r) (fr_service_tier r) (fr_error r).
Definition set_fr_disconnect_reason (v : str) (r : ForwardResult) : ForwardResult :=
  mkForwardResult (fr_status_code r) (fr_stream r) (fr_body r) (fr_input_tokens r) (fr_output_tokens r)
    (fr_cache_create_tokens r) (fr_cache_read_tokens r) (fr_first_token_ms r) (fr_duration_ms
    r) (fr_client_disconnect r) (fr_stream_incomplete r) (fr_stream_timeout r)
    (fr_output_started r) (fr_provider_response_received r) (fr_provider_status_code r)
    (fr_malformed_usage r) (fr_policy_blocked r) (fr_policy_failed_closed r)
    (fr_policy_error_code r) (fr_policy_message r) (fr_content_type r) (fr_response_headers r)
    (fr_retry_after_ms r) (fr_reasoning_tokens r) (fr_provider_usage_json r) v
    (fr_cancellation_reason r) (fr_service_tier r) (fr_error r).
Definition set_fr_cancellation_reason (v : str) (r : ForwardResult) : ForwardResult :=
  mkForwardResult (fr_status_code r) (fr_stream r) (fr_body r) (fr_input_tokens r) (fr_output_tokens r)
    (fr_cache_create_tokens r) (fr_cache_read_tokens r) (fr_first_token_ms r) (fr_duration_ms
    r) (fr_client_disconnect r) (fr_stream_incomplete r) (fr_stream_timeout r)
    (fr_output_started r) (fr_provider_response_received r) (fr_provider_status_code r)
    (fr_malformed_usage r) (fr_policy_blocked r) (fr_policy_failed_closed r)
    (fr_policy_error_code r) (fr_policy_message r) (fr_content_type r) (fr_response_headers r)
    (fr_retry_after_ms r) (fr_reasoning_tokens r) (fr_provider_usage_json r)
    (fr_disconnect_reason r) v (fr_service_tier r) (fr_error r).
Definition set_fr_service_tier (v : str) (r : ForwardResult) : ForwardResult :=
  mkForwardResult (fr_status_code r) (fr_stream r) (fr_body r) (fr_input_tokens r) (fr_output_tokens r)
    (fr_cache_create_tokens r) (fr_cache_read_tokens r) (fr_first_token_ms r) (fr_duration_ms
    r) (fr_client_disconnect r) (fr_stream_incomplete r) (fr_stream_timeout r)
    (fr_output_started r) (fr_provider_response_received r) (fr_provider_status_code r)
    (fr_malformed_usage r) (fr_policy_blocked r) (fr_policy_failed_closed r)
    (fr_policy_error_code r) (fr_policy_message r) (fr_content_type r) (fr_response_headers r)
    (fr_retry_after_ms r) (fr_reasoning_tokens r) (fr_provider_usage_json r)
    (fr_disconnect_reason r) (fr_cancellation_reason r) v (fr_error r).
Definition set_fr_error (v : str) (r : ForwardResult) : ForwardResult :=
  mkForwardResult (fr_status_code r) (fr_stream r) (fr_body r) (fr_input_tokens r) (fr_output_tokens r)
    (fr_cache_create_tokens r) (fr_cache_read_tokens r) (fr_first_token_ms r) (fr_duration_ms
    r) (fr_client_disconnect r) (fr_stream_incomplete r) (fr_stream_timeout r)
    (fr_output_started r) (fr_provider_response_received r) (fr_provider_status_code r)
    (fr_malformed_usage r) (fr_policy_blocked r) (fr_policy_failed_closed r)
    (fr_policy_error_code r) (fr_policy_message r) (fr_content_type r) (fr_response_headers r)
    (fr_retry_after_ms r) (fr_reasoning_tokens r) (fr_provider_usage_json r)
    (fr_disconnect_reason r) (fr_cancellation_reason r) (fr_service_tier r) v.

Definition default_forward_result : ForwardResult :=
  mkForwardResult 0 false [] 0 0 0 0 0 0 false false false false false 0 false false false [] [] [] [] 0 0 [] [] [] [] [].

(** ** Usage of a complete response *)

Definition as_int (object : json) (key : str) : Z :=
  match member object key with
  | Some v => if IsInt v then get_int v else if IsInt64 v then i32 (get_int v)
              else if IsUint v then i32 (get_int v) else 0
  | None => 0
  end.

(** The first of the keys whose count is not zero. *)
Fixpoint first_count (object : json) (keys : list str) : Z :=
  match keys with
  | [] => 0
  | [key] => as_int object key
  | key :: keys' => let n := as_int object key in if n =? 0 then first_count object keys' else n
  end.

Definition detail_count (usage : json) (details key : str) (n : Z) : Z :=
  match member usage details with
  | Some ((JObject _) as d) => Z.max n (as_int d key)
  | _ => n
  end.

Definition response_usage_object (document : json) : option json :=
  let objects := [member document "usage"; member document "usageMetadata";
                  (m ← member document "response"; member m "usage")] in
  head (omap (λ o, u ← o; if IsObject u then Some u else None) objects).

Definition parse_usage {RJ : RapidJson} (body : str) (r : ForwardResult) : ForwardResult :=
  match Parse body with
  | Some ((JObject _) as document) =>
      match response_usage_object document with
      | None => r
      | Some usage =>
          let r := set_fr_malformed_usage (usage_has_invalid_counts usage) r in
          let r := set_fr_input_tokens
            (first_count usage ["input_tokens" : str; "prompt_tokens" : str; "promptTokenCount" : str]) r in
          let r := set_fr_output_tokens
            (first_count usage ["output_tokens" : str; "completion_tokens" : str;
                                "candidatesTokenCount" : str]) r in
          let r := set_fr_cache_create_tokens (as_int usage "cache_creation_input_tokens") r in
          let r := set_fr_cache_read_tokens
            (detail_count usage "input_tokens_details" "cached_tokens"
              (detail_count usage "prompt_tokens_details" "cached_tokens"
                (first_count usage ["cache_read_input_tokens" : str; "cachedContentTokenCount" : str]))) r in
          let r := set_fr_reasoning_tokens
            (detail_count usage "output_tokens_details" "reasoning_tokens"
              (first_count usage ["reasoning_tokens" : str; "thoughtsTokenCount" : str])) r in
          let r := match member document "service_tier" with
                   | Some (JString s) => set_fr_service_tier (cstr s) r
                   | _ => r
                   end in
          set_fr_provider_usage_json (take (1024 * 1024)%nat (Write usage)) r
      end
  | _ => r
  end.

(** ** One exchange with the provider *)

(** The request as [forward] uses it; [stream_policy] may be absent. *)
Record ForwardRequest := mkForwardRequest {
  fq_method : str;
  fq_body : str;
  fq_content_type : str;
  fq_accept : str;
  fq_user_agent : str;
  fq_request_id : str;
  fq_idempotency_key : str;
  fq_headers : list (str * str);
  fq_stream : bool;
  fq_stream_source : Format;
  fq_stream_target : Format;
  fq_stream_policy : option (nat -> str -> StreamPolicyDecision);
}.

Record ForwardConfig := mkForwardConfig {
  fc_request_timeout_ms : Z;
  fc_first_token_timeout_ms : Z;
  fc_inter_chunk_timeout_ms : Z;
  fc_total_stream_timeout_ms : Z;
  fc_keepalive_interval_ms : Z;
  fc_read_buf_size : nat;
  fc_write_buf_size : nat;
  fc_max_response_body_size : Z;
}.

(** What the provider does: the call fails before the headers, or there are
    headers (and the value Photon finds for [Content-Type]) and then the reads of
    the body. *)
Inductive Call :=
| CallFailed (errno : Z)
| Response (status : Z) (content_type : str) (headers : list (str * str)) (reads : list ReadResult).

(** The URL of the request. *)
Definition target_url (target : UpstreamTarget) : str :=
  match ut_upstream_path target with
  | [] => ut_base_url target
  | c :: _ =>
      let url := ut_base_url target in
      url ++ (if negb (empty url) && negb (ends_with url "/") && negb (c =? "/")%char then "/" else [])
        ++ ut_upstream_path target
  end.

(** The [headers.insert] calls on the request, in order. *)
Definition optional_header (name value : str) : list (str * str) :=
  if empty value then [] else [(name, value)].

Definition request_headers (target : UpstreamTarget) (request : ForwardRequest) : list (str * str) :=
  ut_auth_headers target
  ++ List.filter (λ kv, negb (hop_by_hop kv.1)) (ut_request_headers target)
  ++ List.filter (λ kv, safe_request_header kv.1) (fq_headers request)
  ++ optional_header "Accept" (fq_accept request)
  ++ optional_header "User-Agent" (fq_user_agent request)
  ++ optional_header "X-Request-ID" (fq_request_id request)
  ++ optional_header "Idempotency-Key" (fq_idempotency_key request)
  ++ (if negb (empty (fq_content_type request)) then [("Content-Type" : str, fq_content_type request)]
      else if negb (empty (fq_body request)) then [("Content-Type" : str, "application/json" : str)]
      else []).

Definition proxy_of (target : UpstreamTarget) : option str :=
  if empty (ut_proxy_url target) then None
  else Some (if empty (ut_proxy_username target) then ut_proxy_url target
             else build_proxy_auth_url (ut_proxy_url target) (ut_proxy_username target)
                    (ut_proxy_password target)).

Definition error_body (type message : string) : str :=
  q "{'error':{'type':'" ++ type ++ q "','message':'" ++ message ++ q "'}}".

(** The loop over the response headers. *)
Definition note_header (target : UpstreamTarget) (r : ForwardResult) (header : str * str)
    : ForwardResult :=
  let r := if safe_response_header header.1 target
           then set_fr_response_headers (fr_response_headers r ++ [header]) r else r in
  if lower header.1 =$ "retry-after" then
    let '(value, rest) := strtol (cstr header.2) in
    if empty rest && (0 <=? value) then set_fr_retry_after_ms (i32 (value * 1000)) r else r
  else r.

(** Reading a whole body. *)
Inductive BodyOutcome :=
| BodyPending
| BodyDone (body : str)
| BodyTooLarge
| BodyFailed (errno : Z).

Fixpoint read_body (limit : Z) (body : str) (reads : list ReadResult) : BodyOutcome :=
  match reads with
  | [] => BodyPending
  | Eof :: _ => BodyDone body
  | ReadError errno :: _ => BodyFailed errno
  | Chunk bytes :: reads' =>
      if limit <? Z.of_nat (length body + length bytes) then BodyTooLarge
      else read_body limit (body ++ bytes) reads'
  end.

Definition apply_transport_cancellation (cancelled : bool) (request : ForwardRequest)
    (r : ForwardResult) : ForwardResult :=
  if negb cancelled || fr_client_disconnect r then r
  else
    let r := set_fr_status_code (if fr_output_started r then 502 else 499) r in
    let r := set_fr_stream (fq_stream request) r in
    let r := set_fr_client_disconnect true r in
    let r := set_fr_stream_incomplete true r in
    let r := set_fr_disconnect_reason "client_disconnect" r in
    let r := set_fr_cancellation_reason
      (if fr_output_started r then "client_disconnect_after_output"
       else "client_disconnect_before_output") r in
    set_fr_error
      (if fr_output_started r then "client disconnected before provider stream completion"
       else "client disconnected before response output") r.

Definition failed_call (errno : Z) (cancelled : bool) (r : ForwardResult) : ForwardResult :=
  if cancelled then
    let r := set_fr_status_code 499 r in
    let r := set_fr_stream true r in
    let r := set_fr_client_disconnect true r in
    let r := set_fr_stream_incomplete true r in
    let r := set_fr_disconnect_reason "client_disconnect" r in
    let r := set_fr_cancellation_reason "client_disconnect_before_output" r in
    set_fr_error "client disconnected before provider response headers" r
  else
    let timed_out := (errno =? 110) in
    let r := set_fr_status_code (if timed_out then 502 else 503) r in
    let r := set_fr_error (if timed_out then "provider response header timed out"
                           else "upstream connection unavailable") r in
    set_fr_body
      (if timed_out
       then error_body "provider_protocol_error"
              "Provider did not return response headers before the first-token deadline"
       else error_body "provider_unavailable"
              "Provider connection was unavailable before a response was received") r.

(** The non-streaming branch. *)
Definition body_failed (errno : Z) (r : ForwardResult) : ForwardResult * str :=
  let unavailable := provider_disconnect_error errno in
  let r := set_fr_status_code (if unavailable then 503 else 502) r in
  let r := set_fr_content_type "application/json" r in
  (set_fr_error (if unavailable then "provider response body connection unavailable"
                 else "provider response body read failed") r,
   if unavailable
   then error_body "provider_unavailable"
          "Provider connection was unavailable before the response body completed"
   else error_body "provider_protocol_error" "Provider response ended before the body was complete").

Definition settle_body {RJ : RapidJson} (invalid_stream_content_type : bool) (duration_ms : Z)
    (r : ForwardResult) (resp_body : str) : ForwardResult :=
  let r := set_fr_duration_ms (i32 duration_ms) r in
  let '(r, resp_body) :=
    if has_invalid_success_payload (fr_status_code r) (fr_content_type r) resp_body then
      (set_fr_error "provider returned incomplete or invalid JSON"
         (set_fr_content_type "application/json" (set_fr_status_code 502 r)),
       error_body "provider_protocol_error" "Provider returned incomplete or invalid JSON")
    else (parse_usage resp_body r, resp_body) in
  let r := set_fr_stream false r in
  set_fr_body
    (if invalid_stream_content_type
     then error_body "provider_protocol_error" "Streaming provider response must use text/event-stream"
     else resp_body) r.

(** What the pipe reported, before and after the policy and the disconnects are
    taken into account. *)
Definition stream_counts (s : StreamResult) (output_started cancelled : bool) (r : ForwardResult)
    : ForwardResult :=
  let r := set_fr_stream true r in
  let r := set_fr_output_started output_started r in
  let r := set_fr_input_tokens (input_tokens s) r in
  let r := set_fr_output_tokens (output_tokens s) r in
  let r := set_fr_cache_create_tokens (cache_create_tokens s) r in
  let r := set_fr_cache_read_tokens (cache_read_tokens s) r in
  let r := set_fr_reasoning_tokens (reasoning_tokens s) r in
  let r := set_fr_malformed_usage (malformed_usage s) r in
  let r := set_fr_provider_usage_json (provider_usage_json s) r in
  let r := set_fr_first_token_ms (first_token_ms s) r in
  let r := set_fr_duration_ms (total_duration_ms s) r in
  let r := set_fr_client_disconnect (client_disconnect s || cancelled) r in
  let r := set_fr_stream_incomplete (incomplete s || cancelled) r in
  let r := set_fr_stream_timeout (timed_out s) r in
  let r := set_fr_policy_blocked (policy_blocked s) r in
  let r := set_fr_policy_failed_closed (policy_failed_closed s) r in
  let r := set_fr_policy_error_code (policy_error_code s) r in
  set_fr_policy_message (policy_message s) r.

Definition settle_stream (r : ForwardResult) : ForwardResult :=
  let refused := fr_policy_blocked r || fr_policy_failed_closed r in
  let r := if refused then
      let r := set_fr_status_code (if fr_policy_blocked r then 400 else 503) r in
      let r := set_fr_content_type "text/event-stream" r in
      let r := set_fr_disconnect_reason
        (if fr_policy_blocked r then "content_policy_blocked" else "content_policy_unavailable") r in
      let r := set_fr_cancellation_reason
        (if fr_policy_blocked r then "content_policy_blocked" else "content_policy_failed_closed") r in
      set_fr_error (fr_policy_message r) r
    else r in
  if negb refused && fr_client_disconnect r then
    let r := set_fr_disconnect_reason "client_disconnect" r in
    let r := set_fr_cancellation_reason
      (if fr_output_started r then "client_disconnect_after_output"
       else "client_disconnect_before_output") r in
    if negb (fr_output_started r) then
      set_fr_error "client disconnected before response output" (set_fr_status_code 499 r)
    else if fr_stream_incomplete r then
      set_fr_error "client disconnected before provider stream completion" (set_fr_status_code 502 r)
    else r
  else if negb refused && fr_stream_incomplete r then
    let provider_unavailable := negb (fr_stream_timeout r) in
    let r := set_fr_status_code (if provider_unavailable then 503 else 502) r in
    let r := set_fr_content_type "application/json" r in
    let r := set_fr_disconnect_reason
      (if fr_stream_timeout r then "provider_timeout" else "provider_disconnect") r in
    let r := set_fr_cancellation_reason "provider_stream_incomplete" r in
    let r := set_fr_error
      (if fr_stream_timeout r then "provider stream timed out before a terminal event"
       else "provider stream ended before a terminal event") r in
    if negb (fr_output_started r) then
      set_fr_body
        (if provider_unavailable
         then error_body "provider_unavailable"
                "Provider connection was unavailable before the stream completed"
         else error_body "provider_protocol_error" "Provider stream ended before completion") r
    else r
  else r.

Section Forward.
Context {RJ : RapidJson} {SC : StreamCodec}.
Context (config : ForwardConfig) (client_available : bool).
Context (client_write : nat -> str -> Z) (clock : nat -> Z).

(** The early refusals, before any call. *)
Definition precheck (target : UpstreamTarget) : option ForwardResult :=
  let r := default_forward_result in
  if negb (validate_target_auth_headers (ut_auth_headers target)) then
    Some (set_fr_body (error_body "provider_protocol_error"
                         "Provider authentication contract is invalid")
           (set_fr_error "invalid upstream auth header contract" (set_fr_status_code 502 r)))
  else if ut_tls_fingerprint target && negb (empty (ut_tls_fingerprint_profile_id target)) then
    Some (set_fr_body (error_body "unsupported" "TLS fingerprint profiling is not supported")
           (set_fr_error "TLS fingerprint profile not implemented" (set_fr_status_code 501 r)))
  else if empty (target_url target) then
    Some (set_fr_error "empty upstream URL" (set_fr_status_code 502 r))
  else if negb client_available then
    Some (set_fr_error "HTTP client not available" (set_fr_status_code 502 r))
  else None.

Definition pipe_config (request : ForwardRequest) : StreamPipeConfig :=
  mkConfig (fc_read_buf_size config) (fc_write_buf_size config)
    (fc_first_token_timeout_ms config) (fc_inter_chunk_timeout_ms config)
    (fc_total_stream_timeout_ms config) (fc_keepalive_interval_ms config)
    (128 * 1024)%nat true (fq_stream_policy request).

(** The result is known once the headers are in. *)
Definition response_head (target : UpstreamTarget) (request : ForwardRequest) (status : Z)
    (content_type : str) (headers : list (str * str)) : ForwardResult * bool :=
  let r := set_fr_status_code status default_forward_result in
  let r := set_fr_provider_response_received true r in
  let r := set_fr_provider_status_code status r in
  let r := set_fr_content_type content_type r in
  let r := fold_left (note_header target) headers r in
  if fq_stream request && (fr_status_code r <? 400)
     && negb (is_event_stream_content_type (fr_content_type r))
  then (set_fr_error "streaming upstream response did not use text/event-stream"
          (set_fr_content_type "application/json" (set_fr_status_code 502 r)), true)
  else (r, false).

(** The calls [forward] makes on its caller while it runs: those of
    [response_start], whether [output_started] was called, and how often the
    content policy was asked. *)
Record Callbacks := mkCallbacks {
  cb_starts : list (Z * str * list (str * str));
  cb_output_started : bool;
  cb_evaluations : nat;
}.

(** [forward] with its callbacks; [Err] is a fault raised by the event
    conversion, [None] a response whose reads are not over.  [cancelled] is the
    watcher's flag when it is first looked at, [cancelled_end] at the end. *)
Definition forward (target : UpstreamTarget) (request : ForwardRequest) (mode : ProtocolMode)
    (call : Call) (cancelled cancelled_end : bool) (duration_ms : Z)
    : option (Callbacks * res ForwardResult) :=
  match precheck target with
  | Some r => Some (mkCallbacks [] false 0, Ok r)
  | None =>
  match call with
  | CallFailed errno =>
      let r := failed_call errno cancelled default_forward_result in
      Some (mkCallbacks (if negb cancelled && fq_stream request
                         then [(fr_status_code r, "application/json" : str, [])] else []) false 0, Ok r)
  | Response status content_type headers reads =>
      let '(r, invalid_stream_content_type) :=
        response_head target request status content_type headers in
      let starts := [(fr_status_code r, fr_content_type r, fr_response_headers r)] in
      let finished r := Some (mkCallbacks starts false 0,
        Ok (apply_transport_cancellation cancelled_end request r)) in
      if negb (fq_stream request) || (400 <=? fr_status_code r) then
        match read_body (fc_max_response_body_size config) [] reads with
        | BodyPending => None
        | BodyTooLarge =>
            finished (set_fr_error "upstream response exceeded configured body limit"
                        (set_fr_status_code 502 r))
        | BodyFailed errno =>
            let '(r, body) := body_failed errno r in
            finished (settle_body invalid_stream_content_type duration_ms r body)
        | BodyDone body =>
            finished (settle_body invalid_stream_content_type duration_ms r body)
        end
      else
        match run (pipe_config request) mode (fq_stream_source request) (fq_stream_target request)
                client_write clock reads with
        | Continue _ => None
        | Throw p e => Some (mkCallbacks starts (negb (empty (p_out p))) (p_policy_calls p), Err e)
        | Return p =>
            Some (mkCallbacks starts (negb (empty (p_out p))) (p_policy_calls p),
              Ok (apply_transport_cancellation cancelled_end request (settle_stream
                (stream_counts (p_result p) (negb (empty (p_out p))) cancelled r))))
        end
  end
  end.
End Forward.

Definition is_explicit_provider_rejection (r : ForwardResult) : bool :=
  fr_provider_response_received r && (400 <=? fr_provider_status_code r).

(** ** [ConnectionPool]

    A client is a number; [fresh] is what [new_http_client] yields. *)
Record Pool := mkPool {
  max_per_host : nat;
  clients : gmap str nat;
  default_client : option nat;
}.

Definition get_client (fresh : option nat) (host : str) (p : Pool) : Pool * option nat :=
  match clients p !! host with
  | Some c => (p, Some c)
  | None =>
      if (max_per_host p <=? size (clients p))%nat then (p, default_client p)
      else match fresh with
           | None => (p, default_client p)
           | Some c => (mkPool (max_per_host p) (<[host := c]> (clients p)) (default_client p), Some c)
           end
  end.

(** ** Lemmas and properties: proxy URLs *)

Definition hex_value (c : ascii) : nat :=
  if is_digit c then code c - 48 else code c - 55.

(** Percent decoding. *)
Fixpoint url_decode (s : str) : str :=
  match s with
  | [] => []
  | c :: s' =>
      match s' with
      | h :: l :: s'' =>
          if (c =? "%")%char then ascii_of_nat (16 * hex_value h + hex_value l) :: url_decode s''
          else c :: url_decode s'
      | _ => c :: url_decode s'
      end
  end.

Lemma url_decode_encode_char c s : url_decode (encode_char c ++ s) = c :: url_decode s.
Proof.
  assert (c <> "%"%char -> encode_char c = [c] -> url_decode (encode_char c ++ s) = c :: url_decode s) as Hp.
  { intros Hc ->. apply Ascii.eqb_neq in Hc. simpl. destruct s as [|h [|l s]]; [done..|]. by rewrite Hc. }
  destruct (unreserved c) eqn:E.
  - apply Hp; [by intros ->|]. unfold encode_char. by rewrite E.
  - unfold encode_char. rewrite E. cbn [app url_decode]. rewrite Ascii.eqb_refl. f_equal.
    clear. destruct c as [[] [] [] [] [] [] [] []]; reflexivity.
Qed.

Lemma encode_char_chars c : Forall (λ d, unreserved d = true \/ d = "%"%char) (encode_char c).
Proof.
  assert (forall c, forallb (λ d, unreserved d || (d =? "%")%char) (encode_char c) = true) as H by by_chars.
  specialize (H c). apply forallb_Forall in H. eapply Forall_impl; [exact H|].
  intros d. rewrite orb_true_iff, Ascii.eqb_eq. done.
Qed.

(** Proxy credentials cannot change the proxy URL: what is inserted between
    the scheme and the host decodes to the user name and the password, and it holds
    none of the characters that delimit the parts of a URL, whatever the
    credentials contain. *)
Theorem proxy_credentials_contained base_url username password i
    (Hscheme : sfind "://" base_url = Some i) :
  exists user pass,
    build_proxy_auth_url base_url username password
    = take (i + 3) base_url ++ user ++ ":" ++ pass ++ "@" ++ drop (i + 3) base_url
    /\ url_decode user = username /\ url_decode pass = password
    /\ Forall (λ c, unreserved c = true \/ c = "%"%char) (user ++ pass).
Proof.
  assert (forall s, url_decode (url_encode_component s) = s) as Hd.
  { unfold url_encode_component. induction s as [|c s IH]; cbn [map concat]; [done|].
    by rewrite url_decode_encode_char, IH. }
  assert (forall s, Forall (λ c, unreserved c = true \/ c = "%"%char) (url_encode_component s)) as Hc.
  { unfold url_encode_component. induction s as [|c s IH]; cbn [map concat]; [constructor|].
    apply Forall_app. split; [apply encode_char_chars|done]. }
  exists (url_encode_component username), (url_encode_component password).
  unfold build_proxy_auth_url. rewrite Hscheme. split; [done|]. rewrite !Hd. split; [done|].
  split; [done|]. apply Forall_app. auto.
Qed.

Lemma proxy_credentials_contained_witness :
  exists user pass,
    build_proxy_auth_url "http://proxy:8080" "me@corp" "p/w?"
    = "http://" ++ user ++ ":" ++ pass ++ "@" ++ "proxy:8080"
    /\ url_decode user = "me@corp" /\ url_decode pass = "p/w?".
Proof.
  destruct (proxy_credentials_contained "http://proxy:8080" "me@corp" "p/w?" 4 eq_refl)
    as (u & p & H1 & H2 & H3 & _).
  exists u, p. auto.
Defined.

(** ** Headers *)

(** What an accepted authentication header looks like. *)
Definition header_ok (kv : str * str) : Prop :=
  1 <= Z.of_nat (length kv.1) <= 64 /\ 1 <= Z.of_nat (length kv.2) <= 4096
  /\ Forall (λ c, token_char c = true) kv.1
  /\ (CR ∉ kv.2) /\ (LF ∉ kv.2) /\ (NUL ∉ kv.2)
  /\ hop_by_hop kv.1 = false /\ lower kv.1 ∉ reserved_headers.

Lemma lower_lower s : lower (lower s) = lower s.
Proof.
  unfold lower. rewrite <- list_fmap_compose. apply list_fmap_ext. intros i c _. simpl.
  assert (forall c, (tolower (tolower c) =? tolower c)%char = true) as H by by_chars.
  by apply Ascii.eqb_eq.
Qed.

Lemma eq_any_spec v l : eq_any v l = true <-> v ∈ l.
Proof.
  unfold eq_any. rewrite existsb_exists. split.
  - intros (x & Hx & E%str_eqb_eq). subst. by apply list_elem_of_In.
  - intros H. exists v. split; [by apply list_elem_of_In|]. apply str_eqb_refl.
Qed.

Lemma eq_any_false v l : eq_any v l = false <-> v ∉ l.
Proof. by rewrite <- not_true_iff_false, eq_any_spec. Qed.

Lemma bad_value_spec value :
  existsb (λ c, (c =? CR)%char || (c =? LF)%char || (c =? NUL)%char) value = false
  <-> (CR ∉ value) /\ (LF ∉ value) /\ (NUL ∉ value).
Proof.
  rewrite <- not_true_iff_false, existsb_exists. split.
  - intros H. repeat split; intros Hin; apply H; eexists; (split; [by apply list_elem_of_In|done]).
  - intros (H1 & H2 & H3) (c & Hc%list_elem_of_In & E).
    rewrite !orb_true_iff, !Ascii.eqb_eq in E. by destruct E as [[->| ->]| ->].
Qed.

Definition header_bytes (kv : str * str) : nat := length kv.1 + length kv.2.
Definition total_header_bytes (headers : list (str * str)) : nat := sum_list (header_bytes <$> headers).

Lemma header_ok_cond name value :
  negb (empty name || (64 <? length name)%nat || empty value || (4096 <? length value)%nat)
  && forallb token_char name
  && negb (existsb (λ c, (c =? CR)%char || (c =? LF)%char || (c =? NUL)%char) value)
  && negb (hop_by_hop (lower name) || eq_any (lower name) reserved_headers) = true
  <-> header_ok (name, value).
Proof.
  unfold header_ok. cbn [fst snd]. rewrite !andb_true_iff, !negb_true_iff, !orb_false_iff, bad_value_spec,
    forallb_Forall, eq_any_false.
  assert (hop_by_hop (lower name) = hop_by_hop name) as -> by (unfold hop_by_hop; by rewrite lower_lower).
  rewrite !Nat.ltb_ge.
  assert (forall s : str, empty s = false <-> 1 <= Z.of_nat (length s)) as He.
  { intros [|c s]; simpl; split; intros; (done || lia). }
  rewrite !He. split; intros; intuition lia.
Qed.

Lemma validate_loop_spec names total headers :
  validate_loop names total headers = true <->
  Forall header_ok headers
  /\ NoDup (lower ∘ fst <$> headers) /\ (forall k, k ∈ lower ∘ fst <$> headers -> k ∉ names)
  /\ (headers = [] \/ Z.of_nat (total + total_header_bytes headers) <= 32 * 1024).
Proof.
  revert names total. induction headers as [|[name value] headers IH]; intros names total.
  { cbn. split; [|done]. intros _. split; [constructor|]. split; [constructor|].
    split; [|by left]. intros k Hk. by apply elem_of_nil in Hk. }
  cbn [validate_loop fmap list_fmap]. rewrite NoDup_cons, Forall_cons, <- header_ok_cond. cbn [compose fst].
  destruct (_ || _) eqn:E1; [cbn; naive_solver|]. cbn [negb andb].
  destruct (forallb token_char name); [|cbn; naive_solver]. cbn [negb andb].
  destruct (existsb _ value); [cbn; naive_solver|]. cbn [negb andb].
  destruct (hop_by_hop (lower name) || _) eqn:E2; cbn [negb];
    [split; [by destruct (bool_decide _)|naive_solver]|].
  destruct (bool_decide (lower name ∈ names)) eqn:E3.
  { apply bool_decide_eq_true in E3. split; [done|]. intros (_ & _ & H & _).
    exfalso. apply (H (lower name)); [by left|done]. }
  apply bool_decide_eq_false in E3.
  assert (total_header_bytes ((name, value) :: headers)
    = (length name + length value + total_header_bytes headers)%nat) as -> by done.
  destruct (Z.ltb_spec (32 * 1024) (Z.of_nat (total + (length name + length value)))).
  { split; [done|]. intros (_ & _ & _ & [?|?]); [done|lia]. }
  rewrite IH. split.
  - intros (F & N & Hn & Hb). split; [auto|]. split; [split; [|done]|].
    + intros Hin. by apply (Hn _ Hin); left.
    + split; [|right; destruct Hb as [->|Hb]; [cbn; lia|lia]].
      intros k [->|Hk]%elem_of_cons; [done|]. intros Hin. apply (Hn _ Hk). by right.
  - intros ((_ & F) & (Hnin & N) & Hn & Hb). split; [done|]. split; [done|]. split.
    + intros k Hk [->|Hin]%elem_of_cons; [done|]. by apply (Hn k); [right|].
    + right. destruct Hb as [?|?]; [done|lia].
Qed.

(** C33: [validate_target_auth_headers] accepts exactly the lists of at most 16
    headers whose names are distinct tokens (case ignored) of 1 to 64 characters,
    neither hop-by-hop nor reserved, whose values have 1 to 4096 characters and no
    CR, LF or NUL, and which have at most 32 KiB in all: no header can be injected
    through a credential. *)
Theorem validate_auth_headers_iff headers :
  validate_target_auth_headers headers = true <->
  (length headers <= 16)%nat /\ Forall header_ok headers
  /\ NoDup (lower ∘ fst <$> headers)
  /\ Z.of_nat (total_header_bytes headers) <= 32 * 1024.
Proof.
  unfold validate_target_auth_headers. destruct (Nat.ltb_spec 16 (length headers)).
  { split; [done|lia]. }
  rewrite validate_loop_spec. split.
  - intros (F & N & _ & Hb). split; [done|]. split; [done|]. split; [done|].
    destruct Hb as [->|Hb]; [cbn; lia|exact Hb].
  - intros (_ & F & N & Hb). split; [done|]. split; [done|]. split; [|by right].
    intros k _ Hk. by apply elem_of_nil in Hk.
Qed.

Lemma note_headers_safe target headers r :
  Forall (λ h, safe_response_header h.1 target = true) (fr_response_headers r) ->
  Forall (λ h, safe_response_header h.1 target = true)
    (fr_response_headers (fold_left (note_header target) headers r)).
Proof.
  revert r. induction headers as [|h headers IH]; intros r Hr; cbn [fold_left]; [done|].
  apply IH. unfold note_header. destruct (safe_response_header h.1 target) eqn:E.
  - destruct (lower h.1 =$ _); [destruct (strtol _); split_if|]; cbn;
      (apply Forall_app; split; [done|by apply Forall_singleton]).
  - destruct (lower h.1 =$ _); [destruct (strtol _); split_if|]; done.
Qed.

(** No hop-by-hop header crosses the gateway: neither among the headers put
    on a request whose authentication headers are accepted, nor among the response
    headers passed back. *)
Theorem no_hop_by_hop_headers target request status content_type headers
    (Hauth : validate_target_auth_headers (ut_auth_headers target) = true) :
  Forall (λ h, hop_by_hop h.1 = false) (request_headers target request)
  /\ Forall (λ h, hop_by_hop h.1 = false)
       (fr_response_headers (response_head target request status content_type headers).1).
Proof.
  split.
  - unfold request_headers, optional_header. repeat (apply Forall_app; split).
    + unfold validate_target_auth_headers in Hauth. split_if; [done|].
      apply validate_loop_spec in Hauth as (F & _). eapply Forall_impl; [exact F|].
      by intros h (_ & _ & _ & _ & _ & _ & H & _).
    + apply Forall_forall. intros h Hh. apply list_elem_of_In, filter_In in Hh as [_ H].
      by apply negb_true_iff in H.
    + apply Forall_forall. intros h Hh. apply list_elem_of_In, filter_In in Hh as [_ H].
      unfold safe_request_header in H. by destruct (hop_by_hop h.1).
    + split_if; repeat constructor.
    + split_if; repeat constructor.
    + split_if; repeat constructor.
    + split_if; repeat constructor.
    + repeat split_if; repeat constructor.
  - unfold response_head. set (r := fold_left _ _ _).
    assert (Forall (λ h, safe_response_header h.1 target = true) (fr_response_headers r)) as F
      by (by apply note_headers_safe).
    assert (Forall (λ h, hop_by_hop h.1 = false) (fr_response_headers r)) as G.
    { eapply Forall_impl; [exact F|]. intros h H. unfold safe_response_header in H.
      by destruct (hop_by_hop h.1). }
    split_if; exact G.
Qed.

(** ** What a success means *)

Definition is_success (status : Z) : bool := (200 <=? status) && (status <? 300).

Definition sound_success {RJ : RapidJson} (r : ForwardResult) : Prop :=
  is_success (fr_status_code r) = true ->
  fr_stream_incomplete r = false
  /\ (fr_stream r = false ->
      has_invalid_success_payload (fr_status_code r) (fr_content_type r) (fr_body r) = false).

Lemma not_success_sound {RJ : RapidJson} r : is_success (fr_status_code r) = false -> sound_success r.
Proof. intros H H'. congruence. Qed.

Lemma cancellation_sound {RJ : RapidJson} cancelled request r :
  sound_success r -> sound_success (apply_transport_cancellation cancelled request r).
Proof.
  intros H. unfold apply_transport_cancellation. split_if; [done|]. apply not_success_sound. cbn.
  by split_if.
Qed.

Lemma parse_usage_frame {RJ : RapidJson} body r :
  fr_status_code (parse_usage body r) = fr_status_code r
  /\ fr_content_type (parse_usage body r) = fr_content_type r
  /\ fr_stream_incomplete (parse_usage body r) = fr_stream_incomplete r.
Proof.
  unfold parse_usage. destruct (Parse body) as [[]|]; try done.
  destruct (response_usage_object _) as [usage|]; [|done]. cbv zeta.
  by destruct (member _ "service_tier") as [[]|].
Qed.

Lemma settle_body_sound {RJ : RapidJson} inv d r body :
  fr_stream_incomplete r = false -> (inv = true -> is_success (fr_status_code r) = false) ->
  sound_success (settle_body inv d r body).
Proof.
  intros Hi Hinv. unfold settle_body. cbv zeta.
  change (fr_status_code (set_fr_duration_ms _ r)) with (fr_status_code r).
  change (fr_content_type (set_fr_duration_ms _ r)) with (fr_content_type r).
  destruct (has_invalid_success_payload _ _ body) eqn:E; [by apply not_success_sound|].
  pose proof (parse_usage_frame body (set_fr_duration_ms (i32 d) r)) as (P1 & P2 & P3).
  intros Hs. cbn in *. rewrite P1, P2, P3 in *. split; [done|]. intros _.
  destruct inv; [|done]. rewrite Hinv in Hs by done. done.
Qed.

Lemma note_header_status target headers r :
  fr_status_code (fold_left (note_header target) headers r) = fr_status_code r
  /\ fr_stream_incomplete (fold_left (note_header target) headers r) = fr_stream_incomplete r.
Proof.
  revert r. induction headers as [|h headers IH]; intros r; cbn [fold_left]; [done|].
  destruct (IH (note_header target r h)) as [-> ->]. unfold note_header.
  destruct (safe_response_header h.1 target), (lower h.1 =$ _); try done;
    destruct (strtol _); by split_if.
Qed.

Lemma response_head_sound target request status ct headers :
  let '(r, inv) := response_head target request status ct headers in
  fr_stream_incomplete r = false /\ (inv = true -> fr_status_code r = 502).
Proof.
  unfold response_head. set (r := fold_left _ _ _).
  assert (fr_stream_incomplete r = false) as Hi by (apply note_header_status).
  by split_if.
Qed.

Lemma settle_stream_sound {RJ : RapidJson} r :
  fr_stream r = true -> sound_success (settle_stream r).
Proof.
  intros Hst Hs. assert (fr_stream (settle_stream r) = true) as Hst'.
  { unfold settle_stream. cbv zeta. by repeat split_if. }
  split; [|congruence]. revert Hs. unfold settle_stream. cbv zeta.
  destruct (fr_policy_blocked r) eqn:Eb, (fr_policy_failed_closed r) eqn:Ef; cbn; rewrite ?Eb; cbn; try done.
  destruct (fr_client_disconnect r); cbn.
  - destruct (fr_output_started r); cbn; [|done]. destruct (fr_stream_incomplete r) eqn:Ei; cbn; [done|].
    by intros _.
  - destruct (fr_stream_incomplete r) eqn:Ei; cbn; [|by intros _].
    destruct (fr_stream_timeout r), (fr_output_started r); done.
Qed.


(** RapidJSON restricted to the empty object, for concrete runs. *)
Definition tiny_json : RapidJson :=
  {| Parse := λ s, if s =$ "{}" then Some (JObject []) else None; Write := λ _, "{}" |}.

Definition sample_target : UpstreamTarget :=
  mkUpstreamTarget 1 "openai" "https://api.example.com" "/v1/models" [("authorization" : str, "Bearer x" : str)]
    [] [] [] [] 1 1 kOne [] false [] [] [] [] [] [] [] [] [] [] false false.
Definition sample_request : ForwardRequest :=
  mkForwardRequest "GET" [] [] [] [] "req-1" [] [] false OpenAIChatCompletions OpenAIChatCompletions None.
Definition sample_forward_config : ForwardConfig :=
  mkForwardConfig 30000 60000 120000 300000 15000 64 64 1024.

Lemma no_hop_by_hop_headers_witness :
  Forall (λ h, hop_by_hop h.1 = false) (request_headers sample_target sample_request)
  /\ Forall (λ h, hop_by_hop h.1 = false)
       (fr_response_headers (response_head sample_target sample_request 200 "application/json"
          [("Connection" : str, "close" : str); ("Content-Type" : str, "application/json" : str)]).1).
Proof. apply no_hop_by_hop_headers. vm_compute. reflexivity. Defined.

Definition sample_forward : option (Callbacks * res ForwardResult) :=
  forward (RJ := tiny_json) (SC := data_codec) sample_forward_config true full_write Z.of_nat
    sample_target sample_request Passthrough
    (Response 200 "application/json; charset=utf-8" [] [Chunk "{"; Chunk "}"; Eof]) false false 12.


(** A long [Retry-After] turns negative: the number of seconds is multiplied
    by 1000 and cut to 32 bits, so that 2147484 seconds (about 25 days) and more no
    longer count as a delay. *)
Theorem retry_after_overflows target :
  fr_retry_after_ms (note_header target default_forward_result ("Retry-After" : str, "2147484" : str))
  = -2147483296.
Proof. unfold note_header. cbv zeta. destruct (safe_response_header _ target); reflexivity. Qed.

(** ** The pool *)

Definition pool_wf (p : Pool) : Prop := (size (clients p) <= max_per_host p)%nat.

(** The pool never holds more clients than its bound, a host keeps the client
    it first got, and hosts beyond the bound share the default client. *)
Theorem get_client_bounded fresh host p (Hwf : pool_wf p) :
  let '(p', c) := get_client fresh host p in
  pool_wf p' /\ max_per_host p' = max_per_host p
  /\ (forall h c', clients p !! h = Some c' -> clients p' !! h = Some c')
  /\ (c = default_client p \/ clients p' !! host = c).
Proof.
  unfold get_client, pool_wf in *. destruct (clients p !! host) as [c|] eqn:E; [auto 6|].
  destruct (Nat.leb_spec (max_per_host p) (size (clients p))); [auto 6|].
  destruct fresh as [c|]; [|auto 6]. cbn. rewrite map_size_insert_None by done.
  split; [lia|]. split; [done|]. split; [|right; apply lookup_insert_eq].
  intros h c' Hh. rewrite lookup_insert_ne; [done|]. congruence.
Qed.

Lemma get_client_bounded_witness :
  let p := mkPool 1 {["a" : str := 7%nat]} (Some 0%nat) in
  let '(p', c) := get_client (Some 8%nat) "b" p in
  pool_wf p' /\ c = Some 0%nat.
Proof.
  cbv zeta. pose proof (get_client_bounded (Some 8%nat) "b" (mkPool 1 {["a" : str := 7%nat]} (Some 0%nat))) as H.
  destruct (get_client _ _ _) as [p' c] eqn:E. vm_compute in E. injection E as <- <-.
  split; [|reflexivity]. apply H. vm_compute. lia.
Defined.
