(* ===== verification/Dispatch.v ===== *)
(** * The dispatch client

    [dispatch/capnp_dispatch_client.cpp]: length-prefixed frames over a Unix
    socket, reconnection with back-off, and the calls of the control plane.
    The socket and the clock are described per attempt by an [Attempt]; the
    generated Cap'n Proto code is the class [Capnp], an argument of the calls.  The
    lock every call holds serialises them, so a call is a function of the state of
    the connection. *)
From S2P Require Import Prelude DispatchTypes WebSocket.
#[local] Open Scope Z_scope.

(** ** Frames *)

Inductive Method :=
| MDispatch | MReportUsage | MAbort | MReportUpstreamError | MMediaOperation
| MRecordLeaseEvidence | MEvaluateContent | MUploadBlob.

Definition method_code (m : Method) : Z :=
  match m with
  | MDispatch => 1 | MReportUsage => 2 | MAbort => 3 | MReportUpstreamError => 4
  | MMediaOperation => 5 | MRecordLeaseEvidence => 6 | MEvaluateContent => 7 | MUploadBlob => 8
  end.

Definition frame_header (body_size : nat) : bytes :=
  let len := u32 (Z.of_nat body_size + 1) in
  [Z.land len 0xFF; Z.land (Z.shiftr len 8) 0xFF; Z.land (Z.shiftr len 16) 0xFF;
   Z.land (Z.shiftr len 24) 0xFF].

(** [write_all] on a socket whose [n]-th [send] returns [send n data]: the bytes
    that left, the number of calls and whether everything left.  Every successful
    send makes progress, so the length of the data is enough fuel. *)
Fixpoint socket_write (send : nat -> bytes -> Z) (fuel : nat) (calls : nat) (out data : bytes)
    : nat * bytes * bool :=
  match data, fuel with
  | [], _ => (calls, out, true)
  | _, O => (calls, out, true)
  | _, S fuel' =>
      let n := send calls data in
      if n <=? 0 then (S calls, out, false)
      else socket_write send fuel' (S calls) (out ++ take (Z.to_nat n) data)
             (drop (Z.to_nat n) data)
  end.

Definition socket_write_all (send : nat -> bytes -> Z) (st : nat * bytes) (data : bytes)
    : nat * bytes * bool :=
  socket_write send (length data) st.1 st.2 data.

(** [send_frame] on an open socket: the bytes put on the wire, and success. *)
Definition send_frame (send : nat -> bytes -> Z) (m : Method) (words : bytes) : bytes * bool :=
  let '(calls, out, ok) := socket_write_all send (0%nat, []) (frame_header (length words)) in
  if negb ok then (out, false)
  else
    let '(calls, out, ok) := socket_write_all send (calls, out) [method_code m] in
    if negb ok then (out, false)
    else
      let '(_, out, ok) := socket_write_all send (calls, out) words in
      (out, ok).

(** The read loops: the [n]-th [read] for [want] bytes returns [avail n want]
    bytes of the input, which stops at the end of what the peer has sent. *)
Fixpoint read_exact (avail : nat -> nat -> Z) (fuel : nat) (calls : nat) (got : bytes) (want : nat)
    (input : bytes) : nat * option bytes * bytes :=
  match want, fuel with
  | O, _ => (calls, Some got, input)
  | _, O => (calls, None, input)
  | _, S fuel' =>
      let n := Z.min (avail calls want) (Z.min (Z.of_nat want) (Z.of_nat (length input))) in
      if n <=? 0 then (S calls, None, input)
      else read_exact avail fuel' (S calls) (got ++ take (Z.to_nat n) input)
             (want - Z.to_nat n) (drop (Z.to_nat n) input)
  end.

Definition frame_length (hdr : bytes) : Z :=
  u32 (Z.lor (Z.lor (Z.lor (byte_at hdr 0) (Z.shiftl (byte_at hdr 1) 8))
                (Z.shiftl (byte_at hdr 2) 16)) (Z.shiftl (byte_at hdr 3) 24)).

Definition kMaxFrame : Z := 1024 * 1024.

(** [recv_frame]: the empty vector stands for every failure. *)
Definition recv_frame (avail : nat -> nat -> Z) (input : bytes) : bytes :=
  match read_exact avail 4 0 [] 4 input with
  | (_, None, _) => []
  | (calls, Some hdr, input) =>
      let len := frame_length hdr in
      if (len =? 0) || (kMaxFrame <? len) then []
      else match read_exact avail (Z.to_nat len) calls [] (Z.to_nat len) input with
           | (_, Some body, _) => body
           | (_, None, _) => []
           end
  end.

(** ** The connection *)

Record Conn := mkConn {
  connected : bool;
  reconnect_delay_ms : Z;
  reconnect_after : Z;
  dispatch_reconnects : Z;
}.

Definition conn_start : Conn := mkConn false 50 0 0.

(** What the world does in one attempt: the peek on an open socket, the clock
    where the code reads it, the connect, and the bytes exchanged. *)
Record Attempt := mkAttempt {
  at_alive : bool;
  at_now_close : Z;
  at_now : Z;
  at_connect : bool;
  at_now_failed : Z;
  at_send : nat -> bytes -> Z;
  at_input : bytes;
  at_avail : nat -> nat -> Z;
  at_now_drop : Z;
}.

Definition back_off (now : Z) (c : Conn) : Conn :=
  mkConn false (Z.min (u32 (reconnect_delay_ms c * 2)) 3000) (now + reconnect_delay_ms c)
    (dispatch_reconnects c).

Definition disconnect (now : Z) (c : Conn) : Conn :=
  if connected c then back_off now c else c.

Definition ensure_connected (a : Attempt) (c : Conn) : Conn * bool :=
  if connected c && at_alive a then (c, true)
  else
    let c := disconnect (at_now_close a) c in
    if at_now a <? reconnect_after c then (c, false)
    else if negb (at_connect a) then (back_off (at_now_failed a) c, false)
    else (mkConn true 50 (reconnect_after c) (u64 (dispatch_reconnects c + 1)), true).

(** [exchange]: at most two attempts; the log holds the bytes that left in each. *)
Fixpoint exchange_loop (m : Method) (words : bytes) (attempts : list Attempt) (c : Conn)
    (log : list bytes) : Conn * list bytes * bytes :=
  match attempts with
  | [] => (c, log, [])
  | a :: attempts' =>
      let '(c, ok) := ensure_connected a c in
      if negb ok then (c, log, [])
      else
        let '(out, sent) := send_frame (at_send a) m words in
        let response := if sent then recv_frame (at_avail a) (at_input a) else [] in
        match response with
        | [] => exchange_loop m words attempts' (disconnect (at_now_drop a) c) (log ++ [out])
        | _ => (c, log ++ [out], response)
        end
  end.

Definition exchange (m : Method) (words : bytes) (a1 a2 : Attempt) (c : Conn)
    : Conn * list bytes * bytes :=
  exchange_loop m words [a1; a2] c [].

(** ** Wire structures *)

(** The parts of a usage report that go on the wire: the rest is known to the
    control plane from the lease. *)
Record WireUsage := mkWireUsage {
  wu_lease_token : str;
  wu_input_tokens : Z;
  wu_output_tokens : Z;
  wu_cache_create_tokens : Z;
  wu_cache_read_tokens : Z;
  wu_duration_ms : Z;
  wu_first_token_ms : Z;
  wu_stream : bool;
  wu_client_disconnect : bool;
  wu_status_code : Z;
  wu_input_image_count : Z;
  wu_output_image_count : Z;
  wu_image_size : str;
  wu_video_count : Z;
  wu_video_resolution : str;
  wu_video_duration_seconds : Z;
  wu_realtime_duration_ms : Z;
  wu_realtime_frames : Z;
  wu_disconnect_reason : str;
  wu_provider_usage_json : str;
  wu_reasoning_tokens : Z;
  wu_service_tier : str;
  wu_upstream_endpoint : str;
  wu_cancellation_reason : str;
  wu_media_operation_id : str;
  wu_pricing_version : str;
  wu_response_status_code : Z;
  wu_response_content_type : str;
  wu_response_body : str;
}.

Definition wire_usage (r : UsageReportData) : WireUsage :=
  mkWireUsage
    (ur_lease_token r)
    (ur_input_tokens r)
    (ur_output_tokens r)
    (ur_cache_create_tokens r)
    (ur_cache_read_tokens r)
    (ur_duration_ms r)
    (ur_first_token_ms r)
    (ur_stream r)
    (ur_client_disconnect r)
    (ur_status_code r)
    (ur_input_image_count r)
    (ur_output_image_count r)
    (ur_image_size r)
    (ur_video_count r)
    (ur_video_resolution r)
    (ur_video_duration_seconds r)
    (ur_realtime_duration_ms r)
    (ur_realtime_frames r)
    (ur_disconnect_reason r)
    (ur_provider_usage_json r)
    (ur_reasoning_tokens r)
    (ur_service_tier r)
    (ur_upstream_endpoint r)
    (ur_cancellation_reason r)
    (ur_media_operation_id r)
    (ur_pricing_version r)
    (ur_response_status_code r)
    (ur_response_content_type r)
    (ur_response_body r).

Record WireUpstream := mkWireUpstream {
  wt_account_id : Z;
  wt_platform : str;
  wt_base_url : str;
  wt_upstream_path : str;
  wt_mapped_model : str;
  wt_user_id : Z;
  wt_group_id : Z;
  wt_tls_fingerprint : bool;
  wt_http_method : str;
  wt_upstream_format : str;
  wt_websocket_url : str;
  wt_websocket_protocol : str;
  wt_tls_fingerprint_profile_id : str;
  wt_media_operation_id : str;
  wt_upstream_task_id : str;
  wt_polling_supported : bool;
  wt_content_download_supported : bool;
  wt_proxy : option (str * str * str);
  wt_billing : option (Z * str);
  wt_auth_headers : list (str * str);
  wt_request_headers : list (str * str);
  wt_allowed_response_headers : list str;
  wt_capability_flags : list str;
}.

Definition read_upstream (to_rate : Z -> Z) (u : WireUpstream) : UpstreamTarget :=
  mkUpstreamTarget
    (wt_account_id u)
    (wt_platform u)
    (wt_base_url u)
    (wt_upstream_path u)
    (wt_auth_headers u)
    (wt_mapped_model u)
    (default [] ((λ p, p.1.1) <$> wt_proxy u))
    (default [] ((λ p, p.1.2) <$> wt_proxy u))
    (default [] (snd <$> wt_proxy u))
    (wt_user_id u)
    (wt_group_id u)
    (default kOne (to_rate ∘ fst <$> wt_billing u))
    (default [] (snd <$> wt_billing u))
    (wt_tls_fingerprint u)
    (wt_http_method u)
    (wt_upstream_format u)
    (wt_request_headers u)
    (wt_allowed_response_headers u)
    (wt_websocket_url u)
    (wt_websocket_protocol u)
    (wt_tls_fingerprint_profile_id u)
    (wt_capability_flags u)
    (wt_media_operation_id u)
    (wt_upstream_task_id u)
    (wt_polling_supported u)
    (wt_content_download_supported u).

(** A dispatch response; the optional parts are the [has...] tests. *)
Record WireDispatchResponse := mkWireResponse {
  wd_protocol_version : Z;
  wd_outcome : Z;
  wd_auth_version : Z;
  wd_lease_token : str;
  wd_api_key_id : option Z;
  wd_reject : option (str * Z);
  wd_replay_status_code : Z;
  wd_replay_content_type : str;
  wd_replay_body : str;
  wd_wait_timeout_ms : option Z;
  wd_upstream : option WireUpstream;
}.

Record WireBlobChunk := mkBlobChunk {
  bc_blob_id : str;
  bc_seq : Z;
  bc_index : Z;
  bc_data : str;
  bc_is_last : bool;
}.

Record WireBlobAck := mkBlobAck {
  ba_accepted : bool;
  ba_error_code : str;
  ba_digest : str;
  ba_total_bytes : Z;
}.

Record BlobUploadResult := mkBlobUpload {
  bu_accepted : bool;
  bu_error_code : str;
  bu_blob_id : str;
  bu_digest : str;
  bu_total_bytes : Z;
}.

(** The generated Cap'n Proto code: encoders of the messages and readers of the
    answers.  A reader that throws is [None]. *)
Class Capnp := {
  encode_dispatch : Z -> DispatchRequest -> bytes;
  encode_media : MediaOperationRequest -> bytes;
  encode_usage : WireUsage -> bytes;
  encode_evidence : str -> LeaseEvidenceStage -> str -> str -> bytes;
  encode_abort : str -> str -> LeaseAbortDisposition -> Z -> bytes;
  encode_error : ErrorReportData -> bytes;
  encode_policy : str -> str -> str -> bytes;
  encode_blob : WireBlobChunk -> bytes;
  decode_dispatch : bytes -> option WireDispatchResponse;
  decode_media : bytes -> option MediaOperationResult;
  decode_ack : bytes -> option RpcAck;
  decode_policy : bytes -> option ContentPolicyResult;
  decode_blob_ack : bytes -> option WireBlobAck;
  to_rate : Z -> Z;
}.

(** A frame of whole words behind a tag. *)
Definition tagged (tag : Z) (response : bytes) : bool :=
  (byte_at response 0 =? tag) && (Z.of_nat (length response - 1) mod 8 =? 0).

Definition kj_exception : fault := RuntimeError "kj::Exception".

Definition decoded {A} (o : option A) : res A :=
  match o with Some a => Ok a | None => Err kj_exception end.

(** ** The calls *)

Section Calls.
Context {CP : Capnp}.

Definition rejected (message : string) : DispatchResult :=
  mkDispatchResult Rejected 0 0 [] default_UpstreamTarget message
    kPlatformUnavailableRejectCode 0 0 [] [].

Definition read_outcome (o : Z) : Outcome :=
  if o =? 0 then OutcomeOk else if o =? 1 then Wait else if o =? 3 then Reauth else Rejected.

Definition read_dispatch (w : WireDispatchResponse) : DispatchResult :=
  if negb (wd_protocol_version w =? 3) then rejected "dispatch protocol version mismatch"
  else
    mkDispatchResult (read_outcome (wd_outcome w)) (wd_auth_version w)
      (default 0 (wd_api_key_id w)) (wd_lease_token w)
      (match wd_upstream w with Some u => read_upstream to_rate u | None => default_UpstreamTarget end)
      (default [] (fst <$> wd_reject w)) (default 0 (snd <$> wd_reject w))
      (default 0 (wd_wait_timeout_ms w))
      (wd_replay_status_code w) (wd_replay_content_type w) (wd_replay_body w).

Definition dispatch_reply (response : bytes) : res DispatchResult :=
  match response with
  | [] => Ok (rejected "platform unavailable; retry may be safe")
  | _ =>
      if negb (tagged 0x81 response) then Ok (rejected "invalid platform dispatch response")
      else w ← decoded (decode_dispatch (drop 1 response)); Ok (read_dispatch w)
  end.

Definition dispatch (req : DispatchRequest) (a1 a2 : Attempt) (c : Conn)
    : Conn * list bytes * res DispatchResult :=
  let '(c, log, response) := exchange MDispatch (encode_dispatch 3 req) a1 a2 c in
  (c, log, dispatch_reply response).

Definition media_unavailable : MediaOperationResult :=
  mkMediaOperationResult false 500 [] [] [] 0 [] [] [] [] "platform_unavailable"
    "Platform media operation service unavailable".

Definition media_operation (req : MediaOperationRequest) (a1 a2 : Attempt) (c : Conn)
    : Conn * list bytes * res MediaOperationResult :=
  let '(c, log, response) := exchange MMediaOperation (encode_media req) a1 a2 c in
  (c, log, match response with
           | [] => Ok media_unavailable
           | _ => if negb (tagged 0x85 response) then Ok media_unavailable
                  else decoded (decode_media (drop 1 response))
           end).

Definition invalid_ack : RpcAck := mkRpcAck false false true "invalid_ack".

Definition parse_ack (response : bytes) (method : Z) : res RpcAck :=
  if (length response <=? 1)%nat || negb (tagged method response) then Ok invalid_ack
  else decoded (decode_ack (drop 1 response)).

Definition report_usage_call (report : UsageReportData) (a1 a2 : Attempt) (now : Z) (c : Conn)
    : Conn * list bytes * res RpcAck :=
  let '(c, log, response) := exchange MReportUsage (encode_usage (wire_usage report)) a1 a2 c in
  match parse_ack response 0x82 with
  | Ok ack => ((if error_code ack =$ "invalid_ack" then disconnect now c else c), log, Ok ack)
  | Err e => (c, log, Err e)
  end.

Definition ack_call (m : Method) (words : bytes) (tag : Z) (a1 a2 : Attempt) (c : Conn)
    : Conn * list bytes * res RpcAck :=
  let '(c, log, response) := exchange m words a1 a2 c in (c, log, parse_ack response tag).

Definition record_lease_evidence_call (token : str) (stage : LeaseEvidenceStage) (detail : str) :=
  ack_call MRecordLeaseEvidence (encode_evidence token stage "gateway" detail) 0x86.

Definition abort (token reason : str) (d : LeaseAbortDisposition) (provider_status_code : Z) :=
  ack_call MAbort (encode_abort token reason d provider_status_code) 0x83.

Definition report_upstream_error (e : ErrorReportData) :=
  ack_call MReportUpstreamError (encode_error e) 0x84.

Definition evaluate_response_content (token content capability : str) (a1 a2 : Attempt) (now : Z)
    (c : Conn) : Conn * list bytes * res ContentPolicyResult :=
  let '(c, log, response) := exchange MEvaluateContent (encode_policy token content capability) a1 a2 c in
  if (length response <=? 1)%nat || negb (tagged 0x87 response)
  then (disconnect now c, log, Ok default_ContentPolicyResult)
  else (c, log, decoded (decode_policy (drop 1 response))).

(** [upload_blob]: the answers to the successive chunks are [replies]; a chunk
    carries at least a byte, but for the only chunk of an empty body, so one more
    than the length of the body is enough fuel. *)
Definition kBlobChunkBytes : nat := 512 * 1024.

Definition blob_reply (response : bytes) : option (option WireBlobAck) :=
  if (length response <=? 1)%nat || negb (tagged 0x88 response) then None
  else Some (decode_blob_ack (drop 1 response)).

Fixpoint upload_loop (chunk_bytes fuel : nat) (blob_id body : str) (index : nat)
    (replies : nat -> bytes) (digest : str) (total : Z) (log : list WireBlobChunk)
    : list WireBlobChunk * res BlobUploadResult :=
  match fuel with
  | O => (log, Ok (mkBlobUpload true [] blob_id digest total))
  | S fuel' =>
      if empty body && negb (index =? 0)%nat
      then (log, Ok (mkBlobUpload true [] blob_id digest total))
      else
        let data := take chunk_bytes body in
        let rest := drop chunk_bytes body in
        let log := log ++ [mkBlobChunk blob_id 0 (u32 (Z.of_nat index)) data (empty rest)] in
        match blob_reply (replies index) with
        | None => (log, Ok (mkBlobUpload false "platform_unavailable" blob_id digest total))
        | Some None => (log, Err kj_exception)
        | Some (Some ack) =>
            if negb (ba_accepted ack)
            then (log, Ok (mkBlobUpload false (ba_error_code ack) blob_id digest total))
            else upload_loop chunk_bytes fuel' blob_id rest (S index) replies (ba_digest ack)
                   (ba_total_bytes ack) log
        end
  end.

Definition upload_blob (blob_id body : str) (replies : nat -> bytes)
    : list WireBlobChunk * res BlobUploadResult :=
  upload_loop kBlobChunkBytes (S (length body)) blob_id body 0 replies [] 0 [].
End Calls.

(** ** Lemmas: frames *)

Definition sending (send : nat -> bytes -> Z) : Prop := forall n data, data <> [] -> 0 < send n data.
Definition delivering (avail : nat -> nat -> Z) : Prop := forall n want, (0 < want)%nat -> 0 < avail n want.

Lemma socket_write_ok send fuel calls out data :
  sending send -> (length data <= fuel)%nat ->
  exists calls', socket_write send fuel calls out data = (calls', out ++ data, true).
Proof.
  intros Hs. revert calls out data. induction fuel as [|fuel IH]; intros calls out [|b data] Hl; cbn [socket_write].
  1,3: exists calls; by rewrite app_nil_r.
  { simpl in Hl. lia. }
  specialize (Hs calls (b :: data) ltac:(done)). set (n := send calls (b :: data)) in *.
  destruct (Z.leb_spec n 0); [lia|].
  destruct (IH (S calls) (out ++ take (Z.to_nat n) (b :: data)) (drop (Z.to_nat n) (b :: data))) as [calls' ->].
  { rewrite length_drop. simpl in *. lia. }
  exists calls'. by rewrite <- app_assoc, take_drop.
Qed.

Lemma send_frame_ok send m words :
  sending send ->
  send_frame send m words = (frame_header (length words) ++ [method_code m] ++ words, true).
Proof.
  intros Hs. unfold send_frame, socket_write_all. cbn [fst snd].
  edestruct (socket_write_ok send) as [c1 ->]; [done|reflexivity|]. cbn [negb fst snd].
  edestruct (socket_write_ok send) as [c2 ->]; [done|reflexivity|]. cbn [negb fst snd].
  edestruct (socket_write_ok send) as [c3 ->]; [done|reflexivity|].
  by rewrite <- app_assoc.
Qed.

Lemma read_exact_ok avail fuel calls got want input :
  delivering avail -> (want <= fuel)%nat -> (want <= length input)%nat ->
  exists calls', read_exact avail fuel calls got want input
    = (calls', Some (got ++ take want input), drop want input).
Proof.
  intros Ha. revert calls got want input. induction fuel as [|fuel IH]; intros calls got [|want] input Hf Hi;
    cbn [read_exact].
  1,3: exists calls; by rewrite take_0, app_nil_r, drop_0.
  { lia. }
  specialize (Ha calls (S want) ltac:(lia)). set (n := Z.min _ _).
  assert (1 <= n <= Z.of_nat (S want) /\ n <= Z.of_nat (length input)) as (Hn1 & Hn2) by (unfold n; lia).
  destruct (Z.leb_spec n 0); [lia|].
  destruct (IH (S calls) (got ++ take (Z.to_nat n) input) (S want - Z.to_nat n)%nat (drop (Z.to_nat n) input))
    as [calls' ->]; [lia|rewrite length_drop; lia|].
  exists calls'. f_equal; [f_equal; f_equal|].
  - rewrite <- app_assoc. f_equal. rewrite take_take_drop. f_equal. lia.
  - rewrite drop_drop. f_equal. lia.
Qed.

Lemma frame_length_header n :
  Z.of_nat n + 1 < 2 ^ 32 -> frame_length (frame_header n) = Z.of_nat n + 1.
Proof.
  intros H. unfold frame_length, frame_header. cbn [byte_at nth].
  rewrite (u32_small (Z.of_nat n + 1)) by lia. set (z := Z.of_nat n + 1) in *.
  rewrite !land_255, !Z.shiftr_div_pow2 by lia.
  rewrite (Z.lor_comm (Z.lor (Z.lor _ _) _)), (Z.lor_comm (Z.lor _ _)), (Z.lor_comm (z mod 256)).
  rewrite (lor_shiftl_add _ _ 8) by (try lia; apply Z.mod_pos_bound; lia).
  rewrite (lor_shiftl_add _ _ 16) by
    (try lia; pose proof (Z.mod_pos_bound z 256); pose proof (Z.mod_pos_bound (z / 2 ^ 8) 256); lia).
  rewrite (lor_shiftl_add _ _ 24) by
    (try lia; pose proof (Z.mod_pos_bound z 256); pose proof (Z.mod_pos_bound (z / 2 ^ 8) 256);
     pose proof (Z.mod_pos_bound (z / 2 ^ 16) 256); lia).
  rewrite u32_small.
  all: change (2 ^ 8) with 256; change (2 ^ 16) with 65536; change (2 ^ 24) with 16777216;
    Z.to_euclidean_division_equations; lia.
Qed.

(** C29: The frame format is its own inverse: what [send_frame] puts on the wire,
    however the kernel cuts the sends, [recv_frame] reads back as the method byte
    followed by the words, however the kernel cuts the reads and whatever follows,
    for every message whose frame is at most one mebibyte; a longer one is
    refused. *)
Theorem frame_roundtrip send avail m words rest
    (Hsend : sending send) (Havail : delivering avail)
    (Hlen : Z.of_nat (length words) + 1 < 2 ^ 32) :
  recv_frame avail ((send_frame send m words).1 ++ rest)
  = if Z.of_nat (length words) + 1 <=? kMaxFrame then method_code m :: words else [].
Proof.
  rewrite send_frame_ok by done. cbn [fst]. rewrite <- app_assoc. unfold recv_frame.
  edestruct (read_exact_ok avail 4 0 [] 4) as [calls ->]; [done|lia|rewrite length_app; simpl; lia|].
  rewrite take_app_length', drop_app_length' by done. rewrite app_nil_l, frame_length_header by done.
  destruct (Z.eqb_spec (Z.of_nat (length words) + 1) 0); [lia|]. cbn [orb].
  rewrite Z.ltb_antisym. destruct (_ <=? kMaxFrame); cbn [negb]; [|done].
  replace (Z.to_nat (Z.of_nat (length words) + 1)) with (length (method_code m :: words)) by (simpl; lia).
  edestruct (read_exact_ok avail (length (method_code m :: words)) calls []
    (length (method_code m :: words))) as [calls' ->]; [done|lia|rewrite length_app; simpl; lia|].
  change ([method_code m] ++ words) with (method_code m :: words).
  by rewrite take_app_length, app_nil_l.
Qed.

Lemma frame_roundtrip_witness :
  recv_frame (λ n _, Z.of_nat (n mod 2) + 1)
    ((send_frame (λ _ _, 3) MAbort [1; 2; 3; 4; 5; 6; 7; 8]).1 ++ [9; 9])
  = [3; 1; 2; 3; 4; 5; 6; 7; 8].
Proof.
  rewrite frame_roundtrip.
  - reflexivity.
  - intros n data _. lia.
  - intros n want _. lia.
  - simpl. lia.
Defined.

(** ** The connection *)

(** The steps of a connection: what a call does between two uses. *)
Inductive conn_step : Conn -> Conn -> Prop :=
| StepEnsure a c : conn_step c (ensure_connected a c).1
| StepDisconnect now c : conn_step c (disconnect now c).

Inductive conn_reachable : Conn -> Prop :=
| ReachStart : conn_reachable conn_start
| ReachStep c c' : conn_reachable c -> conn_step c c' -> conn_reachable c'.

Lemma reach_ensure a c : conn_reachable c -> conn_reachable (ensure_connected a c).1.
Proof. intros H. eapply ReachStep; [exact H|constructor]. Qed.
Lemma reach_disconnect now c : conn_reachable c -> conn_reachable (disconnect now c).
Proof. intros H. eapply ReachStep; [exact H|constructor]. Qed.

Lemma exchange_loop_reachable m words attempts c log :
  conn_reachable c -> conn_reachable (exchange_loop m words attempts c log).1.1.
Proof.
  revert c log. induction attempts as [|a attempts IH]; intros c log Hc; cbn [exchange_loop]; [done|].
  pose proof (reach_ensure a c Hc) as H1. destruct (ensure_connected a c) as [c1 ok]. cbn [fst] in H1.
  destruct ok; cbn [negb]; [|done]. destruct (send_frame _ _ _) as [out sent].
  destruct (if sent then _ else _); [by apply IH, reach_disconnect|done].
Qed.

Definition delay_ok (c : Conn) : Prop := 50 <= reconnect_delay_ms c <= 3000.

Lemma back_off_ok now c : delay_ok c -> delay_ok (back_off now c).
Proof. unfold delay_ok, back_off. cbn. intros H. rewrite u32_small by lia. lia. Qed.

Lemma conn_step_ok c c' : conn_step c c' -> delay_ok c -> delay_ok c'.
Proof.
  intros [a d|now d] H.
  - unfold ensure_connected. split_if; [done|].
    assert (delay_ok (disconnect (at_now_close a) d)) as H1.
    { unfold disconnect. split_if; [by apply back_off_ok|done]. }
    split_if; [done|]. split_if; [by apply back_off_ok|]. unfold delay_ok. cbn. lia.
  - unfold disconnect. split_if; [by apply back_off_ok|done].
Qed.

(** C38: Reconnection backs off without overflow: in every reachable state of the
    connection the next delay is between 50 ms and 3 s; a failed connect doubles it
    up to that bound and forbids another connect until it has passed, a successful
    one resets it; and while the connection is closed and the delay has not passed,
    [ensure_connected] answers at once without touching anything. *)
Theorem reconnect_backoff c a
    (Hreach : conn_reachable c) (Hclosed : connected c = false) :
  let '(c', ok) := ensure_connected a c in
  50 <= reconnect_delay_ms c <= 3000
  /\ (at_now a < reconnect_after c -> ok = false /\ c' = c)
  /\ (reconnect_after c <= at_now a -> at_connect a = false ->
      ok = false /\ reconnect_delay_ms c' = Z.min (2 * reconnect_delay_ms c) 3000
      /\ reconnect_after c' = at_now_failed a + reconnect_delay_ms c)
  /\ (reconnect_after c <= at_now a -> at_connect a = true ->
      ok = true /\ connected c' = true /\ reconnect_delay_ms c' = 50).
Proof.
  assert (delay_ok c) as Hd.
  { clear Hclosed. induction Hreach as [|c c' _ IH Hs]; [unfold delay_ok; cbn; lia|by eapply conn_step_ok]. }
  unfold delay_ok in Hd. unfold ensure_connected, disconnect. rewrite Hclosed. cbn [andb].
  destruct (Z.ltb_spec (at_now a) (reconnect_after c)).
  { split; [done|]. split; [done|]. split; intros; lia. }
  destruct (at_connect a); cbn [negb back_off reconnect_delay_ms reconnect_after connected].
  - split; [done|]. split; [lia|]. split; [done|]. done.
  - split; [done|]. split; [lia|]. split; [|done]. intros _ _. rewrite u32_small by lia.
    split; [done|]. split; [|done]. f_equal. lia.
Qed.

Definition idle_attempt (now : Z) (up : bool) : Attempt :=
  mkAttempt true now now up now (λ _ d, Z.of_nat (length d)) [] (λ _ w, Z.of_nat w) now.

Lemma reconnect_backoff_witness :
  let c := (ensure_connected (idle_attempt 10 false) conn_start).1 in
  let '(c', ok) := ensure_connected (idle_attempt 60 false) c in
  50 <= reconnect_delay_ms c <= 3000 /\ reconnect_delay_ms c' = 200 /\ reconnect_after c' = 160.
Proof.
  cbv zeta. set (c := (ensure_connected (idle_attempt 10 false) conn_start).1).
  assert (conn_reachable c) as Hr by apply reach_ensure, ReachStart.
  pose proof (reconnect_backoff c (idle_attempt 60 false) Hr eq_refl) as H.
  destruct (ensure_connected (idle_attempt 60 false) c) as [c' ok].
  destruct H as (H1 & _ & H3 & _). split; [exact H1|].
  destruct H3 as (_ & H4 & H5); [vm_compute; discriminate|reflexivity|].
  split; [exact H4|exact H5].
Defined.


(** ** Answers *)


(** A codec that encodes nothing and decodes a fixed acceptance. *)
Definition toy_capnp : Capnp := {|
  encode_dispatch := λ _ _, []; encode_media := λ _, []; encode_usage := λ _, [];
  encode_evidence := λ _ _ _ _, []; encode_abort := λ _ _ _ _, []; encode_error := λ _, [];
  encode_policy := λ _ _ _, [];
  encode_blob := λ _, [];
  decode_dispatch := λ _, None; decode_media := λ _, None;
  decode_ack := λ _, Some (mkRpcAck true false false []);
  decode_policy := λ _, Some (mkPolicyResult true true false [] 0 []);
  decode_blob_ack := λ _, Some (mkBlobAck true [] "d" 1);
  to_rate := id |}.


(** ** Blobs *)

(** The chunks of a body. *)
Definition chunks_of (blob_id : str) (first : nat) (datas : list str) : list WireBlobChunk :=
  imap (λ i data, mkBlobChunk blob_id 0 (u32 (Z.of_nat (first + i))) data
          (bool_decide (S i = length datas))) datas.

Definition accepts {CP : Capnp} (reply : bytes) : bool :=
  match blob_reply reply with Some (Some ack) => ba_accepted ack | _ => false end.

Lemma empty_nil (s : str) : empty s = true <-> s = [].
Proof. by destruct s. Qed.

Lemma upload_loop_spec {CP : Capnp} n fuel blob_id body index replies digest total log :
  (0 < n)%nat -> (length body < fuel)%nat -> (index = 0%nat \/ body <> []) ->
  (forall i, accepts (replies i) = true) ->
  exists datas digest' total',
    upload_loop n fuel blob_id body index replies digest total log
    = (log ++ chunks_of blob_id index datas, Ok (mkBlobUpload true [] blob_id digest' total'))
    /\ concat datas = body /\ datas <> []
    /\ Forall (λ d, (length d <= n)%nat) datas.
Proof.
  intros Hn. revert body index digest total log.
  induction fuel as [|fuel IH]; intros body index digest total log Hf Hi Ha; [lia|].
  cbn [upload_loop].
  replace (empty body && negb (index =? 0)%nat) with false.
  2:{ symmetry. destruct Hi as [->|Hi]; [apply andb_false_r|]. by destruct body. }
  pose proof (Ha index) as Hx. unfold accepts in Hx.
  destruct (blob_reply (replies index)) as [[ack|]|]; [|done..]. rewrite Hx. cbn [negb].
  assert (length (take n body) <= n)%nat as Hl by (rewrite length_take; lia).
  destruct (drop n body) as [|c rest] eqn:Er.
  - exists [take n body]. do 2 eexists. split; [|split; [|split; [done|by apply Forall_singleton]]].
    + cbn [empty]. destruct fuel as [|fuel]; cbn [upload_loop empty andb negb Nat.eqb];
        unfold chunks_of; cbn; rewrite Nat.add_0_r; reflexivity.
    + cbn [concat]. by rewrite <- Er, take_drop.
  - rewrite <- Er in *. assert (length (drop n body) < fuel)%nat as Hf'.
    { rewrite length_drop. assert (length (drop n body) <> 0%nat) by (by rewrite Er).
      rewrite length_drop in *. lia. }
    destruct (IH (drop n body) (S index) (ba_digest ack) (ba_total_bytes ack)
      (log ++ [mkBlobChunk blob_id 0 (u32 (Z.of_nat index)) (take n body) (empty (drop n body))]))
      as (datas & dg & tt & Hu & Hc & Hd & HF); [done|right; by rewrite Er|done|].
    exists (take n body :: datas), dg, tt. rewrite Hu. split; [|split; [|split; [done|by constructor]]].
    + f_equal. rewrite <- app_assoc. f_equal. unfold chunks_of. rewrite imap_cons. cbn [app].
      f_equal.
      * rewrite Nat.add_0_r. f_equal. rewrite Er. cbn. symmetry. apply bool_decide_eq_false.
        destruct datas; [done|]. cbn. lia.
      * apply imap_ext. intros i d _. cbn. f_equal; [f_equal; f_equal; lia|].
        apply bool_decide_ext. lia.
    + cbn [concat]. by rewrite Hc, take_drop.
Qed.

(** A blob arrives whole: when the control plane accepts every chunk,
    [upload_blob] succeeds after sending chunks numbered from zero, none longer
    than the chunk size, whose contents concatenate to the body and of which exactly
    the last is marked as such (one empty chunk for an empty body). *)
Theorem upload_blob_complete {CP : Capnp} blob_id body replies
    (Haccept : forall i, accepts (replies i) = true) :
  exists datas digest total,
    upload_blob blob_id body replies
    = (chunks_of blob_id 0 datas, Ok (mkBlobUpload true [] blob_id digest total))
    /\ concat datas = body /\ datas <> []
    /\ Forall (λ d, (length d <= kBlobChunkBytes)%nat) datas.
Proof.
  unfold upload_blob.
  apply (upload_loop_spec kBlobChunkBytes _ blob_id body 0 replies [] 0 []); [|lia|by left|done].
  unfold kBlobChunkBytes. lia.
Qed.

Lemma upload_blob_complete_witness :
  exists datas digest total,
    upload_blob (CP := toy_capnp) "b1" [] (λ _, [0x88; 0; 0; 0; 0; 0; 0; 0; 0])
    = (chunks_of "b1" 0 datas, Ok (mkBlobUpload true [] "b1" digest total))
    /\ concat datas = [] /\ datas <> [].
Proof.
  destruct (@upload_blob_complete toy_capnp "b1" [] (λ _, [0x88; 0; 0; 0; 0; 0; 0; 0; 0]))
    as (datas & dg & t & H1 & H2 & H3 & _).
  - intros i. reflexivity.
  - exists datas, dg, t. auto.
Defined.
