(* ===== verification/GatewayTypes.v ===== *)
(** * The gateway's handler: data, environment and effects

    What [server/gateway_handler.cpp] reads and changes: the request and the
    response ([server/router.h]), the metrics ([platform/metrics.h]), the answers
    of the control plane, of the store and of the provider, and the clock.  The
    handler is a function on this state in the monad [hm], in which code returns
    early, throws, or never returns. *)
From S2P Require Import Prelude Garnet Failover Capability Auth DispatchTypes Usage Json StreamPipe Forwarder Dispatch.
#[local] Open Scope Z_scope.

(** ** Requests and responses

    The callbacks of a request act on the connection and are not data; those of a
    response are the environment's writes. *)
Record HttpRequest := mkHttpRequest {
  hq_method : str;
  hq_path : str;
  hq_query : str;
  hq_body : str;
  hq_authorization : str;
  hq_x_api_key : str;
  hq_client_ip : str;
  hq_content_type : str;
  hq_accept : str;
  hq_user_agent : str;
  hq_request_id : str;
  hq_idempotency_key : str;
  hq_headers : list (str * str);
  hq_stream_timeout_ms : Z;
}.

Record HttpResponse := mkHttpResponse {
  hr_status_code : Z;
  hr_body : str;
  hr_content_type : str;
  hr_headers : list (str * str);
  hr_stream : bool;
}.

Definition set_hr_status_code (v : Z) (r : HttpResponse) : HttpResponse :=
  mkHttpResponse v (hr_body r) (hr_content_type r) (hr_headers r) (hr_stream r).
Definition set_hr_body (v : str) (r : HttpResponse) : HttpResponse :=
  mkHttpResponse (hr_status_code r) v (hr_content_type r) (hr_headers r) (hr_stream r).
Definition set_hr_content_type (v : str) (r : HttpResponse) : HttpResponse :=
  mkHttpResponse (hr_status_code r) (hr_body r) v (hr_headers r) (hr_stream r).
Definition set_hr_headers (v : list (str * str)) (r : HttpResponse) : HttpResponse :=
  mkHttpResponse (hr_status_code r) (hr_body r) (hr_content_type r) v (hr_stream r).
Definition set_hr_stream (v : bool) (r : HttpResponse) : HttpResponse :=
  mkHttpResponse (hr_status_code r) (hr_body r) (hr_content_type r) (hr_headers r) v.

Definition default_response : HttpResponse := mkHttpResponse 200 [] "application/json" [] false.

(** ** [platform::Metrics] *)

Record Metrics := mkMetrics {
  m_requests_total : Z;
  m_requests_streaming : Z;
  m_requests_failed : Z;
  m_dispatch_calls : Z;
  m_garnet_hits : Z;
  m_garnet_misses : Z;
  m_upstream_errors : Z;
  m_conversion_failures : Z;
  m_failovers : Z;
  m_active_connections : Z;
  m_usage_events_buffered : Z;
  m_usage_report_failures : Z;
  m_dispatch_reconnects : Z;
}.

Definition set_m_requests_total (v : Z) (r : Metrics) : Metrics :=
  mkMetrics v (m_requests_streaming r) (m_requests_failed r) (m_dispatch_calls r) (m_garnet_hits r)
    (m_garnet_misses r) (m_upstream_errors r) (m_conversion_failures r) (m_failovers r)
    (m_active_connections r) (m_usage_events_buffered r) (m_usage_report_failures r)
    (m_dispatch_reconnects r).
Definition set_m_requests_streaming (v : Z) (r : Metrics) : Metrics :=
  mkMetrics (m_requests_total r) v (m_requests_failed r) (m_dispatch_calls r) (m_garnet_hits r)
    (m_garnet_misses r) (m_upstream_errors r) (m_conversion_failures r) (m_failovers r)
    (m_active_connections r) (m_usage_events_buffered r) (m_usage_report_failures r)
    (m_dispatch_reconnects r).
Definition set_m_requests_failed (v : Z) (r : Metrics) : Metrics :=
  mkMetrics (m_requests_total r) (m_requests_streaming r) v (m_dispatch_calls r) (m_garnet_hits r)
    (m_garnet_misses r) (m_upstream_errors r) (m_conversion_failures r) (m_failovers r)
    (m_active_connections r) (m_usage_events_buffered r) (m_usage_report_failures r)
    (m_dispatch_reconnects r).
Definition set_m_dispatch_calls (v : Z) (r : Metrics) : Metrics :=
  mkMetrics (m_requests_total r) (m_requests_streaming r) (m_requests_failed r) v (m_garnet_hits r)
    (m_garnet_misses r) (m_upstream_errors r) (m_conversion_failures r) (m_failovers r)
    (m_active_connections r) (m_usage_events_buffered r) (m_usage_report_failures r)
    (m_dispatch_reconnects r).
Definition set_m_garnet_hits (v : Z) (r : Metrics) : Metrics :=
  mkMetrics (m_requests_total r) (m_requests_streaming r) (m_requests_failed r) (m_dispatch_calls r) v
    (m_garnet_misses r) (m_upstream_errors r) (m_conversion_failures r) (m_failovers r)
    (m_active_connections r) (m_usage_events_buffered r) (m_usage_report_failures r)
    (m_dispatch_reconnects r).
Definition set_m_garnet_misses (v : Z) (r : Metrics) : Metrics :=
  mkMetrics (m_requests_total r) (m_requests_streaming r) (m_requests_failed r) (m_dispatch_calls r)
    (m_garnet_hits r) v (m_upstream_errors r) (m_conversion_failures r) (m_failovers r)
    (m_active_connections r) (m_usage_events_buffered r) (m_usage_report_failures r)
    (m_dispatch_reconnects r).
Definition set_m_upstream_errors (v : Z) (r : Metrics) : Metrics :=
  mkMetrics (m_requests_total r) (m_requests_streaming r) (m_requests_failed r) (m_dispatch_calls r)
    (m_garnet_hits r) (m_garnet_misses r) v (m_conversion_failures r) (m_failovers r)
    (m_active_connections r) (m_usage_events_buffered r) (m_usage_report_failures r)
    (m_dispatch_reconnects r).
Definition set_m_conversion_failures (v : Z) (r : Metrics) : Metrics :=
  mkMetrics (m_requests_total r) (m_requests_streaming r) (m_requests_failed r) (m_dispatch_calls r)
    (m_garnet_hits r) (m_garnet_misses r) (m_upstream_errors r) v (m_failovers r)
    (m_active_connections r) (m_usage_events_buffered r) (m_usage_report_failures r)
    (m_dispatch_reconnects r).
Definition set_m_failovers (v : Z) (r : Metrics) : Metrics :=
  mkMetrics (m_requests_total r) (m_requests_streaming r) (m_requests_failed r) (m_dispatch_calls r)
    (m_garnet_hits r) (m_garnet_misses r) (m_upstream_errors r) (m_conversion_failures r) v
    (m_active_connections r) (m_usage_events_buffered r) (m_usage_report_failures r)
    (m_dispatch_reconnects r).
Definition set_m_active_connections (v : Z) (r : Metrics) : Metrics :=
  mkMetrics (m_requests_total r) (m_requests_streaming r) (m_requests_failed r) (m_dispatch_calls r)
    (m_garnet_hits r) (m_garnet_misses r) (m_upstream_errors r) (m_conversion_failures r)
    (m_failovers r) v (m_usage_events_buffered r) (m_usage_report_failures r)
    (m_dispatch_reconnects r).
Definition set_m_usage_events_buffered (v : Z) (r : Metrics) : Metrics :=
  mkMetrics (m_requests_total r) (m_requests_streaming r) (m_requests_failed r) (m_dispatch_calls r)
    (m_garnet_hits r) (m_garnet_misses r) (m_upstream_errors r) (m_conversion_failures r)
    (m_failovers r) (m_active_connections r) v (m_usage_report_failures r)
    (m_dispatch_reconnects r).
Definition set_m_usage_report_failures (v : Z) (r : Metrics) : Metrics :=
  mkMetrics (m_requests_total r) (m_requests_streaming r) (m_requests_failed r) (m_dispatch_calls r)
    (m_garnet_hits r) (m_garnet_misses r) (m_upstream_errors r) (m_conversion_failures r)
    (m_failovers r) (m_active_connections r) (m_usage_events_buffered r) v
    (m_dispatch_reconnects r).
Definition set_m_dispatch_reconnects (v : Z) (r : Metrics) : Metrics :=
  mkMetrics (m_requests_total r) (m_requests_streaming r) (m_requests_failed r) (m_dispatch_calls r)
    (m_garnet_hits r) (m_garnet_misses r) (m_upstream_errors r) (m_conversion_failures r)
    (m_failovers r) (m_active_connections r) (m_usage_events_buffered r)
    (m_usage_report_failures r) v.

Definition zero_metrics : Metrics := mkMetrics 0 0 0 0 0 0 0 0 0 0 0 0 0.

(** ** [protocol/converter.h] *)

Record ParsedRequest := mkParsed {
  pr_format : Format;
  pr_model : str;
  pr_stream : bool;
  pr_metadata_user_id : str;
  pr_max_tokens : Z;
  pr_thinking_enabled : bool;
}.

Record ValidationResult := mkValidation { vr_valid : bool; vr_message : str }.

Record ConversionResult := mkConversion { cr_success : bool; cr_body : str; cr_error : str }.

Record MediaUsageMetadata := mkMediaUsage {
  mu_input_image_count : Z;
  mu_output_image_count : Z;
  mu_image_size : str;
  mu_video_count : Z;
  mu_video_resolution : str;
  mu_video_duration_seconds : Z;
}.

(** The interface of [protocol::Converter] to the handler. *)
Class Converter := {
  parse : str -> Format -> ParsedRequest;
  convert_request : str -> Format -> Format -> str -> ConversionResult;
  convert_error : str -> Z -> Format -> Format -> str;
  convert_response_checked : str -> Format -> Format -> str -> ConversionResult;
  validate_embeddings_request : str -> ValidationResult;
  validate_embeddings_response : str -> str -> ValidationResult;
  validate_models_response : str -> Format -> ValidationResult;
  validate_count_tokens_response : str -> ValidationResult;
  validate_responses_response : str -> ValidationResult;
  extract_multipart_field : str -> str -> str -> str;
  parse_media_request : str -> str -> str -> MediaUsageMetadata;
  parse_media_response : str -> str -> MediaUsageMetadata;
}.

(** ** The environment

    What the provider and the client do during one call of [forward]: the
    arguments of [Forwarder.forward].  The reads of a response are followed by the
    end of the connection. *)
Record Exchange := mkExchange {
  x_client_available : bool;
  x_client_write : nat -> str -> Z;
  x_clock : nat -> Z;
  x_call : Call;
  x_cancelled : bool;
  x_cancelled_end : bool;
  x_duration_ms : Z;
}.

Definition x_closed_call (x : Exchange) : Call :=
  match x_call x with
  | CallFailed errno => CallFailed errno
  | Response status content_type headers reads => Response status content_type headers (reads ++ [Eof])
  end.

(** The answers to the calls of the handler.  A call is numbered by the calls
    made before it, so that the same question may get another answer each time.
    The control plane's answers are those of the calls of [Dispatch], for answers
    that decode. *)
Class Environment := {
  e_dispatch : nat -> DispatchRequest -> DispatchResult;
  e_media_operation : nat -> MediaOperationRequest -> MediaOperationResult;
  e_report_usage : nat -> UsageReportData -> RpcAck;
  e_record_lease_evidence : nat -> str -> LeaseEvidenceStage -> str -> RpcAck;
  e_abort : nat -> str -> str -> LeaseAbortDisposition -> Z -> RpcAck;
  e_report_upstream_error : nat -> ErrorReportData -> RpcAck;
  e_evaluate : nat -> str -> str -> str -> ContentPolicyResult;
  e_upload_blob : nat -> str -> str -> BlobUploadResult;
  e_garnet_get : nat -> str -> GarnetResponse;
  e_exchange : nat -> Exchange;
  (** The outcome of the n-th SQL statement. *)
  e_sql : nat -> Sql;
  (** The nanoseconds between two readings of the steady clock, other than sleeps. *)
  e_elapse : nat -> N;
  e_unixepoch : Z;
  (** Two draws of the random generator, printed. *)
  e_blob_id : nat -> str;
  e_sha256 : str -> str;
  e_xxh64 : str -> Z -> Z;
}.

(** ** The calls made, with their answers *)

(** What the bridge of a realtime session does on its two sockets. *)
Inductive CloseCode :=
| NormalClosure
| ProtocolError
| InvalidFramePayloadData
| PolicyViolation
| InternalServerError.

Inductive RealtimeAct :=
| RtText (message : str)
| RtClose (code : CloseCode) (reason : str)
| RtConnect (url : str) (proxy : option str) (connected : bool)
| RtSend (frame : str) (sent : Z).

Inductive Act :=
| ADispatch (req : DispatchRequest) (answer : DispatchResult)
| AMedia (req : MediaOperationRequest) (answer : MediaOperationResult)
| AGarnet (key : str) (answer : GarnetResponse)
| AUpload (blob_id body : str) (answer : BlobUploadResult)
| AEvidence (token : str) (stage : LeaseEvidenceStage) (answer : RpcAck)
| AForward (target : UpstreamTarget) (request : ForwardRequest) (answer : res ForwardResult)
| AAbort (token reason : str) (disposition : LeaseAbortDisposition) (provider_status : Z)
    (answer : RpcAck)
| AReportError (error : ErrorReportData)
| AEvaluate (token content capability : str) (answer : ContentPolicyResult)
| ARecord (event : UsageEvent)
| AReportUsage (report : UsageReportData) (answer : RpcAck)
| ASleep (us : Z)
| ARealtime (e : RealtimeAct).

(** ** The state *)

Record Gw := mkGw {
  g_cache : SpeculativeCache;
  g_collector : Collector;
  g_metrics : Metrics;
  g_resp : HttpResponse;
  g_log : list Act;
  g_time : Z;
  g_ticks : nat;
  g_sql : nat;
}.

Definition set_g_cache (v : SpeculativeCache) (r : Gw) : Gw :=
  mkGw v (g_collector r) (g_metrics r) (g_resp r) (g_log r) (g_time r) (g_ticks r) (g_sql r).
Definition set_g_collector (v : Collector) (r : Gw) : Gw :=
  mkGw (g_cache r) v (g_metrics r) (g_resp r) (g_log r) (g_time r) (g_ticks r) (g_sql r).
Definition set_g_metrics (v : Metrics) (r : Gw) : Gw :=
  mkGw (g_cache r) (g_collector r) v (g_resp r) (g_log r) (g_time r) (g_ticks r) (g_sql r).
Definition set_g_resp (v : HttpResponse) (r : Gw) : Gw :=
  mkGw (g_cache r) (g_collector r) (g_metrics r) v (g_log r) (g_time r) (g_ticks r) (g_sql r).
Definition set_g_log (v : list Act) (r : Gw) : Gw :=
  mkGw (g_cache r) (g_collector r) (g_metrics r) (g_resp r) v (g_time r) (g_ticks r) (g_sql r).
Definition set_g_time (v : Z) (r : Gw) : Gw :=
  mkGw (g_cache r) (g_collector r) (g_metrics r) (g_resp r) (g_log r) v (g_ticks r) (g_sql r).
Definition set_g_ticks (v : nat) (r : Gw) : Gw :=
  mkGw (g_cache r) (g_collector r) (g_metrics r) (g_resp r) (g_log r) (g_time r) v (g_sql r).
Definition set_g_sql (v : nat) (r : Gw) : Gw :=
  mkGw (g_cache r) (g_collector r) (g_metrics r) (g_resp r) (g_log r) (g_time r) (g_ticks r) v.

(** ** The monad of the handler *)

Inductive outcome (A : Type) :=
| Next (a : A)
| Done
| Raise (e : fault)
| Stuck.
Arguments Next {A} a.
Arguments Done {A}.
Arguments Raise {A} e.
Arguments Stuck {A}.

Definition hm (A : Type) : Type := Gw -> Gw * outcome A.

#[global] Instance hm_ret : MRet hm := λ A a g, (g, Next a).
#[global] Instance hm_bind : MBind hm := λ A B f m g,
  match m g with
  | (g', Next a) => f a g'
  | (g', Done) => (g', Done)
  | (g', Raise e) => (g', Raise e)
  | (g', Stuck) => (g', Stuck)
  end.

(** [return 0;] *)
Definition finish_request {A} : hm A := λ g, (g, Done).
Definition stuck {A} : hm A := λ g, (g, Stuck).
Definition modify (f : Gw -> Gw) : hm unit := λ g, (f g, Next ()).
Definition gets {A} (f : Gw -> A) : hm A := λ g, (g, Next (f g)).
Definition when (b : bool) (m : hm unit) : hm unit := if b then m else mret ().

Definition on_resp (f : HttpResponse -> HttpResponse) : hm unit :=
  modify (λ g, set_g_resp (f (g_resp g)) g).
Definition set_status (status : Z) : hm unit := on_resp (set_hr_status_code status).
Definition set_body (body : str) : hm unit := on_resp (set_hr_body body).
Definition set_content_type (content_type : str) : hm unit := on_resp (set_hr_content_type content_type).
Definition add_header (name value : str) : hm unit :=
  on_resp (λ r, set_hr_headers (hr_headers r ++ [(name, value)]) r).

(** [fetch_add(1)] and [fetch_sub(1)] on a 64-bit counter. *)
Definition bump (get : Metrics -> Z) (set : Z -> Metrics -> Metrics) (d : Z) : hm unit :=
  modify (λ g, set_g_metrics (set (u64 (get (g_metrics g) + d)) (g_metrics g)) g).

Definition inc_total := bump m_requests_total set_m_requests_total 1.
Definition inc_streaming := bump m_requests_streaming set_m_requests_streaming 1.
Definition inc_failed := bump m_requests_failed set_m_requests_failed 1.
Definition inc_dispatch_calls := bump m_dispatch_calls set_m_dispatch_calls 1.
Definition inc_garnet_hits := bump m_garnet_hits set_m_garnet_hits 1.
Definition inc_garnet_misses := bump m_garnet_misses set_m_garnet_misses 1.
Definition inc_upstream_errors := bump m_upstream_errors set_m_upstream_errors 1.
Definition inc_conversion_failures := bump m_conversion_failures set_m_conversion_failures 1.
Definition inc_failovers := bump m_failovers set_m_failovers 1.
Definition inc_active := bump m_active_connections set_m_active_connections 1.
Definition dec_active := bump m_active_connections set_m_active_connections (-1).
Definition inc_buffered := bump m_usage_events_buffered set_m_usage_events_buffered 1.
Definition inc_report_failures := bump m_usage_report_failures set_m_usage_report_failures 1.

Section Effects.
Context {E : Environment}.

(** [std::chrono::steady_clock::now()], in nanoseconds. *)
Definition now : hm Z := λ g,
  let t := g_time g + Z.of_N (e_elapse (g_ticks g)) in
  (set_g_time t (set_g_ticks (S (g_ticks g)) g), Next t).

Definition log_act (a : Act) : hm unit := modify (λ g, set_g_log (g_log g ++ [a]) g).

(** A call with its number; the call and its answer are logged. *)
Definition call {A} (ask : nat -> A) (act : A -> Act) : hm A :=
  gets (λ g, length (g_log g)) ≫= λ n,
  let a := ask n in log_act (act a) ≫= λ _, mret a.

Definition dispatch_ (req : DispatchRequest) : hm DispatchResult :=
  call (λ n, e_dispatch n req) (ADispatch req).
Definition media_operation_ (req : MediaOperationRequest) : hm MediaOperationResult :=
  call (λ n, e_media_operation n req) (AMedia req).
Definition garnet_get (key : str) : hm GarnetResponse :=
  call (λ n, e_garnet_get n key) (AGarnet key).
Definition upload_blob_ (body : str) : hm BlobUploadResult :=
  gets (λ g, e_blob_id (length (g_log g))) ≫= λ blob_id,
  call (λ n, e_upload_blob n blob_id body) (AUpload blob_id body).
Definition record_lease_evidence_ (token : str) (stage : LeaseEvidenceStage) (detail : str) : hm RpcAck :=
  call (λ n, e_record_lease_evidence n token stage detail) (AEvidence token stage).
Definition abort_ (token reason : str) (d : LeaseAbortDisposition) (provider_status : Z) : hm RpcAck :=
  call (λ n, e_abort n token reason d provider_status) (AAbort token reason d provider_status).
Definition report_upstream_error_ (e : ErrorReportData) : hm RpcAck :=
  call (λ n, e_report_upstream_error n e) (λ _, AReportError e).
Definition evaluate_ (token content capability : str) : hm ContentPolicyResult :=
  call (λ n, e_evaluate n token content capability) (AEvaluate token content capability).
Definition report_usage_ (report : UsageReportData) : hm RpcAck :=
  call (λ n, e_report_usage n report) (AReportUsage report).

(** [photon::thread_usleep]: the clock moves on by the time slept. *)
Definition usleep (us : Z) : hm unit :=
  modify (λ g, set_g_time (g_time g + us * 1000) g) ≫= λ _, log_act (ASleep us).

(** A statement of the collector, with the engine's next outcome; its exceptions
    leave the handler unless they are caught. *)
Definition collector_ {A} (op : Sql -> stm Collector A) : hm (res A) := λ g,
  let '(c, a) := op (e_sql (g_sql g)) (g_collector g) in
  (set_g_collector c (set_g_sql (S (g_sql g)) g), Next a).

Definition rethrow {A} (r : res A) : hm A :=
  match r with Ok a => mret a | Err e => λ g, (g, Raise e) end.
End Effects.
