(* ===== verification/Validation.v ===== *)
(** * Validation of provider answers and embedding requests

    The [validate_*] functions of [protocol/converter.cpp]: the error message is the
    one of the first check that fails. *)
From S2P Require Import Prelude Json JsonText Capability GatewayTypes.
#[local] Open Scope Z_scope.
#[local] Arguments lit : simpl never.

Section Validation.
Context {RJ : RapidJson}.

Definition invalid (message : str) : ValidationResult := mkValidation false message.
Definition valid_result : ValidationResult := mkValidation true [].

(** [v.IsString() && v.GetStringLength() != 0]. *)
Definition nonempty_string (v : json) : bool :=
  match v with JString s => negb (empty s) | _ => false end.

Definition equals_text (t : str) (v : json) : bool := match v with JString s => s =$ t | _ => false end.

(** The value an embedded range check of the source compares. *)
Definition positive_int64 (v : json) : bool := IsInt64 v && (0 <? get_int v).

(** The checks of [validate_embeddings_request] in their order; [None] passes. *)
Definition check_model (document : json) : option str :=
  if has document "model" nonempty_string then None else Some (lit "model must be a non-empty string").

Definition check_input (document : json) : option str :=
  match member document "input" with
  | None => Some (lit "input is required")
  | Some (JString s) => if empty s then Some (lit "input must not be empty") else None
  | Some (JArray l) =>
      if Nat.eqb (length l) 0 then Some (lit "input must not be an empty array")
      else if (2048 <? Z.of_nat (length l)) then Some (lit "input must contain at most 2048 strings")
      else if forallb nonempty_string l then None
      else Some (lit "input array entries must be non-empty strings")
  | Some _ => Some (lit "input must be a string or an array of strings")
  end.

Definition check_encoding (document : json) : option str :=
  match member document "encoding_format" with
  | Some v => if equals_text "float" v || equals_text "base64" v then None
              else Some (lit "encoding_format must be float or base64")
  | None => None
  end.

Definition max_dimensions_for_model (model : str) : Z :=
  if model =$ "jina-embeddings-v5-text-small" then 1024
  else if model =$ "gemini-embedding-001" then 3072
  else 8192.

Definition model_of (document : json) : str :=
  match member document "model" with Some v => get_string v | None => [] end.

Definition check_dimensions (document : json) : option str :=
  match member document "dimensions" with
  | Some v =>
      if negb (IsInt v) || (get_int v <=? 0) then Some (lit "dimensions must be a positive integer")
      else if max_dimensions_for_model (model_of document) <? get_int v
      then Some (lit "dimensions exceed the model profile maximum")
      else None
  | None => None
  end.

Definition check_user (document : json) : option str :=
  match member document "user" with
  | Some v => if IsString v then None else Some (lit "user must be a string")
  | None => None
  end.

(** The first check that fails. *)
Fixpoint first_failure (checks : list (option str)) : ValidationResult :=
  match checks with
  | [] => valid_result
  | Some message :: _ => invalid message
  | None :: checks' => first_failure checks'
  end.

Definition validate_embeddings_request (body : str) : ValidationResult :=
  match Parse body with
  | Some ((JObject _) as document) =>
      first_failure [check_model document; check_input document; check_encoding document;
                     check_dimensions document; check_user document]
  | _ => invalid "Request body must be a JSON object"
  end.

(** What the request tells of the answer expected. *)
Definition expected_count (request : json) : nat :=
  match member request "input" with Some (JArray l) => length l | _ => 1 end.

Definition expected_dimensions (request : json) : Z := int_member request "dimensions" 0.

Definition expected_encoding (request : json) : str :=
  match member request "encoding_format" with Some (JString s) => s | _ => "float" end.

Definition base64_length (dimensions : Z) : Z := ((dimensions * 4 + 2) / 3) * 4.

Definition finite_number (v : json) : bool := IsNumber v && isfinite (GetDouble v).

Definition check_embedding (encoding : str) (dimensions : Z) (embedding : json) : option str :=
  if encoding =$ "base64" then
    if negb (nonempty_string embedding) then Some (lit "Provider returned a non-base64 embedding")
    else if (0 <? dimensions)
            && negb (Z.of_nat (length (get_string embedding)) =? base64_length dimensions)
    then Some (lit "Provider returned an unexpected base64 embedding dimension")
    else None
  else
    match embedding with
    | JArray ((_ :: _) as l) =>
        if (0 <? dimensions) && negb (Z.of_nat (length l) =? dimensions)
        then Some (lit "Provider returned an unexpected embedding dimension")
        else if forallb finite_number l then None
        else Some (lit "Provider returned a non-finite embedding value")
    | _ => Some (lit "Provider returned a non-float embedding")
    end.

Definition check_item (encoding : str) (dimensions : Z) (i : nat) (item : json) : option str :=
  match member item "embedding" with
  | Some embedding =>
      if has item "index" (λ v, IsInt v && (get_int v =? i32 (Z.of_nat i)))
      then check_embedding encoding dimensions embedding
      else Some (lit "Provider returned a malformed embedding item")
  | None => Some (lit "Provider returned a malformed embedding item")
  end.

Definition check_usage (response : json) : option str :=
  if has response "usage" (λ usage, IsObject usage
       && has usage "prompt_tokens" (λ v, IsInt v && (0 <? get_int v))
       && has usage "total_tokens" (λ v, IsInt v && (0 <? get_int v)))
  then None
  else Some (lit "Provider embeddings response is missing positive usage").

Definition validate_embeddings_response (request_body response_body : str) : ValidationResult :=
  match Parse request_body with
  | Some ((JObject _) as request) =>
      if negb (HasMember request "input") then invalid "Embedding request could not be inspected"
      else
        match Parse response_body with
        | Some ((JObject _) as response) =>
            match member response "data" with
            | Some (JArray data) =>
                if negb (Nat.eqb (length data) (expected_count request))
                then invalid "Provider returned an unexpected embeddings count"
                else first_failure (
                  imap (check_item (expected_encoding request) (expected_dimensions request)) data
                  ++ [check_usage response])
            | _ => invalid "Provider embeddings response is missing data"
            end
        | _ => invalid "Provider returned an invalid embeddings JSON object"
        end
  | _ => invalid "Embedding request could not be inspected"
  end.

(** ** Model catalogues *)

Definition complete_gemini_name (v : json) : bool :=
  match v with
  | JString s => (7 <? Z.of_nat (length s)) && (take 7 s =$ "models/")
  | _ => false
  end.

Definition check_gemini_model (model : json) : option str :=
  match member model "supportedGenerationMethods" with
  | Some (JArray ((_ :: _) as methods)) =>
      if negb (has model "name" complete_gemini_name) then Some (lit "Provider Gemini model metadata is incomplete")
      else if negb (forallb nonempty_string methods) then Some (lit "Provider Gemini model methods are malformed")
      else if has model "inputTokenLimit" positive_int64 && has model "outputTokenLimit" positive_int64 then None
      else Some (lit "Provider Gemini model token limits are malformed")
  | _ => Some (lit "Provider Gemini model metadata is incomplete")
  end.

Definition complete_model (model : json) : bool :=
  has model "id" nonempty_string && has model "object" (equals_text "model")
  && has model "created" positive_int64 && has model "owned_by" nonempty_string.

Definition model_id (model : json) : str :=
  match member model "id" with Some v => get_string v | None => [] end.

(** The loop with its set of identifiers seen. *)
Fixpoint check_catalogue (ids : list str) (models : list json) : ValidationResult :=
  match models with
  | [] => valid_result
  | model :: models' =>
      if negb (complete_model model) then invalid "Provider model metadata is incomplete"
      else if bool_decide (model_id model ∈ ids) then invalid "Provider model catalog contains duplicate ids"
      else check_catalogue (model_id model :: ids) models'
  end.

Definition validate_models_response (response_body : str) (format : Format) : ValidationResult :=
  match Parse response_body with
  | Some ((JObject _) as response) =>
      match format with
      | Gemini =>
          match member response "models" with
          | Some (JArray models) => first_failure (check_gemini_model <$> models)
          | Some _ => invalid "Provider Gemini models must be an array"
          | None => first_failure [check_gemini_model response]
          end
      | _ =>
          match member response "data" with
          | Some (JArray models) =>
              if has response "object" (equals_text "list") then check_catalogue [] models
              else invalid "Provider models response must contain a list and data array"
          | _ => invalid "Provider models response must contain a list and data array"
          end
      end
  | _ => invalid "Provider models response must be a JSON object"
  end.

(** ** Token counts and Responses objects *)

Definition validate_count_tokens_response (response_body : str) : ValidationResult :=
  match Parse response_body with
  | Some response =>
      if has response "input_tokens" (λ v, positive_int64 v && (get_int v <=? 1000000000)) then valid_result
      else invalid "Provider token-count response must contain a bounded positive input_tokens value"
  | None => invalid "Provider token-count response must contain a bounded positive input_tokens value"
  end.

Definition int64_of (obj : json) (key : str) : Z :=
  match member obj key with Some v => get_int v | None => 0 end.

Definition consistent_usage (usage : json) : bool :=
  has usage "input_tokens" positive_int64 && has usage "output_tokens" positive_int64
  && has usage "total_tokens" (λ total, IsInt64 total
       && (i64 (int64_of usage "input_tokens" + int64_of usage "output_tokens") <=? get_int total)).

Definition validate_responses_response (response_body : str) : ValidationResult :=
  match Parse response_body with
  | Some ((JObject _) as response) =>
      first_failure [
        if has response "id" nonempty_string && has response "object" (equals_text "response")
           && has response "status" (equals_text "completed") && has response "model" nonempty_string
        then None else Some (lit "Provider Responses response metadata is incomplete");
        match member response "output" with
        | Some (JArray (_ :: _)) => None
        | _ => Some (lit "Provider Responses response is missing output")
        end;
        if forallb (λ item, has item "type" nonempty_string) (array_member response "output")
        then None else Some (lit "Provider Responses output item is malformed");
        if has response "usage" IsObject then None else Some (lit "Provider Responses response is missing usage");
        if has response "usage" consistent_usage
        then None else Some (lit "Provider Responses usage is incomplete or inconsistent")]
  | _ => invalid "Provider Responses response must be a JSON object"
  end.
End Validation.

(** ** Facts on the checks *)

Lemma first_failure_valid checks : vr_valid (first_failure checks) = true <-> Forall (λ c, c = None) checks.
Proof.
  induction checks as [|[m|] checks IH]; simpl; rewrite ?Forall_cons; [by split|by split; [|intros []]|].
  rewrite IH. by split; [|intros []].
Qed.

Lemma check_catalogue_valid ids models :
  vr_valid (check_catalogue ids models) = true <->
  Forall (λ m, complete_model m = true) models /\ NoDup (model_id <$> models)
  /\ (forall i, i ∈ ids -> i ∈ model_id <$> models -> False).
Proof.
  revert ids. induction models as [|m models IH]; intros ids; cbn [check_catalogue fmap list_fmap].
  - split; [intros _|done]. split; [constructor|]. split; [constructor|]. intros i _ H. by apply elem_of_nil in H.
  - rewrite Forall_cons, NoDup_cons. destruct (complete_model m); cbn [negb]; [|by split; [|intros [[] _]]].
    case_bool_decide as Hin.
    + split; [done|]. intros (_ & _ & H). exfalso. apply (H (model_id m)); [done|by left].
    + rewrite IH. split.
      * intros (H1 & H2 & H3). split; [done|]. split; [split; [|done]|].
        -- intros Hm. apply (H3 (model_id m)); [by left|done].
        -- intros i Hi [->|Hm]%elem_of_cons; [done|]. apply (H3 i); [by right|done].
      * intros ([_ H1] & [H2 H2'] & H3). split; [done|]. split; [done|].
        intros i [->|Hi]%elem_of_cons Hm; [done|]. apply (H3 i); [done|by right].
Qed.

Lemma has_Some j key p : has j key p = true -> exists v, member j key = Some v /\ p v = true.
Proof. unfold has. destruct (member j key) as [v|]; [by exists v|done]. Qed.

(** An accepted embedding. *)
Definition embedding_ok (encoding : str) (dimensions : Z) (embedding : json) : Prop :=
  (encoding = "float" ->
    exists l, embedding = JArray l /\ Forall (λ v, finite_number v = true) l
      /\ (0 < dimensions -> Z.of_nat (length l) = dimensions))
  /\ (encoding = "base64" ->
    exists s, embedding = JString s /\ s <> []
      /\ (0 < dimensions -> Z.of_nat (length s) = base64_length dimensions)).

Lemma check_embedding_None encoding dimensions embedding :
  check_embedding encoding dimensions embedding = None -> embedding_ok encoding dimensions embedding.
Proof.
  unfold check_embedding, embedding_ok. destruct (encoding =$ "base64") eqn:E.
  - apply str_eqb_eq in E as ->. intros H. split; [done|]. intros _.
    destruct (nonempty_string embedding) eqn:En; [|done]. destruct embedding; try done. cbn [negb get_string] in H.
    exists s. split; [done|]. split; [by destruct s|]. intros Hd. rewrite (proj2 (Z.ltb_lt _ _) Hd) in H. cbn [andb] in H.
    destruct (Z.of_nat (length s) =? base64_length dimensions) eqn:El; [by apply Z.eqb_eq in El|done].
  - apply str_eqb_neq in E. intros H. split; [|by intros ->]. intros _.
    destruct embedding as [| | | | |[|v l]|]; try done. exists (v :: l). split; [done|].
    destruct ((0 <? dimensions) && _) eqn:Ed; [done|]. destruct (forallb finite_number (v :: l)) eqn:Ef; [|done].
    split; [by apply forallb_Forall|]. intros Hd. rewrite (proj2 (Z.ltb_lt _ _) Hd) in Ed. cbn [andb] in Ed.
    by apply negb_false_iff, Z.eqb_eq in Ed.
Qed.

Lemma check_item_None encoding dimensions i item : Z.of_nat i < 2 ^ 31 ->
  check_item encoding dimensions i item = None ->
  exists embedding, member item "embedding" = Some embedding /\ member item "index" = Some (JInt (Z.of_nat i))
    /\ embedding_ok encoding dimensions embedding.
Proof.
  intros Hi. unfold check_item. destruct (member item "embedding") as [e|]; [|done].
  destruct (has item "index" _) eqn:Eh; [|done]. intros H. exists e. split; [done|].
  apply has_Some in Eh as (v & -> & Hv). apply andb_true_iff in Hv as [Hv Hz]. apply Z.eqb_eq in Hz.
  split; [|by apply check_embedding_None]. destruct v; try done. simpl in Hz. rewrite i32_small in Hz by lia. by subst.
Qed.

Lemma check_usage_None response : check_usage response = None ->
  exists usage tokens, member response "usage" = Some usage /\ member usage "prompt_tokens" = Some (JInt tokens)
    /\ 0 < tokens.
Proof.
  unfold check_usage. destruct (has response "usage" _) eqn:E; [|done]. intros _.
  apply has_Some in E as (usage & Hu & E). rewrite !andb_true_iff in E. destruct E as [[_ E] _].
  apply has_Some in E as (v & Hv & E). apply andb_true_iff in E as [Ei E]. apply Z.ltb_lt in E.
  destruct v; try done. by exists usage, z.
Qed.

Section Properties.
Context {RJ : RapidJson}.

(** ** Properties *)

(** C21: The answer to an embeddings request that passed validation is accepted only
    when it answers it: one embedding for each input, at most 2048 of them, each at its
    own position and, when dimensions were asked for, of that size, which is within the
    limit of the model; the floats are finite, and the usage is positive. *)
Theorem accepted_embeddings_answer_request request_body response_body
    (Hreq : vr_valid (validate_embeddings_request request_body) = true)
    (Hresp : vr_valid (validate_embeddings_response request_body response_body) = true) :
  exists request response data,
    Parse request_body = Some request /\ Parse response_body = Some response
    /\ member response "data" = Some (JArray data)
    /\ length data = expected_count request /\ (1 <= length data <= 2048)%nat
    /\ expected_dimensions request <= max_dimensions_for_model (model_of request)
    /\ (forall i item, data !! i = Some item ->
        exists embedding, member item "embedding" = Some embedding
          /\ member item "index" = Some (JInt (Z.of_nat i))
          /\ embedding_ok (expected_encoding request) (expected_dimensions request) embedding)
    /\ exists usage tokens, member response "usage" = Some usage
        /\ member usage "prompt_tokens" = Some (JInt tokens) /\ 0 < tokens.
Proof.
  unfold validate_embeddings_request in Hreq. unfold validate_embeddings_response in Hresp.
  destruct (Parse request_body) as [request|]; [|done]. destruct request as [| | | | | |lr]; try done.
  set (request := JObject lr) in *.
  apply first_failure_valid in Hreq. rewrite !Forall_cons in Hreq. destruct Hreq as (_ & Hin & _ & Hdim & _).
  destruct (negb (HasMember request "input")); [done|].
  destruct (Parse response_body) as [response|]; [|done]. destruct response as [| | | | | |ls]; try done.
  set (response := JObject ls) in *. destruct (member response "data") as [d|] eqn:Ed; [|done].
  destruct d as [| | | | |data|]; try done.
  destruct (Nat.eqb (length data) (expected_count request)) eqn:Ec; [|done]. cbn [negb] in Hresp.
  apply Nat.eqb_eq in Ec. apply first_failure_valid in Hresp. apply Forall_app in Hresp as [Hitems Husage].
  apply Forall_cons in Husage as [Husage _].
  assert (1 <= expected_count request <= 2048)%nat as Hcount.
  { unfold expected_count, check_input in *. destruct (member request "input") as [v|]; [|done].
    destruct v; try lia. destruct (Nat.eqb _ 0) eqn:E0; [done|]. apply Nat.eqb_neq in E0.
    destruct (2048 <? _) eqn:E1; [done|]. apply Z.ltb_ge in E1. lia. }
  exists request, response, data. do 4 (split; [done|]). split; [lia|]. split.
  { unfold expected_dimensions, int_member, check_dimensions in *.
    assert (0 <= max_dimensions_for_model (model_of request)) by (unfold max_dimensions_for_model; repeat case_match; lia).
    destruct (member request "dimensions") as [v|]; [|done].
    destruct (IsInt v); [|done]. cbn [negb orb] in Hdim.
    destruct (get_int v <=? 0); [done|]. destruct (_ <? get_int v) eqn:E; [done|]. by apply Z.ltb_ge in E. }
  split; [|by apply check_usage_None]. intros i item Hi. apply check_item_None.
  - apply lookup_lt_Some in Hi. lia.
  - rewrite Forall_lookup in Hitems. apply (Hitems i). by rewrite list_lookup_imap, Hi.
Qed.

End Properties.

(** ** Witnesses *)

Definition embeddings_json : RapidJson := {|
  Parse := λ s,
    if s =$ "request" then
      Some (JObject [("model" : str, JString "gemini-embedding-001"); ("input" : str, JString "hello");
                     ("dimensions" : str, JInt 2)])
    else if s =$ "response" then
      Some (JObject [("data" : str, JArray [JObject [("index" : str, JInt 0);
                       ("embedding" : str, JArray [JInt 1; JDouble 0x3FE0000000000000])]]);
                     ("usage" : str, JObject [("prompt_tokens" : str, JInt 1); ("total_tokens" : str, JInt 1)])])
    else if s =$ "models" then
      Some (JObject [("object" : str, JString "list"); ("data" : str, JArray [
        JObject [("id" : str, JString "m1"); ("object" : str, JString "model"); ("created" : str, JInt 1);
                 ("owned_by" : str, JString "o")]])])
    else None;
  Write := λ _, [];
|}.

Lemma accepted_embeddings_witness :
  exists request response data,
    @Parse embeddings_json "request" = Some request /\ @Parse embeddings_json "response" = Some response
    /\ member response "data" = Some (JArray data)
    /\ length data = expected_count request /\ (1 <= length data <= 2048)%nat.
Proof.
  destruct (@accepted_embeddings_answer_request embeddings_json "request" "response" eq_refl eq_refl)
    as (request & response & data & H1 & H2 & H3 & H4 & H5 & _).
  by exists request, response, data.
Defined.


(** The sum of two token counts of an answer may leave the range of [int64_t]; the
    comparison with the total then says nothing. *)
Lemma usage_sum_overflows :
  consistent_usage (JObject [("input_tokens" : str, JInt (2 ^ 62)); ("output_tokens" : str, JInt (2 ^ 62));
                             ("total_tokens" : str, JInt 0)]) = true.
Proof. vm_compute. reflexivity. Qed.
