(* ===== verification/Multipart.v ===== *)
(** * Multipart forms and media metadata

    [extract_multipart_field] of [protocol/converter.cpp] and the counts read from
    media requests and answers. *)
From S2P Require Import Prelude Numbers Json JsonText Capability GatewayTypes ChatIr.
#[local] Open Scope Z_scope.
#[local] Arguments lit : simpl never.

(** ** Multipart *)

Definition is_blank (c : ascii) : bool := (c =? " ")%char.

(** Quotes around the boundary are removed. *)
Definition unquote (s : str) : str :=
  match s with
  | c :: ((_ :: _) as t) =>
      if (c =? DQ)%char && (List.last t NUL =? DQ)%char then removelast t else s
  | _ => s
  end.

Example unquote_quoted : unquote (q "'ab'") = "ab" /\ unquote (q "'") = q "'" /\ unquote (q "'a") = q "'a".
Proof. repeat split; reflexivity. Qed.

(** The boundary named by the content type. *)
Definition multipart_boundary (content_type : str) : option str :=
  match sfind "boundary=" (lower content_type) with
  | None => None
  | Some marker =>
      let rest := drop_while is_blank (drop (marker + 9) content_type) in
      let boundary := unquote (drop_while_back is_blank (upto (sfind ";" rest) rest)) in
      if empty boundary || (200 <? Z.of_nat (length boundary))
         || contains boundary [CR] || contains boundary [LF]
      then None else Some boundary
  end.

Definition name_marker (field_name : str) : str := "name=" ++ [DQ] ++ field_name ++ [DQ].

Definition names_field (headers field_name : str) : bool :=
  contains (lower headers) "content-disposition: form-data"
  && contains (lower headers) (name_marker field_name).

(** The loop over the parts; [rest] is what follows [position].  [None] is the end of
    the fuel. *)
Fixpoint find_part (fuel : nat) (delimiter field_name rest : str) : option str :=
  match fuel with
  | O => None
  | S fuel =>
      match sfind delimiter rest with
      | None => Some []
      | Some i =>
          let rest := drop (i + length delimiter) rest in
          if take 2 rest =$ "--" then Some []
          else if negb (take 2 rest =$ [CR; LF]) then find_part fuel delimiter field_name rest
          else
            let rest := drop 2 rest in
            match sfind [CR; LF; CR; LF] rest with
            | None => Some []
            | Some headers_end =>
                let headers := take headers_end rest in
                let content := drop (headers_end + 4) rest in
                match sfind ([CR; LF] ++ delimiter) content with
                | None => Some []
                | Some next =>
                    if names_field headers field_name then
                      let value := take next content in
                      Some (if 1024 <? Z.of_nat (length value) then [] else value)
                    else find_part fuel delimiter field_name (drop (next + 2) content)
                end
            end
      end
  end.

Definition extract_multipart_field (body content_type field_name : str) : str :=
  match multipart_boundary content_type with
  | None => []
  | Some boundary =>
      match find_part (S (length body)) ("--" ++ boundary) field_name body with
      | Some value => value
      | None => []
      end
  end.

(** ** Numbers and strings of a media request *)

(** [std::from_chars] into an [int] that must use the whole text. *)
Definition from_chars_int (s : str) : option Z :=
  let '(negative, t) :=
    match s with
    | c :: s' => if (c =? "-")%char then (true, s') else (false, s)
    | [] => (false, [])
    end in
  match digits 0 false t with
  | (Some n, []) =>
      let v := if negative then - n else n in
      if (- 2 ^ 31 <=? v) && (v <? 2 ^ 31) then Some v else None
  | _ => None
  end.

Fixpoint positive_integer (object : json) (keys : list str) : Z :=
  match keys with
  | [] => 0
  | key :: keys' =>
      match member object key with
      | Some value =>
          if IsInt value then Z.max 0 (get_int value)
          else if IsUint value then Z.min (get_int value) (2 ^ 31 - 1)
          else
            match value with
            | JString text =>
                match from_chars_int text with
                | Some parsed => Z.max 0 parsed
                | None => positive_integer object keys'
                end
            | _ => positive_integer object keys'
            end
      | None => positive_integer object keys'
      end
  end.

Fixpoint string_member (object : json) (keys : list str) : str :=
  match keys with
  | [] => []
  | key :: keys' =>
      match member object key with
      | Some (JString s) => cstr s
      | _ => string_member object keys'
      end
  end.

Fixpoint multipart_integer (body content_type : str) (fields : list str) : Z :=
  match fields with
  | [] => 0
  | field :: fields' =>
      match from_chars_int (extract_multipart_field body content_type field) with
      | Some parsed => Z.max 0 parsed
      | None => multipart_integer body content_type fields'
      end
  end.

Section Media.
Context {RJ : RapidJson}.

Definition duration_keys : list str := ["duration" : str; "duration_seconds" : str].

Definition parse_media_request (body content_type operation : str) : MediaUsageMetadata :=
  let image := starts_with operation "images_" in
  let video := starts_with operation "videos_" in
  let edit := contains operation "edits" in
  let inputs := if image && edit then 1 else 0 in
  let videos := if video then 1 else 0 in
  if starts_with content_type "multipart/form-data" then
    mkMediaUsage inputs
      (if image then Z.max 1 (multipart_integer body content_type ["n" : str]) else 0)
      (extract_multipart_field body content_type "size") videos
      (extract_multipart_field body content_type "resolution")
      (multipart_integer body content_type duration_keys)
  else
    match Parse body with
    | Some ((JObject _) as document) =>
        mkMediaUsage inputs
          (if image then Z.max 1 (positive_integer document ["n" : str]) else 0)
          (string_member document ["size" : str]) videos
          (string_member document ["resolution" : str])
          (positive_integer document duration_keys)
    | _ => mkMediaUsage inputs 0 [] videos [] 0
    end.

Definition parse_media_response (body operation : str) : MediaUsageMetadata :=
  match Parse body with
  | Some ((JObject _) as document) =>
      let '(images, size) :=
        if starts_with operation "images_" then
          (match member document "data" with
           | Some (JArray l) => i32 (Z.of_nat (length l))
           | _ => positive_integer document ["output_count" : str; "n" : str]
           end, string_member document ["size" : str])
        else (0, []) in
      if starts_with operation "videos_" then
        mkMediaUsage 0 images size 1 (string_member document ["resolution" : str])
          (positive_integer document duration_keys)
      else mkMediaUsage 0 images size 0 [] 0
  | _ => mkMediaUsage 0 0 [] 0 [] 0
  end.
End Media.

(** ** The loop over the parts ends *)

Lemma find_part_ends fuel delimiter field_name rest :
  delimiter <> [] -> (length rest < fuel)%nat -> find_part fuel delimiter field_name rest <> None.
Proof.
  intros Hd. revert rest. induction fuel as [|fuel IH]; intros rest Hf; [lia|]. cbn [find_part].
  destruct (sfind delimiter rest) as [i|] eqn:E; [|done].
  assert (length (drop (i + length delimiter) rest) < fuel)%nat as Hl.
  { apply sfind_Some in E as (Hs & Hi & _). apply starts_with_spec in Hs as [t Ht].
    apply (f_equal length) in Ht. rewrite length_app, length_drop in Ht. rewrite length_drop.
    destruct delimiter; [done|]. cbn [length] in *. lia. }
  cbv zeta. destruct (_ =$ _); [done|]. destruct (negb _); [by apply IH|].
  destruct (sfind [CR; LF; CR; LF] _) as [h|]; [|done].
  destruct (sfind ([CR; LF] ++ delimiter) _) as [n|]; [|done].
  destruct (names_field _ _); [done|]. apply IH. rewrite !length_drop in *. lia.
Qed.

(** Every value found ends where its part ends and is short. *)
Lemma find_part_value fuel delimiter field_name rest value :
  find_part fuel delimiter field_name rest = Some value ->
  (length value <= 1024)%nat
  /\ (value <> [] -> exists a b, rest = a ++ value ++ [CR; LF] ++ delimiter ++ b).
Proof.
  revert rest. induction fuel as [|fuel IH]; intros rest; cbn [find_part]; [done|].
  assert (forall s, Some [] = Some value -> (length value <= 1024)%nat
    /\ (value <> [] -> exists a b, s = a ++ value ++ [CR; LF] ++ delimiter ++ b)) as Hnil
    by (intros s [= <-]; split; [simpl; lia|done]).
  assert (forall n s, (length value <= 1024)%nat
      /\ (value <> [] -> exists a b, drop n s = a ++ value ++ [CR; LF] ++ delimiter ++ b) ->
    (length value <= 1024)%nat
      /\ (value <> [] -> exists a b, s = a ++ value ++ [CR; LF] ++ delimiter ++ b)) as Hdrop.
  { intros n s [Hl H]. split; [done|]. intros Hv. destruct (H Hv) as (a & b & E). exists (take n s ++ a), b.
    by rewrite <- app_assoc, <- E, take_drop. }
  destruct (sfind delimiter rest) as [i|]; [|apply Hnil]. cbv zeta.
  destruct (_ =$ _); [apply Hnil|]. intros H. apply (Hdrop (i + length delimiter)%nat). revert H.
  generalize (drop (i + length delimiter) rest). clear rest. intros rest.
  destruct (negb _); [apply IH|]. intros H. apply (Hdrop 2%nat). revert H. generalize (drop 2 rest). clear rest. intros rest.
  destruct (sfind [CR; LF; CR; LF] rest) as [h|]; [|apply Hnil].
  intros H. apply (Hdrop (h + 4)%nat). revert H. generalize (drop (h + 4) rest). intros content.
  destruct (sfind ([CR; LF] ++ delimiter) content) as [n|] eqn:E; [|apply Hnil].
  destruct (names_field _ _); [|intros H; by apply (Hdrop (n + 2)%nat), IH].
  destruct (1024 <? _) eqn:El; [apply Hnil|]. intros [= <-]. split; [apply Z.ltb_ge in El; lia|].
  intros _. apply sfind_Some in E as (Hs & _). apply starts_with_spec in Hs as [b Hb]. exists [], b. cbn [app].
  change (CR :: LF :: delimiter ++ b) with (([CR; LF] ++ delimiter) ++ b).
  by rewrite <- Hb, take_drop.
Qed.

(** ** Reading back a form *)

Definition header_prefix : str := "Content-Disposition: form-data; name=".

Definition field_headers (name : str) : str := header_prefix ++ [DQ] ++ name ++ [DQ].

Fixpoint print_parts (delimiter : str) (fields : list (str * str)) : str :=
  match fields with
  | [] => delimiter ++ "--"
  | (name, value) :: fields' =>
      delimiter ++ [CR; LF] ++ field_headers name ++ [CR; LF; CR; LF] ++ value ++ [CR; LF]
      ++ print_parts delimiter fields'
  end.

Definition print_form (boundary : str) (fields : list (str * str)) : str := print_parts ("--" ++ boundary) fields.

Definition form_content_type (boundary : str) : str := "multipart/form-data; boundary=" ++ boundary.

(** The value of the first field of that name, within the limit of 1024 bytes. *)
Fixpoint field_value (fields : list (str * str)) (name : str) : str :=
  match fields with
  | [] => []
  | (n, value) :: fields' =>
      if n =$ name then (if (1024 <? length value)%nat then [] else value) else field_value fields' name
  end.

Definition boundary_char (c : ascii) : bool := is_alnum c || (c =? "-")%char || (c =? "_")%char.

Definition good_boundary (b : str) : Prop :=
  b <> [] /\ (length b <= 200)%nat /\ Forall (λ c, boundary_char c = true) b.

(** A name in lower case without quotes, a value without carriage returns. *)
Definition good_field (f : str * str) : Prop :=
  lower f.1 = f.1 /\ (DQ ∉ f.1) /\ (CR ∉ f.1) /\ (CR ∉ f.2).

Lemma sfind_here p rest : p <> [] -> sfind p (p ++ rest) = Some 0%nat.
Proof.
  intros H. destruct (p ++ rest) as [|c s] eqn:E; [by destruct p|]. cbn [sfind]. by rewrite <- E, starts_with_app.
Qed.

Lemma sfind_fresh c p a rest : c ∉ a -> sfind (c :: p) (a ++ c :: p ++ rest) = Some (length a).
Proof.
  induction a as [|d a IH]; intros H; [by apply (sfind_here (c :: p))|].
  apply not_elem_of_cons in H as [Hc Ha]. cbn [app length sfind starts_with].
  destruct (Ascii.eqb_spec c d); [congruence|]. cbn [andb]. by rewrite IH.
Qed.

Lemma split_first (c : ascii) p r a r' : c ∉ p -> p ++ c :: r = a ++ c :: r' ->
  (a = p /\ r' = r) \/ (exists a', r = a' ++ c :: r').
Proof.
  revert p. induction a as [|d a IH]; intros [|e p] Hp E; cbn [app] in E.
  - injection E as ->. by left.
  - injection E as -> _. exfalso. apply Hp. by left.
  - injection E as <- ->. right. by exists a.
  - injection E as -> E2. apply not_elem_of_cons in Hp as [_ Hp]. destruct (IH _ Hp E2) as [[-> ->]|H]; [subst; by left|by right].
Qed.

(** A quoted marker occurs in a text with one quoted name only as that name. *)
Lemma quoted_once p n a f b :
  DQ ∉ p -> DQ ∉ n -> p ++ DQ :: n ++ [DQ] = a ++ DQ :: f ++ DQ :: b -> f = n.
Proof.
  intros Hp Hn E. assert (forall x y, n ++ [DQ] = x ++ DQ :: y -> x = n /\ y = []) as Hlast.
  { intros x y Exy. destruct (split_first _ _ _ _ _ Hn Exy) as [?|[a' Ea]]; [done|by destruct a']. }
  destruct (split_first _ _ _ _ _ Hp E) as [[_ Ef]|[a' Ea]].
  - by apply (Hlast f b).
  - apply Hlast in Ea as [_ Ey]. by destruct f.
Qed.

Lemma lower_app a b : lower (a ++ b) = lower a ++ lower b.
Proof. apply fmap_app. Qed.

Lemma names_field_iff name field : lower name = name -> DQ ∉ name ->
  names_field (field_headers name) field = (name =$ field).
Proof.
  intros Hl Hd. unfold names_field.
  assert (lower (field_headers name)
    = "content-disposition: form-data" ++ "; name=" ++ [DQ] ++ name ++ [DQ]) as ->.
  { unfold field_headers. rewrite !lower_app, Hl. reflexivity. }
  assert (contains ("content-disposition: form-data" ++ "; name=" ++ [DQ] ++ name ++ [DQ])
    "content-disposition: form-data" = true) as ->.
  { apply contains_spec. by exists [], ("; name=" ++ [DQ] ++ name ++ [DQ]). }
  cbn [andb]. apply eq_true_iff_eq. rewrite contains_spec, str_eqb_eq. split.
  - intros (a & b & E). unfold name_marker in E. symmetry.
    apply (quoted_once ("content-disposition: form-data" ++ "; name=") name (a ++ "name=") field b);
      [apply (bool_decide_eq_true_1 (DQ ∉ _)); vm_compute; reflexivity|done|].
    rewrite <- !app_assoc in *. exact E.
  - intros <-. exists ("content-disposition: form-data" ++ "; "), [].
    rewrite app_nil_r. reflexivity.
Qed.

Lemma print_parts_delimiter delimiter fields : exists t, print_parts delimiter fields = delimiter ++ t.
Proof. destruct fields as [|[n v] fields]; eexists; done. Qed.

Lemma headers_no_CR name : CR ∉ name -> CR ∉ field_headers name.
Proof.
  intros H. unfold field_headers. rewrite !not_elem_of_app.
  repeat split; try done; apply (bool_decide_eq_true_1 (CR ∉ _)); vm_compute; reflexivity.
Qed.

Lemma find_part_print fuel delimiter fields field :
  (exists d, delimiter = "--" ++ d) -> Forall good_field fields -> (length fields < fuel)%nat ->
  find_part fuel delimiter field (print_parts delimiter fields) = Some (field_value fields field).
Proof.
  intros [d Hd] H. assert (delimiter <> []) as Hne by (rewrite Hd; done).
  revert fuel. induction H as [|[name value] fields (Hl & Hq & Hcn & Hcv) H IH]; intros [|fuel] Hf; cbn [length] in Hf; try lia.
  - cbn [print_parts find_part]. rewrite sfind_here by done. cbv zeta. rewrite Nat.add_0_l, drop_app_length.
    reflexivity.
  - cbn [print_parts find_part]. rewrite sfind_here by done. cbv zeta. rewrite Nat.add_0_l, drop_app_length.
    cbn [fst snd] in *. change (take 2 _) with [CR; LF] at 1. eval_keys.
    change (drop 2 ([CR; LF] ++ ?s)) with s.
    pose proof (sfind_fresh CR [LF; CR; LF] (field_headers name) (value ++ [CR; LF] ++ print_parts delimiter fields)
      (headers_no_CR _ Hcn)) as E1. cbn [app] in E1 |- *. rewrite E1. cbn [app].
    change (CR :: LF :: CR :: LF :: ?s) with ([CR; LF; CR; LF] ++ s).
    rewrite take_app_length, app_assoc, drop_app_length' by (rewrite length_app; cbn [length]; lia).
    destruct (print_parts_delimiter delimiter fields) as [t Et].
    pose proof (sfind_fresh CR (LF :: delimiter) value t Hcv) as E2. cbn [app] in E2. rewrite <- Et in E2.
    rewrite E2. rewrite take_app_length, names_field_iff by done.
    cbn [field_value]. destruct (name =$ field).
    + assert ((1024 <? Z.of_nat (length value)) = (1024 <? length value)%nat) as ->; [|done].
      apply eq_true_iff_eq. rewrite Z.ltb_lt, Nat.ltb_lt. lia.
    + change (CR :: LF :: print_parts delimiter fields) with ([CR; LF] ++ print_parts delimiter fields).
      rewrite app_assoc, drop_app_length' by (rewrite length_app; cbn [length]; lia). apply IH. lia.
Qed.

Lemma boundary_char_plain c : boundary_char c = true ->
  c <> ";"%char /\ is_blank c = false /\ c <> DQ /\ c <> CR /\ c <> LF.
Proof.
  intros H. assert (negb (boundary_char c) || negb ((c =? ";")%char || is_blank c || (c =? DQ)%char || (c =? CR)%char || (c =? LF)%char)
    = true) as Hc by (revert c H; intros c _; revert c; by_chars).
  rewrite H in Hc. cbn [negb orb] in Hc. rewrite negb_true_iff, !orb_false_iff in Hc.
  destruct Hc as [[[[H1 H2] H3] H4] H5]. rewrite Ascii.eqb_neq in H1, H3, H4, H5. done.
Qed.

Lemma form_boundary b : good_boundary b -> multipart_boundary (form_content_type b) = Some b.
Proof.
  intros (Hne & Hlen & Hc). unfold multipart_boundary, form_content_type. rewrite lower_app.
  assert (forall s, sfind "boundary=" (lower "multipart/form-data; boundary=" ++ s) = Some 21%nat) as -> by reflexivity.
  change (21 + 9)%nat with (length (lit "multipart/form-data; boundary=")). rewrite drop_app_length.
  assert (forall c, c ∈ b -> c <> ";"%char /\ is_blank c = false /\ c <> DQ /\ c <> CR /\ c <> LF) as Hp.
  { intros c Hin. apply boundary_char_plain. rewrite Forall_forall in Hc. by apply Hc. }
  assert (Forall (λ c, is_blank c = false) b) as Hb by (apply Forall_forall; intros c Hin; by apply Hp).
  rewrite drop_while_none by done.
  assert (sfind ";" b = None) as -> by (apply sfind_char_None; intros Hin; by apply Hp in Hin as (? & _)).
  cbn [upto]. rewrite drop_while_back_none by done.
  assert (unquote b = b) as ->.
  { destruct b as [|c [|c' b]]; try done. unfold unquote. destruct (Ascii.eqb_spec c DQ); [|done].
    exfalso. destruct (Hp c) as (_ & _ & ? & _); [by left|done]. }
  assert (contains b [CR] = false /\ contains b [LF] = false) as [-> ->].
  { unfold contains. split; [rewrite (proj2 (sfind_char_None CR b))|rewrite (proj2 (sfind_char_None LF b))]; try done;
      intros Hin; by apply Hp in Hin as (_ & _ & _ & ? & ?). }
  apply empty_false in Hne as ->. cbn [orb]. rewrite (proj2 (Z.ltb_ge _ _)) by lia. done.
Qed.

Lemma print_parts_length delimiter fields : delimiter <> [] -> (length fields < length (print_parts delimiter fields))%nat.
Proof.
  intros H. induction fields as [|[n v] fields IH]; cbn [print_parts length]; rewrite !length_app.
  - destruct delimiter; [done|]. cbn [length]. lia.
  - cbn [length]. lia.
Qed.

(** ** Properties *)

(** C22: A multipart form of text fields is read back: for a boundary of letters,
    digits and dashes, and fields whose names are lower case without quotes and whose
    values have no carriage return, the value found for a name is that of the first
    field of the name, or empty when it is longer than 1024 bytes or missing. *)
Theorem multipart_roundtrip boundary fields field
    (Hb : good_boundary boundary) (Hf : Forall good_field fields) :
  extract_multipart_field (print_form boundary fields) (form_content_type boundary) field
  = field_value fields field.
Proof.
  unfold extract_multipart_field, print_form. rewrite form_boundary by done.
  rewrite find_part_print; [done|by eexists|done|].
  pose proof (print_parts_length ("--" ++ boundary) fields ltac:(done)). lia.
Qed.

Lemma multipart_roundtrip_witness :
  extract_multipart_field
    (print_form "XyZ-1" [("prompt" : str, "a red fox" : str); ("n" : str, "3" : str)])
    (form_content_type "XyZ-1") "n" = "3".
Proof.
  apply (multipart_roundtrip "XyZ-1" [("prompt" : str, "a red fox" : str); ("n" : str, "3" : str)] "n").
  - split; [done|]. split; [vm_compute; lia|]. apply forallb_Forall. reflexivity.
  - repeat constructor; apply (bool_decide_eq_true_1 (_ ∉ _)); vm_compute; reflexivity.
Defined.

(** For every body and content type the loop over the parts of a form ends, and
    a value it finds is at most 1024 bytes long and is a stretch of the body that ends
    right before a line with the boundary. *)
Theorem multipart_value_bounded body content_type field boundary
    (Hb : multipart_boundary content_type = Some boundary) :
  exists value, find_part (S (length body)) ("--" ++ boundary) field body = Some value
    /\ extract_multipart_field body content_type field = value
    /\ (length value <= 1024)%nat
    /\ (value <> [] -> exists a b, body = a ++ value ++ [CR; LF] ++ "--" ++ boundary ++ b).
Proof.
  destruct (find_part (S (length body)) ("--" ++ boundary) field body) as [value|] eqn:E.
  - exists value. split; [done|]. split; [unfold extract_multipart_field; by rewrite Hb, E|].
    apply find_part_value in E as [Hl Hv]. split; [done|]. intros Hne. destruct (Hv Hne) as (a & b & H).
    exists a, b. rewrite H at 1. by rewrite <- (app_assoc "--").
  - exfalso. revert E. apply find_part_ends; [done|lia].
Qed.

Lemma multipart_value_bounded_witness :
  exists value, find_part (S (length (lit "--b"))) ("--" ++ "b") "n" "--b" = Some value
    /\ extract_multipart_field "--b" "multipart/form-data; boundary=b" "n" = value
    /\ (length value <= 1024)%nat
    /\ (value <> [] -> exists a b, lit "--b" = a ++ value ++ [CR; LF] ++ "--" ++ "b" ++ b).
Proof. apply (multipart_value_bounded "--b" "multipart/form-data; boundary=b" "n" "b"). reflexivity. Defined.

(** A file part is taken for a field: the marker of a name also occurs in
    [filename]. *)
Lemma filename_taken_for_name :
  extract_multipart_field
    ("--b" ++ [CR; LF] ++ q "Content-Disposition: form-data; name='image'; filename='size'"
     ++ [CR; LF; CR; LF] ++ "PNG" ++ [CR; LF] ++ "--b--")
    "multipart/form-data; boundary=b" "size" = "PNG".
Proof. vm_compute. reflexivity. Qed.

(** ** Counts *)

Lemma from_chars_int_range s z : from_chars_int s = Some z -> - 2 ^ 31 <= z < 2 ^ 31.
Proof.
  unfold from_chars_int. repeat case_match; try done; intros [= <-];
    rewrite andb_true_iff, Z.leb_le, Z.ltb_lt in *; lia.
Qed.

Definition count_range (z : Z) : Prop := 0 <= z < 2 ^ 31.

Lemma positive_integer_range object keys : count_range (positive_integer object keys).
Proof.
  unfold count_range. induction keys as [|key keys IH]; simpl; [lia|].
  destruct (member object key) as [v|]; [|done]. destruct (IsInt v) eqn:Ei.
  { destruct v; try done. apply IsInt_range in Ei. simpl. lia. }
  destruct (IsUint v) eqn:Eu.
  { destruct v; try done. simpl in *. rewrite andb_true_iff, Z.leb_le, Z.ltb_lt in Eu. lia. }
  destruct v; try done. destruct (from_chars_int s) eqn:E; [|done]. apply from_chars_int_range in E. lia.
Qed.

Lemma multipart_integer_range body content_type fields : count_range (multipart_integer body content_type fields).
Proof.
  unfold count_range. induction fields as [|f fields IH]; cbn [multipart_integer]; [lia|].
  destruct (from_chars_int _) eqn:E; [|done]. apply from_chars_int_range in E. lia.
Qed.

(** The counts read from a media request are never negative and fit an [int],
    whatever the body says, and an image request counts at least one image. *)
Theorem media_request_counts {RJ : RapidJson} body content_type operation :
  let u := parse_media_request body content_type operation in
  count_range (mu_input_image_count u) /\ count_range (mu_output_image_count u)
  /\ count_range (mu_video_count u) /\ count_range (mu_video_duration_seconds u)
  /\ (starts_with operation "images_" = true ->
      (starts_with content_type "multipart/form-data" = true \/ exists l, Parse body = Some (JObject l)) ->
      1 <= mu_output_image_count u).
Proof.
  unfold parse_media_request. cbv zeta.
  pose proof (multipart_integer_range body content_type) as Hm.
  assert (forall b : bool, count_range (if b then 1 else 0)) as H01 by (intros []; unfold count_range; lia).
  assert (forall (b : bool) z, count_range z -> count_range (if b then Z.max 1 z else 0)) as Hmax
    by (intros [] z; unfold count_range; lia).
  assert (count_range 0) as H0 by (unfold count_range; lia).
  destruct (starts_with content_type _) eqn:Et.
  - cbn [mu_input_image_count mu_output_image_count mu_video_count mu_video_duration_seconds].
    split; [apply H01|]. split; [by apply Hmax|]. split; [apply H01|]. split; [apply Hm|].
    intros -> _. lia.
  - destruct (Parse body) as [j|] eqn:E; [destruct j|];
      cbn [mu_input_image_count mu_output_image_count mu_video_count mu_video_duration_seconds];
      (split; [apply H01|split; [first [exact H0|apply Hmax, positive_integer_range]|split; [apply H01|
         split; [first [exact H0|apply positive_integer_range]|intros Hi [?|[l' ?]]; try done; rewrite ?Hi; lia]]]]).
Qed.
