(* ===== verification/RequestConversion.v ===== *)
(** * Conversion of requests

    [parse], [convert_request] and [convert_stream_event] of
    [protocol/converter.cpp], and what of a chat request survives the way from one
    format into another. *)
From S2P Require Import Prelude Json JsonText Capability GatewayTypes StreamPipe ChatIr.
From S2P Require Import OpenAiFormat AnthropicFormat GeminiFormat ResponsesFormat StreamFormats.
#[local] Arguments lit : simpl never.

Section Conversion.
Context {RJ : RapidJson}.

(** The [switch] over the source format. *)
Definition parse_request (from : Format) (body : str) : res ChatRequest :=
  match from with
  | Anthropic => AnthropicFormat.parse_request body
  | OpenAIChatCompletions => OpenAiFormat.parse_request body
  | OpenAIResponses => Ok (ResponsesFormat.parse_request body)
  | Gemini => Ok (GeminiFormat.parse_request body)
  end.

(** The [switch] over the target format. *)
Definition serialize_request (to : Format) (ir : ChatRequest) : str :=
  match to with
  | Anthropic => AnthropicFormat.serialize_request ir
  | OpenAIChatCompletions => OpenAiFormat.serialize_request ir
  | OpenAIResponses => ResponsesFormat.serialize_request ir
  | Gemini => GeminiFormat.serialize_request ir
  end.

Definition parse (body : str) (hint : Format) : res ParsedRequest :=
  ir ← parse_request hint body;
  Ok (mkParsed hint (rq_model ir) (rq_stream ir) (rq_metadata_user_id ir) (rq_max_tokens ir) false).

Definition unsupported_content_error : str :=
  "Request contains unsupported multimodal content (images, audio, or video)".

Definition convert_request (body : str) (from to : Format) (mapped_model : str) : res ConversionResult :=
  if bool_decide (from = to) && empty mapped_model then Ok (mkConversion true body [])
  else
    ir ← parse_request from body;
    if rq_unsupported_content ir then Ok (mkConversion false [] unsupported_content_error)
    else
      let ir := if empty mapped_model then ir else set_model mapped_model ir in
      Ok (mkConversion true (serialize_request to ir) []).

(** The event type of an Anthropic event is read from its data. *)
Definition event_type_of (data : str) : str :=
  match Parse data with
  | Some doc => match member doc "type" with Some (JString s) => s | _ => [] end
  | None => []
  end.

Definition convert_stream_event (sse_data : str) (from to : Format) : res str :=
  if bool_decide (from = to) then Ok sse_data
  else
    delta ← StreamPipe.parse_stream_event from
              (match from with Anthropic => event_type_of sse_data | _ => [] end) sse_data;
    Ok (StreamPipe.serialize_stream_event to delta).
End Conversion.

(** ** Loops that keep a flag *)

Lemma fold_res_keep {A B} (body : A -> B -> res A) (flag : A -> bool) l acc r :
  (forall a y a', body a y = Ok a' -> flag a = true -> flag a' = true) ->
  fold_res body acc l = Ok r -> flag acc = true -> flag r = true.
Proof.
  intros Hkeep. revert acc. induction l as [|y l IH]; simpl; intros acc; [by intros [= <-]|].
  destruct (body acc y) as [a|] eqn:E; [|done]. simpl. intros Hr Ha. eauto.
Qed.

Lemma fold_res_flag {A B} (body : A -> B -> res A) (flag : A -> bool) x l acc r :
  (forall a y a', body a y = Ok a' -> flag a = true -> flag a' = true) ->
  (forall a a', body a x = Ok a' -> flag a' = true) ->
  x ∈ l -> fold_res body acc l = Ok r -> flag r = true.
Proof.
  intros Hkeep Hset. revert acc. induction l as [|y l IH]; intros acc Hin; [by apply elem_of_nil in Hin|].
  cbn [fold_res]. destruct (body acc y) as [a|] eqn:E; [|done]. cbn [mbind res_bind].
  apply elem_of_cons in Hin as [<-|Hin]; [|by apply IH]. intros Hr. eapply fold_res_keep; [done..|]. by eapply Hset.
Qed.

Lemma fold_res_pure {A B} (body : A -> B -> A) l acc :
  fold_res (λ a x, Ok (body a x)) acc l = Ok (fold_left body l acc).
Proof. revert acc. induction l as [|x l IH]; intros acc; simpl; [done|]. apply IH. Qed.

Lemma fold_left_keep {A B} (body : A -> B -> A) (flag : A -> bool) l acc :
  (forall a y, flag a = true -> flag (body a y) = true) -> flag acc = true -> flag (fold_left body l acc) = true.
Proof. intros Hkeep. revert acc. induction l as [|y l IH]; simpl; intros acc Ha; [done|]. by apply IH, Hkeep. Qed.

Lemma fold_left_flag {A B} (body : A -> B -> A) (flag : A -> bool) x l acc :
  (forall a y, flag a = true -> flag (body a y) = true) ->
  (forall a, flag (body a x) = true) -> x ∈ l -> flag (fold_left body l acc) = true.
Proof.
  intros Hkeep Hset Hin. eapply (fold_res_flag (λ a x, Ok (body a x)) flag x l acc); [| |done|apply fold_res_pure].
  - intros a y a' [= <-]. apply Hkeep.
  - intros a a' [= <-]. apply Hset.
Qed.

(** ** Content no format of the gateway carries

    A part of a message of a kind the parser of the format does not know. *)
Definition foreign_part (from : Format) (part : json) : Prop :=
  IsObject part = true
  /\ match from with
     | Anthropic | OpenAIChatCompletions => get_str part "type" ∉ [lit "text"; lit "tool_use"; lit "tool_result"]
     | OpenAIResponses => get_str part "type" ∉ [lit "input_text"; lit "text"; lit "output_text"]
     | Gemini =>
         has part "text" IsString = false /\ has part "functionCall" IsObject = false
         /\ has part "functionResponse" IsObject = false
     end.

Definition messages_key (from : Format) : str :=
  match from with Anthropic | OpenAIChatCompletions => "messages" | OpenAIResponses => "input" | Gemini => "contents" end.

Definition parts_key (from : Format) : str := match from with Gemini => "parts" | _ => "content" end.

(** A message of the conversation: the system messages of the two OpenAI formats only
    give their texts, an item of the Responses format is a message by type or role. *)
Definition conversation_message (from : Format) (m : json) : Prop :=
  IsObject m = true
  /\ match from with
     | OpenAIChatCompletions => get_str m "role" ∉ [lit "system"; lit "developer"]
     | OpenAIResponses =>
         (get_str m "role" ∉ [lit "system"; lit "developer"]) /\ (get_str m "type" = "message" \/ HasMember m "role" = true)
     | _ => True
     end.

Definition has_foreign_part (from : Format) (doc : json) : Prop :=
  exists m part, conversation_message from m /\ m ∈ array_member doc (messages_key from)
    /\ foreign_part from part /\ part ∈ array_member m (parts_key from).

Lemma array_member_Some j key x : x ∈ array_member j key -> exists l, member j key = Some (JArray l) /\ x ∈ l.
Proof.
  unfold array_member. destruct (member j key) as [v|]; [destruct v|]; intros H; try (by apply elem_of_nil in H).
  by exists l.
Qed.

Lemma not_in_eqb s (l : list str) t : s ∉ l -> t ∈ l -> (s =$ t) = false.
Proof. intros Hs Ht. apply str_eqb_neq. by intros ->. Qed.

(** Decides [s =$ t] for every literal [t] of the list that [s] is not in. *)
Ltac not_listed H :=
  repeat match type of H with
  | ?s ∉ ?l => match goal with |- context [str_eqb s ?t] =>
      rewrite (not_in_eqb s l t H) by (repeat first [apply list_elem_of_here | apply list_elem_of_further]) end
  end.

Section Foreign.
Context {RJ : RapidJson}.

Lemma result_part_flag acc sub acc' : result_part acc sub = Ok acc' -> acc.2 = true -> acc'.2 = true.
Proof.
  destruct acc as [t u]. unfold result_part. simpl. intros H ->. revert H.
  destruct (negb _); [by intros [= <-]|]. destruct (member sub "text") as [v|]; [|by intros [= <-]].
  destruct (_ =$ _); [|by intros [= <-]]. destruct (GetString v); [by intros [= <-]|done].
Qed.

Lemma result_text_flag part acc : result_text part true = Ok acc -> acc.2 = true.
Proof.
  unfold result_text. destruct (member part "content") as [v|]; [destruct v|]; try (by intros [= <-]).
  intros H. by eapply (fold_res_keep result_part snd); [apply result_part_flag|done|].
Qed.

(** *** OpenAI chat completions *)

Lemma openai_part_flag acc part acc' :
  OpenAiFormat.extract_content_block acc part = Ok acc' -> acc.2 = true -> acc'.2 = true.
Proof.
  destruct acc as [m u]. unfold OpenAiFormat.extract_content_block. simpl. intros H ->. revert H.
  cbv zeta. destruct (negb _); [by intros [= <-]|]. do 2 (destruct (_ =$ _); [by intros [= <-]|]).
  destruct (_ =$ _); [|by intros [= <-]].
  destruct (result_text part true) as [[t u]|] eqn:E; [|done]. intros [= <-]. by apply result_text_flag in E.
Qed.

Lemma openai_part_foreign acc part acc' : foreign_part OpenAIChatCompletions part ->
  OpenAiFormat.extract_content_block acc part = Ok acc' -> acc'.2 = true.
Proof.
  intros [Ho Ht]. destruct acc as [m u]. unfold OpenAiFormat.extract_content_block. rewrite Ho. cbn [negb]. cbv zeta.
  not_listed Ht. by intros [= <-].
Qed.

Lemma openai_message_flag c m c' :
  OpenAiFormat.parse_message c m = Ok c' -> cv_unsupported c = true -> cv_unsupported c' = true.
Proof.
  unfold OpenAiFormat.parse_message. intros H Hc. revert H. rewrite Hc. cbv zeta.
  destruct (negb _); [by intros [= <-]|]. destruct (_ || _); [case_match; by intros [= <-]|].
  destruct (member m "content") as [v|]; [|by intros [= <-]].
  destruct (OpenAiFormat.extract_content_blocks v _ true) as [[msg u]|] eqn:E; [|done]. intros [= <-]. simpl.
  destruct v; simpl in E; try (injection E as _ <-; done).
  by apply (fold_res_keep _ snd _ _ _ openai_part_flag) in E.
Qed.

Lemma openai_message_foreign c m c' part :
  conversation_message OpenAIChatCompletions m -> foreign_part OpenAIChatCompletions part ->
  part ∈ array_member m "content" -> OpenAiFormat.parse_message c m = Ok c' -> cv_unsupported c' = true.
Proof.
  intros [Ho Hr] Hp (l & Hl & Hin)%array_member_Some. unfold OpenAiFormat.parse_message. rewrite Ho. cbn [negb]. cbv zeta.
  not_listed Hr. cbn [orb]. rewrite Hl. cbn [OpenAiFormat.extract_content_blocks].
  destruct (fold_res _ _ l) as [[msg u]|] eqn:E; [|done]. intros [= <-]. simpl.
  apply (fold_res_flag _ snd part _ _ _ openai_part_flag) in E; [done| |done].
  intros a a'. by apply openai_part_foreign.
Qed.

(** *** Anthropic messages *)

Lemma anthropic_part_flag acc part acc' :
  AnthropicFormat.parse_block acc part = Ok acc' -> acc.2 = true -> acc'.2 = true.
Proof.
  destruct acc as [m u]. unfold AnthropicFormat.parse_block. simpl. intros H ->. revert H.
  cbv zeta. destruct (negb _); [by intros [= <-]|]. do 2 (destruct (_ =$ _); [by intros [= <-]|]).
  destruct (_ =$ _); [|by intros [= <-]].
  destruct (result_text part true) as [[t u]|] eqn:E; [|done]. intros [= <-]. by apply result_text_flag in E.
Qed.

Lemma anthropic_part_foreign acc part acc' : foreign_part Anthropic part ->
  AnthropicFormat.parse_block acc part = Ok acc' -> acc'.2 = true.
Proof.
  intros [Ho Ht]. destruct acc as [m u]. unfold AnthropicFormat.parse_block. rewrite Ho. cbn [negb]. cbv zeta.
  not_listed Ht. by intros [= <-].
Qed.

Lemma anthropic_message_flag c m c' :
  AnthropicFormat.parse_message c m = Ok c' -> cv_unsupported c = true -> cv_unsupported c' = true.
Proof.
  unfold AnthropicFormat.parse_message. intros H Hc. revert H. rewrite Hc. cbv zeta.
  destruct (negb _); [by intros [= <-]|].
  destruct (member m "content") as [v|]; [|by intros [= <-]]. destruct v; try (by intros [= <-]).
  destruct (fold_res AnthropicFormat.parse_block _ _) as [[msg u]|] eqn:E; [|done]. intros [= <-]. simpl.
  by apply (fold_res_keep _ snd _ _ _ anthropic_part_flag) in E.
Qed.

Lemma anthropic_message_foreign c m c' part :
  conversation_message Anthropic m -> foreign_part Anthropic part ->
  part ∈ array_member m "content" -> AnthropicFormat.parse_message c m = Ok c' -> cv_unsupported c' = true.
Proof.
  intros [Ho _] Hp (l & Hl & Hin)%array_member_Some. unfold AnthropicFormat.parse_message. rewrite Ho, Hl. cbn [negb]. cbv zeta.
  destruct (fold_res _ _ l) as [[msg u]|] eqn:E; [|done]. intros [= <-]. simpl.
  apply (fold_res_flag _ snd part _ _ _ anthropic_part_flag) in E; [done| |done].
  intros a a'. by apply anthropic_part_foreign.
Qed.

(** *** Gemini *)

Lemma gemini_part_flag s p : pt_unsupported s = true -> pt_unsupported (GeminiFormat.parse_part s p) = true.
Proof. intros H. unfold GeminiFormat.parse_part. repeat case_match; done. Qed.

Lemma gemini_part_foreign s p : foreign_part Gemini p -> pt_unsupported (GeminiFormat.parse_part s p) = true.
Proof.
  intros [Ho (Ht & Hc & Hr)]. unfold GeminiFormat.parse_part, has in *. rewrite Ho. cbn [negb].
  destruct (member p "text") as [[]|], (member p "functionCall") as [[]|], (member p "functionResponse") as [[]|]; done.
Qed.

Lemma gemini_content_flag c m : cv_unsupported c = true -> cv_unsupported (parse_content c m) = true.
Proof.
  intros H. unfold parse_content. destruct (negb _); [done|]. simpl.
  apply (fold_left_keep _ pt_unsupported); [apply gemini_part_flag|done].
Qed.

Lemma gemini_content_foreign c m part :
  conversation_message Gemini m -> foreign_part Gemini part -> part ∈ array_member m "parts" ->
  cv_unsupported (parse_content c m) = true.
Proof.
  intros [Ho _] Hp Hin. unfold parse_content. rewrite Ho. simpl.
  eapply (fold_left_flag _ pt_unsupported part); [apply gemini_part_flag| |done].
  intros s. by apply gemini_part_foreign.
Qed.

(** *** Responses *)

Lemma responses_part_flag acc p : acc.2 = true -> (ResponsesFormat.parse_part acc p).2 = true.
Proof. destruct acc as [m u]. simpl. intros ->. unfold ResponsesFormat.parse_part. repeat case_match; done. Qed.

Lemma responses_part_foreign acc p : foreign_part OpenAIResponses p -> (ResponsesFormat.parse_part acc p).2 = true.
Proof.
  intros [Ho Ht]. destruct acc as [m u]. unfold ResponsesFormat.parse_part. rewrite Ho. cbn [negb]. cbv zeta.
  by not_listed Ht.
Qed.

Lemma responses_item_flag c m : cv_unsupported c = true -> cv_unsupported (parse_item c m) = true.
Proof.
  intros H. unfold parse_item, parse_message_item. destruct (negb _); [done|]. cbv zeta.
  destruct (_ || HasMember _ _); [|by repeat case_match].
  destruct (_ || _); [by repeat case_match|]. destruct (member m "content") as [v|]; [|done].
  destruct v; simpl; try done. case_match eqn:E. simpl. apply (f_equal snd) in E. simpl in E. subst.
  apply (fold_left_keep _ snd); [apply responses_part_flag|done].
Qed.

Lemma responses_item_foreign c m part :
  conversation_message OpenAIResponses m -> foreign_part OpenAIResponses part -> part ∈ array_member m "content" ->
  cv_unsupported (parse_item c m) = true.
Proof.
  intros [Ho [Hr Hk]] Hp (l & Hl & Hin)%array_member_Some. unfold parse_item, parse_message_item. rewrite Ho. cbn [negb]. cbv zeta.
  assert ((get_str m "type" =$ "message") || HasMember m "role" = true) as ->.
  { apply orb_true_iff. by destruct Hk as [->|]; [left|right]. }
  assert (((if empty (get_str m "role") then lit "user" else get_str m "role") =$ "system")
    || ((if empty (get_str m "role") then lit "user" else get_str m "role") =$ "developer") = false) as ->.
  { destruct (empty _); [done|]. by not_listed Hr. }
  rewrite Hl. case_match eqn:E. simpl. apply (f_equal snd) in E. simpl in E. subst.
  eapply (fold_left_flag _ snd part); [apply responses_part_flag| |done]. intros s. by apply responses_part_foreign.
Qed.

Lemma foreign_part_flagged from doc body r :
  Parse body = Some doc -> IsObject doc = true -> has_foreign_part from doc ->
  parse_request from body = Ok r -> rq_unsupported_content r = true.
Proof.
  intros Hp Ho (m & part & Hm & Hin & Hf & Hpart). destruct doc as [| | | | | |l]; try done.
  destruct from; cbn [parse_request messages_key parts_key] in *.
  - unfold AnthropicFormat.parse_request, AnthropicFormat.request_of_document. rewrite Hp.
    destruct (fold_res _ _ _) as [c|] eqn:E; [|done]. intros [= <-]. simpl.
    apply (fold_res_flag _ cv_unsupported m _ _ _ anthropic_message_flag) in E; [done| |done].
    intros a a'. by apply (anthropic_message_foreign _ _ _ part).
  - unfold OpenAiFormat.parse_request, OpenAiFormat.request_of_document. rewrite Hp.
    destruct (fold_res _ _ _) as [c|] eqn:E; [|done]. intros [= <-]. simpl.
    apply (fold_res_flag _ cv_unsupported m _ _ _ openai_message_flag) in E; [done| |done].
    intros a a'. by apply (openai_message_foreign _ _ _ part).
  - unfold ResponsesFormat.parse_request, ResponsesFormat.request_of_document, parse_input. rewrite Hp.
    apply array_member_Some in Hin as (items & Hi & Hin). cbv zeta. rewrite Hi. intros [= <-].
    cbn [rq_unsupported_content].
    eapply (fold_left_flag _ cv_unsupported m); [apply responses_item_flag| |done].
    intros c. by apply (responses_item_foreign _ _ part).
  - unfold GeminiFormat.parse_request, GeminiFormat.request_of_document. rewrite Hp. intros [= <-]. simpl.
    eapply (fold_left_flag _ cv_unsupported m); [apply gemini_content_flag| |done].
    intros c. by apply (gemini_content_foreign _ _ part).
Qed.
End Foreign.

(** ** What the formats have in common

    A plain chat: a system text, messages of one text each by the user and the
    assistant, the parameters of generation, and no tools. *)
Definition chat_message (m : Message) : Prop :=
  exists role t, m = mkMessage role [text_block t] [] [] /\ clean t /\ (role = "user" \/ role = "assistant").

Record plain_chat {RJ : RapidJson} (r : ChatRequest) : Prop := {
  pc_clean : clean_request r;
  pc_messages : Forall chat_message (rq_messages r);
  pc_tools : rq_tools r = [];
}.

(** What a format has a place for. *)
Definition kept (to : Format) (r : ChatRequest) : ChatRequest :=
  match to with
  | Gemini =>
      mkRequest [] (rq_system r) (rq_messages r) (rq_tools r) false (rq_max_tokens r) (rq_temperature r)
        (rq_top_p r) (rq_stop r) [] (rq_unsupported_content r)
  | OpenAIResponses =>
      mkRequest (rq_model r) (rq_system r) (rq_messages r) (rq_tools r) (rq_stream r) (rq_max_tokens r)
        (rq_temperature r) (rq_top_p r) [] (rq_metadata_user_id r) (rq_unsupported_content r)
  | _ => r
  end.

Section Plain.
Context `{RL : RapidJsonLaws}.

Lemma chat_role_clean m : chat_message m -> clean (msg_role m).
Proof. intros (role & t & -> & _ & [-> | ->]); simpl; auto with gw. Qed.

(** The role of a chat message is neither empty nor one of the special roles. *)
Lemma chat_role_other (role name : str) :
  role = "user" \/ role = "assistant" -> bool_decide (lit "user" <> name /\ lit "assistant" <> name) = true ->
  role <> name.
Proof. intros [-> | ->] H; by apply bool_decide_eq_true_1 in H as [? ?]. Qed.

Ltac other_role := (eapply chat_role_other; [eassumption|vm_compute; reflexivity]).

Lemma plain_openai r : plain_chat r -> OpenAiFormat.stable_request r.
Proof.
  intros [Hc Hm Ht]. split; [done| |by rewrite Ht; constructor].
  eapply Forall_impl; [exact Hm|]. intros m H. pose proof (chat_role_clean m H) as Hr.
  destruct H as (role & t & -> & Hclean & Hrole). split; simpl in *; auto with gw.
  - split; other_role.
  - constructor; [|constructor]. split; [done|]. split; [apply clean_nil|by left].
  - intros _ _. by exists t.
Qed.

Lemma plain_anthropic r : plain_chat r -> AnthropicFormat.stable_request r.
Proof.
  intros [Hc Hm Ht]. split; [done| |by rewrite Ht; constructor].
  eapply Forall_impl; [exact Hm|]. intros m H. pose proof (chat_role_clean m H) as Hr.
  destruct H as (role & t & -> & Hclean & Hrole). split; simpl in *; auto with gw.
  - constructor; [|constructor]. repeat split; simpl; auto with gw.
  - intros _. by exists t.
  - done.
Qed.

Lemma kept_clean to r : clean_request r -> clean_request (kept to r).
Proof. intros [H1 H2 H3 H4 H5 H6 H7 H8]. destruct to; split; simpl; auto with gw. Qed.

Lemma plain_gemini r : plain_chat r -> GeminiFormat.stable_request (kept Gemini r).
Proof.
  intros [Hc Hm Ht]. split; [by apply kept_clean|done| |by simpl; rewrite Ht; constructor].
  eapply Forall_impl; [exact Hm|]. intros m H. pose proof (chat_role_clean m H) as Hr.
  destruct H as (role & t & -> & Hclean & Hrole). split; simpl in *; auto with gw.
  - split; [done|other_role].
  - constructor; [|constructor]. repeat split; simpl; auto with gw.
  - lia.
  - done.
Qed.

Lemma plain_responses r : plain_chat r -> ResponsesFormat.stable_request (kept OpenAIResponses r).
Proof.
  intros [Hc Hm Ht]. split; [by apply kept_clean|done| |by simpl; rewrite Ht; constructor].
  eapply Forall_impl; [exact Hm|]. intros m H. pose proof (chat_role_clean m H) as Hr.
  destruct H as (role & t & -> & Hclean & Hrole). constructor; simpl in *; auto; other_role.
Qed.

(** Printing sees only what the format keeps. *)
Lemma serialize_kept to r : serialize_request to (kept to r) = serialize_request to r.
Proof. by destruct to. Qed.

Lemma plain_roundtrip to r : plain_chat r -> parse_request to (serialize_request to r) = Ok (kept to r).
Proof.
  intros H. rewrite <- serialize_kept. destruct to; simpl.
  - by apply anthropic_roundtrip, plain_anthropic.
  - by apply openai_roundtrip, plain_openai.
  - f_equal. by apply responses_roundtrip, plain_responses.
  - f_equal. by apply gemini_roundtrip, plain_gemini.
Qed.

Lemma plain_kept to r : plain_chat r -> plain_chat (kept to r).
Proof. intros [Hc Hm Ht]. split; [by apply kept_clean|by destruct to|by destruct to]. Qed.

Lemma plain_set_model model r : clean model -> plain_chat r -> plain_chat (set_model model r).
Proof. intros Hm [[H1 H2 H3 H4 H5 H6 H7 H8] Hms Ht]. split; [by split|done|done]. Qed.

(** ** Properties *)

(** C7: A plain chat survives the way through any two formats: the body printed for
    one of them is converted into a body from which the other's parser reads the same
    system text, messages and parameters, with the model the account maps to where there
    is one and the client's own otherwise, but for what one of the two formats has no
    place for (Gemini: the model, the stream flag and the user; Responses: the stop
    sequences). *)
Theorem request_conversion_preserves_chat from to mapped_model r
    (Hr : plain_chat r) (Hm : clean mapped_model) :
  exists body, convert_request (serialize_request from r) from to mapped_model = Ok (mkConversion true body [])
    /\ parse_request to body
       = Ok (kept to (if empty mapped_model then kept from r else set_model mapped_model (kept from r))).
Proof.
  unfold convert_request. destruct (empty mapped_model) eqn:He; [destruct (bool_decide (from = to)) eqn:Hf|].
  - apply bool_decide_eq_true in Hf as ->. exists (serialize_request to r). split; [done|].
    rewrite plain_roundtrip by done. by destruct to, r.
  - exists (serialize_request to (kept from r)). split; [|by apply plain_roundtrip, plain_kept].
    rewrite plain_roundtrip by done. simpl. by rewrite (cq_unsupported _ (pc_clean _ (plain_kept from r Hr))).
  - exists (serialize_request to (set_model mapped_model (kept from r))).
    split; [|by apply plain_roundtrip, plain_set_model, plain_kept].
    rewrite andb_false_r, plain_roundtrip by done. simpl.
    by rewrite (cq_unsupported _ (pc_clean _ (plain_kept from r Hr))).
Qed.
End Plain.

(** C11: A request with a part of a kind the parser of its format does not know (an
    image, audio, a document) is never converted: unless the body is passed on
    untouched, the conversion is refused with the error for multimodal content, or
    stops at an assertion of the JSON library. *)
Theorem foreign_content_refused {RJ : RapidJson} body doc from to mapped_model
    (Hp : Parse body = Some doc) (Ho : IsObject doc = true) (Hf : has_foreign_part from doc)
    (Hc : from <> to \/ mapped_model <> []) :
  convert_request body from to mapped_model = Ok (mkConversion false [] unsupported_content_error)
  \/ exists e, convert_request body from to mapped_model = Err e.
Proof.
  unfold convert_request. assert (bool_decide (from = to) && empty mapped_model = false) as ->.
  { apply andb_false_iff. destruct Hc as [Hc|Hc]; [left; by apply bool_decide_eq_false|right; by apply empty_false]. }
  destruct (parse_request from body) as [r|e] eqn:E; [|by right; exists e]. left.
  cbn [mbind res_bind]. by rewrite (foreign_part_flagged from doc body r).
Qed.

Definition image_request : json :=
  JObject [("messages" : str, JArray [JObject [("role" : str, JString "user"); ("content" : str, JArray [
    JObject [("type" : str, JString "image_url")]])]])].

Lemma foreign_content_refused_witness :
  @convert_request coded_json (@Write coded_json image_request) OpenAIChatCompletions Anthropic "m"
    = Ok (mkConversion false [] unsupported_content_error)
  \/ exists e, @convert_request coded_json (@Write coded_json image_request) OpenAIChatCompletions Anthropic "m" = Err e.
Proof.
  apply (@foreign_content_refused coded_json (@Write coded_json image_request) image_request).
  - apply (@Parse_Write coded_json coded_json_laws). simpl. auto 10.
  - reflexivity.
  - exists (JObject [("role" : str, JString "user"); ("content" : str, JArray [
      JObject [("type" : str, JString "image_url")]])]), (JObject [("type" : str, JString "image_url")]).
    split; [split; [reflexivity|apply (bool_decide_eq_true_1 (_ ∉ _)); vm_compute; reflexivity]|].
    split; [apply (bool_decide_eq_true_1 (_ ∈ _)); vm_compute; reflexivity|].
    split; [split; [reflexivity|apply (bool_decide_eq_true_1 (_ ∉ _)); vm_compute; reflexivity]|].
    apply (bool_decide_eq_true_1 (_ ∈ _)); vm_compute; reflexivity.
  - left. discriminate.
Defined.

Definition hello_chat : ChatRequest :=
  mkRequest "gpt-4o" "Be brief" [mkMessage "user" [text_block "Hello"] [] []; mkMessage "assistant" [text_block "Hi"] [] []]
    [] true 100 None None ["END" : str] "u1" false.

Lemma request_conversion_preserves_chat_witness :
  exists body, @convert_request coded_json (@serialize_request coded_json OpenAIChatCompletions hello_chat)
      OpenAIChatCompletions Gemini "gemini-pro" = Ok (mkConversion true body [])
    /\ @parse_request coded_json Gemini body
       = Ok (mkRequest [] "Be brief" (rq_messages hello_chat) [] false 100 None None ["END" : str] [] false).
Proof.
  apply (@request_conversion_preserves_chat coded_json coded_json_laws OpenAIChatCompletions Gemini "gemini-pro" hello_chat).
  - split; [split| |reflexivity]; simpl; try (intros ? [=]); auto with gw; try lia.
    constructor; [|constructor; [|constructor]]; eexists _, _; (split; [reflexivity|]); split; auto with gw.
  - auto with gw.
Defined.

(** ** Tool calls between formats *)

Section Tools.
Context `{RL : RapidJsonLaws}.

Definition call_request : ChatRequest :=
  mkRequest "m" [] [mkMessage "assistant" [] [mkToolCall "c1" "f" "{}"] []] [] false 100 None None [] [] false.

Lemma call_request_stable : OpenAiFormat.stable_request call_request.
Proof.
  split; [split; simpl; try (intros ? [=]); auto with gw; lia| |constructor].
  constructor; [|constructor]. split; simpl; auto with gw.
  - intros _ [=].
  - constructor; [|constructor]. repeat split; simpl; auto with gw.
Qed.

(** The tool calls of an OpenAI request are not printed in the Anthropic format, which
    prints only the content blocks. *)
Lemma tool_calls_lost_to_anthropic :
  exists body, convert_request (serialize_request OpenAIChatCompletions call_request)
      OpenAIChatCompletions Anthropic "claude" = Ok (mkConversion true body [])
    /\ parse_request Anthropic body
       = Ok (mkRequest "claude" [] [mkMessage "assistant" [] [] []] [] false 100 None None [] [] false).
Proof.
  exists (AnthropicFormat.serialize_request (set_model "claude" call_request)). split.
  - unfold convert_request. cbn [parse_request serialize_request].
    rewrite openai_roundtrip by apply call_request_stable. reflexivity.
  - cbn [parse_request]. unfold AnthropicFormat.parse_request, AnthropicFormat.serialize_request.
    rewrite Parse_dump; [reflexivity|]. simpl. repeat split; lia.
Qed.

Definition use_request : ChatRequest :=
  mkRequest "m" []
    [mkMessage "assistant" [tool_use_block "c1" "f" (dump (JObject []))] [mkToolCall "c1" "f" (dump (JObject []))] []]
    [] false 100 None None [] [] false.

Lemma use_request_stable : AnthropicFormat.stable_request use_request.
Proof.
  split; [split; simpl; try (intros ? [=]); auto with gw; lia| |constructor].
  constructor; [|constructor]. split; simpl; auto with gw.
  - constructor; [|constructor]. repeat split; simpl; auto with gw. by exists [].
  - done.
  - done.
Qed.

(** A tool call of an Anthropic request is printed in the OpenAI format twice: as a
    tool call, and as an empty content part that the gateway itself refuses to read. *)
Lemma tool_use_printed_as_empty_part :
  exists body r, convert_request (serialize_request Anthropic use_request)
      Anthropic OpenAIChatCompletions "gpt" = Ok (mkConversion true body [])
    /\ parse_request OpenAIChatCompletions body = Ok r /\ rq_unsupported_content r = true.
Proof.
  exists (OpenAiFormat.serialize_request (set_model "gpt" use_request)). eexists. split.
  - unfold convert_request. cbn [parse_request serialize_request].
    rewrite anthropic_roundtrip by apply use_request_stable. reflexivity.
  - cbn [parse_request]. unfold OpenAiFormat.parse_request, OpenAiFormat.serialize_request.
    rewrite Parse_dump; [split; reflexivity|]. simpl. repeat split; lia.
Qed.
End Tools.
