(* ===== verification/ResponseConversion.v ===== *)
(** * Conversion of answers and errors

    [convert_response_checked] and [convert_error] of [protocol/converter.cpp] with
    their helpers. *)
From S2P Require Import Prelude Numbers Capability GatewayTypes Json JsonText ChatIr GeminiFormat.
#[local] Open Scope Z_scope.
#[local] Arguments lit : simpl never.

(** ** Finish reasons *)

(** The first element of an array member, and the value of a string member. *)
Definition first_of (obj : json) (key : str) : json := hd JNull (array_member obj key).

Definition string_view (obj : json) (key : str) : option str :=
  match member obj key with Some (JString s) => Some s | _ => None end.

Definition openai_finish (reason : str) : FinishReason :=
  if reason =$ "stop" then Stop else if reason =$ "length" then Length
  else if reason =$ "tool_calls" then ToolCalls else if reason =$ "content_filter" then ContentFilter
  else Unknown.

Definition anthropic_finish (reason : str) : FinishReason :=
  if reason =$ "end_turn" then Stop else if reason =$ "max_tokens" then Length
  else if reason =$ "tool_use" then ToolCalls else Unknown.

(** Gemini says STOP after tool calls too. *)
Definition gemini_finish (candidate : json) (reason : str) : FinishReason :=
  if reason =$ "STOP" then
    if existsb (λ part, HasMember part "functionCall") (array_member (object_member candidate "content") "parts")
    then ToolCalls else Stop
  else if reason =$ "MAX_TOKENS" then Length else if reason =$ "SAFETY" then Safety
  else if reason =$ "RECITATION" then Recitation else Unknown.

Definition is_function_call (item : json) : bool :=
  match string_view item "type" with Some t => t =$ "function_call" | None => false end.

Definition responses_finish (root : json) (status : str) : FinishReason :=
  if status =$ "completed" then
    if existsb is_function_call (array_member root "output") then ToolCalls else Stop
  else if status =$ "incomplete" then Length else if status =$ "failed" then ContentFilter else Unknown.

Definition parse_finish_reason (from : Format) (root : json) : FinishReason :=
  match from with
  | OpenAIChatCompletions =>
      match string_view (first_of root "choices") "finish_reason" with Some r => openai_finish r | None => Unknown end
  | Anthropic => match string_view root "stop_reason" with Some r => anthropic_finish r | None => Unknown end
  | Gemini =>
      let candidate := first_of root "candidates" in
      match string_view candidate "finishReason" with Some r => gemini_finish candidate r | None => Unknown end
  | OpenAIResponses => match string_view root "status" with Some s => responses_finish root s | None => Unknown end
  end.

Definition serialize_finish_reason (reason : FinishReason) (to : Format) : str :=
  match to with
  | OpenAIChatCompletions =>
      match reason with
      | Stop => "stop" | Length => "length" | ToolCalls => "tool_calls" | ContentFilter => "content_filter"
      | Safety => "content_filter" | Recitation => "content_filter" | Unknown => "stop"
      end
  | Anthropic =>
      match reason with
      | Stop => "end_turn" | Length => "max_tokens" | ToolCalls => "tool_use" | ContentFilter => "end_turn"
      | Safety => "end_turn" | Recitation => "end_turn" | Unknown => "end_turn"
      end
  | Gemini =>
      match reason with
      | Stop => "STOP" | Length => "MAX_TOKENS" | ToolCalls => "STOP" | ContentFilter => "SAFETY"
      | Safety => "SAFETY" | Recitation => "RECITATION" | Unknown => "STOP"
      end
  | OpenAIResponses =>
      match reason with
      | Stop => "completed" | Length => "incomplete" | ToolCalls => "completed" | ContentFilter => "failed"
      | Safety => "failed" | Recitation => "failed" | Unknown => "completed"
      end
  end.

(** ** Parts of an answer *)

Section Response.
Context {RJ : RapidJson}.

Definition openai_call (tc : json) : option ToolCall :=
  if negb (IsObject tc) then None
  else Some (
    match member tc "function" with
    | Some ((JObject _) as fn) => mkToolCall (get_str tc "id") (get_str fn "name") (get_str fn "arguments")
    | _ => mkToolCall (get_str tc "id") [] []
    end).

Definition anthropic_call (block : json) : option ToolCall :=
  match string_view block "type" with
  | Some t =>
      if t =$ "tool_use"
      then Some (mkToolCall (get_str block "id") (get_str block "name") (printed_object block "input"))
      else None
  | None => None
  end.

(** The counter numbers the calls of one answer. *)
Fixpoint gemini_calls (counter : Z) (parts : list json) : list ToolCall :=
  match parts with
  | [] => []
  | part :: parts' =>
      match member part "functionCall" with
      | Some ((JObject _) as fc) =>
          let name := get_str fc "name" in
          let counter := i32 (counter + 1) in
          mkToolCall (numbered_id name counter) name (printed_object fc "args") :: gemini_calls counter parts'
      | _ => gemini_calls counter parts'
      end
  end.

Definition responses_call (item : json) : option ToolCall :=
  if is_function_call item
  then Some (mkToolCall (get_str item "call_id") (get_str item "name") (get_str item "arguments"))
  else None.

Definition extract_tool_calls (from : Format) (root : json) : list ToolCall :=
  match from with
  | OpenAIChatCompletions =>
      omap openai_call (array_member (object_member (first_of root "choices") "message") "tool_calls")
  | Anthropic => omap anthropic_call (array_member root "content")
  | Gemini =>
      gemini_calls 0 (array_member (object_member (first_of root "candidates") "content") "parts")
  | OpenAIResponses => omap responses_call (array_member root "output")
  end.

(** [text += block["text"].GetString()] over an array. *)
Definition joined_texts (blocks : list json) : str := concat ((λ b, get_str b "text") <$> blocks).

Definition response_text (root : json) : str :=
  let choice := first_of root "choices" in
  match member (object_member choice "message") "content" with
  | Some (JString s) => cstr s
  | _ =>
      match string_view choice "text" with
      | Some s => cstr s
      | None =>
          match string_view root "output_text" with
          | Some s => cstr s
          | None =>
              let content := joined_texts (array_member root "content") in
              if negb (empty content) then content
              else
                let output := concat ((λ item, joined_texts (array_member item "content")) <$> array_member root "output") in
                if negb (empty output) then output
                else joined_texts (array_member (object_member (first_of root "candidates") "content") "parts")
          end
      end
  end.

Definition has_type (types : list str) (v : json) : bool :=
  match string_view v "type" with Some t => bool_decide (t ∈ types) | None => false end.

Definition has_unsupported_response_shape (root : json) (from : Format) : bool :=
  match from with
  | OpenAIChatCompletions =>
      (1 <? Z.of_nat (length (array_member root "choices")))
      || let message := object_member (first_of root "choices") "message" in
         HasMember message "refusal" || has message "content" (λ v, negb (IsString v) && negb (IsNull v))
  | Gemini =>
      (1 <? Z.of_nat (length (array_member root "candidates")))
      || existsb (λ candidate,
           existsb (λ part, negb (HasMember part "text") && negb (HasMember part "functionCall"))
             (array_member (object_member candidate "content") "parts")) (array_member root "candidates")
  | Anthropic => existsb (λ block, negb (has_type [lit "text"; lit "tool_use"] block)) (array_member root "content")
  | OpenAIResponses =>
      existsb (λ item,
        negb (has_type [lit "message"; lit "function_call"] item)
        || (has_type [lit "message"] item
            && existsb (λ block, negb (has_type [lit "output_text"] block)) (array_member item "content")))
        (array_member root "output")
  end.

Definition response_model (root : json) (fallback : str) : str :=
  if negb (empty (get_str root "model")) then get_str root "model"
  else if negb (empty (get_str root "id")) then get_str root "id"
  else fallback.

Definition response_id (root : json) (target : Format) : str :=
  if negb (empty (get_str root "id")) then get_str root "id"
  else match target with
       | OpenAIChatCompletions => "chatcmpl-gateway"
       | Anthropic => "msg_gateway"
       | OpenAIResponses => "resp_gateway"
       | Gemini => []
       end.

(** ** Usage *)

Fixpoint usage_integer (usage : json) (keys : list str) : Z :=
  match keys with
  | [] => 0
  | key :: keys' =>
      match member usage key with
      | Some value =>
          if IsInt value then Z.max 0 (get_int value)
          else if IsInt64 value then Z.min (2 ^ 31 - 1) (Z.max 0 (get_int value))
          else if IsUint value then Z.min (2 ^ 31 - 1) (get_int value)
          else usage_integer usage keys'
      | None => usage_integer usage keys'
      end
  end.

Definition source_usage (source : json) : option json :=
  match member source "usage" with
  | Some ((JObject _) as u) => Some u
  | _ => match member source "usageMetadata" with Some ((JObject _) as u) => Some u | _ => None end
  end.

Definition usage_input (usage : json) : Z :=
  usage_integer usage ["input_tokens" : str; "prompt_tokens" : str; "promptTokenCount" : str].
Definition usage_output (usage : json) : Z :=
  usage_integer usage ["output_tokens" : str; "completion_tokens" : str; "candidatesTokenCount" : str].
Definition usage_cache_create (usage : json) : Z := usage_integer usage ["cache_creation_input_tokens" : str].
Definition usage_cache_read (usage : json) : Z :=
  let cache_read := usage_integer usage ["cache_read_input_tokens" : str; "cachedContentTokenCount" : str] in
  let cache_read := Z.max cache_read (usage_integer (object_member usage "prompt_tokens_details") ["cached_tokens" : str]) in
  Z.max cache_read (usage_integer (object_member usage "input_tokens_details") ["cached_tokens" : str]).

(** The member the converted usage is added as; the sum of the two counts is taken in
    [int]. *)
Definition add_converted_usage (source : json) (to : Format) : list (str * json) :=
  match source_usage source with
  | None => []
  | Some usage =>
      let input := usage_input usage in
      let output := usage_output usage in
      let create := usage_cache_create usage in
      let read := usage_cache_read usage in
      let details := JObject [("cached_tokens" : str, JInt read)] in
      match to with
      | OpenAIChatCompletions =>
          [("usage" : str, JObject ([("prompt_tokens" : str, JInt input); ("completion_tokens" : str, JInt output);
             ("total_tokens" : str, JInt (i32 (input + output)))]
             ++ when (0 <? read) "prompt_tokens_details" details))]
      | OpenAIResponses =>
          [("usage" : str, JObject ([("input_tokens" : str, JInt input); ("output_tokens" : str, JInt output);
             ("total_tokens" : str, JInt (i32 (input + output)))]
             ++ when (0 <? read) "input_tokens_details" details))]
      | Anthropic =>
          [("usage" : str, JObject ([("input_tokens" : str, JInt input); ("output_tokens" : str, JInt output)]
             ++ when (0 <? create) "cache_creation_input_tokens" (JInt create)
             ++ when (0 <? read) "cache_read_input_tokens" (JInt read)))]
      | Gemini =>
          [("usageMetadata" : str, JObject ([("promptTokenCount" : str, JInt input);
             ("candidatesTokenCount" : str, JInt output); ("totalTokenCount" : str, JInt (i32 (input + output)))]
             ++ when (0 <? read) "cachedContentTokenCount" (JInt read)))]
      end
  end.

(** ** The converted answer *)

Definition openai_answer (id model text finish : str) (calls : list ToolCall) : list (str * json) :=
  [("id" : str, jstr id); ("object" : str, jstr "chat.completion"); ("model" : str, jstr model);
   ("choices" : str, JArray [JObject [("index" : str, JInt 0);
      ("message" : str, JObject (
         [("role" : str, jstr "assistant");
          ("content" : str, if empty text && nonempty calls then JNull else jstr text)]
         ++ when (nonempty calls) "tool_calls" (JArray ((λ tc,
              JObject [("id" : str, jstr (tc_id tc)); ("type" : str, jstr "function");
                ("function" : str, JObject [("name" : str, jstr (tc_name tc));
                                            ("arguments" : str, jstr (tc_arguments tc))])]) <$> calls))));
      ("finish_reason" : str, jstr finish)]])].

Definition text_part (type text : str) : json := JObject [("type" : str, jstr type); ("text" : str, jstr text)].

Definition anthropic_answer (id model text finish : str) (calls : list ToolCall) : list (str * json) :=
  let blocks :=
    (if empty text then [] else [text_part "text" text])
    ++ ((λ tc, JObject [("type" : str, jstr "tool_use"); ("id" : str, jstr (tc_id tc));
                        ("name" : str, jstr (tc_name tc)); ("input" : str, object_or_empty (tc_arguments tc))]) <$> calls) in
  [("id" : str, jstr id); ("type" : str, jstr "message"); ("role" : str, jstr "assistant"); ("model" : str, jstr model);
   ("content" : str, JArray (if nonempty blocks then blocks else [text_part "text" text]));
   ("stop_reason" : str, jstr finish)].

Definition responses_answer (id model text finish : str) (calls : list ToolCall) : list (str * json) :=
  [("id" : str, jstr id); ("object" : str, jstr "response"); ("status" : str, jstr finish); ("model" : str, jstr model);
   ("output_text" : str, jstr text);
   ("output" : str, JArray (
      (if negb (empty text) || negb (nonempty calls) then
         [JObject [("type" : str, jstr "message"); ("role" : str, jstr "assistant");
                   ("content" : str, JArray [text_part "output_text" text])]]
       else [])
      ++ ((λ tc, JObject [("type" : str, jstr "function_call"); ("call_id" : str, jstr (tc_id tc));
                          ("name" : str, jstr (tc_name tc)); ("arguments" : str, jstr (tc_arguments tc))]) <$> calls)))].

Definition gemini_answer (text finish : str) (calls : list ToolCall) : list (str * json) :=
  let parts :=
    (if empty text then [] else [JObject [("text" : str, jstr text)]])
    ++ ((λ tc, JObject [("functionCall" : str, JObject [("name" : str, jstr (tc_name tc));
                          ("args" : str, object_or_empty (tc_arguments tc))])]) <$> calls) in
  [("candidates" : str, JArray [JObject [
      ("content" : str, JObject [("role" : str, jstr "model");
         ("parts" : str, JArray (if nonempty parts then parts else [JObject [("text" : str, jstr text)]]))]);
      ("finishReason" : str, jstr finish)]])].

Definition effective_finish (from : Format) (source : json) : FinishReason :=
  if nonempty (extract_tool_calls from source) then ToolCalls else parse_finish_reason from source.

Definition converted_document (source : json) (from to : Format) (requested_model : str) : json :=
  let text := response_text source in
  let model := response_model source requested_model in
  let id := response_id source to in
  let calls := extract_tool_calls from source in
  let finish := serialize_finish_reason (effective_finish from source) to in
  JObject (
    match to with
    | OpenAIChatCompletions => openai_answer id model text finish calls
    | Anthropic => anthropic_answer id model text finish calls
    | OpenAIResponses => responses_answer id model text finish calls
    | Gemini => gemini_answer text finish calls
    end ++ add_converted_usage source to).

Definition convert_response_checked (body : str) (from to : Format) (requested_model : str) : ConversionResult :=
  if bool_decide (from = to) then mkConversion true body []
  else
    match Parse body with
    | Some ((JObject _) as source) =>
        if has_unsupported_response_shape source from
        then mkConversion false [] "Upstream response contains unsupported tool or multimodal content"
        else mkConversion true (dump (converted_document source from to requested_model)) []
    | _ => mkConversion false [] "Upstream response is not a JSON object"
    end.

Definition convert_response (body : str) (from to : Format) (requested_model : str) : str :=
  cr_body (convert_response_checked body from to requested_model).

(** ** Errors *)

Record CanonicalError := mkCanonical { ce_type : str; ce_message : str; ce_code : str }.

Definition error_member (root : json) (key : str) : str :=
  match string_view root key with Some s => s | None => [] end.

Definition canonical_type (type : str) (status_code : Z) : str :=
  if status_code =? 401 then "authentication_error"
  else if status_code =? 403 then "permission_error"
  else if status_code =? 404 then "not_found_error"
  else if (status_code =? 408) || (status_code =? 504) then "timeout_error"
  else if status_code =? 429 then "rate_limit_error"
  else if 500 <=? status_code then "provider_error"
  else if contains type "auth" then "authentication_error"
  else if contains type "rate" || contains type "quota" then "rate_limit_error"
  else if contains type "permission" || contains type "forbidden" then "permission_error"
  else if contains type "not_found" || (type =$ "NOT_FOUND") then "not_found_error"
  else if contains type "invalid" || (type =$ "INVALID_ARGUMENT") then "invalid_request_error"
  else if (400 <=? status_code) && (status_code <? 500) then "invalid_request_error"
  else "provider_error".

Definition error_object (source : json) : json :=
  match member source "error" with Some ((JObject _) as e) => e | _ => source end.

Definition canonical_error (body : str) (status_code : Z) : CanonicalError :=
  let error := match Parse body with Some ((JObject _) as source) => error_object source | _ => JNull end in
  let message :=
    let m := error_member error "message" in if empty m then error_member error "detail" else m in
  mkCanonical (canonical_type (error_member error "type") status_code)
    (if empty message then "Provider request failed" else message) (error_member error "code").

Definition gemini_status (type : str) : str :=
  if type =$ "invalid_request_error" then "INVALID_ARGUMENT"
  else if type =$ "authentication_error" then "UNAUTHENTICATED"
  else if type =$ "permission_error" then "PERMISSION_DENIED"
  else if type =$ "not_found_error" then "NOT_FOUND"
  else if type =$ "rate_limit_error" then "RESOURCE_EXHAUSTED"
  else if type =$ "timeout_error" then "DEADLINE_EXCEEDED"
  else "INTERNAL".

Definition error_document (e : CanonicalError) (status_code : Z) (to : Format) : json :=
  match to with
  | Anthropic =>
      JObject [("type" : str, JString "error");
               ("error" : str, JObject [("type" : str, JString (ce_type e)); ("message" : str, JString (ce_message e))])]
  | Gemini =>
      JObject [("error" : str, JObject [("code" : str, JInt status_code); ("message" : str, JString (ce_message e));
                                        ("status" : str, JString (gemini_status (ce_type e)))])]
  | _ =>
      JObject [("error" : str, JObject ([("message" : str, JString (ce_message e)); ("type" : str, JString (ce_type e));
                                         ("param" : str, JNull)]
                                        ++ when (negb (empty (ce_code e))) "code" (JString (ce_code e))))]
  end.

Definition convert_error (body : str) (status_code : Z) (from to : Format) : str :=
  if bool_decide (from = to) then body
  else Write (error_document (canonical_error body status_code) status_code to).
End Response.

(** ** What a converted answer reads as *)

Section Preserved.
Context {RJ : RapidJson}.

Lemma clean_app a b : clean a -> clean b -> clean (a ++ b).
Proof. intros Ha Hb. apply not_elem_of_app. by split. Qed.

Lemma clean_joined l : clean (joined_texts l).
Proof. unfold joined_texts. induction l as [|b l IH]; simpl; auto using clean_app with gw. Qed.

Lemma clean_response_text root : clean (response_text root).
Proof.
  assert (forall l, clean (concat ((λ item, joined_texts (array_member item "content")) <$> l))) as Hc.
  { intros l. induction l as [|b l IH]; simpl; auto using clean_app, clean_joined with gw. }
  unfold response_text. cbv zeta. repeat case_match; auto using clean_joined with gw.
Qed.

Lemma clean_to_string z : clean (to_string z).
Proof.
  assert (forall n, 0 <= n -> clean (to_string n)) as Hpos.
  { intros n Hn. destruct (to_string_printed n Hn) as [[_ H] _]. by apply printed_not_in. }
  destruct z as [|p|p]; [by apply Hpos|by apply Hpos|].
  change (to_string (Z.neg p)) with ("-"%char :: to_string (Z.pos p)).
  apply not_elem_of_cons. split; [done|by apply Hpos].
Qed.

Lemma Forall_omap {A B} (P : B -> Prop) (f : A -> option B) l :
  (forall x y, f x = Some y -> P y) -> Forall P (omap f l).
Proof. intros Hf. induction l as [|x l IH]; [constructor|]. simpl. destruct (f x) eqn:E; [|done]. constructor; eauto. Qed.

Lemma clean_gemini_calls k parts : Forall clean_call (gemini_calls k parts).
Proof.
  revert k. induction parts as [|x l IH]; intros k; simpl; [constructor|].
  repeat case_match; auto. constructor; [|apply IH]. repeat split; simpl; auto with gw.
  unfold numbered_id. auto using clean_app, clean_to_string with gw.
Qed.

Lemma clean_calls from root : Forall clean_call (extract_tool_calls from root).
Proof.
  destruct from; simpl; [apply Forall_omap..|apply clean_gemini_calls]; intros x c.
  - unfold anthropic_call. repeat case_match; try done. intros [= <-]. repeat split; simpl; auto with gw.
  - unfold openai_call. repeat case_match; try done; intros [= <-]; repeat split; simpl; auto with gw.
  - unfold responses_call. repeat case_match; try done. intros [= <-]. repeat split; simpl; auto with gw.
Qed.

(** The added usage does not hide any other member. *)
Lemma usage_member_other source to (key : str) :
  key <> "usage" -> key <> "usageMetadata" -> find_member key (add_converted_usage source to) = None.
Proof.
  intros H1 H2. unfold add_converted_usage. destruct (source_usage source); [|done].
  destruct to; cbn [find_member]; destruct (_ =$ _) eqn:E; try done; apply str_eqb_eq in E as <-; done.
Qed.

Definition answer (to : Format) (id model text finish : str) (calls : list ToolCall) : list (str * json) :=
  match to with
  | OpenAIChatCompletions => openai_answer id model text finish calls
  | Anthropic => anthropic_answer id model text finish calls
  | OpenAIResponses => responses_answer id model text finish calls
  | Gemini => gemini_answer text finish calls
  end.

Lemma converted_member source from to requested (key : str) :
  key <> "usage" -> key <> "usageMetadata" ->
  member (converted_document source from to requested) key
  = find_member key (answer to (response_id source to) (response_model source requested) (response_text source)
      (serialize_finish_reason (effective_finish from source) to) (extract_tool_calls from source)).
Proof.
  intros H1 H2. unfold converted_document. cbv zeta. cbn [member]. rewrite find_member_app, usage_member_other by done.
  by destruct to; case_match.
Qed.

(** Looks one member up in a converted answer. *)
Local Ltac converted :=
  rewrite converted_member by (intros E; apply (f_equal length) in E; vm_compute in E; discriminate E).

Lemma joined_calls {A} (print : A -> json) l : (forall x, get_str (print x) "text" = []) ->
  joined_texts (print <$> l) = [].
Proof. intros H. unfold joined_texts. induction l as [|x l IH]; [done|].
  cbn [fmap list_fmap concat]. by rewrite H. Qed.

Lemma joined_app l k : joined_texts (l ++ k) = joined_texts l ++ joined_texts k.
Proof. unfold joined_texts. by rewrite fmap_app, concat_app. Qed.

(** A text part first, then the calls; a lone text part when there is nothing. *)
Lemma joined_blocks {A} (text : str) (part : json) (print : A -> json) (calls : list A) :
  clean text -> get_str part "text" = text -> (forall x, get_str (print x) "text" = []) ->
  let blocks := (if empty text then [] else [part]) ++ (print <$> calls) in
  joined_texts (if nonempty blocks then blocks else [part]) = text.
Proof.
  intros Hc Hp Hx blocks. assert (joined_texts [part] = text) as H1 by (unfold joined_texts; simpl; by rewrite Hp, app_nil_r).
  destruct (nonempty blocks); [|done]. unfold blocks. rewrite joined_app, joined_calls, app_nil_r by done.
  destruct (empty text) eqn:E; [|done]. apply empty_true in E as ->. done.
Qed.

Lemma converted_text source from to requested :
  response_text (converted_document source from to requested) = response_text source.
Proof.
  pose proof (clean_response_text source) as Hc. unfold response_text at 1. cbv zeta.
  unfold first_of, string_view, array_member, object_member.
  set (doc := converted_document source from to requested).
  assert (forall key : str, key <> "usage" -> key <> "usageMetadata" -> member doc key = find_member key
    (answer to (response_id source to) (response_model source requested) (response_text source)
      (serialize_finish_reason (effective_finish from source) to) (extract_tool_calls from source))) as Hm
    by (intros; by apply converted_member).
  clearbody doc. rewrite !Hm by (apply str_eqb_neq; vm_compute; reflexivity).
  generalize (response_id source to), (response_model source requested), (extract_tool_calls from source),
    (serialize_finish_reason (effective_finish from source) to). intros id model calls finish. clear Hm.
  destruct to; cbn [answer].
  - unfold anthropic_answer. members. cbn [hd]. members.
    rewrite (joined_blocks (response_text source) (text_part "text" (response_text source)));
      [|done|by apply cstr_cstr_clean|done].
    destruct (empty (response_text source)) eqn:E; [|done]. by apply empty_true in E as ->.
  - unfold openai_answer. members. cbn [hd]. members.
    destruct (empty (response_text source) && nonempty calls) eqn:E; [|by apply cstr_cstr_clean].
    apply andb_true_iff in E as [E _]. apply empty_true in E as ->. done.
  - unfold responses_answer. members. cbn [hd]. members. by apply cstr_cstr_clean.
  - unfold gemini_answer. members. cbn [hd]. members. members.
    apply (joined_blocks (response_text source) (JObject [("text" : str, jstr (response_text source))]));
      [done|by apply cstr_cstr_clean|done].
Qed.

(** The tool calls a client reads: their arguments are printed again in the formats
    that carry them as an object, and Gemini numbers them. *)
Definition reprint (tc : ToolCall) : ToolCall :=
  mkToolCall (tc_id tc) (tc_name tc) (dump (object_or_empty (tc_arguments tc))).

Fixpoint renumber (k : Z) (calls : list ToolCall) : list ToolCall :=
  match calls with
  | [] => []
  | tc :: calls' =>
      mkToolCall (numbered_id (tc_name tc) (i32 (k + 1))) (tc_name tc) (tc_arguments tc) :: renumber (i32 (k + 1)) calls'
  end.

Definition shown_calls (to : Format) (calls : list ToolCall) : list ToolCall :=
  match to with
  | OpenAIChatCompletions | OpenAIResponses => calls
  | Anthropic => reprint <$> calls
  | Gemini => renumber 0 (reprint <$> calls)
  end.

Lemma object_or_empty_object s : exists l, object_or_empty s = JObject l.
Proof. unfold object_or_empty. repeat case_match; eauto. Qed.

Lemma gemini_calls_printed k calls : Forall clean_call calls ->
  gemini_calls k ((λ tc, JObject [("functionCall" : str, JObject [("name" : str, jstr (tc_name tc));
                          ("args" : str, object_or_empty (tc_arguments tc))])]) <$> calls)
  = renumber k (reprint <$> calls).
Proof.
  intros H. revert k. induction H as [|tc calls (Hi & Hn & Ha) _ IH]; intros k; [done|].
  cbn [fmap list_fmap gemini_calls renumber].
  destruct (object_or_empty_object (tc_arguments tc)) as [l El]. rewrite El.
  unfold jstr in IH |- *. members. members.
  rewrite cstr_cstr_clean by done. cbv zeta. rewrite IH. simpl. by rewrite El.
Qed.

Lemma omap_mapped {A B C} (f : B -> option C) (print : A -> B) (g : A -> C) (ok : A -> Prop) l :
  (forall x, ok x -> f (print x) = Some (g x)) -> Forall ok l -> omap f (print <$> l) = g <$> l.
Proof.
  intros Hf. induction 1 as [|x l Hx _ IH]; [done|]. cbn [fmap list_fmap]. rewrite <- IH. simpl. by rewrite Hf.
Qed.

(** Text parts are not tool calls. *)
Lemma omap_blocks {A C} (f : json -> option C) (b : bool) (part : json) (print : A -> json) (calls : list A) :
  f part = None ->
  let blocks := (if b then [] else [part]) ++ (print <$> calls) in
  omap f (if nonempty blocks then blocks else [part]) = omap f (print <$> calls).
Proof.
  intros Hp blocks. unfold blocks. destruct b; [destruct calls|]; simpl; by rewrite ?Hp.
Qed.

Lemma converted_calls source from to requested :
  extract_tool_calls to (converted_document source from to requested)
  = shown_calls to (extract_tool_calls from source).
Proof.
  pose proof (clean_calls from source) as Hc. destruct to; cbn [extract_tool_calls shown_calls];
    unfold first_of, array_member, object_member; converted; cbn [answer];
    generalize (response_text source), (response_id source), (response_model source requested),
      (effective_finish from source); intros text id model finish; revert Hc;
    generalize (extract_tool_calls from source); intros calls Hc.
  - unfold anthropic_answer. members. rewrite omap_blocks by done.
    eapply omap_mapped, Hc. intros tc (Hi & Hn & Ha).
    destruct (object_or_empty_object (tc_arguments tc)) as [l El]. unfold anthropic_call, string_view, reprint, jstr.
    rewrite El. members. by rewrite !cstr_cstr_clean.
  - unfold openai_answer. members. cbn [hd]. members. members.
    destruct (nonempty calls) eqn:E; [|by destruct calls]. eapply omap_print, Hc. intros [i n a] (Hi & Hn & Ha). cbn in *.
    unfold openai_call, jstr. members. members. by rewrite !cstr_cstr_clean.
  - unfold responses_answer. members. rewrite omap_app.
    assert (forall b : bool, omap responses_call (if b then
         [JObject [("type" : str, jstr "message"); ("role" : str, jstr "assistant");
                   ("content" : str, JArray [text_part "output_text" text])]] else []) = []) as -> by (by intros []).
    cbn [app]. eapply omap_print, Hc. intros [i n a] (Hi & Hn & Ha). cbn in *.
    unfold responses_call, is_function_call, string_view, jstr. members. by rewrite !cstr_cstr_clean.
  - unfold gemini_answer. members. cbn [hd]. members. members.
    rewrite <- gemini_calls_printed by done. set (mapped := _ <$> calls).
    destruct (empty text); [|done]. cbn [app]. by destruct mapped.
Qed.

(** ** Finish reasons *)

(** What a client reads of a reason. *)
Definition shown_finish (to : Format) (reason : FinishReason) : FinishReason :=
  match to, reason with
  | _, (Stop | Unknown) => Stop
  | _, Length => Length
  | _, ToolCalls => ToolCalls
  | (OpenAIChatCompletions | OpenAIResponses), _ => ContentFilter
  | Anthropic, _ => Stop
  | Gemini, Recitation => Recitation
  | Gemini, _ => Safety
  end.

Lemma existsb_mapped {A} (p : json -> bool) (print : A -> json) l :
  (forall x, p (print x) = true) -> existsb p (print <$> l) = nonempty l.
Proof. intros H. destruct l; [done|]. simpl. by rewrite H. Qed.

Lemma existsb_blocks {A} (p : json -> bool) (b : bool) (part : json) (print : A -> json) (calls : list A) :
  p part = false -> (forall x, p (print x) = true) ->
  let blocks := (if b then [] else [part]) ++ (print <$> calls) in
  existsb p (if nonempty blocks then blocks else [part]) = nonempty calls.
Proof.
  intros Hp Hx blocks. unfold blocks. destruct b, calls; simpl; by rewrite ?Hp, ?Hx.
Qed.

Lemma converted_finish source from to requested :
  (effective_finish from source = ToolCalls -> extract_tool_calls from source <> []) ->
  parse_finish_reason to (converted_document source from to requested) = shown_finish to (effective_finish from source).
Proof.
  intros Ht. assert (nonempty (extract_tool_calls from source) = bool_decide (effective_finish from source = ToolCalls)) as Hn.
  { unfold effective_finish in *. destruct (extract_tool_calls from source) as [|c l]; cbn [nonempty] in *; [|done].
    case_bool_decide; [by destruct Ht|done]. }
  destruct to; cbn [parse_finish_reason]; unfold responses_finish, gemini_finish, first_of, string_view, array_member, object_member;
    repeat converted; cbn [answer]; revert Hn; generalize (response_text source), (response_id source),
      (response_model source requested), (effective_finish from source), (extract_tool_calls from source);
    intros text id model finish calls Hn.
  - unfold anthropic_answer. members. unfold jstr. by destruct finish.
  - unfold openai_answer. members. cbn [hd]. members. unfold jstr. by destruct finish.
  - unfold responses_answer. members. rewrite existsb_app, existsb_mapped, Hn by done.
    assert (forall b : bool, existsb is_function_call (if b then
         [JObject [("type" : str, jstr "message"); ("role" : str, jstr "assistant");
                   ("content" : str, JArray [text_part "output_text" text])]] else []) = false) as -> by (by intros []).
    by destruct finish.
  - unfold gemini_answer. members. cbn [hd]. members. members. rewrite existsb_blocks, Hn by done. by destruct finish.
Qed.

(** ** Usage *)

Lemma usage_integer_range usage keys : 0 <= usage_integer usage keys < 2 ^ 31.
Proof.
  induction keys as [|key keys IH]; cbn [usage_integer]; [lia|]. destruct (member usage key) as [v|]; [|done].
  destruct (IsInt v) eqn:Ei.
  { destruct v; try done. apply IsInt_range in Ei. simpl. lia. }
  destruct (IsInt64 v); [lia|]. destruct (IsUint v) eqn:Eu; [|done].
  destruct v; try done. simpl in *. rewrite andb_true_iff, Z.leb_le, Z.ltb_lt in Eu. lia.
Qed.

Lemma usage_cache_read_range usage : 0 <= usage_cache_read usage < 2 ^ 31.
Proof.
  unfold usage_cache_read. cbv zeta.
  pose proof (usage_integer_range usage ["cache_read_input_tokens" : str; "cachedContentTokenCount" : str]).
  pose proof (usage_integer_range (object_member usage "prompt_tokens_details") ["cached_tokens" : str]).
  pose proof (usage_integer_range (object_member usage "input_tokens_details") ["cached_tokens" : str]). lia.
Qed.

Lemma count_is_int z : 0 <= z < 2 ^ 31 -> IsInt (JInt z) = true.
Proof. intros H. apply IsInt_range. lia. Qed.

Lemma converted_usage source from to requested usage :
  source_usage source = Some usage ->
  exists usage', source_usage (converted_document source from to requested) = Some usage'
    /\ usage_input usage' = usage_input usage /\ usage_output usage' = usage_output usage
    /\ usage_cache_read usage' = usage_cache_read usage
    /\ (to = Anthropic -> usage_cache_create usage' = usage_cache_create usage).
Proof.
  intros Hu. unfold source_usage, converted_document. cbv zeta. cbn [member].
  rewrite !find_member_app.
  assert (forall id model text finish calls, find_member "usage" (match to with
    | OpenAIChatCompletions => openai_answer id model text finish calls
    | Anthropic => anthropic_answer id model text finish calls
    | OpenAIResponses => responses_answer id model text finish calls
    | Gemini => gemini_answer text finish calls end) = None /\ find_member "usageMetadata" (match to with
    | OpenAIChatCompletions => openai_answer id model text finish calls
    | Anthropic => anthropic_answer id model text finish calls
    | OpenAIResponses => responses_answer id model text finish calls
    | Gemini => gemini_answer text finish calls end) = None) as Hno by (intros; by destruct to).
  rewrite !(proj1 (Hno _ _ _ _ _)), !(proj2 (Hno _ _ _ _ _)). clear Hno.
  unfold add_converted_usage. rewrite Hu. cbv zeta.
  assert (0 <= usage_input usage < 2 ^ 31) as Hi by apply usage_integer_range.
  assert (0 <= usage_output usage < 2 ^ 31) as Ho by apply usage_integer_range.
  assert (0 <= usage_cache_create usage < 2 ^ 31) as Hc by apply usage_integer_range.
  assert (0 <= usage_cache_read usage < 2 ^ 31) as Hr by apply usage_cache_read_range.
  revert Hi Ho Hc Hr. generalize (usage_input usage), (usage_output usage), (usage_cache_create usage), (usage_cache_read usage).
  intros input output create read Hi Ho Hc Hr. clear usage Hu.
  apply count_is_int in Hi as Ei, Ho as Eo, Hc as Ec, Hr as Er.
  destruct to; eexists; (split; [reflexivity|]);
    unfold usage_input, usage_output, usage_cache_create, usage_cache_read, object_member; cbn [usage_integer app];
    destruct (0 <? read) eqn:E1, (0 <? create) eqn:E2; cbn [when app]; members; cbn [usage_integer]; members;
    rewrite ?Ei, ?Eo, ?Ec, ?Er; cbn [get_int]; apply Z.ltb_lt in E1 || apply Z.ltb_ge in E1;
    apply Z.ltb_lt in E2 || apply Z.ltb_ge in E2; repeat split; try (intros [=]); lia.
Qed.
End Preserved.

(** ** Errors *)

Definition error_types : list str :=
  [lit "authentication_error"; lit "permission_error"; lit "not_found_error"; lit "timeout_error";
   lit "rate_limit_error"; lit "provider_error"; lit "invalid_request_error"].

Lemma canonical_type_listed type status_code : canonical_type type status_code ∈ error_types.
Proof.
  unfold canonical_type. repeat case_match; apply (bool_decide_eq_true_1 (_ ∈ _)); vm_compute; reflexivity.
Qed.

(** The part of the decision that reads the provider's label. *)
Definition labelled_type (type : str) (client_error : bool) : str :=
  if contains type "auth" then "authentication_error"
  else if contains type "rate" || contains type "quota" then "rate_limit_error"
  else if contains type "permission" || contains type "forbidden" then "permission_error"
  else if contains type "not_found" || (type =$ "NOT_FOUND") then "not_found_error"
  else if contains type "invalid" || (type =$ "INVALID_ARGUMENT") then "invalid_request_error"
  else if client_error then "invalid_request_error"
  else "provider_error".

Lemma labelled_type_idemp type b : labelled_type (labelled_type type b) b = labelled_type type b.
Proof. unfold labelled_type at 2 3. destruct b; repeat case_match; vm_compute; reflexivity. Qed.

(** Reading a canonical type again, under the same status, gives it back. *)
Lemma canonical_type_idemp type status_code :
  canonical_type (canonical_type type status_code) status_code = canonical_type type status_code.
Proof.
  set (b := (400 <=? status_code) && (status_code <? 500)).
  assert (forall t, canonical_type t status_code =
    if status_code =? 401 then "authentication_error" : str
    else if status_code =? 403 then "permission_error"
    else if status_code =? 404 then "not_found_error"
    else if (status_code =? 408) || (status_code =? 504) then "timeout_error"
    else if status_code =? 429 then "rate_limit_error"
    else if 500 <=? status_code then "provider_error"
    else labelled_type t b) as E by reflexivity.
  rewrite !E. repeat case_match; try done. apply labelled_type_idemp.
Qed.

(** ** Properties *)

Section Properties.
Context {RJ : RapidJson}.

End Properties.


(** ** Witnesses *)

Definition sample_answer : json :=
  JObject [("id" : str, JString "chatcmpl-7"); ("model" : str, JString "gpt-4o");
    ("choices" : str, JArray [JObject [("message" : str, JObject [("role" : str, JString "assistant");
       ("content" : str, JString "Hi there")]); ("finish_reason" : str, JString "length")]]);
    ("usage" : str, JObject [("prompt_tokens" : str, JInt 12); ("completion_tokens" : str, JInt 34)])].

Lemma sample_answer_read : @Parse coded_json (@Write coded_json sample_answer) = Some sample_answer.
Proof. apply Parse_Write. simpl. repeat split; lia. Qed.



(** ** Flaws *)

(** The total of two large counts overflows [int] and is printed as a negative number. *)
Lemma total_tokens_overflow :
  add_converted_usage (JObject [("usage" : str, JObject [("input_tokens" : str, JInt (2 ^ 31 - 1));
                                                         ("output_tokens" : str, JInt 1)])]) OpenAIChatCompletions
  = [("usage" : str, JObject [("prompt_tokens" : str, JInt (2 ^ 31 - 1)); ("completion_tokens" : str, JInt 1);
                              ("total_tokens" : str, JInt (- 2 ^ 31))])].
Proof. vm_compute. reflexivity. Qed.

(** An answer without a model is given its own identifier as the model, although the
    requested model is known. *)
Lemma model_replaced_by_id :
  response_model (JObject [("id" : str, JString "msg_1")]) "claude" = "msg_1".
Proof. reflexivity. Qed.

(** An Anthropic client of a Gemini or OpenAI account is told that an answer stopped by
    a content filter ended normally. *)
Lemma filtered_answer_ends_normally :
  shown_finish Anthropic ContentFilter = Stop /\ shown_finish Anthropic Safety = Stop.
Proof. done. Qed.
