(* ===== verification/GatewayRequest.v ===== *)
(** * The gateway's handler: reading requests and bodies

    The functions of the anonymous namespace of [server/gateway_handler.cpp],
    [extract_api_key], [compute_session_hash], and the checks [handle] makes on a
    request before anything is dispatched.  A string taken from [GetString()] ends
    at its first NUL. *)
From S2P Require Import Prelude Capability Auth DispatchTypes Json StreamPipe GatewayTypes.
#[local] Open Scope Z_scope.

(** [{:016x}] of a 64-bit value. *)
Fixpoint hex_digits (n : nat) (v : Z) : str :=
  match n with
  | O => []
  | S n' => hex_digits n' (v / 16) ++ [hex_digit (Z.to_nat (v mod 16))]
  end.
Definition hex16 (v : Z) : str := hex_digits 16 (u64 v).

(** The bytes of an [int64_t] in memory. *)
Fixpoint le_bytes (n : nat) (v : Z) : str :=
  match n with
  | O => []
  | S n' => ascii_of_nat (Z.to_nat (v mod 256)) :: le_bytes n' (v / 256)
  end.

Definition string_member (document : json) (key : str) : option str :=
  match member document key with Some (JString s) => Some (cstr s) | _ => None end.

(** The first of the keys that is a string. *)
Fixpoint first_string (document : json) (keys : list str) : option str :=
  match keys with
  | [] => None
  | key :: keys' =>
      match string_member document key with
      | Some s => Some s
      | None => first_string document keys'
      end
  end.

Definition eq_cap (c : Capability) (l : list Capability) : bool :=
  existsb (λ c', bool_decide (c = c')) l.

Definition chat_capability (c : Capability) : bool :=
  eq_cap c [Messages; ChatCompletions; Responses; ResponsesSubpath; GeminiGenerate].

Definition is_json_request (req : HttpRequest) : bool :=
  empty (hq_content_type req) || starts_with (hq_content_type req) "application/json"
  || starts_with (hq_content_type req) "text/json".

Definition format_from_name (name : str) (fallback : Format) : Format :=
  if eq_any name ["anthropic" : str; "messages" : str] then Anthropic
  else if eq_any name ["openai_chat" : str; "chat_completions" : str] then OpenAIChatCompletions
  else if eq_any name ["openai_responses" : str; "responses" : str] then OpenAIResponses
  else if name =$ "gemini" then Gemini
  else if eq_any name ["grok" : str; "xai" : str] then OpenAIChatCompletions
  else fallback.

(** The format of the selected provider. *)
Definition upstream_format_of (target : UpstreamTarget) : Format :=
  format_from_name (ut_upstream_format target)
    (if eq_any (ut_platform target) ["anthropic" : str; "claude" : str] then Anthropic
     else if eq_any (ut_platform target) ["gemini" : str; "google" : str] then Gemini
     else if eq_any (ut_platform target) ["grok" : str; "xai" : str] then OpenAIChatCompletions
     else if ut_upstream_path target =$ "/v1/responses" then OpenAIResponses
     else OpenAIChatCompletions).

(** The numbers of the two enumerations. *)
Definition format_code (f : Format) : Z :=
  match f with Anthropic => 0 | OpenAIChatCompletions => 1 | OpenAIResponses => 2 | Gemini => 3 end.
Definition endpoint_code (e : EndpointKind) : Z :=
  match e with
  | EpMessages => 0 | EpChatCompletions => 1 | EpResponses => 2 | EpEmbeddings => 3 | EpImages => 4
  | EpGemini => 5 | EpVideos => 6 | EpCountTokens => 7 | EpModels => 8 | EpAlphaSearch => 9
  | EpRealtime => 10 | EpAntigravity => 11 | EpAudioTts => 12 | EpAudioStt => 13
  end.

(** ** Media operations *)

Definition media_action (operation : str) : str :=
  if ends_with operation "list" then "list"
  else if ends_with operation "cancel" then "cancel"
  else if ends_with operation "content" || ends_with operation "download" then "content"
  else if ends_with operation "delete_outputs" then "delete_outputs"
  else if ends_with operation "delete" then "delete"
  else if ends_with operation "items" then "items"
  else "get".

Definition media_control_operation (operation : str) : bool :=
  eq_any operation
    ["images_task_get" : str; "images_batch_get" : str; "images_batch_list" : str;
     "images_batch_items" : str; "images_batch_download" : str; "images_batch_cancel" : str;
     "images_batch_delete" : str; "images_batch_delete_outputs" : str;
     "images_batch_item_content" : str; "videos_get" : str; "videos_content" : str;
     "videos_cancel" : str; "videos_delete" : str; "videos_delete_outputs" : str].

Definition persistent_create (operation : str) : bool :=
  eq_any operation
    ["images_generations_async" : str; "images_edits_async" : str; "images_batch_create" : str;
     "videos_generations" : str; "videos_edits" : str; "videos_extensions" : str].

Fixpoint find_marker (path : str) (markers : list str) : str :=
  match markers with
  | [] => []
  | marker :: markers' =>
      match sfind marker path with
      | None => find_marker path markers'
      | Some position =>
          let id := drop (position + length marker) path in
          upto (sfind "/" id) id
      end
  end.

Definition media_operation_id (path : str) : str :=
  find_marker path ["/images/tasks/" : str; "/images/batches/" : str; "/videos/" : str].

Definition pending_or_running (status : str) : bool :=
  (status =$ "pending") || (status =$ "running").

(** ** Keys and hashes *)

Definition extract_api_key (req : HttpRequest) : str :=
  if starts_with (hq_authorization req) "Bearer " then drop 7 (hq_authorization req)
  else if negb (empty (hq_x_api_key req)) then hq_x_api_key req
  else [].

Section Hashes.
Context {E : Environment}.

Definition compute_session_hash (key_hash metadata_user_id body model : str) : str :=
  hex16 (e_xxh64 (key_hash ++ [LF] ++ model ++ [LF]
    ++ (if negb (empty metadata_user_id) then metadata_user_id else take 4096 body)) 0).

Definition request_fingerprint (req : HttpRequest) : str :=
  let seed := e_xxh64 (hq_method req) 0 in
  let seed := e_xxh64 (hq_path req) seed in
  let seed := e_xxh64 (hq_query req) seed in
  let seed := e_xxh64 (hq_content_type req) seed in
  hex16 (e_xxh64 (hq_body req) seed).

Definition request_id_of (req : HttpRequest) (start : Z) : str :=
  if empty (hq_request_id req) then hex16 (e_xxh64 (le_bytes 8 (u64 start)) 0) else hq_request_id req.
End Hashes.

(** ** JSON bodies *)

Section Bodies.
Context {RJ : RapidJson}.

Definition parse_object (body : str) : option json :=
  match Parse body with Some ((JObject _) as document) => Some document | _ => None end.

Definition valid_json_object (body : str) : bool :=
  match parse_object body with Some _ => true | None => false end.

Definition parse_auth_version (body : str) : Z :=
  match parse_object body with
  | Some document =>
      match member document "version" with
      | Some v =>
          if IsInt64 v then get_int v
          else if IsUint64 v then (get_int v + 2 ^ 63) mod 2 ^ 64 - 2 ^ 63
          else 0
      | None => 0
      end
  | None => 0
  end.

Definition extract_model (body : str) : str :=
  match parse_object body with
  | Some document => default [] (string_member document "model")
  | None => []
  end.

(** [buffer.GetString()]. *)
Definition print (document : json) : str := cstr (Write document).

Definition error_json (type message : str) : str :=
  print (JObject [("error" : str, JObject [("type" : str, JString type); ("message" : str, JString message)])]).

Definition optional_member (key value : str) : list (str * json) :=
  if empty value then [] else [(key, JString (cstr value))].

Definition media_view_json (r : MediaOperationResult) : str :=
  print (JObject
    ([("id" : str, JString (cstr (mr_operation_id r)));
      ("task_id" : str, JString (cstr (mr_operation_id r)));
      ("object" : str, JString "media.operation");
      ("type" : str, JString (cstr (mr_operation_type r)));
      ("status" : str, JString (cstr (mr_status r)));
      ("progress" : str, JInt (mr_progress r))]
     ++ optional_member "upstream_task_id" (mr_upstream_task_id r)
     ++ optional_member "url" (mr_output_url r)
     ++ optional_member "content_type" (mr_content_type r)
     ++ (if empty (mr_output_metadata r) then []
         else match Parse (mr_output_metadata r) with
              | Some metadata => [("output" : str, metadata)]
              | None => []
              end))).

Definition media_items_json (r : MediaOperationResult) : str :=
  match parse_object (mr_output_metadata r) with
  | Some metadata =>
      match member metadata "data" with
      | Some ((JArray _) as data) => print data
      | _ => "[]"
      end
  | None => "[]"
  end.

Definition provider_task_id (body : str) : str :=
  match parse_object body with
  | Some document => default [] (first_string document ["task_id" : str; "request_id" : str; "id" : str])
  | None => []
  end.

Definition provider_media_status (body task_id : str) : str :=
  match parse_object body with
  | None => "running"
  | Some document =>
      let status := lower (default [] (string_member document "status")) in
      if eq_any status ["succeeded" : str; "completed" : str] then "succeeded"
      else if eq_any status ["failed" : str; "error" : str] then "failed"
      else if eq_any status ["canceled" : str; "cancelled" : str] then "canceled"
      else if empty task_id && (HasMember document "data" || HasMember document "url") then "succeeded"
      else "running"
  end.

Fixpoint first_url (values : list json) : str :=
  match values with
  | [] => []
  | value :: values' =>
      match (if IsObject value then string_member value "url" else None) with
      | Some url => url
      | None => first_url values'
      end
  end.

Definition provider_output_url (body : str) : str :=
  match parse_object body with
  | None => []
  | Some document =>
      match first_string document ["output_url" : str; "url" : str] with
      | Some url => url
      | None =>
          match member document "data" with
          | Some (JArray values) => first_url values
          | _ => []
          end
      end
  end.

(** ** Checks before the dispatch *)

Definition invalid_request (message : string) : str :=
  q "{'error':{'type':'invalid_request_error','message':'" ++ message ++ q "'}}".

Definition needs_model (spec : CapabilitySpec) (operation : str) : bool :=
  (chat_capability (capability spec) && negb (bool_decide (capability spec = ResponsesSubpath)))
  || bool_decide (capability spec = Embeddings) || bool_decide (capability spec = CountTokens)
  || eq_any operation
       ["images_generations" : str; "images_edits" : str; "images_generations_async" : str;
        "images_edits_async" : str; "images_batch_create" : str; "videos_generations" : str;
        "videos_edits" : str; "videos_extensions" : str; "audio_speech" : str;
        "audio_transcriptions" : str].

(** [doc.HasMember(key) && !doc[key].IsString()]. *)
Definition not_string (document : json) (key : str) : bool :=
  has document key (λ v, negb (IsString v)).

Definition search_error (body : str) : option str :=
  match parse_object body with
  | None => Some (invalid_request "A JSON object with a query is required")
  | Some document =>
      match string_member document "query" with
      | None => Some (invalid_request "query is required and must be a string")
      | Some query =>
          if empty query || (1000 <? length query)%nat
          then Some (invalid_request "query must be between 1 and 1000 characters")
          else if not_string document "domain" then Some (invalid_request "domain must be a string")
          else if not_string document "recency" then Some (invalid_request "recency must be a string")
          else None
      end
  end.

Definition tts_formats : list str :=
  ["mp3" : str; "opus" : str; "aac" : str; "flac" : str; "wav" : str; "pcm" : str].

Definition tts_error (body : str) : option str :=
  match parse_object body with
  | None => Some (invalid_request "A JSON object with input and voice is required")
  | Some document =>
      match string_member document "input" with
      | None => Some (invalid_request "input is required and must be a string")
      | Some input =>
          if empty input || (4096 <? length input)%nat
          then Some (invalid_request "input must be between 1 and 4096 characters")
          else match string_member document "voice" with
          | None => Some (invalid_request "voice is required and must be a string")
          | Some _ =>
              if HasMember document "response_format" then
                match string_member document "response_format" with
                | None => Some (invalid_request "response_format must be a string")
                | Some fmt =>
                    if eq_any fmt tts_formats then None
                    else Some (invalid_request
                      "response_format must be one of: mp3, opus, aac, flac, wav, pcm")
                end
              else None
          end
      end
  end.

Definition stt_error (body : str) : option str :=
  match parse_object body with
  | None => Some (invalid_request "A JSON object is required")
  | Some document =>
      if not_string document "language" then Some (invalid_request "language must be a string")
      else match string_member document "language" with
           | Some lang =>
               if (5 <? length lang)%nat
               then Some (invalid_request "language must be a BCP-47 tag of at most 5 characters")
               else None
           | None => None
           end
  end.

Context {CV : Converter}.

(** The model named by the path of a Gemini request. *)
Definition path_model (path : str) : str :=
  match sfind "/models/" path with
  | None => []
  | Some marker =>
      let start := (marker + 8)%nat in
      let stop := default (length path) (sfind_from ":" path start) in
      take (stop - start) (drop start path)
  end.

Definition set_model (model : str) (p : ParsedRequest) : ParsedRequest :=
  mkParsed (pr_format p) model (pr_stream p) (pr_metadata_user_id p) (pr_max_tokens p)
    (pr_thinking_enabled p).

Definition parse_request (req : HttpRequest) (matched : MatchedCapability) : ParsedRequest :=
  let s := spec matched in
  let p :=
    if chat_capability (capability s) && is_json_request req
    then parse (hq_body req) (inbound_format s)
    else
      let model := extract_model (hq_body req) in
      mkParsed (inbound_format s)
        (if empty model && starts_with (hq_content_type req) "multipart/form-data"
         then extract_multipart_field (hq_body req) (hq_content_type req) "model" else model)
        false [] 0 false in
  if eq_cap (capability s) [GeminiGenerate; GeminiModels] && empty (pr_model p)
  then match sfind "/models/" (hq_path req) with
       | Some _ => set_model (path_model (hq_path req)) p
       | None => p
       end
  else p.

(** The body of the 400 answer, when a check fails. *)
Definition request_error (req : HttpRequest) (matched : MatchedCapability) (model : str) : option str :=
  let s := spec matched in
  let body := hq_body req in
  let is_json := is_json_request req in
  if needs_model s (operation matched) && ((is_json && negb (valid_json_object body)) || empty model)
  then Some (invalid_request "A JSON object with a model is required")
  else if bool_decide (capability s = Embeddings) && is_json
    && negb (vr_valid (validate_embeddings_request body))
  then Some (error_json "invalid_request_error" (vr_message (validate_embeddings_request body)))
  else if bool_decide (capability s = Search) && is_json then search_error body
  else if bool_decide (capability s = AudioTts) && is_json then tts_error body
  else if bool_decide (capability s = AudioStt) && is_json then stt_error body
  else None.

Definition is_stream_request (matched : MatchedCapability) (p : ParsedRequest) : bool :=
  can_stream (spec matched) && (pr_stream p || (operation matched =$ "streamGenerateContent"))
  && negb (realtime (spec matched)).
End Bodies.
