(* ===== verification/Gateway.v ===== *)
(** * The gateway's handler: [GatewayHandler::handle]

    One request from its authentication to the settlement of its lease, in the
    order of [server/gateway_handler.cpp].  Each definition is a stretch of
    [handle]; the local variables that outlive a stretch are its arguments and
    results.  Log lines and the fault-injection hooks (which end the process when an
    operator has configured them) are left out. *)
From S2P Require Import Prelude Numbers Garnet Failover Capability Auth DispatchTypes Usage Json StreamPipe Forwarder Dispatch GatewayTypes GatewayRequest.
Import Retry Failover.
#[local] Open Scope Z_scope.

(** [ForwardConfig]'s member initialisers: the handler uses [Forwarder::create({})]. *)
Definition default_forward_config : ForwardConfig :=
  mkForwardConfig 30000 60000 120000 300000 15000 (64 * 1024) (64 * 1024) (64 * 1024 * 1024).

Definition kMaxInlineRequestBodyBytes : nat := 512 * 1024.

(** Milliseconds of a duration in nanoseconds, and a deadline 45 s ahead. *)
Definition to_ms (ns : Z) : Z := Z.quot ns 1000000.
Definition kDispatchDeadline : Z := 45 * 1000000000.

(** What an iteration of the forwarding loop leads to. *)
Inductive Verdict :=
| Finished (r : ForwardResult) (terminal_abort : bool)
| Retry (r : ForwardResult) (failover : FailoverController).

Definition in_2xx_3xx (status : Z) : bool := (200 <=? status) && (status <? 400).

Section Handle.
Context {RJ : RapidJson} {SC : StreamCodec} {CV : Converter} {E : Environment}.
Context (req : HttpRequest) (matched : MatchedCapability).

#[local] Abbreviation cap := (capability (spec matched)).

(** [resp.status_code = ...; resp.body = ...;] and the two metrics before an
    early [return 0]. *)
Definition refuse {A} (status : Z) (body : str) : hm A :=
  set_status status ;; set_body body ;; inc_failed ;; dec_active ;; finish_request.

(** ** Media operations answered by the control plane *)

Definition json_no_store : hm unit :=
  add_header "Content-Type" "application/json" ;; add_header "Cache-Control" "no-store".

Definition media_request (key_hash operation_id action request_id : str) : MediaOperationRequest :=
  mkMediaOperationRequest key_hash operation_id action request_id (hq_client_ip req)
    (hq_idempotency_key req) (request_fingerprint req) [] [] [] [] [] 0.

Definition media_control (key_hash request_id : str) : hm unit :=
  let action := media_action (operation matched) in
  result ← media_operation_ (media_request key_hash (media_operation_id (hq_path req)) action request_id);
  set_status (mr_status_code result) ;;
  (if negb (mr_accepted result) then
     set_body (error_json (mr_error_code result) (mr_error_message result)) ;; inc_failed
   else if action =$ "list" then
     set_status 200 ;;
     set_body (if empty (mr_output_metadata result) then q "{'object':'list','data':[],'has_more':false}"
               else mr_output_metadata result) ;;
     json_no_store
   else if action =$ "items" then
     set_status 200 ;; set_body (media_items_json result) ;; json_no_store
   else if action =$ "content" then
     if empty (mr_output_url result) then
       set_status 409 ;; set_body (error_json "output_not_ready" "Media output is not available") ;;
       inc_failed
     else
       set_status 302 ;; add_header "Location" (mr_output_url result) ;;
       add_header "Cache-Control" "no-store"
   else when (negb (mr_status_code result =? 204))
     (set_body (media_view_json result) ;;
      when (pending_or_running (mr_status result)) (add_header "Retry-After" "3") ;;
      add_header "Cache-Control" "no-store")) ;;
  dec_active ;; finish_request.

(** The answer that shows an operation that already exists. *)
Definition show_existing (existing : MediaOperationResult) : hm unit :=
  let status := if pending_or_running (mr_status existing) then 202 else 200 in
  set_status status ;; set_body (media_view_json existing) ;; add_header "Cache-Control" "no-store" ;;
  when (status =? 202) (add_header "Retry-After" "3").

Definition idempotency_lookup (key_hash request_id : str) : hm unit :=
  when (persistent_create (operation matched) && negb (empty (hq_idempotency_key req)))
    (existing ← media_operation_ (media_request key_hash [] "lookup_idempotency" request_id);
     if mr_accepted existing then show_existing existing ;; dec_active ;; finish_request
     else if mr_status_code existing =? 409 then
       refuse 409 (q "{'error':{'type':'idempotency_conflict','message':'Idempotency key was already used for a different request'}}")
     else when (negb (mr_status_code existing =? 404))
       (refuse (if 0 <? mr_status_code existing then mr_status_code existing else 503)
          (q "{'error':{'type':'platform_unavailable','message':'Media idempotency lookup failed'}}"))).

(** ** The two-tier cache of authentication versions *)

Definition auth_version (key_hash : str) : hm Z :=
  hit ← gets (λ g, cache_lookup (g_cache g) key_hash);
  match hit with
  | Some snapshot => inc_garnet_hits ;; mret (version snapshot)
  | None =>
      answer ← garnet_get (keyspace_auth key_hash);
      if ga_found answer then inc_garnet_hits ;; mret (parse_auth_version (ga_value answer))
      else inc_garnet_misses ;; mret 0
  end.

(** ** The body of the dispatch request *)

(** [request_body], [request_body_ref], [request_body_digest], [request_body_size]. *)
Definition stage_body : hm (str * str * str * Z) :=
  let body := hq_body req in
  if (kMaxInlineRequestBodyBytes <? length body)%nat then
    upload ← upload_blob_ body;
    if bu_accepted upload then mret ([], bu_blob_id upload, bu_digest upload, bu_total_bytes upload)
    else refuse 503 (error_json "provider_unavailable"
                       ("Platform blob upload failed: " ++ bu_error_code upload))
  else mret (body, [], [], 0).

Definition dispatch_request (key_hash request_id session_hash : str) (cached_version : Z)
    (parsed : ParsedRequest) (is_stream : bool) (body : str * str * str * Z) : DispatchRequest :=
  let '(inline_body, body_ref, body_digest, body_size) := body in
  mkDispatchRequest key_hash (pr_model parsed) session_hash (hq_client_ip req) request_id []
    cached_version (endpoint_code (endpoint (spec matched))) (pr_metadata_user_id parsed) is_stream
    (operation matched) (to_string (format_code (inbound_format (spec matched)))) (hq_method req)
    (hq_path req) (hq_content_type req) (name (spec matched)) (hq_idempotency_key req)
    (realtime (spec matched)) (force_platform matched) (request_fingerprint req) (hq_query req)
    inline_body body_ref body_digest body_size false.

(** ** The dispatch loop *)

(** [++counter > 8 || now >= deadline]. *)
Definition exhausted (counter deadline : Z) : hm bool :=
  if 8 <? counter then mret true else t ← now; mret (deadline <=? t).

(** What an [Ok] or [Reauth] answer does to the cache. *)
Definition refresh_cache (key_hash : str) (d : DispatchResult) : hm unit :=
  match dr_outcome d with
  | Reauth => modify (λ g, set_g_cache (cache_evict (g_cache g) key_hash) g)
  | _ =>
      when (0 <? dr_auth_version d) (modify (λ g, set_g_cache (cache_insert (g_cache g) key_hash
        (mkSnapshot 0 (ut_user_id (dr_upstream d)) (ut_group_id (dr_upstream d)) [] [] 0 0 kOne 1 0
           (dr_auth_version d) false)) g))
  end.

Definition reject_status (code : Z) : Z :=
  if code <=? 1 then 401 else if code =? 2 then 402
  else if (code =? 3) || (code =? 5) || (code =? 7) then 429
  else if code =? 8 then 409 else if code =? 10 then 409 else if code =? 9 then 403
  else if code =? 11 then 503 else if code =? 13 then 400 else 503.

Definition reject_type (code : Z) : str :=
  if code <=? 1 then "authentication_error" else if code =? 2 then "insufficient_quota"
  else if (code =? 3) || (code =? 5) || (code =? 7) then "rate_limit_error"
  else if code =? 8 then "idempotency_conflict" else if code =? 9 then "permission_error"
  else if code =? 10 then "idempotency_replay" else if code =? 11 then "pricing_unavailable"
  else if code =? 13 then "content_policy_violation" else "provider_unavailable".

(** A replayed idempotent request: the media operation that exists, or the
    recorded answer. *)
Definition replay_media (key_hash request_id : str) (d : DispatchResult) : hm unit :=
  let marker : str := "Media operation already exists: " in
  match sfind marker (dr_reject_message d) with
  | None => mret ()
  | Some position =>
      let operation_id := drop (position + length marker) (dr_reject_message d) in
      existing ← media_operation_ (media_request key_hash operation_id "get" request_id);
      when (mr_accepted existing)
        (show_existing existing ;;
         add_header "Location"
           ((if starts_with (mr_operation_type existing) "images_batch" then "/v1/images/batches/"
             else if starts_with (mr_operation_type existing) "videos_" then "/v1/videos/"
             else "/v1/images/tasks/") ++ mr_operation_id existing) ;;
         dec_active ;; finish_request)
  end.

Definition replay_answer (d : DispatchResult) : hm unit :=
  when ((0 <? dr_replay_status_code d) && negb (empty (dr_replay_body d)))
    (set_status (dr_replay_status_code d) ;;
     set_content_type (if empty (dr_replay_content_type d) then "application/json"
                       else dr_replay_content_type d) ;;
     set_body (dr_replay_body d) ;; on_resp (set_hr_stream false) ;;
     add_header "Cache-Control" "no-store" ;; dec_active ;; finish_request).

Definition rejected_dispatch {A} (key_hash request_id : str) (d : DispatchResult) : hm A :=
  when (dr_reject_code d =? 10) (replay_media key_hash request_id d ;; replay_answer d) ;;
  refuse (reject_status (dr_reject_code d))
    (error_json (reject_type (dr_reject_code d)) (dr_reject_message d)).

(** The sleep of a [Wait] answer: the conversion of a negative remainder wraps. *)
Definition wait_us (wait_timeout_ms remaining : Z) : Z :=
  u64 (u64 (Z.min (Z.max wait_timeout_ms 1) (Z.min 1000 remaining)) * 1000).

(** [dispatch_waits] and [dispatch_transport_retries] live across the retries of
    the forwarding loop.  Every iteration that goes on increments one of them. *)
Fixpoint dispatch_loop (fuel : nat) (key_hash request_id : str) (dispatch_req : DispatchRequest)
    (deadline waits transport : Z) : hm (DispatchResult * Z * Z) :=
  match fuel with
  | O => stuck
  | S fuel' =>
      d ← dispatch_ dispatch_req;
      inc_dispatch_calls ;;
      match dr_outcome d with
      | OutcomeOk | Reauth => refresh_cache key_hash d ;; mret (d, waits, transport)
      | Rejected =>
          if is_retryable_platform_dispatch d then
            over ← exhausted (transport + 1) deadline;
            if (over : bool) then
              refuse 503 (error_json "provider_unavailable"
                "Platform dispatch was unavailable before the retry deadline")
            else
              usleep (u64 (platform_dispatch_retry_delay_ms (transport + 1)) * 1000) ;;
              dispatch_loop fuel' key_hash request_id dispatch_req deadline waits (transport + 1)
          else rejected_dispatch key_hash request_id d
      | Wait =>
          over ← exhausted (waits + 1) deadline;
          if (over : bool) then
            refuse 503 (q "{'error':{'type':'provider_unavailable','message':'No upstream Provider account became available before the deadline'}}")
          else
            t ← now;
            usleep (wait_us (dr_wait_timeout_ms d) (to_ms (deadline - t))) ;;
            dispatch_loop fuel' key_hash request_id dispatch_req deadline (waits + 1) transport
      end
  end.

(** Eight waits, eight transport retries, and the last answer. *)
Definition dispatch_fuel : nat := 18.

(** ** Forwarding *)

(** [record_evidence] and the call that reports it; the row is closed when the
    call is acknowledged. *)
Definition lease_evidence (token : str) (stage : LeaseEvidenceStage) (stage_name detail : str)
    : hm RpcAck :=
  collector_ (λ o, record_evidence o e_unixepoch (mkEvidence token stage_name "gateway" detail)) ≫= rethrow ;;
  ack ← record_lease_evidence_ token stage detail;
  when (acknowledged ack)
    (collector_ (λ o, acknowledge_evidence o e_unixepoch token stage_name) ≫= rethrow) ;;
  mret ack.

Definition output_started_callback (token : str) : hm unit :=
  lease_evidence token OutputStarted "output_started" "first response bytes written to client" ;;
  mret ().

Definition is_request_id (h : str * str) : bool :=
  (h.1 =$ "X-Request-ID") || (h.1 =$ "x-request-id").

Definition response_start_callback (request_id : str) (is_stream : bool)
    (start : Z * str * list (str * str)) : hm unit :=
  let '(status, content_type, headers) := start in
  on_resp (λ r, mkHttpResponse status (hr_body r)
    (if empty content_type then "application/octet-stream" else content_type)
    (if existsb is_request_id headers then headers
     else headers ++ [("X-Request-ID" : str, request_id)]) is_stream).

Fixpoint run_callbacks {A} (body : A -> hm unit) (l : list A) : hm unit :=
  match l with [] => mret () | x :: l' => body x ;; run_callbacks body l' end.

(** The closure that asks the content policy about an event of a stream. *)
Definition stream_decision (r : ContentPolicyResult) : StreamPolicyDecision :=
  match content_policy_disposition r with
  | Allow => mkDecision PolicyAllow [] []
  | Block =>
      mkDecision PolicyBlock
        (if empty (cp_error_code r) then "content_policy_blocked" else cp_error_code r)
        "Provider response was withheld by the active content policy"
  | FailClosed =>
      mkDecision PolicyFailClosed
        (if empty (cp_error_code r) then "content_policy_unavailable" else cp_error_code r)
        "Provider response could not be cleared for delivery"
  end.

Definition forward_request (request_id token body : str) (is_stream : bool) (upstream_format : Format)
    (first_evaluation : nat) : ForwardRequest :=
  mkForwardRequest (hq_method req) body (hq_content_type req) (hq_accept req) (hq_user_agent req)
    request_id (hq_idempotency_key req) (hq_headers req) is_stream upstream_format
    (inbound_format (spec matched))
    (if is_stream && chat_capability cap
     then Some (λ i content, stream_decision
                  (e_evaluate (first_evaluation + i) token content (name (spec matched))))
     else None).

(** [forwarder_->forward], with the callbacks it makes on the handler. *)
Definition forward_ (request_id token body : str) (is_stream : bool) (target : UpstreamTarget)
    : hm ForwardResult :=
  n ← gets (λ g, length (g_log g));
  let upstream_format := upstream_format_of target in
  let request := forward_request request_id token body is_stream upstream_format n in
  let mode := if is_stream && negb (bool_decide (inbound_format (spec matched) = upstream_format))
              then CrossProtocol else Passthrough in
  let x := e_exchange n in
  match forward default_forward_config (x_client_available x) (x_client_write x) (x_clock x)
          target request mode (x_closed_call x) (x_cancelled x) (x_cancelled_end x) (x_duration_ms x) with
  | None => stuck
  | Some (callbacks, result) =>
      log_act (AForward target request result) ;;
      run_callbacks (response_start_callback request_id is_stream) (cb_starts callbacks) ;;
      when (cb_output_started callbacks) (output_started_callback token) ;;
      rethrow result
  end.

(** A cancelled or incomplete stream: the hold stays, as it is not known what the
    provider charges. *)
Definition ambiguous (r : ForwardResult) : bool :=
  (fr_client_disconnect r && negb (fr_output_started r)) || fr_stream_incomplete r.

Definition abort_ambiguous (token : str) (r : ForwardResult) : hm unit :=
  abort_ token
    (if fr_policy_blocked r then "response_content_policy_blocked"
     else if fr_policy_failed_closed r then "response_content_policy_fail_closed"
     else if fr_client_disconnect r then "client_disconnect"
     else "incomplete_provider_stream") Unknown (fr_provider_status_code r) ;;
  inc_upstream_errors ;; inc_failed ;;
  when (fr_stream_incomplete r && negb (fr_output_started r)) (set_content_type "application/json").

Definition abort_malformed (request_id token : str) (account_id : Z) (r : ForwardResult) : hm unit :=
  report_upstream_error_ (mkErrorReport account_id 502 0 request_id []) ;;
  abort_ token "malformed_provider_usage" Unknown (fr_provider_status_code r) ;;
  inc_upstream_errors ;; inc_failed.

(** A response of 400 and above that was neither cut short nor malformed. *)
Definition fail_over (request_id token : str) (start : Z) (account_id : Z) (failover : FailoverController)
    (r : ForwardResult) : hm Verdict :=
  t ← now;
  let explicit_provider_rejection := is_explicit_provider_rejection r in
  let retryable := explicit_provider_rejection && can_failover (spec matched)
    && negb (fr_output_started r) && (to_ms (t - start) <? max_elapsed_ms default_policy)
    && is_retryable_status (fr_status_code r) in
  let '(action, failover) :=
    if retryable then handle_error failover account_id (fr_status_code r) else (Exhausted, failover) in
  when retryable
    (report_upstream_error_ (mkErrorReport account_id (fr_status_code r) (fr_retry_after_ms r) request_id []) ;;
     mret ()) ;;
  abort_ token "upstream_failure" (if explicit_provider_rejection then NoCharge else Unknown)
    (fr_provider_status_code r) ;;
  inc_upstream_errors ;;
  match action with
  | SwitchAccount | Failover.Continue =>
      inc_failovers ;;
      usleep (default 0 (compute_delay default_policy (switch_count failover)) * 1000) ;;
      mret (Retry r failover)
  | _ => mret (Finished r true)
  end.

(** One iteration of the forwarding loop, after the dispatch; [r] is the result of
    the iteration before. *)
Definition attempt (request_id : str) (start : Z) (is_stream : bool) (d : DispatchResult)
    (failover : FailoverController) (r : ForwardResult) : hm Verdict :=
  let target := dr_upstream d in
  let token := dr_lease_token d in
  let conversion :=
    if empty (hq_body req) || negb (chat_capability cap) then mkConversion true (hq_body req) []
    else convert_request (hq_body req) (inbound_format (spec matched)) (upstream_format_of target)
           (ut_mapped_model target) in
  if negb (cr_success conversion) then
    inc_failed ;;
    mret (Finished
      (set_fr_body (q "{'error':{'type':'invalid_request_error','message':'" ++ cr_error conversion ++ q "'}}")
        (set_fr_content_type "application/json" (set_fr_status_code 400 r))) true)
  else
    ack ← lease_evidence token Forwarded "forwarded" "Provider transport authorized";
    if negb (acknowledged ack) then
      abort_ token "forward_evidence_unavailable" NoCharge 0 ;;
      inc_failed ;;
      mret (Finished
        (set_fr_body (q "{'error':{'type':'platform_unavailable','message':'Unable to persist Provider dispatch evidence'}}")
          (set_fr_content_type "application/json" (set_fr_status_code 503 r))) true)
    else
      r ← forward_ request_id token (cr_body conversion) is_stream target;
      when (ambiguous r) (abort_ambiguous token r) ;;
      when (fr_malformed_usage r) (abort_malformed request_id token (ut_account_id target) r) ;;
      let r := if fr_malformed_usage r then set_fr_status_code 502 r else r in
      let terminal_abort := ambiguous r || fr_malformed_usage r in
      if (400 <=? fr_status_code r) && negb (fr_malformed_usage r) && negb terminal_abort
      then fail_over request_id token start (ut_account_id target) failover r
      else mret (Finished r terminal_abort).

Definition next_attempt (request_id : str) (sequence : Z) (failover : FailoverController)
    (dispatch_req : DispatchRequest) : DispatchRequest :=
  mkDispatchRequest (dq_api_key_hash dispatch_req) (dq_requested_model dispatch_req)
    (dq_session_hash dispatch_req) (dq_client_ip dispatch_req)
    (request_id ++ ":retry:" ++ to_string sequence) (base.elements (failed_accounts failover))
    (dq_cached_auth_version dispatch_req) (dq_endpoint dispatch_req) (dq_metadata_user_id dispatch_req)
    (dq_stream dispatch_req) (dq_operation dispatch_req) (dq_inbound_format dispatch_req)
    (dq_http_method dispatch_req) (dq_request_path dispatch_req) (dq_content_type dispatch_req)
    (dq_capability dispatch_req) (dq_idempotency_key dispatch_req) (dq_realtime_session dispatch_req)
    (dq_force_platform dispatch_req) (dq_request_fingerprint dispatch_req) (dq_request_query dispatch_req)
    (dq_request_body dispatch_req) (dq_request_body_ref dispatch_req) (dq_request_body_digest dispatch_req)
    (dq_request_body_size dispatch_req) (dq_request_body_truncated dispatch_req).

(** The loop: the last dispatch, the last result, [terminal_abort]. *)
Fixpoint forwarding_loop (fuel : nat) (key_hash request_id : str) (start deadline : Z) (is_stream : bool)
    (dispatch_req : DispatchRequest) (waits transport sequence : Z) (failover : FailoverController)
    (r : ForwardResult) : hm (DispatchResult * ForwardResult * bool) :=
  match fuel with
  | O => stuck
  | S fuel' =>
      '(d, waits, transport) ← dispatch_loop dispatch_fuel key_hash request_id dispatch_req deadline waits transport;
      verdict ← attempt request_id start is_stream d failover r;
      match verdict with
      | Finished r terminal_abort => mret (d, r, terminal_abort)
      | Retry r failover =>
          forwarding_loop fuel' key_hash request_id start deadline is_stream
            (next_attempt request_id (sequence + 1) failover dispatch_req) waits transport (sequence + 1)
            failover r
      end
  end.

(** A retry starts less than 10 s after the request and then sleeps for at least
    300 ms: there are at most 34. *)
Definition forwarding_fuel : nat := 36.

(** ** The response *)

(** The abort and the answer of a response that fails a check. *)
Definition withdraw (token reason : str) (r : ForwardResult) : hm ForwardResult :=
  abort_ token reason Unknown (fr_provider_status_code r) ;;
  set_status 502 ;; mret (set_fr_status_code 502 r).

Definition withdraw_invalid (token reason : str) (v : ValidationResult) (st : ForwardResult * bool)
    : hm (ForwardResult * bool) :=
  if vr_valid v then mret st
  else
    r ← withdraw token reason st.1;
    set_content_type "application/json" ;;
    set_body (error_json "provider_protocol_error" (vr_message v)) ;; inc_failed ;;
    mret (r, true).

(** Errors are put in the client's format. *)
Definition convert_error_body (last_upstream_format : Format) (r : ForwardResult) : hm unit :=
  let explicit_provider_error :=
    fr_provider_response_received r && (400 <=? fr_provider_status_code r) in
  let error_source := if explicit_provider_error then last_upstream_format else OpenAIChatCompletions in
  when ((400 <=? fr_status_code r) && negb (bool_decide (inbound_format (spec matched) = error_source)))
    (on_resp (λ resp, set_hr_content_type "application/json" (set_hr_body
      (convert_error (hr_body resp)
         (if explicit_provider_error then fr_provider_status_code r else fr_status_code r)
         error_source (inbound_format (spec matched))) resp))).

Definition convert_success_body (last_upstream_format : Format) (model token : str)
    (st : ForwardResult * bool) : hm (ForwardResult * bool) :=
  let r := st.1 in
  if (fr_status_code r <? 400) && chat_capability cap
     && negb (bool_decide (inbound_format (spec matched) = last_upstream_format)) then
    body ← gets (λ g, hr_body (g_resp g));
    let converted := convert_response_checked body last_upstream_format (inbound_format (spec matched)) model in
    if cr_success converted then set_body (cr_body converted) ;; mret st
    else
      r ← withdraw token "response_conversion_failed" r;
      set_body (error_json "response_conversion_error" (cr_error converted)) ;;
      inc_conversion_failures ;; inc_failed ;; mret (r, true)
  else mret st.

Definition check_embeddings (token : str) (st : ForwardResult * bool) : hm (ForwardResult * bool) :=
  if in_2xx_3xx (fr_status_code st.1) && bool_decide (cap = Embeddings) then
    body ← gets (λ g, hr_body (g_resp g));
    withdraw_invalid token "embeddings_response_invalid" (validate_embeddings_response (hq_body req) body) st
  else mret st.

Definition check_catalog (token : str) (st : ForwardResult * bool) : hm (ForwardResult * bool) :=
  if in_2xx_3xx (fr_status_code st.1) && eq_cap cap [Models; GeminiModels; CountTokens] then
    body ← gets (λ g, hr_body (g_resp g));
    withdraw_invalid token "catalog_response_invalid"
      (if bool_decide (cap = CountTokens) then validate_count_tokens_response body
       else validate_models_response body (inbound_format (spec matched))) st
  else mret st.

Definition check_responses (token : str) (is_stream : bool) (st : ForwardResult * bool)
    : hm (ForwardResult * bool) :=
  if in_2xx_3xx (fr_status_code st.1) && negb is_stream && bool_decide (cap = Responses) then
    body ← gets (λ g, hr_body (g_resp g));
    withdraw_invalid token "responses_response_invalid" (validate_responses_response body) st
  else mret st.

Definition deliver_body (token : str) (is_stream : bool) (last_upstream_format : Format) (model : str)
    (r : ForwardResult) (terminal_abort : bool) : hm (ForwardResult * bool) :=
  if (negb is_stream || (400 <=? fr_status_code r)) && negb (empty (fr_body r)) then
    set_body (fr_body r) ;;
    convert_error_body last_upstream_format r ;;
    st ← convert_success_body last_upstream_format model token (r, terminal_abort);
    st ← check_embeddings token st;
    st ← check_catalog token st;
    check_responses token is_stream st
  else mret (r, terminal_abort).

(** ** The content policy of a whole response *)

Definition withhold (status : Z) (type message : str) : hm bool :=
  set_status status ;; set_content_type "application/json" ;; set_body (error_json type message) ;;
  add_header "Cache-Control" "no-store" ;; inc_failed ;; mret true.

(** [response_policy_overridden]. *)
Definition response_policy (token : str) (is_stream : bool) (r : ForwardResult) (terminal_abort : bool)
    : hm bool :=
  body ← gets (λ g, hr_body (g_resp g));
  if negb is_stream && negb terminal_abort && negb (fr_malformed_usage r)
     && in_2xx_3xx (fr_status_code r) && negb (empty body) then
    if chat_capability cap then
      policy ← evaluate_ token body (name (spec matched));
      match content_policy_disposition policy with
      | Allow => mret false
      | Block =>
          withhold 400 "content_policy_violation"
            "Provider response was withheld by the active content policy"
      | FailClosed =>
          withhold 503 "content_policy_unavailable" "Provider response could not be cleared for delivery"
      end
    else if eq_cap cap [Models; CountTokens; GeminiModels] then mret false
    else if bool_decide (cap = Embeddings) then mret false
    else if eq_cap cap [ImagesSync; ImagesAsync; ImagesBatch; Videos; AudioTts; AudioStt] then
      withhold 400 "content_policy_unavailable"
        "Media content policy classifier not yet implemented for this capability"
    else withhold 503 "content_policy_unavailable" "Content policy decision unavailable for this capability"
  else mret false.

(** ** Persisted media operations *)

(** [terminal_abort], [defer_media_usage], [media_response_overridden]. *)
Definition persist_media (key_hash request_id : str) (d : DispatchResult) (r : ForwardResult)
    (terminal_abort : bool) : hm (bool * bool * bool) :=
  let media_operation_id := ut_media_operation_id (dr_upstream d) in
  if persistent_create (operation matched) && negb (empty media_operation_id) then
    body ← gets (λ g, hr_body (g_resp g));
    let task_id := provider_task_id body in
    let media_status : str := if terminal_abort || (400 <=? fr_status_code r) then "failed"
                              else provider_media_status body task_id in
    operation ← media_operation_ (mkMediaOperationRequest key_hash media_operation_id
      (if media_status =$ "failed" then "fail" else "attach") request_id (hq_client_ip req)
      (hq_idempotency_key req) (request_fingerprint req) media_status task_id
      (if (length body <=? 512 * 1024)%nat then body else []) (provider_output_url body)
      (fr_content_type r) (if media_status =$ "running" then 0 else 100));
    if negb (mr_accepted operation) then
      abort_ (dr_lease_token d) "media_operation_persist_failed" Unknown (fr_provider_status_code r) ;;
      set_status (if 0 <? mr_status_code operation then mr_status_code operation else 503) ;;
      set_body (q "{'error':{'type':'media_operation_error','message':'Unable to persist media operation state'}}") ;;
      mret (true, false, true)
    else
      let defer_media_usage := media_status =$ "running" in
      set_status (if defer_media_usage then 202 else 200) ;;
      set_body (media_view_json operation) ;; add_header "Cache-Control" "no-store" ;;
      when defer_media_usage (add_header "Retry-After" "3") ;;
      add_header "Location"
        ((if bool_decide (cap = ImagesAsync) then "/v1/images/tasks/"
          else if bool_decide (cap = ImagesBatch) then "/v1/images/batches/" else "/v1/videos/")
         ++ mr_operation_id operation) ;;
      mret (terminal_abort, defer_media_usage, true)
  else mret (terminal_abort, false, false).

(** Catalog and token-count calls release their hold. *)
Definition release_control (d : DispatchResult) (r : ForwardResult) (terminal_abort : bool) : hm bool :=
  if eq_cap cap [Models; GeminiModels; CountTokens; ResponsesSubpath] && negb terminal_abort
     && in_2xx_3xx (fr_status_code r) then
    ack ← abort_ (dr_lease_token d) "non_billable_control" NoCharge (fr_provider_status_code r);
    mret (acknowledged ack)
  else mret terminal_abort.

(** ** Usage *)

Definition or_else (a b : Z) : Z := if 0 <? a then a else b.
Definition or_text (a b : str) : str := if empty a then b else a.

Definition usage_event (request_id : str) (elapsed : Z) (is_stream persist_response : bool)
    (parsed : ParsedRequest) (request_usage : MediaUsageMetadata) (resp : HttpResponse)
    (d : DispatchResult) (r : ForwardResult) : UsageEvent :=
  let upstream := dr_upstream d in
  let response_usage := parse_media_response (hr_body resp) (operation matched) in
  mkUsageEvent (dr_lease_token d) request_id (dr_api_key_id d) (ut_user_id upstream)
    (ut_account_id upstream) (ut_group_id upstream) (pr_model parsed) (ut_mapped_model upstream)
    (fr_input_tokens r) (fr_output_tokens r) (fr_cache_create_tokens r) (fr_cache_read_tokens r)
    (i32 (to_ms elapsed)) (fr_first_token_ms r) is_stream (fr_client_disconnect r) (fr_status_code r)
    (mu_input_image_count request_usage)
    (or_else (mu_output_image_count response_usage) (mu_output_image_count request_usage))
    (or_text (mu_image_size response_usage) (mu_image_size request_usage))
    (or_else (mu_video_count response_usage) (mu_video_count request_usage))
    (or_text (mu_video_resolution response_usage) (mu_video_resolution request_usage))
    (or_else (mu_video_duration_seconds response_usage) (mu_video_duration_seconds request_usage))
    0 0 (fr_disconnect_reason r) (fr_provider_usage_json r) (fr_reasoning_tokens r) (fr_service_tier r)
    (ut_upstream_path upstream) (fr_cancellation_reason r) (ut_media_operation_id upstream) "v1"
    (if persist_response then hr_status_code resp else 0)
    (if persist_response then hr_content_type resp else [])
    (if persist_response then hr_body resp else []).

(** A truncated stream whose usage the provider sent before it ended. *)
Definition late_usage_candidate (is_stream : bool) (r : ForwardResult) : bool :=
  is_stream && fr_stream_incomplete r && negb (fr_malformed_usage r)
  && negb (empty (fr_provider_usage_json r))
  && ((0 <? fr_input_tokens r) || (0 <? fr_output_tokens r) || (0 <? fr_cache_create_tokens r)
      || (0 <? fr_cache_read_tokens r) || (0 <? fr_reasoning_tokens r)).

(** The durable outbox, or a synchronous report when it cannot be written. *)
Definition settle_usage (event : UsageEvent) : hm unit :=
  written ← collector_ (λ o, record o e_unixepoch event);
  match written with
  | Ok _ => log_act (ARecord event) ;; inc_buffered
  | Err _ =>
      ack ← report_usage_ (to_report event);
      when (negb (acknowledged ack)) inc_report_failures
  end.

(** ** From the last result to the end of [handle] *)

Definition settle (key_hash request_id : str) (start : Z) (is_stream : bool) (parsed : ParsedRequest)
    (request_usage : MediaUsageMetadata) (d : DispatchResult) (r : ForwardResult) (terminal_abort : bool)
    : hm unit :=
  let token := dr_lease_token d in
  '(r, terminal_abort) ← deliver_body token is_stream (upstream_format_of (dr_upstream d))
                            (pr_model parsed) r terminal_abort;
  response_policy_overridden ← response_policy token is_stream r terminal_abort;
  when (fr_malformed_usage r)
    (set_status 502 ;; set_content_type "application/json" ;;
     set_body (error_json "provider_error" "Provider returned malformed usage")) ;;
  '(terminal_abort, defer_media_usage, media_response_overridden) ←
    persist_media key_hash request_id d r terminal_abort;
  terminal_abort ← release_control d r terminal_abort;
  resp ← gets g_resp;
  t ← now;
  let persist_response := negb is_stream && negb terminal_abort && negb defer_media_usage
    && negb media_response_overridden && in_2xx_3xx (fr_status_code r)
    && (Z.of_nat (length (hr_body resp)) <=? 4 * 1024 * 1024) in
  let event := usage_event request_id (t - start) is_stream persist_response parsed request_usage resp d r in
  when ((negb terminal_abort || late_usage_candidate is_stream r) && negb defer_media_usage)
    (settle_usage event) ;;
  when (negb media_response_overridden && negb response_policy_overridden)
    (set_status (if 0 <? fr_status_code r then fr_status_code r else 200)) ;;
  dec_active ;; finish_request.

(** ** [GatewayHandler::handle] *)

Definition handle : hm unit :=
  inc_total ;; inc_active ;;
  start ← now;
  let request_id := request_id_of req start in
  add_header "X-Request-ID" request_id ;;
  if negb (is_safe_query_string (hq_query req)) then
    refuse 400 (q "{'error':{'type':'invalid_request_error','message':'Malformed query string'}}")
  else if empty (extract_api_key req) then
    refuse 401 (q "{'error':{'type':'authentication_error','message':'Missing API key'}}")
  else
    let key_hash := hash_key e_sha256 (extract_api_key req) in
    when (media_control_operation (operation matched)) (media_control key_hash request_id) ;;
    idempotency_lookup key_hash request_id ;;
    cached_version ← auth_version key_hash;
    let parsed := parse_request req matched in
    match request_error req matched (pr_model parsed) with
    | Some body => refuse 400 body
    | None =>
        let is_stream := is_stream_request matched parsed in
        let request_usage := parse_media_request (hq_body req) (hq_content_type req) (operation matched) in
        when is_stream inc_streaming ;;
        let session_hash := compute_session_hash key_hash (pr_metadata_user_id parsed) (hq_body req)
                              (pr_model parsed) in
        body ← stage_body;
        let dispatch_req := dispatch_request key_hash request_id session_hash cached_version parsed
                              is_stream body in
        t ← now;
        '(d, r, terminal_abort) ← forwarding_loop forwarding_fuel key_hash request_id start
          (t + kDispatchDeadline) is_stream dispatch_req 0 0 0 default_controller default_forward_result;
        settle key_hash request_id start is_stream parsed request_usage d r terminal_abort
    end.
End Handle.
