(* ===== verification/GatewaySamples.v ===== *)
(** * The gateway's handler: sample environments

    Concrete requests, converters and environments for the witnesses. *)
From S2P Require Import Prelude Numbers Garnet Failover Capability Auth DispatchTypes Usage Json StreamPipe Forwarder Dispatch GatewayTypes GatewayRequest Gateway.
#[local] Open Scope Z_scope.

(** RapidJSON on the bodies of the samples: one request and one response. *)
Definition sample_json : RapidJson := {|
  Parse := λ s, if s =$ q "{'model':'m'}" then Some (JObject [("model" : str, JString "m")])
                else if s =$ "{}" then Some (JObject []) else None;
  Write := λ j, match j with JObject [(k, _)] => k | _ => "{}" end |}.

Definition sample_converter : Converter := {|
  parse := λ _ f, mkParsed f "m" false [] 0 false;
  convert_request := λ body _ _ _, mkConversion true body [];
  convert_error := λ body _ _ _, body;
  convert_response_checked := λ body _ _ _, mkConversion true body [];
  validate_embeddings_request := λ _, mkValidation true [];
  validate_embeddings_response := λ _ _, mkValidation true [];
  validate_models_response := λ _ _, mkValidation true [];
  validate_count_tokens_response := λ _, mkValidation true [];
  validate_responses_response := λ _, mkValidation true [];
  extract_multipart_field := λ _ _ _, [];
  parse_media_request := λ _ _ _, mkMediaUsage 0 0 [] 0 [] 0;
  parse_media_response := λ _ _, mkMediaUsage 0 0 [] 0 [] 0 |}.

Definition ok_dispatch (token : str) : DispatchResult :=
  mkDispatchResult OutcomeOk 7 3 token sample_target [] 0 0 0 [] [].

Definition answer (status : Z) (body : str) : Exchange :=
  mkExchange true full_write Z.of_nat (Response status "application/json" [] [Chunk body]) false false 5.

(** A control plane that grants every lease and acknowledges everything, and a
    provider whose answers are given. *)
Definition sample_environment (exchange : nat -> Exchange) : Environment := {|
  e_dispatch := λ n _, ok_dispatch ("lease-" ++ [hex_digit n]);
  e_media_operation := λ _ _, default_MediaOperationResult;
  e_report_usage := λ _ _, ack_ok;
  e_record_lease_evidence := λ _ _ _ _, ack_ok;
  e_abort := λ _ _ _ _ _, ack_ok;
  e_report_upstream_error := λ _ _, ack_ok;
  e_evaluate := λ _ _ _ _, mkPolicyResult true true false [] 0 [];
  e_upload_blob := λ _ _ _, mkBlobUpload false [] [] [] 0;
  e_garnet_get := λ _ _, mkGarnet false false [];
  e_exchange := exchange;
  e_sql := λ _, SqlDone;
  e_elapse := λ _, 1000%N;
  e_unixepoch := 0;
  e_blob_id := λ _, [];
  e_sha256 := λ s, s;
  e_xxh64 := λ _ _, 0 |}.

Definition sample_http : HttpRequest :=
  mkHttpRequest "POST" "/v1/chat/completions" [] (q "{'model':'m'}") "Bearer k" [] "10.0.0.1"
    "application/json" [] [] "req-1" [] [] 300000.

Definition sample_gw : Gw :=
  mkGw (cache_create 10) (mkCollector None []) zero_metrics default_response [] 0 0 0.

Definition run_sample (E : Environment) (req : HttpRequest) (matched : MatchedCapability) : Gw * outcome unit :=
  handle (RJ := sample_json) (SC := data_codec) (CV := sample_converter) (E := E) req matched sample_gw.

Definition chat : MatchedCapability := mkMatched kChat "chat_completions" [].

(** A provider that refuses the first request and answers the second. *)
Definition refuse_once (n : nat) : Exchange := if (n <? 4)%nat then answer 503 "{}" else answer 200 "{}".

(** The calls of a run up to the first call of the forwarder, that call, and the
    rest. *)
Fixpoint split_forward (before l : list Act)
    : option (list Act * (UpstreamTarget * ForwardRequest * res ForwardResult) * list Act) :=
  match l with
  | [] => None
  | AForward target request r :: l' => Some (before, (target, request, r), l')
  | a :: l' => split_forward (before ++ [a]) l'
  end.

(** The same up to the first dispatch. *)
Fixpoint split_dispatch (before l : list Act)
    : option (list Act * (DispatchRequest * DispatchResult) * list Act) :=
  match l with
  | [] => None
  | ADispatch q d :: l' => Some (before, (q, d), l')
  | a :: l' => split_dispatch (before ++ [a]) l'
  end.

(** A converter that accepts no request. *)
Definition refusing_converter : Converter := {|
  parse := λ _ f, mkParsed f "m" false [] 0 false;
  convert_request := λ _ _ _ _, mkConversion false [] "unsupported content";
  convert_error := λ body _ _ _, body;
  convert_response_checked := λ body _ _ _, mkConversion true body [];
  validate_embeddings_request := λ _, mkValidation true [];
  validate_embeddings_response := λ _ _, mkValidation true [];
  validate_models_response := λ _ _, mkValidation true [];
  validate_count_tokens_response := λ _, mkValidation true [];
  validate_responses_response := λ _, mkValidation true [];
  extract_multipart_field := λ _ _ _, [];
  parse_media_request := λ _ _ _, mkMediaUsage 0 0 [] 0 [] 0;
  parse_media_response := λ _ _, mkMediaUsage 0 0 [] 0 [] 0 |}.
