(* ===== verification/GatewayLogic.v ===== *)
(** * Reasoning about the gateway's handler

    A weakest-precondition calculus for the monad [hm], with a rule for each of
    the handler's effects.  The rules say what an effect does to the parts of the
    state the properties speak of: the log, the response, the number of active
    connections and the time. *)
From S2P Require Import Prelude Numbers Garnet Failover Capability Auth DispatchTypes Usage Json StreamPipe Forwarder Dispatch GatewayTypes GatewayRequest Gateway.
#[local] Open Scope Z_scope.

(** ** The part of the state the properties speak of *)

Record View := mkView { v_log : list Act; v_resp : HttpResponse; v_active : Z; v_time : Z }.

Definition view (g : Gw) : View :=
  mkView (g_log g) (g_resp g) (m_active_connections (g_metrics g)) (g_time g).

Definition log_snoc (a : Act) (v : View) : View :=
  mkView (v_log v ++ [a]) (v_resp v) (v_active v) (v_time v).
Definition with_resp (f : HttpResponse -> HttpResponse) (v : View) : View :=
  mkView (v_log v) (f (v_resp v)) (v_active v) (v_time v).
Definition with_active (d : Z) (v : View) : View :=
  mkView (v_log v) (v_resp v) (u64 (v_active v + d)) (v_time v).
Definition at_time (t : Z) (v : View) : View :=
  mkView (v_log v) (v_resp v) (v_active v) t.

(** ** Weakest preconditions

    [Q] for a value, [D] for an early return, [X] for an exception ([Some]) and for
    a run that never returns ([None]). *)
Definition wp {A} (m : hm A) (Q : A -> View -> Prop) (D : View -> Prop)
    (X : option fault -> View -> Prop) (v : View) : Prop :=
  forall g, view g = v ->
  match m g with
  | (g', Next a) => Q a (view g')
  | (g', Done) => D (view g')
  | (g', Raise e) => X (Some e) (view g')
  | (g', Stuck) => X None (view g')
  end.

Section Rules.
Context {A B : Type} (D : View -> Prop) (X : option fault -> View -> Prop).
Implicit Types (v : View) (Q : A -> View -> Prop).

Lemma wp_ret (a : A) Q v : Q a v -> wp (mret a) Q D X v.
Proof. by intros H g <-. Qed.

Lemma wp_bind (m : hm B) (f : B -> hm A) Q v :
  wp m (λ b, wp (f b) Q D X) D X v -> wp (m ≫= f) Q D X v.
Proof.
  intros H g Hg. specialize (H g Hg). unfold mbind, hm_bind.
  destruct (m g) as [g' [b| |e|]]; [by apply H|done..].
Qed.

Lemma wp_mono (m : hm A) Q Q' D' X' v :
  wp m Q D X v -> (forall a v', Q a v' -> Q' a v') -> (forall v', D v' -> D' v') ->
  (forall o v', X o v' -> X' o v') -> wp m Q' D' X' v.
Proof.
  intros H HQ HD HX g Hg. specialize (H g Hg). destruct (m g) as [g' [a| |e|]]; auto.
Qed.

Lemma wp_stuck Q v : X None v -> wp stuck Q D X v.
Proof. by intros H g <-. Qed.

Lemma wp_finish Q v : D v -> wp finish_request Q D X v.
Proof. by intros H g <-. Qed.

(** Reading: the value may be anything that agrees with the view. *)
Lemma wp_gets (f : Gw -> A) Q v : (forall g, view g = v -> Q (f g) v) -> wp (gets f) Q D X v.
Proof. intros H g Hg. cbn. rewrite Hg. by apply H. Qed.

Lemma wp_rethrow (r : res A) Q v :
  (forall a, r = Ok a -> Q a v) -> (forall e, r = Err e -> X (Some e) v) -> wp (rethrow r) Q D X v.
Proof. intros HQ HX g <-. destruct r; [by apply HQ|by eapply HX]. Qed.
End Rules.

Section EffectRules.
Context {E : Environment} (D : View -> Prop) (X : option fault -> View -> Prop).
Implicit Types (v : View).

Lemma wp_when b (m : hm unit) Q v :
  (b = true -> wp m Q D X v) -> (b = false -> Q () v) -> wp (when b m) Q D X v.
Proof. intros H1 H2. destruct b; [by apply H1|apply wp_ret; by apply H2]. Qed.

Lemma wp_on_resp f Q v : Q () (with_resp f v) -> wp (on_resp f) Q D X v.
Proof. by intros H g <-. Qed.

Lemma wp_now Q v :
  (forall t, v_time v <= t -> Q t (at_time t v)) -> wp now Q D X v.
Proof. intros H g <-. cbn. apply H. cbn. lia. Qed.

Lemma wp_usleep us Q v :
  Q () (log_snoc (ASleep us) (at_time (v_time v + us * 1000) v)) -> wp (usleep us) Q D X v.
Proof. by intros H g <-. Qed.

Lemma wp_log a Q v : Q () (log_snoc a v) -> wp (log_act a) Q D X v.
Proof. by intros H g <-. Qed.

Lemma wp_call {A} (ask : nat -> A) act Q v :
  (forall a, a = ask (length (v_log v)) -> Q a (log_snoc (act a) v)) -> wp (call ask act) Q D X v.
Proof. intros H g <-. by apply H. Qed.

Lemma wp_upload body Q v :
  (forall id a, Q a (log_snoc (AUpload id body a) v)) -> wp (upload_blob_ body) Q D X v.
Proof. intros H g <-. apply (H (e_blob_id (length (g_log g)))). Qed.

Lemma wp_collector {A} (op : Sql -> stm Collector A) Q v :
  (forall r, Q r v) -> wp (collector_ op) Q D X v.
Proof. intros H g <-. unfold collector_. destruct (op _ _). apply H. Qed.

Lemma wp_cache f Q v : Q () v -> wp (modify (λ g, set_g_cache (f g) g)) Q D X v.
Proof. by intros H g <-. Qed.

(** Every counter but the one of the active connections. *)
Lemma wp_bump get set d Q v :
  (forall z m, m_active_connections (set z m) = m_active_connections m) ->
  Q () v -> wp (bump get set d) Q D X v.
Proof. intros Hs H g <-. unfold bump, modify. cbn. unfold view. cbn. by rewrite Hs. Qed.

Lemma wp_inc_active Q v : Q () (with_active 1 v) -> wp inc_active Q D X v.
Proof. by intros H g <-. Qed.
Lemma wp_dec_active Q v : Q () (with_active (-1) v) -> wp dec_active Q D X v.
Proof. by intros H g <-. Qed.
End EffectRules.

(** ** Symbolic execution *)

(** One step on the effect at the head; stops at loops and at the stretches that
    have a rule of their own. *)
Ltac wp_prim :=
  lazymatch goal with
  | |- wp (mret _) _ _ _ _ => apply wp_ret
  | |- wp (_ ≫= _) _ _ _ _ => apply wp_bind
  | |- wp stuck _ _ _ _ => apply wp_stuck
  | |- wp finish_request _ _ _ _ => apply wp_finish
  | |- wp (gets _) _ _ _ _ => apply wp_gets; intros ? ?
  | |- wp (rethrow _) _ _ _ _ => apply wp_rethrow; [intros ? ?|intros ? ?]
  | |- wp (when _ _) _ _ _ _ => apply wp_when; [intros ?|intros ?]
  | |- wp (on_resp _) _ _ _ _ => apply wp_on_resp
  | |- wp (set_status _) _ _ _ _ => apply wp_on_resp
  | |- wp (set_body _) _ _ _ _ => apply wp_on_resp
  | |- wp (set_content_type _) _ _ _ _ => apply wp_on_resp
  | |- wp (add_header _ _) _ _ _ _ => apply wp_on_resp
  | |- wp now _ _ _ _ => apply wp_now; intros ? ?
  | |- wp (usleep _) _ _ _ _ => apply wp_usleep
  | |- wp (log_act _) _ _ _ _ => apply wp_log
  | |- wp (upload_blob_ _) _ _ _ _ => apply wp_upload; intros ? ?
  | |- wp (collector_ _) _ _ _ _ => apply wp_collector; intros ?
  | |- wp (modify (λ g, set_g_cache _ g)) _ _ _ _ => apply wp_cache
  | |- wp inc_active _ _ _ _ => apply wp_inc_active
  | |- wp dec_active _ _ _ _ => apply wp_dec_active
  | |- wp (dispatch_ _) _ _ _ _ => apply wp_call; intros ? ?
  | |- wp (media_operation_ _) _ _ _ _ => apply wp_call; intros ? ?
  | |- wp (garnet_get _) _ _ _ _ => apply wp_call; intros ? ?
  | |- wp (record_lease_evidence_ _ _ _) _ _ _ _ => apply wp_call; intros ? ?
  | |- wp (abort_ _ _ _ _) _ _ _ _ => apply wp_call; intros ? ?
  | |- wp (report_upstream_error_ _) _ _ _ _ => apply wp_call; intros ? ?
  | |- wp (evaluate_ _ _ _) _ _ _ _ => apply wp_call; intros ? ?
  | |- wp (report_usage_ _) _ _ _ _ => apply wp_call; intros ? ?
  | |- wp (if ?b then _ else _) _ _ _ _ => destruct b eqn:?
  | |- wp ?m _ _ _ _ =>
      eapply wp_bump; [reflexivity|]
  end.

Ltac wp_go := repeat (wp_prim; cbv beta).
