(* ===== verification/GatewayLease.v ===== *)
(** * The settlement of leases

    The abstract specification of what the handler may do with a lease it has been
    granted, a state machine on its calls, and the proof that every run of
    [handle] follows it: what the control plane, the provider and the database do
    is arbitrary. *)
From S2P Require Import Prelude Numbers Garnet Failover Capability Auth DispatchTypes Usage Json StreamPipe Forwarder Dispatch GatewayTypes GatewayRequest Gateway GatewaySamples GatewayLogic.
#[local] Open Scope Z_scope.

(** ** The life of a lease

    What may be done with a lease, as a state machine on the calls of the
    handler: the abstract specification of its settlement. *)

Inductive Lease :=
| Idle
| Granted (d : DispatchResult)
| Denied (token : str)
| Authorised (d : DispatchResult)
| Answered (token : str) (answer : res ForwardResult)
| Released (token : str) (may_retry : bool)
| Ambiguous (token : str) (late_usage : bool)
| Deferred (token : str)
| Billed (token : str).

Definition granted (d : DispatchResult) : bool :=
  match dr_outcome d with OutcomeOk | Reauth => true | _ => false end.

(** A request may go to another account only after the provider has refused it
    before any output, with a status that tells to try again. *)
Definition retry_safe (answer : res ForwardResult) : bool :=
  match answer with
  | Ok r => is_explicit_provider_rejection r && negb (fr_output_started r)
      && negb (fr_stream_incomplete r) && negb (fr_client_disconnect r)
      && negb (fr_malformed_usage r) && Retry.is_retryable_status (fr_status_code r)
  | Err _ => false
  end.

(** A provider's refusal costs nothing; so does a catalog or token-count call. *)
Definition free_of_charge (answer : res ForwardResult) (reason : str) : bool :=
  match answer with
  | Ok r => is_explicit_provider_rejection r || (reason =$ "non_billable_control")
  | Err _ => false
  end.

(** Only usage that the provider sent before the stream broke may be billed after
    an abort of unknown cost. *)
Definition late_usage (answer : res ForwardResult) : bool :=
  match answer with Ok r => late_usage_candidate true r | Err _ => false end.

Definition neutral (a : Act) : bool :=
  match a with
  | AMedia _ _ | AGarnet _ _ | AUpload _ _ _ | AReportError _ | ASleep _ => true
  | _ => false
  end.

(** A media operation that the provider is still working on: its usage is settled
    when it ends. *)
Definition takes_over (a : Act) : bool :=
  match a with
  | AMedia req answer =>
      (mq_action req =$ "attach") && (mq_status req =$ "running") && mr_accepted answer
  | _ => false
  end.

Definition dispatched (a : Act) : option Lease :=
  match a with
  | ADispatch _ d => Some (if granted d then Granted d else Idle)
  | _ => None
  end.

Definition settles (token : str) (a : Act) : bool :=
  match a with
  | ARecord e => ue_lease_token e =$ token
  | AReportUsage report _ => ur_lease_token report =$ token
  | _ => false
  end.

(** [Some token] when the act is an abort of unknown cost. *)
Definition aborts_unknown (token : str) (a : Act) : bool :=
  match a with AAbort t _ Unknown _ _ => t =$ token | _ => false end.

Definition lease_step (s : Lease) (a : Act) : option Lease :=
  match s with
  | Idle => if neutral a then Some Idle else dispatched a
  | Granted d =>
      match a with
      | AEvidence t Forwarded ack =>
          if t =$ dr_lease_token d
          then Some (if acknowledged ack then Authorised d else Denied t) else None
      | _ => if aborts_unknown (dr_lease_token d) a then Some (Ambiguous (dr_lease_token d) false)
             else if neutral a then Some s else None
      end
  | Denied token =>
      match a with
      | AAbort t _ NoCharge _ _ => if t =$ token then Some (Released token false) else None
      | _ => None
      end
  | Authorised d =>
      match a with
      | AForward target _ answer =>
          if bool_decide (target = dr_upstream d) then Some (Answered (dr_lease_token d) answer) else None
      | _ => None
      end
  | Answered token answer =>
      if takes_over a then Some (Deferred token)
      else if settles token a then Some (Billed token)
      else if aborts_unknown token a then Some (Ambiguous token (late_usage answer))
      else match a with
      | AEvidence t OutputStarted _ => if t =$ token then Some s else None
      | AEvaluate t _ _ _ => if t =$ token then Some s else None
      | AAbort t reason NoCharge _ ack =>
          if (t =$ token) && free_of_charge answer reason
          then Some (if acknowledged ack || negb (reason =$ "non_billable_control")
                     then Released token (retry_safe answer) else s)
          else None
      | _ => if neutral a then Some s else None
      end
  | Released token may_retry =>
      if neutral a || aborts_unknown token a then Some s
      else if may_retry then dispatched a else None
  | Ambiguous token late =>
      if neutral a || aborts_unknown token a then Some s
      else if late && settles token a then Some (Billed token) else None
  | Deferred token =>
      match a with
      | AAbort t _ NoCharge _ ack =>
          if t =$ token then Some (if acknowledged ack then Released token false else s) else None
      | _ => if neutral a then Some s else None
      end
  | Billed token => None
  end.

Fixpoint lease_run (s : Lease) (l : list Act) : option Lease :=
  match l with
  | [] => Some s
  | a :: l' => s' ← lease_step s a; lease_run s' l'
  end.

Definition closed (s : Lease) : bool :=
  match s with Idle | Released _ _ | Ambiguous _ _ | Deferred _ | Billed _ => true | _ => false end.

(** The calls since [pre] form a run of the state machine that ends in [s]. *)
Definition logged (pre : list Act) (s : Lease) (v : View) : Prop :=
  exists l, v_log v = pre ++ l /\ lease_run Idle l = Some s.

Lemma lease_run_app s l1 l2 : lease_run s (l1 ++ l2) = (s' ← lease_run s l1; lease_run s' l2).
Proof. revert s. induction l1 as [|a l1 IH]; intros s; cbn; [done|]. destruct (lease_step s a); cbn; [apply IH|done]. Qed.

Lemma logged_step pre s s' a v :
  logged pre s v -> lease_step s a = Some s' -> logged pre s' (log_snoc a v).
Proof.
  intros (l & Hl & Hr) Hs. exists (l ++ [a]). cbn. rewrite Hl, <- app_assoc. split; [done|].
  by rewrite lease_run_app, Hr; cbn; rewrite Hs.
Qed.

Lemma logged_neutral pre s a v :
  logged pre s v -> neutral a = true -> (forall t, s <> Billed t) -> (forall d, s <> Authorised d) ->
  (forall t, s <> Denied t) -> (forall t r, s = Answered t r -> takes_over a = false) ->
  logged pre s (log_snoc a v).
Proof.
  intros H Hn H1 H2 H3 Ht. eapply logged_step; [done|].
  destruct s as [|d|t|d|t r|t b|t b|t|t]; cbn; rewrite ?Hn, ?(Ht _ _ eq_refl);
    try (exfalso; first [by eapply H1|by eapply H2|by eapply H3]); by destruct a.
Qed.

Section Lease.
Context {RJ : RapidJson} {SC : StreamCodec} {CV : Converter} {E : Environment}.
Context (req : HttpRequest) (matched : MatchedCapability) (pre : list Act) (act : Z).

(** The converter accepts the request for every provider format. *)
Definition conversions_succeed : Prop := forall format model,
  cr_success (convert_request (hq_body req) (inbound_format (spec matched)) format model) = true.

(** The calls follow the state machine, and this request counts as active. *)
Definition held (s : Lease) (v : View) : Prop := logged pre s v /\ v_active v = act.

(** After an early return it counts no more, and its lease is closed. *)
Definition DoneOk (v : View) : Prop :=
  exists s, logged pre s v /\ v_active v = u64 (act + -1) /\ (conversions_succeed -> closed s = true).
Definition ExitOk (o : option fault) (v : View) : Prop := exists s, logged pre s v.

Lemma held_done s v : held s v -> closed s = true -> DoneOk (with_active (-1) v).
Proof. intros [H Ha] Hc. exists s. split; [exact H|]. cbn. by rewrite Ha. Qed.

Lemma held_exit s o v : held s v -> ExitOk o v.
Proof. intros [H _]. by exists s. Qed.

Lemma held_step s s' a v : held s v -> lease_step s a = Some s' -> held s' (log_snoc a v).
Proof. intros [H Ha] Hs. split; [by eapply logged_step|done]. Qed.

Lemma held_neutral s a v :
  held s v -> neutral a = true -> (forall t, s <> Billed t) -> (forall d, s <> Authorised d) ->
  (forall t, s <> Denied t) -> (forall t r, s = Answered t r -> takes_over a = false) ->
  held s (log_snoc a v).
Proof. intros [H Ha] **. split; [by apply logged_neutral|done]. Qed.

(** The assertions do not look at the response and the time. *)
Definition same (v' v : View) : Prop := v_log v' = v_log v /\ v_active v' = v_active v.

Lemma held_view s v v' : same v' v -> held s v -> held s v'.
Proof. intros [H1 H2]. unfold held, logged. by rewrite H1, H2. Qed.

Lemma held_resp s f v : held s v -> held s (with_resp f v).
Proof. done. Qed.
Lemma held_time s t v : held s v -> held s (at_time t v).
Proof. done. Qed.

Ltac held_neutral :=
  repeat match goal with
  | |- held _ (log_snoc (AMedia _ _) _) => apply held_neutral; [|try done..]
  | |- held _ (log_snoc (AGarnet _ _) _) => apply held_neutral; [|done..]
  | |- held _ (log_snoc (AUpload _ _ _) _) => apply held_neutral; [|done..]
  | |- held _ (log_snoc (AReportError _) _) => apply held_neutral; [|done..]
  | |- held _ (log_snoc (ASleep _) _) => apply held_neutral; [|done..]
  | |- held _ (with_resp _ _) => apply held_resp
  | |- held _ (at_time _ _) => apply held_time
  end; try eassumption.

Ltac lease_auto :=
  wp_go;
  try match goal with
  | H : held ?s _ |- DoneOk _ => apply (held_done s); [held_neutral; fail|done]
  | H : held ?s _ |- ExitOk _ _ => apply (held_exit s); held_neutral; fail
  | H : held ?s _ |- held ?s _ => held_neutral; fail
  end.

Lemma wp_refuse {A} status body (Q : A -> View -> Prop) v :
  held Idle v -> wp (refuse status body) Q DoneOk ExitOk v.
Proof. intros H. unfold refuse. lease_auto. Qed.

Lemma wp_media_control key_hash request_id Q v :
  held Idle v -> wp (media_control req matched key_hash request_id) Q DoneOk ExitOk v.
Proof. intros H. unfold media_control, json_no_store. lease_auto.  Qed.

Lemma wp_show_existing existing (Q : unit -> View -> Prop) v :
  (forall v', same v' v -> Q () v') -> wp (show_existing existing) Q DoneOk ExitOk v.
Proof. intros H. unfold show_existing. wp_go; by apply H. Qed.

Lemma wp_idempotency_lookup key_hash request_id (Q : unit -> View -> Prop) v :
  held Idle v -> (forall v', held Idle v' -> Q () v') ->
  wp (idempotency_lookup req matched key_hash request_id) Q DoneOk ExitOk v.
Proof.
  intros H HQ. unfold idempotency_lookup. lease_auto; try (apply HQ; held_neutral; fail);
    try (apply wp_refuse; held_neutral; fail).
  apply wp_show_existing. intros v' Hv'. lease_auto.
  apply (held_done Idle); [|done]. apply (held_view _ _ _ Hv'). held_neutral.
Qed.

Lemma wp_auth_version key_hash (Q : Z -> View -> Prop) v :
  held Idle v -> (forall z v', held Idle v' -> Q z v') ->
  wp (auth_version key_hash) Q DoneOk ExitOk v.
Proof.
  intros H HQ. unfold auth_version. wp_go. case_match; wp_go; apply HQ; held_neutral.
Qed.

Lemma wp_stage_body Q v :
  held Idle v -> (forall b v', held Idle v' -> Q b v') ->
  wp (stage_body req) Q DoneOk ExitOk v.
Proof.
  intros H HQ. unfold stage_body. wp_go; try (apply HQ; held_neutral; fail).
  apply wp_refuse. held_neutral.
Qed.



(** ** The dispatch loop *)

Lemma wp_exhausted counter deadline (Q : bool -> View -> Prop) v :
  (forall b v', same v' v -> Q b v') -> wp (exhausted counter deadline) Q DoneOk ExitOk v.
Proof. intros H. unfold exhausted. wp_go; by apply H. Qed.

Lemma wp_replay_media key_hash request_id d (Q : unit -> View -> Prop) v :
  held Idle v -> (forall v', held Idle v' -> Q () v') ->
  wp (replay_media req key_hash request_id d) Q DoneOk ExitOk v.
Proof.
  intros H HQ. unfold replay_media. case_match; wp_go; try (apply HQ; held_neutral; fail).
  apply wp_show_existing. intros v' Hv'. wp_go.
  all: apply (held_done Idle); [|done]; apply held_resp, (held_view _ _ _ Hv'); held_neutral.
Qed.

Lemma wp_replay_answer d (Q : unit -> View -> Prop) v :
  held Idle v -> (forall v', held Idle v' -> Q () v') -> wp (replay_answer d) Q DoneOk ExitOk v.
Proof. intros H HQ. unfold replay_answer. lease_auto. by apply HQ. Qed.

Lemma wp_rejected_dispatch {A} key_hash request_id d (Q : A -> View -> Prop) v :
  held Idle v -> wp (rejected_dispatch req key_hash request_id d) Q DoneOk ExitOk v.
Proof.
  intros H. unfold rejected_dispatch. wp_go; try (by apply wp_refuse).
  apply wp_replay_media; [done|]. intros v1 H1. apply wp_replay_answer; [done|]. intros v2 H2.
  by apply wp_refuse.
Qed.

Lemma wp_refresh_cache key_hash d (Q : unit -> View -> Prop) v :
  Q () v -> wp (refresh_cache key_hash d) Q DoneOk ExitOk v.
Proof. intros H. unfold refresh_cache. case_match; wp_go; exact H. Qed.

(** Where a dispatch may be made. *)
Definition ready (s : Lease) : Prop := s = Idle \/ exists t, s = Released t true.

Lemma held_dispatch s r d v :
  held s v -> ready s -> held (if granted d then Granted d else Idle) (log_snoc (ADispatch r d) v).
Proof. intros H [->|[t ->]]; (eapply held_step; [exact H|done]). Qed.

Lemma wp_dispatch_loop fuel key_hash request_id dispatch_req deadline waits transport s Q v :
  held s v -> ready s ->
  (forall d w t v', held (Granted d) v' -> Q (d, w, t) v') ->
  wp (dispatch_loop req fuel key_hash request_id dispatch_req deadline waits transport) Q DoneOk ExitOk v.
Proof.
  intros H Hs HQ. revert s dispatch_req waits transport v H Hs. induction fuel as [|fuel IH].
  { intros s dr waits transport v H Hs. cbn. wp_go. by apply (held_exit s). }
  intros s dr waits transport v H Hs. cbn [dispatch_loop]. apply wp_bind, wp_call. intros d _.
  apply (held_dispatch _ dr d) in H as Hd; [|done]. unfold granted in Hd.
  apply wp_bind. apply wp_bump; [reflexivity|]. destruct (dr_outcome d) eqn:Ho.
  - apply wp_bind, wp_refresh_cache. wp_go. by apply HQ.
  - apply wp_bind, wp_exhausted. intros b v1 H1. apply (held_view _ _ _ H1) in Hd. destruct b.
    { by apply wp_refuse. }
    wp_go. eapply IH; [|by left]. held_neutral.
  - destruct (is_retryable_platform_dispatch d); [|by apply wp_rejected_dispatch].
    apply wp_bind, wp_exhausted. intros b v1 H1. apply (held_view _ _ _ H1) in Hd. destruct b.
    { by apply wp_refuse. }
    wp_go. eapply IH; [|by left]. held_neutral.
  - apply wp_bind, wp_refresh_cache. wp_go. by apply HQ.
Qed.

(** ** An attempt *)

Lemma wp_lease_evidence token stage stage_name detail s (s' : RpcAck -> Lease) Q v :
  held s v -> (forall ack, lease_step s (AEvidence token stage ack) = Some (s' ack)) ->
  (forall ack v', held (s' ack) v' -> Q ack v') ->
  wp (lease_evidence token stage stage_name detail) Q DoneOk ExitOk v.
Proof.
  intros H Hs HQ. unfold lease_evidence. wp_go.
  - apply HQ. eapply held_step; [exact H|apply Hs].
  - eapply held_exit, held_step; [exact H|apply Hs].
  - apply HQ. eapply held_step; [exact H|apply Hs].
  - by eapply held_exit.
Qed.

Lemma wp_run_callbacks {A} (body : A -> hm unit) l (Q : unit -> View -> Prop) v :
  (forall x v' Q', (forall v'', same v'' v' -> Q' () v'') -> wp (body x) Q' DoneOk ExitOk v') ->
  (forall v', same v' v -> Q () v') -> wp (run_callbacks body l) Q DoneOk ExitOk v.
Proof.
  intros Hb. revert v. induction l as [|x l IH]; intros v HQ; cbn; wp_go; [by apply HQ|].
  apply Hb. intros v' Hv'. apply IH. intros v'' Hv''. apply HQ. destruct Hv', Hv''. split; congruence.
Qed.

Lemma wp_response_start request_id is_stream start (Q : unit -> View -> Prop) v :
  (forall v', same v' v -> Q () v') ->
  wp (response_start_callback request_id is_stream start) Q DoneOk ExitOk v.
Proof. intros H. destruct start as [[status ct] headers]. unfold response_start_callback. wp_go. by apply H. Qed.

Lemma wp_forward request_id d body is_stream Q v :
  held (Authorised d) v ->
  (forall r v', held (Answered (dr_lease_token d) (Ok r)) v' -> Q r v') ->
  wp (forward_ req matched request_id (dr_lease_token d) body is_stream (dr_upstream d)) Q DoneOk ExitOk v.
Proof.
  intros H HQ. unfold forward_. wp_go.
  destruct (forward _ _ _ _ _ _ _ _ _ _ _) as [[callbacks result]|]; [|wp_go; by eapply held_exit].
  wp_go. assert (held (Answered (dr_lease_token d) result)
    (log_snoc (AForward (dr_upstream d) (forward_request req matched request_id (dr_lease_token d) body
       is_stream (upstream_format_of (dr_upstream d)) (length (g_log g))) result) v)) as Ha.
  { eapply held_step; [exact H|]. cbn. by rewrite bool_decide_eq_true_2. }
  apply wp_run_callbacks; [intros; by apply wp_response_start|]. intros v1 Hv1.
  apply (held_view _ _ _ Hv1) in Ha. clear Hv1.
  assert (forall v2, held (Answered (dr_lease_token d) result) v2 ->
    wp (rethrow result) Q DoneOk ExitOk v2) as Hr.
  { intros v2 H2. wp_go; subst; [by apply HQ|by eapply held_exit]. }
  apply wp_bind, wp_when; [intros _|intros _; by apply Hr].
  unfold output_started_callback. wp_go.
  eapply (wp_lease_evidence _ _ _ _ _ (λ _, Answered (dr_lease_token d) result)); [exact Ha| |].
  { intros ack. cbn. by rewrite str_eqb_refl. }
  intros ack v2 H2. apply wp_ret. by apply Hr.
Qed.

(** What a verdict leaves: the answer still open, or a lease that is closed. *)
Inductive leaves (d : DispatchResult) (r : ForwardResult) : bool -> Lease -> Prop :=
| leaves_open : fr_stream_incomplete r = false ->
    leaves d r false (Answered (dr_lease_token d) (Ok r))
| leaves_ambiguous late : late = late_usage_candidate true r ->
    leaves d r true (Ambiguous (dr_lease_token d) late)
| leaves_released b : fr_stream_incomplete r = false ->
    leaves d r true (Released (dr_lease_token d) b)
| leaves_unconverted : fr_stream_incomplete r = false -> ~ conversions_succeed ->
    leaves d r true (Granted d).

Definition verdict_ok (d : DispatchResult) (verdict : Verdict) (v : View) : Prop :=
  match verdict with
  | Finished r terminal_abort => exists s, held s v /\ leaves d r terminal_abort s
  | Gateway.Retry r _ =>
      held (Released (dr_lease_token d) true) v /\ fr_stream_incomplete r = false
  end.

Lemma wp_fail_over request_id d start account_id failover r v :
  held (Answered (dr_lease_token d) (Ok r)) v -> ambiguous r = false -> fr_malformed_usage r = false ->
  wp (fail_over matched request_id (dr_lease_token d) start account_id failover r) (verdict_ok d)
    DoneOk ExitOk v.
Proof.
  intros H Ha Hm. apply orb_false_iff in Ha as [Hc Hi]. unfold fail_over. apply wp_bind, wp_now. intros t Ht.
  set (retryable := is_explicit_provider_rejection r && _ && _ && _ && _). cbv zeta.
  destruct (if retryable then _ else _) as [action fo] eqn:Eact.
  assert (forall v1, held (Answered (dr_lease_token d) (Ok r)) v1 ->
    wp (abort_ (dr_lease_token d) "upstream_failure"
          (if is_explicit_provider_rejection r then NoCharge else Unknown) (fr_provider_status_code r) ≫= λ _,
        inc_upstream_errors ≫= λ _,
        match action with
        | Failover.SwitchAccount | Failover.Continue => inc_failovers ≫= λ _,
            usleep (default 0 (Retry.compute_delay Retry.default_policy (Failover.switch_count fo)) * 1000) ≫= λ _,
            mret (Gateway.Retry r fo)
        | _ => mret (Finished r true)
        end) (verdict_ok d) DoneOk ExitOk v1) as Hrest.
  { intros v1 H1. apply wp_bind, wp_call. intros ack _. apply wp_bind, wp_bump; [reflexivity|].
    destruct retryable eqn:Er.
    - unfold retryable in Er. breflect. destruct Er as [[[[He _] Ho] _] Hs].
      rewrite He. assert (held (Released (dr_lease_token d) true) (log_snoc (AAbort (dr_lease_token d)
        "upstream_failure" NoCharge (fr_provider_status_code r) ack) v1)) as H2.
      { eapply held_step; [exact H1|]. cbn. rewrite str_eqb_refl, He. cbn. rewrite orb_true_r, Hi, Hm, Hs.
        rewrite Ho in Hc |- *. cbn in *. rewrite andb_true_r in Hc. by rewrite Hc. }
      destruct action; wp_go; cbn; first
        [split; [apply held_neutral; [exact H2|done..]|exact Hi]
        |eexists; split; [exact H2|by constructor]].
    - injection Eact as <- <-. wp_go. cbn. destruct (is_explicit_provider_rejection r) eqn:He.
      + eexists. split; [eapply held_step; [exact H1|]; cbn; rewrite str_eqb_refl, He; cbn;
          rewrite orb_true_r; reflexivity|by constructor].
      + eexists. split; [eapply held_step; [exact H1|]; cbn; rewrite str_eqb_refl; reflexivity|].
        constructor. reflexivity. }
  apply wp_bind, wp_when; intros _; [|by apply Hrest].
  apply wp_bind, wp_call. intros ack _. apply wp_ret, Hrest. held_neutral.
Qed.

(** A lease whose provider has answered [r], aborted already or not. *)
Definition answered (d : DispatchResult) (r : ForwardResult) (s : Lease) : Prop :=
  s = Answered (dr_lease_token d) (Ok r) \/ leaves d r true s.

Lemma leaves_answered d r b s : leaves d r b s -> answered d r s.
Proof. intros Hl. destruct Hl; [by left|right; by constructor..]. Qed.

Lemma held_abort_unknown d r s reason status ack v :
  held s v -> answered d r s ->
  exists s', held s' (log_snoc (AAbort (dr_lease_token d) reason Unknown status ack) v)
    /\ leaves d r true s'.
Proof.
  intros H [->|Hl].
  { eexists. split; [eapply held_step; [exact H|]; cbn; rewrite str_eqb_refl; reflexivity|by constructor]. }
  inversion Hl as [|late Hlate E1 E2|b Hi E1 E2|Hi Hc E1 E2]; subst s; (eexists; split;
    [eapply held_step; [exact H|]; cbn; rewrite ?str_eqb_refl; cbn; reflexivity|]); try (by constructor).
  constructor. unfold late_usage_candidate. by rewrite Hi.
Qed.

(** The status code is not part of what is left. *)
Lemma leaves_status d r s status : leaves d r true s -> leaves d (set_fr_status_code status r) true s.
Proof. intros Hl. inversion Hl; subst; by constructor. Qed.

Lemma wp_abort_ambiguous d r s (Q : unit -> View -> Prop) v :
  held s v -> answered d r s ->
  (forall s' v', held s' v' -> leaves d r true s' -> Q () v') ->
  wp (abort_ambiguous (dr_lease_token d) r) Q DoneOk ExitOk v.
Proof.
  intros H Hl HQ. unfold abort_ambiguous. apply wp_bind, wp_call. intros ack _.
  eapply held_abort_unknown in H as (s' & H' & Hl'); [|exact Hl].
  wp_go; eapply HQ; try exact Hl'; exact H'.
Qed.

Lemma neutral_report d r s e v :
  held s v -> answered d r s -> held s (log_snoc (AReportError e) v).
Proof. intros H [->|Hl]; [|inversion Hl; subst]; (apply held_neutral; [exact H|done..]). Qed.

Lemma wp_abort_malformed request_id account_id d r s (Q : unit -> View -> Prop) v :
  held s v -> answered d r s ->
  (forall s' v', held s' v' -> leaves d r true s' -> Q () v') ->
  wp (abort_malformed request_id (dr_lease_token d) account_id r) Q DoneOk ExitOk v.
Proof.
  intros H Hl HQ. unfold abort_malformed. apply wp_bind, wp_call. intros ? _.
  eapply neutral_report in H; [|exact Hl]. apply wp_bind, wp_call. intros ack _.
  eapply held_abort_unknown in H as (s' & H' & Hl'); [|exact Hl].
  wp_go; eapply HQ; try exact Hl'; exact H'.
Qed.

(** From the provider's answer to the verdict. *)
Lemma wp_verdict request_id start account_id d failover r v :
  held (Answered (dr_lease_token d) (Ok r)) v ->
  wp (when (ambiguous r) (abort_ambiguous (dr_lease_token d) r) ≫= λ _,
      when (fr_malformed_usage r) (abort_malformed request_id (dr_lease_token d) account_id r) ≫= λ _,
      let r := if fr_malformed_usage r then set_fr_status_code 502 r else r in
      let terminal_abort := ambiguous r || fr_malformed_usage r in
      if (400 <=? fr_status_code r) && negb (fr_malformed_usage r) && negb terminal_abort
      then fail_over matched request_id (dr_lease_token d) start account_id failover r
      else mret (Finished r terminal_abort)) (verdict_ok d) DoneOk ExitOk v.
Proof.
  intros H.
  assert (forall s v1, held s v1 -> answered d r s -> fr_malformed_usage r = true ->
    wp (abort_malformed request_id (dr_lease_token d) account_id r)
      (λ _ v2, exists s', held s' v2 /\ leaves d r true s') DoneOk ExitOk v1) as Hm.
  { intros s v1 H1 Ha _. eapply wp_abort_malformed; [exact H1|exact Ha|]. eauto. }
  destruct (fr_malformed_usage r) eqn:Em; cbv zeta.
  - apply wp_bind, wp_when; intros Ha.
    + eapply wp_abort_ambiguous; [exact H|by left|]. intros s1 v1 H1 Hl1. cbn [when].
      apply wp_bind. eapply wp_mono; [eapply Hm; [exact H1|by right|done]|..]; [|done..].
      intros _ v2 (s2 & H2 & Hl2). cbn. rewrite Em. cbn. rewrite ?andb_false_r, ?orb_true_r. wp_go.
      exists s2. split; [exact H2|by apply leaves_status].
    + cbn [when]. apply wp_bind. eapply wp_mono; [eapply Hm; [exact H|by left|done]|..]; [|done..].
      intros _ v2 (s2 & H2 & Hl2). cbn. rewrite Em. cbn. rewrite ?andb_false_r, ?orb_true_r. wp_go.
      exists s2. split; [exact H2|by apply leaves_status].
  - cbn [when]. apply wp_bind, wp_when; intros Ha.
    + eapply wp_abort_ambiguous; [exact H|by left|]. intros s1 v1 H1 Hl1. apply wp_bind, wp_ret.
      rewrite Em, Ha. cbn. rewrite andb_false_r. wp_go. by exists s1.
    + apply wp_bind, wp_ret. rewrite Em, Ha. cbn. rewrite !andb_true_r. wp_go.
      * by apply wp_fail_over.
      * apply orb_false_iff in Ha as [_ Hi]. eexists. split; [exact H|by constructor].
Qed.

Lemma wp_attempt request_id start is_stream d failover r v :
  held (Granted d) v -> fr_stream_incomplete r = false ->
  wp (attempt req matched request_id start is_stream d failover r) (verdict_ok d) DoneOk ExitOk v.
Proof.
  intros H Hr. unfold attempt. cbv zeta.
  set (conversion := if _ || _ then _ else _). destruct (cr_success conversion) eqn:Ec; cbn [negb].
  2: { wp_go. exists (Granted d). split; [exact H|]. constructor; [exact Hr|]. intros Hc.
       unfold conversion in Ec. destruct (_ || _); [done|]. by rewrite Hc in Ec. }
  apply wp_bind. eapply (wp_lease_evidence _ _ _ _ _
    (λ ack, if acknowledged ack then Authorised d else Denied (dr_lease_token d))); [exact H| |].
  { intros ack. cbn. by rewrite str_eqb_refl. }
  intros ack v1 H1. destruct (acknowledged ack); cbn [negb].
  2: { wp_go. eexists. split; [eapply held_step; [exact H1|]; cbn; rewrite str_eqb_refl; reflexivity|].
       by constructor. }
  apply wp_bind, wp_forward; [exact H1|]. intros r' v' H'. by apply wp_verdict.
Qed.

(** ** The forwarding loop *)

Lemma wp_forwarding_loop fuel key_hash request_id start deadline is_stream dispatch_req waits transport
    sequence failover r s Q v :
  held s v -> ready s -> fr_stream_incomplete r = false ->
  (forall d r ta s' v', held s' v' -> leaves d r ta s' -> Q (d, r, ta) v') ->
  wp (forwarding_loop req matched fuel key_hash request_id start deadline is_stream dispatch_req waits
        transport sequence failover r) Q DoneOk ExitOk v.
Proof.
  intros H Hs Hr HQ. revert dispatch_req waits transport sequence failover r s v H Hs Hr.
  induction fuel as [|fuel IH]; intros dispatch_req waits transport sequence failover r s v H Hs Hr;
    cbn [forwarding_loop]; [wp_go; by eapply held_exit|].
  apply wp_bind. eapply wp_dispatch_loop; [exact H|exact Hs|]. intros d w t v1 H1.
  apply wp_bind. eapply wp_mono; [by apply wp_attempt| |done|done].
  intros [r' ta|r' fo] v2; cbn [verdict_ok].
  - intros (s2 & H2 & Hl2). wp_go. by eapply HQ.
  - intros [H2 Hi2]. eapply IH; [exact H2| |exact Hi2]. right. by eexists.
Qed.

(** ** The settlement *)

Definition left_by (d : DispatchResult) (st : ForwardResult * bool) (v : View) : Prop :=
  exists s, held s v /\ leaves d st.1 st.2 s.

Lemma wp_withdraw d reason r ta (Q : ForwardResult -> View -> Prop) v :
  left_by d (r, ta) v ->
  (forall r' v', left_by d (r', true) v' -> Q r' v') ->
  wp (withdraw (dr_lease_token d) reason r) Q DoneOk ExitOk v.
Proof.
  intros (s & H & Hl) HQ. unfold withdraw. apply wp_bind, wp_call. intros ack _.
  eapply held_abort_unknown in H as (s' & H' & Hl'); [|by eapply leaves_answered].
  wp_go. apply HQ. exists s'. split; [exact H'|by apply leaves_status].
Qed.

Lemma wp_withdraw_invalid d reason validation st v :
  left_by d st v ->
  wp (withdraw_invalid (dr_lease_token d) reason validation st) (left_by d) DoneOk ExitOk v.
Proof.
  intros H. unfold withdraw_invalid. destruct st as [r ta]. wp_go; [exact H|].
  eapply wp_withdraw; [exact H|]. intros r' v' H'. wp_go. exact H'.
Qed.

Lemma wp_deliver_body d is_stream format model r ta v :
  left_by d (r, ta) v ->
  wp (deliver_body req matched (dr_lease_token d) is_stream format model r ta) (left_by d) DoneOk ExitOk v.
Proof.
  intros H. unfold deliver_body. wp_go; [|exact H]. unfold convert_error_body.
  assert (forall v1, left_by d (r, ta) v1 -> wp (convert_success_body matched format model (dr_lease_token d) (r, ta))
    (left_by d) DoneOk ExitOk v1) as Hc.
  { intros v1 H1. unfold convert_success_body. wp_go; [exact H1| |exact H1].
    eapply wp_withdraw; [exact H1|]. intros r' v' H'. wp_go. exact H'. }
  assert (forall v1, left_by d (r, ta) v1 -> wp
    (convert_success_body matched format model (dr_lease_token d) (r, ta) ≫= λ st,
     check_embeddings req matched (dr_lease_token d) st ≫= λ st,
     check_catalog matched (dr_lease_token d) st ≫= λ st,
     check_responses matched (dr_lease_token d) is_stream st) (left_by d) DoneOk ExitOk v1) as Hrest.
  { intros v1 H1. apply wp_bind. eapply wp_mono; [by apply Hc| |done|done]. intros st1 v2 H2.
    apply wp_bind. eapply wp_mono with (Q := left_by d); [| |done|done].
    { unfold check_embeddings. wp_go; [by apply wp_withdraw_invalid|exact H2]. }
    intros st2 v3 H3. apply wp_bind. eapply wp_mono with (Q := left_by d); [| |done|done].
    { unfold check_catalog. wp_go; [by apply wp_withdraw_invalid|exact H3]. }
    intros st3 v4 H4. unfold check_responses. wp_go; [by apply wp_withdraw_invalid|exact H4]. }
  apply wp_when; intros _; [apply wp_on_resp|]; apply Hrest; exact H.
Qed.

Lemma wp_withhold status type message (Q : bool -> View -> Prop) v :
  (forall v', same v' v -> Q true v') -> wp (withhold status type message) Q DoneOk ExitOk v.
Proof. intros H. unfold withhold. wp_go. by apply H. Qed.

Lemma wp_response_policy d is_stream r ta (Q : bool -> View -> Prop) v :
  left_by d (r, ta) v -> (forall b v', left_by d (r, ta) v' -> Q b v') ->
  wp (response_policy matched (dr_lease_token d) is_stream r ta) Q DoneOk ExitOk v.
Proof.
  intros H HQ. unfold response_policy.
  assert (forall status type message v1, left_by d (r, ta) v1 ->
    wp (withhold status type message) Q DoneOk ExitOk v1) as Hw.
  { intros status type message v1 (s & H1 & Hl). apply wp_withhold. intros v2 Hv2. apply HQ.
    exists s. split; [by eapply held_view|done]. }
  apply wp_bind, wp_gets. intros g _. destruct (negb is_stream && _ && _ && _ && _) eqn:Ec; [|apply wp_ret; by apply HQ].
  breflect. destruct Ec as [[[[_ ->] _] _] _].
  destruct (chat_capability _).
  - apply wp_bind, wp_call. intros policy _.
    assert (left_by d (r, false) (log_snoc (AEvaluate (dr_lease_token d) (hr_body (g_resp g))
      (name (spec matched)) policy) v)) as H1.
    { destruct H as (s & H1 & Hl). cbn in Hl. exists s. split; [|exact Hl].
      inversion Hl; subst. eapply held_step; [exact H1|]. cbn. by rewrite str_eqb_refl. }
    destruct (content_policy_disposition policy); [apply wp_ret; by apply HQ|by apply Hw..].
  - repeat (match goal with |- wp (if ?b then _ else _) _ _ _ _ => destruct b end);
      [apply wp_ret; by apply HQ|apply wp_ret; by apply HQ|by apply Hw..].
Qed.

(** As [leaves], with the leases handed over to a media operation. *)
Definition left_after_media (d : DispatchResult) (r : ForwardResult) (ta defer : bool) (v : View) : Prop :=
  (defer = false /\ left_by d (r, ta) v)
  \/ (defer = true /\ ta = false /\ fr_stream_incomplete r = false /\ held (Deferred (dr_lease_token d)) v).

Lemma wp_persist_media key_hash request_id d r ta (Q : bool * bool * bool -> View -> Prop) v :
  left_by d (r, ta) v ->
  (forall ta defer over v', left_after_media d r ta defer v' -> Q (ta, defer, over) v') ->
  wp (persist_media req matched key_hash request_id d r ta) Q DoneOk ExitOk v.
Proof.
  intros H HQ. unfold persist_media.
  destruct (_ && _); [|apply wp_ret, HQ; left; done].
  apply wp_bind, wp_gets. intros g _. cbv zeta. set (body := hr_body (g_resp g)).
  set (status := if ta || (400 <=? fr_status_code r) then _ else _).
  apply wp_bind, wp_call. intros operation _. set (mreq := mkMediaOperationRequest _ _ _ _ _ _ _ _ _ _ _ _ _).
  destruct H as (s & H & Hl). cbn in Hl.
  destruct (takes_over (AMedia mreq operation)) eqn:Et.
  - pose proof Et as Et'. cbn in Et'. breflect. destruct Et' as [[_ Hrun] Hacc]. rewrite Hacc. cbn [negb].
    assert (ta = false) as ->.
    { destruct ta; [|done]. subst status. cbn in Hrun. discriminate Hrun. }
    inversion Hl; subst s. rewrite Hrun.
    assert (held (Deferred (dr_lease_token d)) (log_snoc (AMedia mreq operation) v)) as Hd.
    { eapply held_step; [exact H|]. cbn [lease_step]. by rewrite Et. }
    wp_go; apply HQ; right; split; try done; split; try done; split; done.
  - assert (held s (log_snoc (AMedia mreq operation) v)) as H1.
    { apply held_neutral; [exact H|inversion Hl; subst; done..|by intros]. }
    destruct (mr_accepted operation) eqn:Ea; cbn [negb].
    + assert ((status =$ "running") = false) as Hrun.
      { destruct (status =$ "running") eqn:Er; [|done]. cbn in Et. apply str_eqb_eq in Er.
        rewrite Er, Ea in Et. done. }
      rewrite Hrun. wp_go; apply HQ; left; split; try done; exists s; split; done.
    + apply wp_bind, wp_call. intros ack _.
      eapply held_abort_unknown in H1 as (s' & H' & Hl'); [|by eapply leaves_answered].
      wp_go. apply HQ. left. split; [done|]. exists s'. split; [exact H'|exact Hl'].
Qed.

Lemma wp_release_control d r ta defer (Q : bool -> View -> Prop) v :
  left_after_media d r ta defer v ->
  (forall ta defer' v', (defer' = true -> defer = true) -> (defer = true -> ta = false -> defer' = true) ->
     left_after_media d r ta defer' v' -> Q ta v') ->
  wp (release_control matched d r ta) Q DoneOk ExitOk v.
Proof.
  intros H HQ. unfold release_control. destruct (_ && _ && _) eqn:Ec; [|apply wp_ret; by apply (HQ _ defer)].
  breflect. destruct Ec as [[_ ->] _]. apply wp_bind, wp_call. intros ack _. apply wp_ret.
  destruct H as [[-> (s & H & Hl)]|(-> & _ & Hi & H)].
  - cbn in Hl. inversion Hl as [Hi E1 E2| | |]; subst s.
    apply (HQ _ false); [done|done|]. left. split; [done|]. destruct (acknowledged ack) eqn:Ea.
    + eexists. split; [eapply held_step; [exact H|]; cbn; rewrite str_eqb_refl, orb_true_r; cbn;
        rewrite Ea; reflexivity|by constructor].
    + eexists. split; [eapply held_step; [exact H|]; cbn; rewrite str_eqb_refl, orb_true_r; cbn;
        rewrite Ea; reflexivity|by constructor].
  - destruct (acknowledged ack) eqn:Ea.
    + apply (HQ _ false); [done|done|]. left. split; [done|]. eexists. split; [eapply held_step;
        [exact H|]; cbn; rewrite str_eqb_refl, Ea; reflexivity|by constructor].
    + apply (HQ _ true); [done|done|]. right. split; [done|]. split; [done|]. split; [done|].
      eapply held_step; [exact H|]. cbn. by rewrite str_eqb_refl, Ea.
Qed.

Lemma late_usage_incomplete is_stream r :
  late_usage_candidate is_stream r = true -> fr_stream_incomplete r = true /\ late_usage_candidate true r = true.
Proof.
  unfold late_usage_candidate. rewrite !andb_true_iff. intros [[[[H1 H2] H3] H4] H5]. by rewrite H2, H3, H4, H5.
Qed.

Lemma wp_settle_usage event s Q v :
  held s v -> (forall a, settles (ue_lease_token event) a = true ->
    lease_step s a = Some (Billed (ue_lease_token event))) ->
  (forall v', held (Billed (ue_lease_token event)) v' -> Q () v') ->
  wp (settle_usage event) Q DoneOk ExitOk v.
Proof.
  intros H Hs HQ. unfold settle_usage. apply wp_bind, wp_collector. intros [u|e].
  - wp_go. apply HQ. eapply held_step; [exact H|]. apply Hs, str_eqb_refl.
  - wp_go; apply HQ; (eapply held_step; [exact H|]; apply Hs, str_eqb_refl).
Qed.

Lemma leaves_closed d r s : leaves d r true s -> conversions_succeed -> closed s = true.
Proof. intros Hl Hc. inversion Hl; subst; done. Qed.

Lemma wp_settle key_hash request_id start is_stream parsed usage d r ta (Q : unit -> View -> Prop) v :
  left_by d (r, ta) v ->
  wp (settle req matched key_hash request_id start is_stream parsed usage d r ta) Q DoneOk ExitOk v.
Proof.
  intros H. unfold settle. apply wp_bind. eapply wp_mono; [by apply wp_deliver_body| |done|done].
  clear v r ta H. intros [r ta] v H. apply wp_bind. apply wp_response_policy; [exact H|].
  clear v H. intros overridden v H.
  assert (forall v, left_by d (r, ta) v -> wp (persist_media req matched key_hash request_id d r ta)
    (λ '(ta, defer, over), left_after_media d r ta defer) DoneOk ExitOk v) as Hp.
  { intros v' H'. apply wp_persist_media; [exact H'|]. done. }
  apply wp_bind. eapply wp_mono with (Q := λ _, left_by d (r, ta)); [wp_go; exact H| |done|done].
  clear v H. intros _ v H. apply wp_bind. eapply wp_mono; [by apply Hp| |done|done].
  clear v H Hp. intros [[ta1 defer] over] v H. apply wp_bind. eapply wp_release_control; [exact H|].
  clear v H. intros ta2 defer' v Hd1 Hd2 H. apply wp_bind, wp_gets. intros g _. apply wp_bind, wp_now. intros t _.
  cbv zeta. set (event := usage_event _ _ _ _ _ _ _ _ _ _).
  assert (forall s v', held s v' -> (conversions_succeed -> closed s = true) -> wp
    (when (negb over && negb overridden) (set_status (if 0 <? fr_status_code r then fr_status_code r else 200)) ≫= λ _,
     dec_active ≫= λ _, finish_request) Q DoneOk ExitOk v') as Hend.
  { intros s v' [Hv' Hact] Hclosed. wp_go; (exists s; split; [exact Hv'|]; cbn; by rewrite Hact). }
  apply wp_bind, wp_when; intros Hc.
  - apply andb_true_iff in Hc as [Hc Hdefer]. apply negb_true_iff in Hdefer. subst defer.
    destruct H as [[-> (s & H & Hl)]|(-> & -> & _)]; [|by specialize (Hd1 eq_refl)]. cbn in Hl.
    eapply (wp_settle_usage event s); [exact H| |].
    + intros a Ha. change (ue_lease_token event) with (dr_lease_token d) in *.
      inversion Hl as [Hi E1 E2|late Hlate E1 E2|b Hi E1 E2|Hi Hconv E1 E2]; subst s ta2; cbn [negb orb] in Hc.
      * destruct a; try done; cbn in Ha |- *; by rewrite Ha.
      * apply late_usage_incomplete in Hc as [_ Hc]. rewrite <- Hlate in Hc. subst late.
        destruct a; try done; cbn in Ha |- *; by rewrite Ha.
      * apply late_usage_incomplete in Hc as [Hc _]. congruence.
      * apply late_usage_incomplete in Hc as [Hc _]. congruence.
    + intros v' Hv'. by eapply Hend.
  - destruct H as [[-> (s & H & Hl)]|(-> & -> & _ & H)].
    + cbn in Hl. eapply Hend; [exact H|]. destruct ta2; [intros Hcv; by eapply leaves_closed|].
      apply andb_false_iff in Hc as [Hc|Hc]; [done|]. apply negb_false_iff in Hc. subst defer.
      by specialize (Hd2 eq_refl eq_refl).
    + by eapply Hend.
Qed.

(** ** [handle] *)

Lemma wp_handle (Q : unit -> View -> Prop) v :
  v_log v = pre -> act = u64 (v_active v + 1) -> wp (handle req matched) Q DoneOk ExitOk v.
Proof.
  intros Hv Ha. assert (held Idle (with_active 1 v)) as H.
  { split; [|done]. exists []. by rewrite app_nil_r. }
  unfold handle. apply wp_bind, wp_bump; [reflexivity|]. apply wp_bind, wp_inc_active, wp_bind, wp_now.
  intros start _. cbv zeta. apply wp_bind, wp_on_resp.
  set (v1 := with_resp _ _). assert (held Idle v1) as H1 by exact H. clearbody v1. clear v H Hv Ha.
  destruct (negb _); [by apply wp_refuse|]. destruct (empty _); [by apply wp_refuse|].
  apply wp_bind, wp_when; intros _; [by apply wp_media_control|].
  apply wp_bind. apply wp_idempotency_lookup; [done|]. clear v1 H1. intros v H.
  apply wp_bind. apply wp_auth_version; [done|]. clear v H. intros cached v H.
  destruct (request_error _ _ _); [by apply wp_refuse|].
  apply wp_bind. eapply wp_mono with (Q := λ _, held Idle); [wp_go; exact H| |done|done].
  clear v H. intros _ v H. apply wp_bind. apply wp_stage_body; [done|]. clear v H. intros body v H.
  apply wp_bind, wp_now. intros t _. apply wp_bind.
  eapply wp_forwarding_loop; [exact H|by left|done|]. clear v H. intros d r ta s v H Hl.
  apply wp_settle. by exists s.
Qed.
End Lease.

(** ** Runs of [handle] *)

Lemma handle_run {RJ : RapidJson} {SC : StreamCodec} {CV : Converter} {E : Environment} req matched g :
  let '(g', o) := handle req matched g in
  exists l s, g_log g' = g_log g ++ l /\ lease_run Idle l = Some s
    /\ (forall a, o <> Next a)
    /\ (o = Done -> m_active_connections (g_metrics g') = u64 (m_active_connections (g_metrics g))
          /\ (conversions_succeed req matched -> closed s = true)).
Proof.
  pose proof (wp_handle req matched (g_log g) (u64 (m_active_connections (g_metrics g) + 1))
    (λ _ _, False) (view g) eq_refl eq_refl g eq_refl) as H.
  destruct (handle req matched g) as [g' [a| |e|]]; [done|..].
  - destruct H as (s & (l & Hl & Hr) & Ha & Hc). exists l, s. split; [done|]. split; [done|].
    split; [done|]. intros _. split; [|done]. cbn in Ha. rewrite Ha. unfold u64.
    rewrite Zplus_mod_idemp_l. f_equal. lia.
  - destruct H as (s & l & Hl & Hr). by exists l, s.
  - destruct H as (s & l & Hl & Hr). by exists l, s.
Qed.

(** ** Facts of the state machine *)

Lemma lease_run_cons_inv s l1 a l2 s' :
  lease_run s (l1 ++ a :: l2) = Some s' ->
  exists s1 s2, lease_run s l1 = Some s1 /\ lease_step s1 a = Some s2 /\ lease_run s2 l2 = Some s'.
Proof.
  rewrite lease_run_app. cbn. destruct (lease_run s l1) as [s1|]; [|done]. cbn.
  destruct (lease_step s1 a) as [s2|] eqn:E; [|done]. eauto.
Qed.

Lemma lease_run_snoc_inv s l s' :
  l <> [] -> lease_run s l = Some s' ->
  exists l1 a s1, l = l1 ++ [a] /\ lease_run s l1 = Some s1 /\ lease_step s1 a = Some s'.
Proof.
  intros Hl. destruct l as [|a l] using rev_ind; [done|]. intros H.
  apply lease_run_cons_inv in H as (s1 & s2 & H1 & H2 & [= <-]). eauto 6.
Qed.

Lemma forward_from_authorised s target request answer s' :
  lease_step s (AForward target request answer) = Some s' ->
  exists d, s = Authorised d /\ target = dr_upstream d /\ s' = Answered (dr_lease_token d) answer.
Proof.
  destruct s as [|d|t|d|t r|t b|t b|t|t]; cbn; try done; try (by destruct b).
  destruct (bool_decide _) eqn:E; [|done]. apply bool_decide_eq_true in E. intros [= <-]. eauto.
Qed.

(** Case analysis on the tests of [lease_step]. *)
Ltac lease_cases H :=
  repeat (match type of H with context [if ?b then _ else _] => destruct b eqn:? end; try done);
  simplify_eq.

Lemma authorised_by_evidence s a d :
  lease_step s a = Some (Authorised d) ->
  s = Granted d /\ exists ack, a = AEvidence (dr_lease_token d) Forwarded ack /\ acknowledged ack = true.
Proof.
  intros H. destruct s as [|d'|t|d'|t r|t b|t b|t|t], a as [| | | |? []| |? ? []| | | | | |]; cbn in H; try done;
    lease_cases H.
  split; [done|]. eexists. split; [|done]. f_equal. by apply str_eqb_eq.
Qed.

Lemma granted_by_dispatch l d :
  lease_run Idle l = Some (Granted d) ->
  exists l1 q l2, l = l1 ++ ADispatch q d :: l2 /\ granted d = true /\ Forall (λ a, neutral a = true) l2.
Proof.
  induction l as [|a l IH] using rev_ind; [done|]. intros H.
  apply lease_run_cons_inv in H as (s1 & s2 & H1 & H2 & [= ->]).
  assert (s1 = Granted d \/ forall d', s1 <> Granted d') as [->|Hne].
  { destruct s1 as [|d'|t|d'|t r|t b|t b|t|t]; [by right|left|by right..].
    destruct a as [| | | |? []| |? ? []| | | | | |]; cbn in H2; try done; lease_cases H2; done. }
  - destruct (IH H1) as (l1 & q & l2 & -> & Hg & Hn). exists l1, q, (l2 ++ [a]).
    split; [by rewrite <- app_assoc|]. split; [done|]. apply Forall_app. split; [done|].
    apply Forall_singleton. cbn in H2. destruct a as [| | | |? []| |? ? []| | | | | |]; lease_cases H2; done.
  - exists l, (match a with ADispatch q _ => q | _ => default_DispatchRequest end), [].
    destruct s1 as [|d'|t|d'|t r|t b|t b|t|t], a as [q d''| | | |? []| |? ? []| | | | | |]; cbn in H2; try done;
      try (by destruct (Hne d')); lease_cases H2; done.
Qed.

(** After an answer, and until the next dispatch, a lease that may be retried was
    released after a refusal. *)
Definition after_answer (token : str) (answer : res ForwardResult) (s : Lease) : Prop :=
  s = Answered token answer \/ (exists late, s = Ambiguous token late) \/ s = Deferred token
  \/ s = Billed token \/ exists b, s = Released token b /\ (b = true -> retry_safe answer = true).

Definition is_dispatch (a : Act) : bool := match a with ADispatch _ _ => true | _ => false end.

Lemma after_answer_step token answer s a s' :
  after_answer token answer s -> is_dispatch a = false -> lease_step s a = Some s' ->
  after_answer token answer s'.
Proof.
  intros [->|[[late ->]|[->|[->|(b & -> & Hb)]]]] Hd Hs; unfold after_answer;
    destruct a as [| | | |? []| |? ? []| | | | | |]; cbn in Hs; try done; lease_cases Hs; eauto 7.
  all: try (by right; right; right; right; eexists; split; [reflexivity|]).
Qed.

Lemma after_answer_run token answer s l s' :
  after_answer token answer s -> Forall (λ a, is_dispatch a = false) l -> lease_run s l = Some s' ->
  after_answer token answer s'.
Proof.
  intros H Hl. revert s H. induction Hl as [|a l Ha _ IH]; intros s H Hr; cbn in Hr; [by simplify_eq|].
  destruct (lease_step s a) as [s1|] eqn:E; [|done]. eapply IH; [|exact Hr]. by eapply after_answer_step.
Qed.

(** ** Properties *)

Section Properties.
Context {RJ : RapidJson} {SC : StreamCodec} {CV : Converter} {E : Environment}.
Context (req : HttpRequest) (matched : MatchedCapability) (g : Gw).

(** C1: Every run of [handle] follows the life of a lease, whatever the control
    plane, the provider, the client and the database do and however the run ends:
    its calls are a path of the state machine [lease_step].  So the provider is
    called only under a lease whose evidence was acknowledged, a lease is not
    touched after it was billed, it is billed after an abort only when the usage of
    a broken stream is known, it is released free of charge only when the provider
    refused or the call is a control call, and a retry follows only a release that
    allows it. *)
Theorem handle_follows_lease_protocol :
  exists l s, g_log (handle req matched g).1 = g_log g ++ l /\ lease_run Idle l = Some s.
Proof.
  pose proof (handle_run req matched g) as H. destruct (handle req matched g) as [g' o].
  destruct H as (l & s & Hl & Hr & _). by exists l, s.
Qed.

(** C3: No lease is left open: when [handle] returns and the request could be
    converted for every provider, the last lease has been released, aborted as
    ambiguous, handed to a media operation, or billed; and no lease is held when
    none was granted. *)
Theorem leases_settled
    (Hconvert : conversions_succeed req matched) (Hreturn : (handle req matched g).2 = Done) :
  exists l s, g_log (handle req matched g).1 = g_log g ++ l /\ lease_run Idle l = Some s
    /\ closed s = true.
Proof.
  pose proof (handle_run req matched g) as H. destruct (handle req matched g) as [g' o].
  destruct H as (l & s & Hl & Hr & _ & Hd). exists l, s. split; [done|]. split; [done|]. by apply Hd.
Qed.

(** C4: The provider is contacted only on record: right before every call of
    the forwarder comes an acknowledged evidence of forwarding for the lease of the
    last dispatch, and the target is the one that dispatch named. *)
Theorem provider_contacted_with_evidence l1 target request answer l2
    (Hcalls : g_log (handle req matched g).1 = g_log g ++ l1 ++ AForward target request answer :: l2) :
  exists l0 q d l3 ack,
    l1 = l0 ++ ADispatch q d :: l3 ++ [AEvidence (dr_lease_token d) Forwarded ack]
    /\ granted d = true /\ target = dr_upstream d /\ acknowledged ack = true
    /\ Forall (λ a, neutral a = true) l3.
Proof.
  pose proof (handle_run req matched g) as H. destruct (handle req matched g) as [g' o].
  destruct H as (l & s & Hl & Hr & _). cbn in Hcalls. rewrite Hl in Hcalls. simplify_list_eq.
  apply lease_run_cons_inv in Hr as (s1 & s2 & H1 & H2 & _).
  apply forward_from_authorised in H2 as (d & -> & -> & _).
  apply lease_run_snoc_inv in H1 as (l1' & a & s0 & -> & H0 & Ha); [|by destruct l1].
  apply authorised_by_evidence in Ha as (-> & ack & -> & Hack).
  apply granted_by_dispatch in H0 as (l0 & q & l3 & -> & Hg & Hn).
  exists l0, q, d, l3, ack. by rewrite <- app_assoc.
Qed.

(** C5: A request is never sent twice when the first attempt may have had an
    effect: a dispatch that follows a call of the forwarder comes only after the
    provider explicitly refused, with a status that asks for another try, and
    before a byte of output, a broken stream or a disconnect. *)
Theorem no_retry_after_effect l1 target request answer l2 q d l3
    (Hcalls : g_log (handle req matched g).1
              = g_log g ++ l1 ++ AForward target request answer :: l2 ++ ADispatch q d :: l3)
    (Hnext : Forall (λ a, is_dispatch a = false) l2) :
  retry_safe answer = true.
Proof.
  pose proof (handle_run req matched g) as H. destruct (handle req matched g) as [g' o].
  destruct H as (l & s & Hl & Hr & _). cbn in Hcalls. rewrite Hl in Hcalls. simplify_list_eq.
  apply lease_run_cons_inv in Hr as (s1 & s2 & _ & H2 & H3).
  apply forward_from_authorised in H2 as (d' & _ & _ & ->).
  apply lease_run_cons_inv in H3 as (s3 & s4 & H4 & H5 & _).
  apply (after_answer_run (dr_lease_token d') answer) in H4; [|by left|done].
  destruct H4 as [->|[[late ->]|[->|[->|(b & -> & Hb)]]]]; cbn in H5; try done.
  - destruct late; done.
  - destruct b; [by apply Hb|done].
Qed.

(** The gauge of active connections is exact: when [handle] returns it is
    what it was before, on every path. *)
Theorem active_connections_balanced (Hreturn : (handle req matched g).2 = Done) :
  m_active_connections (g_metrics (handle req matched g).1) = u64 (m_active_connections (g_metrics g)).
Proof.
  pose proof (handle_run req matched g) as H. destruct (handle req matched g) as [g' o].
  destruct H as (l & s & _ & _ & _ & Hd). by apply Hd.
Qed.
End Properties.

(** ** Witnesses *)

Lemma leases_settled_witness :
  exists l s, g_log (run_sample (sample_environment (λ _, answer 200 "{}")) sample_http chat).1 = l
    /\ lease_run Idle l = Some s /\ closed s = true /\ length l = 6%nat.
Proof.
  destruct (@leases_settled sample_json data_codec sample_converter
    (sample_environment (λ _, answer 200 "{}")) sample_http chat sample_gw) as (l & s & Hl & Hr & Hc).
  - intros format model. reflexivity.
  - vm_compute. reflexivity.
  - exists l, s. split; [exact Hl|]. split; [exact Hr|]. split; [exact Hc|].
    apply (f_equal length) in Hl. vm_compute in Hl. symmetry. exact Hl.
Defined.

Definition refused_once : list Act :=
  g_log (run_sample (sample_environment refuse_once) sample_http chat).1.

Lemma provider_contacted_with_evidence_witness :
  exists l1 target request answer l2,
    split_forward [] refused_once = Some (l1, (target, request, answer), l2)
    /\ exists l0 q d l3 ack,
       l1 = l0 ++ ADispatch q d :: l3 ++ [AEvidence (dr_lease_token d) Forwarded ack]
       /\ granted d = true /\ target = dr_upstream d /\ acknowledged ack = true
       /\ Forall (λ a, neutral a = true) l3.
Proof.
  destruct (split_forward [] refused_once) as [[[l1 [[target request] answer]] l2]|] eqn:E;
    [|vm_compute in E; discriminate E].
  exists l1, target, request, answer, l2. split; [reflexivity|].
  apply (@provider_contacted_with_evidence sample_json data_codec sample_converter
    (sample_environment refuse_once) sample_http chat sample_gw l1 target request answer l2).
  vm_compute in E. injection E as <- <- <- <- <-. vm_compute. reflexivity.
Defined.

Lemma no_retry_after_effect_witness :
  exists l1 target request answer l2 q d l3,
    split_forward [] refused_once = Some (l1, (target, request, answer), l2 ++ ADispatch q d :: l3)
    /\ retry_safe answer = true.
Proof.
  destruct (split_forward [] refused_once) as [[[l1 [[target request] answer]] l]|] eqn:E;
    [|vm_compute in E; discriminate E].
  destruct (split_dispatch [] l) as [[[l2 [q d]] l3]|] eqn:E2;
    [|vm_compute in E; injection E as <- <- <- <- <-; vm_compute in E2; discriminate E2].
  exists l1, target, request, answer, l2, q, d, l3.
  assert (l = l2 ++ ADispatch q d :: l3 /\ refused_once = l1 ++ AForward target request answer :: l
          /\ Forall (λ a, is_dispatch a = false) l2) as (Hl & Hlog & Hn).
  { vm_compute in E. injection E as <- <- <- <- <-. vm_compute in E2. injection E2 as <- <- <- <-.
    split; [reflexivity|]. split; [vm_compute; reflexivity|repeat constructor]. }
  split; [by rewrite Hl|].
  apply (@no_retry_after_effect sample_json data_codec sample_converter
    (sample_environment refuse_once) sample_http chat sample_gw l1 target request answer l2 q d l3);
    [|exact Hn].
  rewrite <- Hl. exact Hlog.
Defined.

Lemma active_connections_balanced_witness :
  m_active_connections (g_metrics (run_sample (sample_environment refuse_once) sample_http chat).1) = 0.
Proof.
  apply (@active_connections_balanced sample_json data_codec sample_converter
    (sample_environment refuse_once) sample_http chat sample_gw).
  vm_compute. reflexivity.
Defined.

(** ** A lease that is left open *)

(** A request that cannot be converted for the selected provider leaks its
    lease: [handle] answers 400, but the lease that was granted is neither aborted
    nor billed. *)
Theorem conversion_failure_leaks_lease :
  let '(g, o) := handle (RJ := sample_json) (SC := data_codec) (CV := refusing_converter)
                   (E := sample_environment (λ _, answer 200 "{}")) sample_http chat sample_gw in
  o = Done /\ hr_status_code (g_resp g) = 400
  /\ lease_run Idle (g_log g) = Some (Granted (ok_dispatch "lease-1"))
  /\ closed (Granted (ok_dispatch "lease-1")) = false.
Proof. vm_compute. repeat split. Qed.
