(* ===== verification/ProtocolConverter.v ===== *)
(** * The converter as the handler sees it

    [protocol/converter.h]: the static functions of [Converter] implement the
    interface the handler is verified against.  A failed assertion of the JSON library
    ends a debug build and is undefined in a release build, so what the two functions
    that can reach one yield then is a parameter. *)
From S2P Require Import Prelude Numbers Json JsonText Capability GatewayTypes StreamPipe.
From S2P Require Import ChatIr StreamFormats Validation Multipart RequestConversion ResponseConversion.
From S2P Require Import Failover Auth DispatchTypes Usage Forwarder Dispatch GatewayRequest Gateway GatewaySamples GatewayLogic GatewayLease.

Class PastAssertion := {
  parsed_past_assertion : str -> Format -> ParsedRequest;
  converted_past_assertion : str -> Format -> Format -> str -> ConversionResult;
}.

Definition protocol_converter {RJ : RapidJson} {PA : PastAssertion} : Converter := {|
  GatewayTypes.parse := λ body hint,
    match RequestConversion.parse body hint with Ok p => p | Err _ => parsed_past_assertion body hint end;
  GatewayTypes.convert_request := λ body from to mapped_model,
    match RequestConversion.convert_request body from to mapped_model with
    | Ok r => r
    | Err _ => converted_past_assertion body from to mapped_model
    end;
  GatewayTypes.convert_error := ResponseConversion.convert_error;
  GatewayTypes.convert_response_checked := ResponseConversion.convert_response_checked;
  GatewayTypes.validate_embeddings_request := Validation.validate_embeddings_request;
  GatewayTypes.validate_embeddings_response := Validation.validate_embeddings_response;
  GatewayTypes.validate_models_response := Validation.validate_models_response;
  GatewayTypes.validate_count_tokens_response := Validation.validate_count_tokens_response;
  GatewayTypes.validate_responses_response := Validation.validate_responses_response;
  GatewayTypes.extract_multipart_field := Multipart.extract_multipart_field;
  GatewayTypes.parse_media_request := Multipart.parse_media_request;
  GatewayTypes.parse_media_response := Multipart.parse_media_response;
|}.
#[global] Existing Instance protocol_converter.

Section Composition.
Context {RJ : RapidJson} {PA : PastAssertion} {E : Environment}.

(** A request whose content the formats carry is converted for every provider. *)
Lemma supported_request_converts body from r format model :
  RequestConversion.parse_request from body = Ok r -> rq_unsupported_content r = false ->
  cr_success (GatewayTypes.convert_request (Converter := protocol_converter) body from format model) = true.
Proof.
  intros Hp Hs. cbn [GatewayTypes.convert_request protocol_converter]. unfold RequestConversion.convert_request.
  destruct (_ && _); [done|]. rewrite Hp. cbn [mbind res_bind]. by rewrite Hs.
Qed.

(** ** Properties *)

(** C10: With the gateway's own converter, a request without multimodal content leaves
    no lease open: whatever the provider, the control plane and the database do, when
    [handle] returns the last lease has been released, aborted, handed over or billed. *)
Theorem supported_request_settles_lease req matched g r
    (Hparse : RequestConversion.parse_request (inbound_format (spec matched)) (hq_body req) = Ok r)
    (Hsupported : rq_unsupported_content r = false)
    (Hreturn : (handle (SC := protocol_codec) (CV := protocol_converter) req matched g).2 = GatewayTypes.Done) :
  exists l s, g_log (handle (SC := protocol_codec) (CV := protocol_converter) req matched g).1 = g_log g ++ l
    /\ lease_run Idle l = Some s /\ closed s = true.
Proof.
  pose proof (handle_run (SC := protocol_codec) (CV := protocol_converter) req matched g) as H.
  destruct (handle req matched g) as [g' o]. destruct H as (l & s & Hl & Hr & _ & Hd).
  exists l, s. split; [done|]. split; [done|]. apply (Hd Hreturn).
  intros format model. by eapply supported_request_converts.
Qed.
End Composition.

(** ** Witnesses *)

Definition no_assertion : PastAssertion := {|
  parsed_past_assertion := λ _ f, mkParsed f [] false [] 0 false;
  converted_past_assertion := λ _ _ _ _, mkConversion false [] [] |}.

Lemma supported_request_settles_lease_witness :
  exists l s, g_log (@handle sample_json (@protocol_codec sample_json) (@protocol_converter sample_json no_assertion)
      (sample_environment (λ _, GatewaySamples.answer 200 "{}")) sample_http chat sample_gw).1 = l
    /\ lease_run Idle l = Some s /\ closed s = true.
Proof.
  apply (@supported_request_settles_lease sample_json no_assertion
    (sample_environment (λ _, GatewaySamples.answer 200 "{}")) sample_http chat sample_gw
    (mkRequest "m" [] [] [] false 4096 None None [] [] false)).
  - vm_compute. reflexivity.
  - reflexivity.
  - vm_compute. reflexivity.
Defined.

(** ** An image leaks a lease *)

Definition image_json : RapidJson := {|
  Parse := λ s, if s =$ "image" then Some (JObject [("model" : str, JString "m");
      ("messages" : str, JArray [JObject [("role" : str, JString "user"); ("content" : str, JArray [
         JObject [("type" : str, JString "image_url")]])]])])
    else None;
  Write := λ _, [] |}.

Definition image_http : HttpRequest :=
  mkHttpRequest "POST" "/v1/chat/completions" [] "image" "Bearer k" [] "10.0.0.1"
    "application/json" [] [] "req-1" [] [] 300000.

(** An account of another platform is granted for the request. *)
Definition anthropic_target : UpstreamTarget :=
  mkUpstreamTarget 1 "anthropic" "https://api.example.com" "/v1/messages" [] [] [] [] [] 1 1 kOne [] false [] [] [] []
    [] [] [] [] [] [] false false.

Definition anthropic_dispatch : DispatchResult := mkDispatchResult OutcomeOk 7 3 "lease-1" anthropic_target [] 0 0 0 [] [].

Definition anthropic_environment : Environment :=
  let e := sample_environment (λ _, GatewaySamples.answer 200 "{}") in
  {| e_dispatch := λ _ _, anthropic_dispatch;
     e_media_operation := @e_media_operation e; e_report_usage := @e_report_usage e;
     e_record_lease_evidence := @e_record_lease_evidence e; e_abort := @e_abort e;
     e_report_upstream_error := @e_report_upstream_error e; e_evaluate := @e_evaluate e;
     e_upload_blob := @e_upload_blob e; e_garnet_get := @e_garnet_get e; e_exchange := @e_exchange e;
     e_sql := @e_sql e; e_elapse := @e_elapse e; e_unixepoch := @e_unixepoch e; e_blob_id := @e_blob_id e;
     e_sha256 := @e_sha256 e; e_xxh64 := @e_xxh64 e |}.

(** A chat request with an image, granted an account of another platform, is answered
    400, and its lease is neither aborted nor billed. *)
Theorem image_request_leaks_lease :
  let '(g, o) := handle (RJ := image_json) (SC := @protocol_codec image_json)
                   (CV := @protocol_converter image_json no_assertion) (E := anthropic_environment)
                   image_http chat sample_gw in
  o = GatewayTypes.Done /\ hr_status_code (g_resp g) = 400%Z
  /\ lease_run Idle (g_log g) = Some (Granted anthropic_dispatch)
  /\ closed (Granted anthropic_dispatch) = false.
Proof. vm_compute. repeat split. Qed.
