(* ===== verification/GatewayReturns.v ===== *)
(** * The handler returns

    Every run of [handle] ends: the dispatch loop by its two counters, the
    forwarding loop by the clock, since a retry is only made within ten seconds and
    each one sleeps. *)
From S2P Require Import Prelude Numbers Garnet Failover Capability Auth DispatchTypes Usage Json StreamPipe Forwarder Dispatch GatewayTypes GatewayRequest Gateway GatewaySamples GatewayLogic.
#[local] Open Scope Z_scope.

(** ** A response that ends is read to its end *)

Lemma pipe_loop_ends config clock round script p :
  (forall p, match round Eof p with Continue _ => False | _ => True end) ->
  match pipe_loop config clock round (script ++ [Eof]) p with Continue _ => False | _ => True end.
Proof.
  intros He. revert p. induction script as [|read script IH]; intros p; cbn [pipe_loop app];
    unfold total_timeout; cbn [now_ms]; (destruct (_ <? _); [done|]).
  - match goal with |- context [round Eof ?p] => specialize (He p); destruct (round Eof p) end; done.
  - match goal with |- context [round read ?p] => destruct (round read p) end; [apply IH|done..].
Qed.

Lemma read_body_ends limit body reads : read_body limit body (reads ++ [Eof]) <> BodyPending.
Proof.
  revert body. induction reads as [|read reads IH]; intros body; cbn; [done|].
  destruct read; [|done..]. by destruct (_ <? _).
Qed.

Lemma forward_ends {RJ : RapidJson} {SC : StreamCodec} config x target request mode :
  forward config (x_client_available x) (x_client_write x) (x_clock x) target request mode
    (x_closed_call x) (x_cancelled x) (x_cancelled_end x) (x_duration_ms x) <> None.
Proof.
  unfold forward, x_closed_call. destruct (precheck _ target); [done|].
  destruct (x_call x) as [errno|status ct headers reads]; [done|].
  destruct (response_head _ _ _ _ _) as [r inv]. destruct (negb _ || _).
  - pose proof (read_body_ends (fc_max_response_body_size config) [] reads) as H.
    destruct (read_body _ _ _) as [|body| |e]; [done..|]. by destruct (body_failed e r).
  - assert (match run (pipe_config config request) mode (fq_stream_source request) (fq_stream_target request)
              (x_client_write x) (x_clock x) (reads ++ [Eof]) with Continue _ => False | _ => True end) as H
      by (unfold run; destruct mode; apply pipe_loop_ends; done).
    by destruct (run _ _ _ _ _ _ _).
Qed.

(** ** The stretches of [handle] *)

Definition Returned (v : View) : Prop := True.
Definition NotStuck (o : option fault) (v : View) : Prop := o <> None.

(** [m] returns, and the clock has not gone back. *)
Definition returns {A} (m : hm A) : Prop := forall v (Q : A -> View -> Prop),
  (forall a v', v_time v <= v_time v' -> Q a v') -> wp m Q Returned NotStuck v.

Ltac returns_go :=
  let v := fresh "v" in let Q := fresh "Q" in let HQ := fresh "HQ" in
  intros v Q HQ; wp_go; try done; try (apply HQ; cbn; lia).

Section Returns.
Context {RJ : RapidJson} {SC : StreamCodec} {CV : Converter} {E : Environment}.
Context (req : HttpRequest) (matched : MatchedCapability).

Lemma returns_bind {A B} (m : hm A) (f : A -> hm B) :
  returns m -> (forall a, returns (f a)) -> returns (m ≫= f).
Proof.
  intros Hm Hf v Q HQ. apply wp_bind, Hm. intros a v1 H1. apply Hf. intros b v2 H2. apply HQ. lia.
Qed.

Lemma returns_ret {A} (a : A) : returns (mret a).
Proof. returns_go. Qed.

Lemma returns_when b m : returns m -> returns (when b m).
Proof. intros H. destruct b; [exact H|apply returns_ret]. Qed.

Lemma returns_refuse {A} status body : returns (refuse (A := A) status body).
Proof. unfold refuse. returns_go. Qed.

Lemma returns_show_existing existing : returns (show_existing existing).
Proof. unfold show_existing. returns_go. Qed.

Lemma returns_media_control key_hash request_id : returns (media_control req matched key_hash request_id).
Proof. unfold media_control, json_no_store. returns_go. Qed.

Lemma returns_idempotency_lookup key_hash request_id :
  returns (idempotency_lookup req matched key_hash request_id).
Proof.
  unfold idempotency_lookup. apply returns_when. intros v Q HQ. apply wp_bind, wp_call. intros existing _.
  destruct (mr_accepted existing); [apply wp_bind, returns_show_existing; intros; wp_go; done|].
  destruct (_ =? _); [by apply returns_refuse|]. apply wp_when; intros _; [by apply returns_refuse|by apply HQ].
Qed.

Lemma returns_auth_version key_hash : returns (auth_version key_hash).
Proof. unfold auth_version. returns_go. case_match; wp_go; apply HQ; cbn; lia. Qed.

Lemma returns_stage_body : returns (stage_body req).
Proof. unfold stage_body. returns_go. Qed.

Lemma returns_replay_media key_hash request_id d : returns (replay_media req key_hash request_id d).
Proof.
  unfold replay_media. case_match; [|apply returns_ret]. intros v Q HQ. apply wp_bind, wp_call. intros existing _.
  apply wp_when; intros _; [|by apply HQ]. apply wp_bind, returns_show_existing. intros. wp_go; done.
Qed.

Lemma returns_rejected {A} key_hash request_id d : returns (rejected_dispatch (A := A) req key_hash request_id d).
Proof.
  unfold rejected_dispatch. apply returns_bind; [|intros; apply returns_refuse].
  apply returns_when, returns_bind; [apply returns_replay_media|]. intros _. unfold replay_answer. returns_go.
Qed.

Lemma returns_refresh_cache key_hash d : returns (refresh_cache key_hash d).
Proof. unfold refresh_cache. case_match; returns_go. Qed.

Lemma returns_lease_evidence token stage stage_name detail :
  returns (lease_evidence token stage stage_name detail).
Proof. unfold lease_evidence. returns_go. Qed.

Lemma returns_forward request_id token body is_stream target :
  returns (forward_ req matched request_id token body is_stream target).
Proof.
  unfold forward_. intros v Q HQ. apply wp_bind, wp_gets. intros g _. cbv zeta.
  set (fwd := forward _ _ _ _ _ _ _ _ _ _ _). assert (fwd <> None) as Hf by apply forward_ends.
  destruct fwd as [[callbacks result]|]; [|done]. clear Hf. revert v Q HQ.
  enough (returns (log_act (AForward target (forward_request req matched request_id token body is_stream
      (upstream_format_of target) (length (g_log g))) result) ≫= λ _,
    run_callbacks (response_start_callback request_id is_stream) (cb_starts callbacks) ≫= λ _,
    when (cb_output_started callbacks) (output_started_callback token) ≫= λ _, rethrow result)) as H by exact H.
  apply returns_bind; [returns_go|]. intros _. apply returns_bind.
  - induction (cb_starts callbacks) as [|[[status ct] headers] l IH]; [apply returns_ret|].
    apply returns_bind; [|intros _; exact IH]. unfold response_start_callback. returns_go.
  - intros _. apply returns_bind; [|intros _; returns_go]. apply returns_when.
    apply returns_bind; [apply returns_lease_evidence|]. intros. apply returns_ret.
Qed.

Lemma returns_deliver_body token is_stream format model r ta :
  returns (deliver_body req matched token is_stream format model r ta).
Proof.
  assert (forall reason validation st, returns (withdraw_invalid token reason validation st)) as Hw.
  { intros. unfold withdraw_invalid, withdraw. returns_go. }
  unfold deliver_body. destruct (_ && _); [|apply returns_ret].
  apply returns_bind; [returns_go|]. intros _. apply returns_bind; [unfold convert_error_body; returns_go|].
  intros _. apply returns_bind; [unfold convert_success_body, withdraw; returns_go|]. intros st1.
  apply returns_bind; [unfold check_embeddings; returns_go; by apply Hw|]. intros st2.
  apply returns_bind; [unfold check_catalog; returns_go; by apply Hw|]. intros st3.
  unfold check_responses. returns_go. by apply Hw.
Qed.

Lemma returns_response_policy token is_stream r ta : returns (response_policy matched token is_stream r ta).
Proof. unfold response_policy, withhold. returns_go; try case_match; wp_go; apply HQ; cbn; lia. Qed.

Lemma returns_settle key_hash request_id start is_stream parsed usage d r ta :
  returns (settle req matched key_hash request_id start is_stream parsed usage d r ta).
Proof.
  unfold settle. apply returns_bind; [apply returns_deliver_body|]. intros [r' ta'].
  apply returns_bind; [apply returns_response_policy|]. intros overridden.
  apply returns_bind; [returns_go|]. intros _.
  apply returns_bind; [unfold persist_media; returns_go|]. intros [[ta1 defer] over].
  apply returns_bind; [unfold release_control; returns_go|]. intros ta2.
  apply returns_bind; [returns_go|]. intros resp. apply returns_bind; [returns_go|]. intros t.
  apply returns_bind; [|intros _; returns_go]. apply returns_when. unfold settle_usage.
  intros v Q HQ. apply wp_bind, wp_collector. intros [u|e]; wp_go; apply HQ; cbn; lia.
Qed.

(** ** The loops *)

Lemma u64_nonneg z : 0 <= u64 z.
Proof. unfold u64. apply Z.mod_pos_bound. lia. Qed.

(** A refusal leaves the handler. *)
Lemma wp_refuse_leaves {A} status body (Q : A -> View -> Prop) v :
  wp (refuse status body) Q Returned NotStuck v.
Proof. unfold refuse. wp_go. done. Qed.

Lemma wp_rejected_leaves {A} key_hash request_id d (Q : A -> View -> Prop) v :
  wp (rejected_dispatch req key_hash request_id d) Q Returned NotStuck v.
Proof.
  unfold rejected_dispatch. apply wp_bind, returns_when; [|intros; apply wp_refuse_leaves].
  apply returns_bind; [apply returns_replay_media|]. intros _. unfold replay_answer. returns_go.
Qed.

Lemma wp_exhausted_returns counter deadline (Q : bool -> View -> Prop) v :
  (forall b v', v_time v <= v_time v' -> (b = false -> counter <= 8) -> Q b v') ->
  wp (exhausted counter deadline) Q Returned NotStuck v.
Proof.
  intros HQ. unfold exhausted. destruct (Z.ltb_spec 8 counter); wp_go; apply HQ; cbn; first [done|intros; lia].
Qed.

(** Each round that goes on uses up one of the eight waits or of the eight
    transport retries. *)
Lemma wp_dispatch_loop_returns fuel key_hash request_id dispatch_req deadline waits transport Q v :
  (Z.to_nat (8 - waits) + Z.to_nat (8 - transport) < fuel)%nat ->
  (forall d w t v', waits <= w -> transport <= t -> v_time v <= v_time v' -> Q (d, w, t) v') ->
  wp (dispatch_loop req fuel key_hash request_id dispatch_req deadline waits transport) Q Returned NotStuck v.
Proof.
  revert waits transport v. induction fuel as [|fuel IH]; intros waits transport v Hf HQ; [lia|].
  cbn [dispatch_loop]. apply wp_bind, wp_call. intros d _. apply wp_bind, wp_bump; [reflexivity|].
  destruct (dr_outcome d).
  - apply wp_bind, returns_refresh_cache. intros _ v1 H1. wp_go. apply HQ; cbn in *; lia.
  - apply wp_bind, wp_exhausted_returns. intros b v1 H1 Hb. destruct b; [by apply wp_refuse_leaves|].
    specialize (Hb eq_refl). apply wp_bind, wp_now. intros t Ht. apply wp_bind, wp_usleep.
    pose proof (u64_nonneg (u64 (Z.min (Z.max (dr_wait_timeout_ms d) 1) (Z.min 1000 (to_ms (deadline - t)))) * 1000)).
    apply IH; [lia|]. intros d' w tr v2 Hw Htr Hv2. apply HQ; [lia|lia|].
    cbn in *. unfold wait_us in Hv2. lia.
  - destruct (is_retryable_platform_dispatch d); [|by apply wp_rejected_leaves].
    apply wp_bind, wp_exhausted_returns. intros b v1 H1 Hb. destruct b; [by apply wp_refuse_leaves|].
    specialize (Hb eq_refl). apply wp_bind, wp_usleep.
    pose proof (u64_nonneg (Retry.platform_dispatch_retry_delay_ms (transport + 1))).
    apply IH; [lia|]. intros d' w tr v2 Hw Htr Hv2. apply HQ; [lia|lia|]. cbn in *. lia.
  - apply wp_bind, returns_refresh_cache. intros _ v1 H1. wp_go. apply HQ; cbn in *; lia.
Qed.

Lemma handle_error_count fo account status :
  0 <= Failover.switch_count fo -> 0 <= Failover.switch_count (Failover.handle_error fo account status).2.
Proof.
  intros H. unfold Failover.handle_error, Failover.escalate. repeat split_if; cbn; lia.
Qed.

Lemma delay_at_least n :
  0 <= n -> 300 <= default 0 (Retry.compute_delay Retry.default_policy n) <= 3000.
Proof.
  intros H. rewrite Retry.compute_delay_eq by (cbn; lia). cbn.
  assert (2 ^ 0 <= 2 ^ Z.min n 10) by (apply Z.pow_le_mono_r; lia). lia.
Qed.

(** A retry: it started within ten seconds, and then slept for 300 ms. *)
Definition retried (start : Z) (v : View) (verdict : Verdict) (v' : View) : Prop :=
  match verdict with
  | Finished _ _ => True
  | Gateway.Retry _ fo =>
      0 <= Failover.switch_count fo /\ v_time v < start + 10000 * 1000000
      /\ v_time v + 300 * 1000000 <= v_time v'
  end /\ v_time v <= v_time v'.

Lemma wp_fail_over_returns request_id token start account_id fo r v :
  0 <= Failover.switch_count fo ->
  wp (fail_over matched request_id token start account_id fo r) (retried start v) Returned NotStuck v.
Proof.
  intros Hfo. unfold fail_over. apply wp_bind, wp_now. intros t Ht. cbv zeta.
  set (retryable := is_explicit_provider_rejection r && _ && _ && _ && _).
  destruct (if retryable then _ else _) as [action fo'] eqn:Eact.
  apply wp_bind, returns_when; [returns_go|]. intros _ v1 H1. apply wp_bind, wp_call. intros ack _.
  apply wp_bind, wp_bump; [reflexivity|]. cbn in H1.
  destruct retryable eqn:Er; [|injection Eact as <- <-; wp_go; split; [done|cbn; lia]].
  assert (0 <= Failover.switch_count fo') as Hfo'.
  { pose proof (handle_error_count fo account_id (fr_status_code r) Hfo) as H. by rewrite Eact in H. }
  assert (t < start + 10000 * 1000000) as Hlate.
  { unfold retryable in Er. rewrite !andb_true_iff in Er. destruct Er as [[_ He] _]. apply Z.ltb_lt in He.
    cbn in He. unfold to_ms in He. destruct (Z.le_gt_cases 0 (t - start)); [|lia].
    rewrite Z.quot_div_nonneg in He by lia.
    pose proof (Z.mul_succ_div_gt (t - start) 1000000). lia. }
  pose proof (delay_at_least _ Hfo').
  destruct action; wp_go; (split; [|cbn; lia]); try done; (split; [done|]; cbn; lia).
Qed.

Lemma wp_attempt_returns request_id start is_stream d fo r v :
  0 <= Failover.switch_count fo ->
  wp (attempt req matched request_id start is_stream d fo r) (retried start v) Returned NotStuck v.
Proof.
  intros Hfo. unfold attempt. cbv zeta. destruct (negb _); [wp_go; split; [done|cbn; lia]|].
  apply wp_bind, returns_lease_evidence. intros ack v1 H1. destruct (negb _); [wp_go; split; [done|cbn; lia]|].
  apply wp_bind, returns_forward. intros r' v2 H2. apply wp_bind, returns_when.
  { unfold abort_ambiguous. returns_go. }
  intros _ v3 H3. apply wp_bind, returns_when.
  { unfold abort_malformed. returns_go. }
  intros _ v4 H4. destruct (_ && _ && _); [|wp_go; split; [done|cbn; lia]].
  eapply wp_mono; [by apply wp_fail_over_returns| |done|done].
  intros [r'' ta|r'' fo'] v5 [H5 H5']; (split; [|lia]); [done|]. destruct H5 as (? & ? & ?).
  split; [done|]. lia.
Qed.

(** Thirty-four retries are out of reach: the clock would be past the ten seconds. *)
Lemma wp_forwarding_loop_returns fuel key_hash request_id start deadline is_stream dispatch_req waits
    transport sequence fo r Q v :
  (fuel <> 0)%nat -> start + (36 - Z.of_nat fuel) * (300 * 1000000) <= v_time v ->
  0 <= waits -> 0 <= transport -> 0 <= Failover.switch_count fo ->
  (forall x v', Q x v') ->
  wp (forwarding_loop req matched fuel key_hash request_id start deadline is_stream dispatch_req waits
        transport sequence fo r) Q Returned NotStuck v.
Proof.
  intros Hf Ht Hw Htr Hfo HQ. revert dispatch_req waits transport sequence fo r v Hf Ht Hw Htr Hfo.
  induction fuel as [|fuel IH]; intros dispatch_req waits transport sequence fo r v Hf Ht Hw Htr Hfo; [done|].
  cbn [forwarding_loop]. apply wp_bind, wp_dispatch_loop_returns; [unfold dispatch_fuel; lia|].
  intros d w t v1 H1 H2 H3. apply wp_bind. eapply wp_mono; [by apply wp_attempt_returns| |done|done].
  intros [r' ta|r' fo'] v2 [H4 H5]; [wp_go; apply HQ|]. destruct H4 as (H6 & H7 & H8).
  apply IH; lia.
Qed.

(** C6: [handle] returns: for every behaviour of the control plane, of the
    provider, of the client and of the database, the eighteen rounds of the dispatch
    loop and the thirty-six of the forwarding loop are never used up, so a run ends
    with an answer or with an exception. *)
Theorem handle_returns g : (handle req matched g).2 <> Stuck.
Proof.
  enough (wp (handle req matched) (λ _ _, True) Returned NotStuck (view g)) as H.
  { specialize (H g eq_refl). by destruct (handle req matched g) as [g' [a| |e|]]. }
  unfold handle. apply wp_bind, wp_bump; [reflexivity|]. apply wp_bind, wp_inc_active, wp_bind, wp_now.
  intros start _. cbv zeta. apply wp_bind, wp_on_resp.
  destruct (negb _); [by apply returns_refuse|]. destruct (empty _); [by apply returns_refuse|].
  apply wp_bind, returns_when; [apply returns_media_control|]. intros _ v1 H1.
  apply wp_bind, returns_idempotency_lookup. intros _ v2 H2.
  apply wp_bind, returns_auth_version. intros cached v3 H3.
  destruct (request_error _ _ _); [by apply returns_refuse|].
  apply wp_bind, returns_when; [returns_go|]. intros _ v4 H4.
  apply wp_bind, returns_stage_body. intros body v5 H5. apply wp_bind, wp_now. intros t Ht.
  apply wp_bind, wp_forwarding_loop_returns;
    [done|change (Z.of_nat forwarding_fuel) with 36; cbn in *; lia|lia|lia|done|].
  intros [[d r] ta] v6. by apply returns_settle.
Qed.
End Returns.
