(* ===== verification/GatewayPolicy.v ===== *)
(** * What reaches the client of a chat request

    Every successful answer to a chat request that is not a stream was cleared by
    the content policy, or is the control plane's own. *)
From S2P Require Import Prelude Numbers Garnet Failover Capability Auth DispatchTypes Usage Json StreamPipe Forwarder Dispatch GatewayTypes GatewayRequest Gateway GatewaySamples GatewayLogic.
#[local] Open Scope Z_scope.

(** ** The status of a result *)

(** A result that was cut short has no success status. *)
Definition honest (r : ForwardResult) : Prop :=
  0 < fr_status_code r /\ (ambiguous r = true -> is_success (fr_status_code r) = false).

(** HTTP status codes have three digits. *)
Definition http_status (x : Exchange) : Prop :=
  match x_call x with Response status _ _ _ => 100 <= status | CallFailed _ => True end.

Lemma not_success r : 0 < fr_status_code r -> is_success (fr_status_code r) = false -> honest r.
Proof. by split. Qed.

Lemma complete_honest r :
  0 < fr_status_code r -> fr_client_disconnect r = false -> fr_stream_incomplete r = false -> honest r.
Proof. intros H1 H2 H3. split; [done|]. unfold ambiguous. by rewrite H2, H3. Qed.

Lemma cancellation_honest cancelled request r :
  honest r -> honest (apply_transport_cancellation cancelled request r).
Proof.
  intros H. unfold apply_transport_cancellation. destruct (_ || _); [done|].
  apply not_success; cbn; by destruct (fr_output_started r).
Qed.

Lemma parse_usage_same {RJ : RapidJson} body r :
  fr_status_code (parse_usage body r) = fr_status_code r
  /\ fr_client_disconnect (parse_usage body r) = fr_client_disconnect r
  /\ fr_stream_incomplete (parse_usage body r) = fr_stream_incomplete r.
Proof.
  unfold parse_usage. repeat case_match; cbn; auto.
Qed.

Lemma settle_body_honest {RJ : RapidJson} inv duration r body :
  0 < fr_status_code r -> fr_client_disconnect r = false -> fr_stream_incomplete r = false ->
  honest (settle_body inv duration r body).
Proof.
  intros H1 H2 H3. unfold settle_body. destruct (has_invalid_success_payload _ _ _).
  - by apply not_success.
  - pose proof (parse_usage_same body (set_fr_duration_ms (i32 duration) r)) as (P1 & P2 & P3).
    apply complete_honest; cbn in *; by rewrite ?P1, ?P2, ?P3.
Qed.

Lemma note_headers_same target headers r :
  let r' := fold_left (note_header target) headers r in
  fr_status_code r' = fr_status_code r /\ fr_client_disconnect r' = fr_client_disconnect r
  /\ fr_stream_incomplete r' = fr_stream_incomplete r.
Proof.
  cbv zeta. revert r. induction headers as [|h headers IH]; intros r; [done|]. cbn [fold_left].
  destruct (IH (note_header target r h)) as (-> & -> & ->). unfold note_header.
  destruct (safe_response_header _ _), (_ =$ _); cbn; try (destruct (strtol _)); repeat split_if; done.
Qed.

Lemma response_head_same target request status ct headers :
  let '(r, inv) := response_head target request status ct headers in
  (fr_status_code r = status \/ fr_status_code r = 502) /\ fr_client_disconnect r = false
  /\ fr_stream_incomplete r = false.
Proof.
  unfold response_head. cbv zeta.
  set (r0 := set_fr_content_type ct _).
  destruct (note_headers_same target headers r0) as (H1 & H2 & H3).
  destruct (_ && _ && _); cbn; rewrite ?H1, H2, H3; auto.
Qed.

Lemma settle_stream_honest r :
  0 < fr_status_code r -> honest (settle_stream r).
Proof.
  intros Hs. unfold settle_stream.
  destruct (fr_policy_blocked r) eqn:E1, (fr_policy_failed_closed r) eqn:E2; cbn [orb negb andb];
    try (apply not_success; cbn; rewrite ?E1; done).
  destruct (fr_client_disconnect r) eqn:E3; cbn.
  - destruct (fr_output_started r) eqn:E4; cbn.
    + destruct (fr_stream_incomplete r) eqn:E5; [by apply not_success|]. split; [done|].
      unfold ambiguous. cbn. by rewrite E3, E4, E5.
    + by apply not_success.
  - destruct (fr_stream_incomplete r) eqn:E5; [|by apply complete_honest].
    apply not_success; destruct (fr_stream_timeout r) eqn:E6; destruct (fr_output_started r); done.
Qed.

Lemma forward_honest {RJ : RapidJson} {SC : StreamCodec} config x target request mode cb r :
  http_status x ->
  forward config (x_client_available x) (x_client_write x) (x_clock x) target request mode
    (x_closed_call x) (x_cancelled x) (x_cancelled_end x) (x_duration_ms x) = Some (cb, Ok r) ->
  honest r.
Proof.
  unfold forward, x_closed_call, http_status. intros Hx. destruct (precheck _ target) as [r0|] eqn:Ep.
  { intros [= _ <-]. unfold precheck in Ep. repeat split_if; try done; injection Ep as <-; by apply not_success. }
  destruct (x_call x) as [errno|status ct headers reads].
  { intros [= _ <-]. unfold failed_call.
    destruct (x_cancelled x); [by apply not_success|apply not_success; cbn; by destruct (errno =? 110)]. }
  pose proof (response_head_same target request status ct headers) as Hh.
  destruct (response_head _ _ _ _ _) as [r1 inv]. destruct Hh as (Hs & Hc & Hi).
  assert (0 < fr_status_code r1) as Hpos by (destruct Hs as [->| ->]; lia). cbv zeta.
  destruct (negb _ || _).
  - destruct (read_body _ _ _) as [|body| |errno]; [done|..].
    + intros [= _ <-]. by apply cancellation_honest, settle_body_honest.
    + intros [= _ <-]. by apply cancellation_honest, not_success.
    + destruct (body_failed errno r1) as [r2 body] eqn:Eb. intros [= _ <-].
      unfold body_failed in Eb. injection Eb as <- <-. apply cancellation_honest, settle_body_honest; try done.
      cbn. by destruct (provider_disconnect_error errno).
  - destruct (run _ _ _ _ _ _ _) as [p|p|p e]; [done| |done].
    intros [= _ <-]. by apply cancellation_honest, settle_stream_honest.
Qed.

(** ** What an answer may be *)

Definition cleared (capability_name : str) (log : list Act) (body : str) : Prop :=
  exists token policy, AEvaluate token body capability_name policy ∈ log
    /\ content_policy_disposition policy = Allow.

Definition by_platform (log : list Act) (body : str) : Prop :=
  (exists q a, AMedia q a ∈ log /\ mr_accepted a = true)
  \/ (exists q d, ADispatch q d ∈ log /\ dr_outcome d = Rejected /\ body = dr_replay_body d).

Lemma reject_status_error code : is_success (reject_status code) = false.
Proof. unfold reject_status. repeat split_if; reflexivity. Qed.

Section Policy.
Context {RJ : RapidJson} {SC : StreamCodec} {CV : Converter} {E : Environment}.
Context (req : HttpRequest) (matched : MatchedCapability).
Context (Hchat : chat_capability (capability (spec matched)) = true).
Context (Hcontrol : media_control_operation (operation matched) = false).
Context (Hcreate : persistent_create (operation matched) = false).
Context (Hstatus : forall n, http_status (e_exchange n)).

Definition Delivered (v : View) : Prop :=
  is_success (hr_status_code (v_resp v)) = true ->
  hr_body (v_resp v) = [] \/ cleared (name (spec matched)) (v_log v) (hr_body (v_resp v))
  \/ by_platform (v_log v) (hr_body (v_resp v)).
Definition AnyExit (o : option fault) (v : View) : Prop := True.

Definition blank (v : View) : Prop := hr_body (v_resp v) = [].

(** [m] leaves the body empty. *)
Definition silent {A} (m : hm A) : Prop := forall v (Q : A -> View -> Prop),
  blank v -> (forall a v', blank v' -> Q a v') -> wp m Q Delivered AnyExit v.

Ltac silent_go :=
  let v := fresh "v" in let Q := fresh "Q" in let HQ := fresh "HQ" in let Hb := fresh "Hb" in
  intros v Q Hb HQ; wp_go; try done; try (apply HQ; exact Hb).

Lemma silent_bind {A B} (m : hm A) (f : A -> hm B) : silent m -> (forall a, silent (f a)) -> silent (m ≫= f).
Proof. intros Hm Hf v Q Hb HQ. apply wp_bind, Hm; [done|]. intros a v1 H1. by apply Hf. Qed.

Lemma silent_ret {A} (a : A) : silent (mret a).
Proof. silent_go. Qed.

Lemma silent_when b m : silent m -> silent (when b m).
Proof. intros H. destruct b; [exact H|apply silent_ret]. Qed.

Lemma wp_refuse_error {A} status body (Q : A -> View -> Prop) v :
  is_success status = false -> wp (refuse status body) Q Delivered AnyExit v.
Proof. intros H. unfold refuse. wp_go. unfold Delivered. cbn. by rewrite H. Qed.

Lemma silent_auth_version key_hash : silent (auth_version key_hash).
Proof. unfold auth_version. silent_go. case_match; wp_go; apply HQ; exact Hb. Qed.

Lemma silent_stage_body : silent (stage_body req).
Proof. unfold stage_body. silent_go. Qed.

Lemma silent_refresh_cache key_hash d : silent (refresh_cache key_hash d).
Proof. unfold refresh_cache. case_match; silent_go. Qed.

Lemma silent_exhausted counter deadline : silent (exhausted counter deadline).
Proof. unfold exhausted. silent_go. Qed.

Lemma wp_rejected_delivered {A} key_hash request_id q d (Q : A -> View -> Prop) v :
  blank v -> ADispatch q d ∈ v_log v -> dr_outcome d = Rejected ->
  wp (rejected_dispatch req key_hash request_id d) Q Delivered AnyExit v.
Proof.
  intros Hb Hd Ho. unfold rejected_dispatch.
  assert (forall v, ADispatch q d ∈ v_log v ->
    wp (replay_answer d) (λ _, wp (refuse (A := A) (reject_status (dr_reject_code d))
      (error_json (reject_type (dr_reject_code d)) (dr_reject_message d))) Q Delivered AnyExit)
      Delivered AnyExit v) as Hans.
  { intros v1 H1. unfold replay_answer. apply wp_when; intros _.
    - wp_go. intros _. right. right. right. exists q, d. cbn. done.
    - apply wp_refuse_error, reject_status_error. }
  apply wp_bind, wp_when; intros _; [|apply wp_refuse_error, reject_status_error].
  apply wp_bind. unfold replay_media. case_match; [|apply wp_ret; by apply (Hans v)].
  apply wp_bind, wp_call. intros existing _. apply wp_when; intros Ha; [|cbn].
  - unfold show_existing. wp_go; (intros _; right; right; left; do 2 eexists; split;
      [cbn; apply elem_of_app; right; apply list_elem_of_singleton; reflexivity|done]).
  - match goal with |- wp _ _ _ _ ?v1 => apply (Hans v1) end. cbn. apply elem_of_app. by left.
Qed.

Lemma silent_dispatch_loop fuel key_hash request_id dispatch_req deadline waits transport :
  silent (dispatch_loop req fuel key_hash request_id dispatch_req deadline waits transport).
Proof.
  revert waits transport. induction fuel as [|fuel IH]; intros waits transport v Q Hb HQ; cbn [dispatch_loop].
  { wp_go. done. }
  apply wp_bind, wp_call. intros d _. apply wp_bind, wp_bump; [reflexivity|]. destruct (dr_outcome d) eqn:Ho.
  - apply wp_bind, silent_refresh_cache; [done|]. intros. wp_go. by apply HQ.
  - apply wp_bind, silent_exhausted; [done|]. intros b v1 H1. destruct b; [by apply wp_refuse_error|].
    wp_go. by apply IH.
  - destruct (is_retryable_platform_dispatch d).
    + apply wp_bind, silent_exhausted; [done|]. intros b v1 H1. destruct b; [by apply wp_refuse_error|].
      wp_go. by apply IH.
    + eapply wp_rejected_delivered; [done| |done]. cbn. apply elem_of_app. right. by apply list_elem_of_singleton.
  - apply wp_bind, silent_refresh_cache; [done|]. intros. wp_go. by apply HQ.
Qed.

Lemma silent_lease_evidence token stage stage_name detail : silent (lease_evidence token stage stage_name detail).
Proof. unfold lease_evidence. silent_go. Qed.

(** The result of [forward_] is honest. *)
Lemma wp_forward_honest request_id token body is_stream target (Q : ForwardResult -> View -> Prop) v :
  blank v -> (forall r v', blank v' -> honest r -> Q r v') ->
  wp (forward_ req matched request_id token body is_stream target) Q Delivered AnyExit v.
Proof.
  intros Hb HQ. unfold forward_. apply wp_bind, wp_gets. intros g _. cbv zeta.
  destruct (forward _ _ _ _ _ _ _ _ _ _ _) as [[cb result]|] eqn:Ef; [|wp_go; done].
  apply wp_bind, wp_log. apply wp_bind.
  assert (silent (run_callbacks (response_start_callback request_id is_stream) (cb_starts cb))) as Hr.
  { induction (cb_starts cb) as [|[[status ct] headers] l IH]; [apply silent_ret|].
    apply silent_bind; [|intros _; exact IH]. unfold response_start_callback. silent_go. }
  apply Hr; [exact Hb|]. intros _ v1 H1. apply wp_bind, silent_when; [|exact H1|].
  { apply silent_bind; [apply silent_lease_evidence|]. intros. apply silent_ret. }
  intros _ v2 H2. apply wp_rethrow; [|done]. intros r ->. apply HQ; [exact H2|].
  eapply forward_honest; [apply Hstatus|exact Ef].
Qed.

Definition fails (r : ForwardResult) (terminal_abort : bool) : Prop :=
  0 < fr_status_code r
  /\ (terminal_abort = true \/ fr_malformed_usage r = true -> is_success (fr_status_code r) = false).

Definition verdict_fails (verdict : Verdict) (v : View) : Prop :=
  blank v /\ match verdict with
             | Finished r ta => fails r ta
             | Gateway.Retry r _ => fr_malformed_usage r = false
             end.

Lemma wp_attempt_fails request_id start is_stream d fo r v :
  blank v -> wp (attempt req matched request_id start is_stream d fo r) verdict_fails Delivered AnyExit v.
Proof.
  intros Hb. unfold attempt. cbv zeta. destruct (negb _); [wp_go; done|].
  apply wp_bind, silent_lease_evidence; [done|]. intros ack v1 H1. destruct (negb _); [wp_go; done|].
  apply wp_bind, wp_forward_honest; [done|]. intros r1 v2 H2 [Hpos Hh].
  apply wp_bind, silent_when; [unfold abort_ambiguous; silent_go|done|]. intros _ v3 H3.
  apply wp_bind, silent_when; [unfold abort_malformed; silent_go|done|]. intros _ v4 H4.
  destruct (fr_malformed_usage r1) eqn:Em.
  { cbn. rewrite Em. cbn. wp_go. split; [done|]. split; [done|]. done. }
  rewrite Em. cbn. rewrite orb_false_r, andb_true_r. destruct (_ && _) eqn:Ec.
  - apply andb_true_iff in Ec as [Hge _]. apply Z.leb_le in Hge.
    assert (is_success (fr_status_code r1) = false) as Hns.
    { unfold is_success. apply andb_false_iff. right. apply Z.ltb_ge. lia. }
    unfold fail_over. apply wp_bind, wp_now. intros t _. destruct (if _ : bool then _ else _) as [action fo'].
    apply wp_bind, silent_when; [silent_go|done|]. intros _ v5 H5.
    apply wp_bind, wp_call. intros ack' _. apply wp_bind, wp_bump; [reflexivity|].
    destruct action; wp_go; (split; [done|]); done.
  - wp_go. split; [done|]. split; [done|]. intros [Ha|Ha]; [by apply Hh|congruence].
Qed.

Lemma wp_forwarding_loop_fails fuel key_hash request_id start deadline is_stream dispatch_req waits
    transport sequence fo r (Q : DispatchResult * ForwardResult * bool -> View -> Prop) v :
  blank v -> (forall d r ta v', blank v' -> fails r ta -> Q (d, r, ta) v') ->
  wp (forwarding_loop req matched fuel key_hash request_id start deadline is_stream dispatch_req waits
        transport sequence fo r) Q Delivered AnyExit v.
Proof.
  intros Hb HQ. revert dispatch_req waits transport sequence fo r v Hb.
  induction fuel as [|fuel IH]; intros dispatch_req waits transport sequence fo r v Hb; cbn [forwarding_loop].
  { wp_go. done. }
  apply wp_bind, silent_dispatch_loop; [done|]. intros [[d w] t] v1 H1. apply wp_bind.
  eapply wp_mono; [by apply wp_attempt_fails| |done|done].
  intros [r' ta|r' fo'] v2 [H2 H3]; [wp_go; by apply HQ|by apply IH].
Qed.

(** ** The settlement *)

(** A stream's success has no body of its own. *)
Definition offered (is_stream : bool) (st : ForwardResult * bool) (v : View) : Prop :=
  fails st.1 st.2 /\ (is_stream = true -> is_success (fr_status_code st.1) = true -> blank v).

Lemma withdrawn_fails r : fails (set_fr_status_code 502 r) true.
Proof. by split. Qed.

Lemma wp_withdraw_invalid_offered token reason validation is_stream st v :
  offered is_stream st v ->
  wp (withdraw_invalid token reason validation st) (offered is_stream) Delivered AnyExit v.
Proof. intros H. unfold withdraw_invalid, withdraw. wp_go; [exact H|]. split; [apply withdrawn_fails|done]. Qed.

Lemma wp_deliver_body_offered token is_stream format model r ta v :
  blank v -> fails r ta ->
  wp (deliver_body req matched token is_stream format model r ta) (offered is_stream) Delivered AnyExit v.
Proof.
  intros Hb Hf. unfold deliver_body. destruct (_ && _) eqn:Ec; [|wp_go; by split].
  assert (is_stream = true -> is_success (fr_status_code r) = false) as Hs.
  { intros ->. apply andb_true_iff in Ec as [Ec _]. apply Z.leb_le in Ec.
    unfold is_success. apply andb_false_iff. right. apply Z.ltb_ge. lia. }
  assert (forall v, offered is_stream (r, ta) v) as Ho.
  { intros v'. split; [done|]. intros E1 E2. cbn in E2. by rewrite Hs in E2. }
  apply wp_bind, wp_on_resp, wp_bind. eapply wp_mono with (Q := λ _ _, True) (D := Delivered) (X := AnyExit);
    [unfold convert_error_body; wp_go; done| |done|done]. intros _ v1 _. apply wp_bind.
  eapply wp_mono with (Q := offered is_stream) (D := Delivered) (X := AnyExit); [| |done|done].
  { unfold convert_success_body, withdraw. wp_go; try apply Ho. split; [apply withdrawn_fails|done]. }
  intros st1 v2 H2. apply wp_bind. eapply wp_mono with (Q := offered is_stream) (D := Delivered) (X := AnyExit); [| |done|done].
  { unfold check_embeddings. wp_go; [by apply wp_withdraw_invalid_offered|exact H2]. }
  intros st2 v3 H3. apply wp_bind. eapply wp_mono with (Q := offered is_stream) (D := Delivered) (X := AnyExit); [| |done|done].
  { unfold check_catalog. wp_go; [by apply wp_withdraw_invalid_offered|exact H3]. }
  intros st3 v4 H4. unfold check_responses. wp_go; [by apply wp_withdraw_invalid_offered|exact H4].
Qed.

Definition ok_body (v : View) : Prop := blank v \/ cleared (name (spec matched)) (v_log v) (hr_body (v_resp v)).

(** Either the answer was replaced by an error, or what is there may go out. *)
Definition decided (r : ForwardResult) (overridden : bool) (v : View) : Prop :=
  if overridden then is_success (hr_status_code (v_resp v)) = false
  else is_success (fr_status_code r) = true -> ok_body v.

Lemma wp_response_policy_decided token is_stream r ta v :
  offered is_stream (r, ta) v ->
  wp (response_policy matched token is_stream r ta) (decided r) Delivered AnyExit v.
Proof.
  intros [[Hpos Hf] Hs]. cbn [fst snd] in *. unfold response_policy. apply wp_bind, wp_gets. intros g Hg.
  assert (hr_body (g_resp g) = hr_body (v_resp v)) as Hbody by (by rewrite <- Hg). rewrite Hbody. clear g Hg Hbody.
  destruct (negb is_stream && _ && _ && _ && _) eqn:Ec.
  - rewrite Hchat. apply wp_bind, wp_call. intros policy _. destruct (content_policy_disposition policy) eqn:Ep.
    + wp_go. intros _. right. exists token, policy. split; [|done]. cbn. apply elem_of_app. right.
      by apply list_elem_of_singleton.
    + unfold withhold. wp_go. done.
    + unfold withhold. wp_go. done.
  - wp_go. intros Hok. left. unfold in_2xx_3xx in Ec.
    destruct is_stream; [by apply Hs|]. destruct ta.
    { rewrite Hf in Hok by auto. done. }
    destruct (fr_malformed_usage r). { rewrite Hf in Hok by auto. done. }
    unfold is_success in Hok. apply andb_true_iff in Hok as [H1 H2]. rewrite H1 in Ec. apply Z.ltb_lt in H2.
    rewrite (proj2 (Z.ltb_lt (fr_status_code r) 400)) in Ec by lia. cbn in Ec. unfold blank.
    by destruct (hr_body (v_resp v)).
Qed.

Lemma wp_settle_delivered key_hash request_id start is_stream parsed usage d r ta (Q : unit -> View -> Prop) v :
  blank v -> fails r ta ->
  wp (settle req matched key_hash request_id start is_stream parsed usage d r ta) Q Delivered AnyExit v.
Proof.
  intros Hb Hf. unfold settle. apply wp_bind.
  eapply wp_mono; [by apply wp_deliver_body_offered| |done|done]. clear v r ta Hb Hf. intros [r ta] v Ho.
  apply wp_bind. eapply wp_mono; [by apply wp_response_policy_decided| |done|done]. intros overridden v1 H1.
  assert (fr_malformed_usage r = true -> is_success (fr_status_code r) = false) as Hm
    by (intros Hm; apply Ho; by right).
  assert (0 < fr_status_code r) as Hpos by apply Ho. clear v Ho.
  apply wp_bind. eapply wp_mono with (Q := λ _ v, decided r overridden v) (D := Delivered) (X := AnyExit); [| |done|done].
  { wp_go; [|exact H1]. destruct overridden; [done|]. cbn. intros Hok. by rewrite Hm in Hok. }
  clear v1 H1. intros _ v1 H1. unfold persist_media. rewrite Hcreate. cbn [andb].
  apply wp_bind, wp_ret, wp_bind.
  assert (forall a v, decided r overridden v -> decided r overridden (log_snoc a v)) as Hlog.
  { intros a v. unfold decided. destruct overridden; [done|]. intros H Hok. destruct (H Hok) as [Hbl|(t & p & Hin & Hp)];
      [by left|right]. exists t, p. split; [|done]. cbn. apply elem_of_app. by left. }
  eapply wp_mono with (Q := λ _ v, decided r overridden v) (D := Delivered) (X := AnyExit); [| |done|done].
  { unfold release_control. wp_go; [|exact H1]. by apply Hlog. }
  clear v1 H1. intros ta' v1 H1. apply wp_bind, wp_gets. intros g _. apply wp_bind, wp_now. intros t _. cbv zeta.
  apply wp_bind. eapply wp_mono with (Q := λ _ v, decided r overridden v) (D := Delivered) (X := AnyExit); [| |done|done].
  { apply wp_when; intros _; [|exact H1]. unfold settle_usage. apply wp_bind, wp_collector.
    intros [u|e]; wp_go; by apply Hlog. }
  clear v1 H1. intros _ v1 H1. cbn [negb andb].
  destruct overridden; cbn [negb].
  - wp_go; [done|]. intros Hok. change (is_success (hr_status_code (v_resp v1)) = true) in Hok.
    unfold decided in H1. congruence.
  - wp_go; [|done]. intros Hok.
    change (is_success (if 0 <? fr_status_code r then fr_status_code r else 200) = true) in Hok.
    rewrite (proj2 (Z.ltb_lt 0 (fr_status_code r)) Hpos) in Hok.
    destruct (H1 Hok) as [Hbl|Hc]; [by left|by right; left].
Qed.

Lemma wp_handle_delivered (Q : unit -> View -> Prop) v :
  blank v -> wp (handle req matched) Q Delivered AnyExit v.
Proof.
  intros Hb. unfold handle. apply wp_bind, wp_bump; [reflexivity|].
  apply wp_bind, wp_inc_active, wp_bind, wp_now. intros start _. cbv zeta. apply wp_bind, wp_on_resp.
  destruct (negb _); [by apply wp_refuse_error|]. destruct (empty _); [by apply wp_refuse_error|].
  rewrite Hcontrol. unfold idempotency_lookup. rewrite Hcreate. cbn [when andb].
  apply wp_bind, wp_ret, wp_bind, wp_ret, wp_bind, silent_auth_version; [exact Hb|]. clear v Hb.
  intros cached v Hb. destruct (request_error _ _ _); [by apply wp_refuse_error|].
  apply wp_bind, silent_when; [silent_go|done|]. clear v Hb. intros _ v Hb.
  apply wp_bind, silent_stage_body; [done|]. clear v Hb. intros body v Hb. apply wp_bind, wp_now. intros t _.
  apply wp_bind, wp_forwarding_loop_fails; [exact Hb|]. intros d r ta v1 H1 Hf. by apply wp_settle_delivered.
Qed.
End Policy.


