(* ===== verification/GatewayFindings.v ===== *)
(** * Runs of the handler that end badly

    Concrete runs that show where [handle] does not do what it means to. *)
From S2P Require Import Prelude Numbers Garnet Failover Capability Auth DispatchTypes Usage Json StreamPipe Forwarder Dispatch GatewayTypes GatewayRequest Gateway GatewaySamples GatewayLogic GatewayLease.
#[local] Open Scope Z_scope.

(** ** A task id that is lost *)

(** RapidJSON on the bodies of this run: the request, the provider's answer, and
    the error object of a withheld response. *)
Definition task_json : RapidJson := {|
  Parse := λ s, if s =$ q "{'model':'m'}" then Some (JObject [("model" : str, JString "m")])
                else if s =$ q "{'id':'task-9'}" then Some (JObject [("id" : str, JString "task-9")])
                else if s =$ "error" then Some (JObject [("error" : str, JObject [])])
                else None;
  Write := λ j, match j with JObject [(k, _)] => k | _ => "{}" end |}.

Definition media_target : UpstreamTarget :=
  mkUpstreamTarget 1 "openai" "https://api.example.com" "/v1/images" [("authorization" : str, "Bearer x" : str)]
    [] [] [] [] 1 1 kOne [] false [] [] [] [] [] [] [] [] "op-1" [] true false.

(** The samples' environment with other dispatches, media operations, clock and
    database. *)
Definition environment_with (dispatch : nat -> DispatchResult) (elapse : nat -> N) (sql : nat -> Sql)
    (exchange : Exchange) : Environment := {|
  e_dispatch := λ n _, dispatch n;
  e_media_operation := λ _ req,
    mkMediaOperationResult true 200 (mq_operation_id req) "images_generations_async" (mq_status req) 0
      (mq_upstream_task_id req) [] [] [] [] [];
  e_report_usage := λ _ _, ack_ok;
  e_record_lease_evidence := λ _ _ _ _, ack_ok;
  e_abort := λ _ _ _ _ _, ack_ok;
  e_report_upstream_error := λ _ _, ack_ok;
  e_evaluate := λ _ _ _ _, mkPolicyResult true true false [] 0 [];
  e_upload_blob := λ _ _ _, mkBlobUpload false [] [] [] 0;
  e_garnet_get := λ _ _, mkGarnet false false [];
  e_exchange := λ _, exchange;
  e_sql := sql;
  e_elapse := elapse;
  e_unixepoch := 0;
  e_blob_id := λ _, [];
  e_sha256 := λ s, s;
  e_xxh64 := λ _ _, 0 |}.

Definition async_image : MatchedCapability := mkMatched kImagesAsync "images_generations_async" [].

Definition attached (a : Act) : option (str * str * str) :=
  match a with
  | AMedia req _ => if mq_action req =$ "attach" then Some (mq_status req, mq_upstream_task_id req, mq_output_metadata req) else None
  | _ => None
  end.

(** The task id of an asynchronous media request is lost: the provider accepts
    the request with task [task-9], but as the policy withholds every media body
    before the id is read, the operation is attached as running with an empty task
    id and with the error as its metadata, and the client is told 202. *)
Theorem media_task_id_lost :
  let '(g, o) := handle (RJ := task_json) (SC := data_codec) (CV := sample_converter)
    (E := environment_with (λ _, mkDispatchResult OutcomeOk 7 3 "lease-1" media_target [] 0 0 0 [] [])
            (λ _, 1000%N) (λ _, SqlDone) (answer 200 (q "{'id':'task-9'}")))
    sample_http async_image sample_gw in
  o = Done /\ hr_status_code (g_resp g) = 202
  /\ omap attached (g_log g) = [("running" : str, [], "error" : str)].
Proof. vm_compute. repeat split. Qed.

(** ** A database that fails *)

(** A failed write of the evidence leaves [handle] by an exception that nothing
    catches: the lease stays granted and the request counts as active for ever. *)
Theorem evidence_failure_leaks :
  let g0 := mkGw (cache_create 10) (mkCollector (Some (mkDb [] [])) []) zero_metrics default_response [] 0 0 0 in
  let '(g, o) := handle (RJ := sample_json) (SC := data_codec) (CV := sample_converter)
    (E := environment_with (λ _, ok_dispatch "lease-1") (λ _, 1000%N)
            (λ _, PrepareFails "disk I/O error") (answer 200 "{}"))
    sample_http chat g0 in
  o = Raise (RuntimeError "disk I/O error") /\ m_active_connections (g_metrics g) = 1
  /\ lease_run Idle (g_log g) = Some (Granted (ok_dispatch "lease-1")).
Proof. vm_compute. repeat split. Qed.

(** ** A sleep of five hundred thousand years *)

Definition slept (a : Act) : option Z := match a with ASleep us => Some us | _ => None end.

(** A [Wait] answer that arrives just before the deadline: the clock is read
    again after the deadline was checked, the remaining time is negative, and its
    conversion to an unsigned number of microseconds wraps around. *)
Theorem wait_past_deadline_wraps :
  let '(g, o) := handle (RJ := sample_json) (SC := data_codec) (CV := sample_converter)
    (E := environment_with
            (λ n, if (n <? 2)%nat then mkDispatchResult Wait 0 0 [] default_UpstreamTarget [] 0 500 0 [] []
                  else ok_dispatch "lease-1")
            (λ n, if (n =? 2)%nat then 44999000000%N else if (n =? 3)%nat then 3000000%N else 0%N)
            (λ _, SqlDone) (answer 200 "{}"))
    sample_http chat sample_gw in
  o = Done /\ omap slept (g_log g) = [2 ^ 64 - 2000].
Proof. vm_compute. split; reflexivity. Qed.
