(* ===== verification/Router.v ===== *)
(** * The router

    [server/router.cpp]: the probes, the metrics page, the unauthenticated model
    catalogue, the gateway's handler, and the answers to what is not served.  Whether
    the control plane is connected and the store answers a ping are the two answers
    of [Probes] ([Dispatch] and [Garnet] model the calls). *)
From S2P Require Import Prelude Numbers Garnet Failover Capability Auth DispatchTypes Usage Json StreamPipe Forwarder Dispatch GatewayTypes GatewayRequest Gateway GatewaySamples GatewayLogic GatewayLease GatewayReturns.
#[local] Open Scope Z_scope.

Class Probes := {
  is_connected : bool;
  garnet_ping : bool;
}.

(** [std::format] of a [bool]. *)
Definition format_bool (b : bool) : str := if b then "true" else "false".

(** One metric of the text format. *)
Definition metric (name help kind : str) (value : Z) : str :=
  "# HELP " ++ name ++ " " ++ help ++ [LF] ++ "# TYPE " ++ name ++ " " ++ kind ++ [LF]
    ++ name ++ " " ++ to_string value ++ [LF].

Definition metrics_page (m : Metrics) (dead_lettered pending_evidence : Z) : str :=
  metric "gateway_requests_total" "Total requests" "counter" (m_requests_total m)
  ++ metric "gateway_requests_streaming" "Streaming requests" "counter" (m_requests_streaming m)
  ++ metric "gateway_requests_failed" "Failed requests" "counter" (m_requests_failed m)
  ++ metric "gateway_dispatch_calls" "Dispatch RPC calls" "counter" (m_dispatch_calls m)
  ++ metric "gateway_garnet_hits" "Garnet cache hits" "counter" (m_garnet_hits m)
  ++ metric "gateway_garnet_misses" "Garnet cache misses" "counter" (m_garnet_misses m)
  ++ metric "gateway_upstream_errors" "Upstream errors" "counter" (m_upstream_errors m)
  ++ metric "gateway_conversion_failures_total" "Protocol response conversion failures" "counter"
       (m_conversion_failures m)
  ++ metric "gateway_failovers" "Account failovers" "counter" (m_failovers m)
  ++ metric "gateway_active_connections" "Active connections" "gauge" (m_active_connections m)
  ++ metric "gateway_usage_outbox_backlog" "Pending durable usage events" "gauge"
       (m_usage_events_buffered m)
  ++ metric "gateway_usage_dead_lettered" "Non-retryable usage events retained for operator review"
       "gauge" dead_lettered
  ++ metric "gateway_evidence_outbox_backlog" "Pending durable lease evidence" "gauge" pending_evidence
  ++ metric "gateway_usage_report_failures_total" "Failed usage report attempts" "counter"
       (m_usage_report_failures m)
  ++ metric "gateway_dispatch_reconnects_total" "Successful dispatch reconnects" "counter"
       (m_dispatch_reconnects m).

Definition respond (status : Z) (body : str) : hm unit :=
  set_status status ;; set_body body ;; finish_request.

Section Router.
Context {RJ : RapidJson} {SC : StreamCodec} {CV : Converter} {E : Environment} {P : Probes}.

(** A counting query of the collector, with the engine's next outcome. *)
Definition count_ (op : Sql -> Collector -> nat) : hm Z := λ g,
  (set_g_sql (S (g_sql g)) g, Next (Z.of_nat (op (e_sql (g_sql g)) (g_collector g)))).

Definition ready : hm unit :=
  sqlite_ok ← gets (λ g, durable (g_collector g));
  if is_connected && garnet_ping && sqlite_ok then respond 200 (q "{'status':'ready'}")
  else respond 503 (q "{'status':'not_ready','dispatch':" ++ format_bool is_connected
         ++ q ",'garnet':" ++ format_bool garnet_ping ++ q ",'sqlite':" ++ format_bool sqlite_ok ++ "}").

Definition metrics : hm unit :=
  m ← gets g_metrics;
  dead ← count_ dead_lettered;
  evidence ← count_ pending_evidence;
  respond 200 (metrics_page m dead evidence).

(** The model catalogue for a client without a key. *)
Definition public_models : hm unit :=
  cached ← garnet_get "models:list";
  if ga_error cached then
    respond 503 (q "{'error':{'type':'cache_unavailable','message':'Model catalog temporarily unavailable'}}")
  else respond 200 (if ga_found cached && negb (empty (ga_value cached)) then ga_value cached
                    else q "{'object':'list','data':[]}").

Definition is_models (c : Capability) : bool := match c with Models => true | _ => false end.

Definition handle_request (req : HttpRequest) : hm unit :=
  let path := hq_path req in
  if path =$ "/live" then respond 200 (q "{'status':'live'}")
  else if path =$ "/ready" then ready
  else if path =$ "/metrics" then metrics
  else match match_capability (hq_method req) path with
       | Some matched =>
           if is_models (capability (spec matched)) && empty (hq_authorization req)
              && empty (hq_x_api_key req)
           then public_models
           else handle req matched
       | None =>
           if path_matches_any path then
             respond 405 (q "{'error':{'type':'method_not_allowed','message':'HTTP method is not supported for this endpoint'}}")
           else
             respond 404 (q "{'error':{'type':'not_found_error','message':'Unknown or unsupported endpoint'}}")
       end.
End Router.

(** [handle_websocket]: the request is bridged only on a realtime route; otherwise
    the client's socket is closed with a policy violation. *)
Definition handle_websocket {A} (bridge_realtime : HttpRequest -> A) (close : str -> A) (req : HttpRequest) : A :=
  match match_capability "GET" (hq_path req) with
  | Some matched =>
      if realtime (spec matched) then bridge_realtime req else close "unsupported realtime endpoint"
  | None => close "unsupported realtime endpoint"
  end.

(** ** Properties *)

Section Properties.
Context {RJ : RapidJson} {SC : StreamCodec} {CV : Converter} {E : Environment} {P : Probes}.

(** A request that is refused changes the response and the metrics alone. *)
Definition quiet (g g' : Gw) : Prop :=
  g_cache g' = g_cache g /\ g_collector g' = g_collector g /\ g_log g' = g_log g.

Lemma respond_quiet status body g : exists g', respond status body g = (g', Done) /\ quiet g g'
  /\ hr_status_code (g_resp g') = status.
Proof. by eexists. Qed.

Lemma ready_quiet g : exists g', ready g = (g', Done) /\ quiet g g'.
Proof.
  unfold ready, mbind, hm_bind, gets. cbv beta iota.
  destruct (is_connected && garnet_ping && durable (g_collector g)); by eexists.
Qed.

Lemma public_models_reads g : exists g' a, public_models g = (g', Done)
  /\ g_cache g' = g_cache g /\ g_collector g' = g_collector g
  /\ g_log g' = g_log g ++ [AGarnet "models:list" a].
Proof.
  unfold public_models, garnet_get, call, log_act, gets, modify, mbind, hm_bind, mret, hm_ret. cbv beta iota zeta.
  destruct (ga_error (e_garnet_get (length (g_log g)) "models:list"));
    (eexists _, _; split; [reflexivity|]); done.
Qed.

Lemma handle_without_key req matched g : extract_api_key req = [] ->
  exists g', handle req matched g = (g', Done) /\ quiet g g'
    /\ hr_status_code (g_resp g') = (if is_safe_query_string (hq_query req) then 401 else 400).
Proof.
  intros Hk. unfold handle. rewrite Hk. destruct (is_safe_query_string (hq_query req)); by eexists.
Qed.


(** What is not a probe and not routed is refused: with 405 when another method is
    served at that path, and with 404 when none is. *)
Theorem unrouted_refused (req : HttpRequest) (g : Gw)
  (Hlen : zlen (hq_path req) < 2 ^ 64)
  (Hprobe : eq_any (hq_path req) ["/live" : str; "/ready" : str; "/metrics" : str] = false)
  (Hunrouted : match_capability (hq_method req) (hq_path req) = None) :
  exists g', handle_request req g = (g', Done) /\ g_log g' = g_log g
    /\ ((exists method c, match_capability method (hq_path req) = Some c) ->
        hr_status_code (g_resp g') = 405)
    /\ ((forall method, match_capability method (hq_path req) = None) ->
        hr_status_code (g_resp g') = 404).
Proof.
  unfold handle_request. unfold eq_any in Hprobe. cbn [existsb] in Hprobe.
  apply orb_false_iff in Hprobe as [-> [-> [-> _]%orb_false_iff]%orb_false_iff].
  rewrite Hunrouted. pose proof (path_matches_any_complete _ Hlen) as Hany.
  destruct (path_matches_any (hq_path req)).
  - eexists. split; [done|]. split; [done|]. split; [done|]. intros Hn.
    destruct (proj1 Hany eq_refl) as (m & c & Hm). by rewrite Hn in Hm.
  - eexists. split; [done|]. split; [done|]. split; [|done]. intros Hs. by apply Hany in Hs.
Qed.
End Properties.

(** *** Witnesses *)

Definition probes_up : Probes := {| is_connected := true; garnet_ping := true |}.

Definition get_request (method path authorization : str) : HttpRequest :=
  mkHttpRequest method path [] [] authorization [] "10.0.0.1" [] [] [] [] [] [] 300000.


Lemma unrouted_refused_witness :
  exists g', handle_request (RJ := sample_json) (SC := data_codec) (CV := sample_converter)
      (E := sample_environment refuse_once) (P := probes_up) (get_request "GET" "/v1/messages" "Bearer k") sample_gw
    = (g', Done) /\ hr_status_code (g_resp g') = 405.
Proof.
  destruct (unrouted_refused (RJ := sample_json) (SC := data_codec) (CV := sample_converter)
    (E := sample_environment refuse_once) (P := probes_up) (get_request "GET" "/v1/messages" "Bearer k") sample_gw)
    as (g' & Hg & _ & H5 & _); [by vm_compute..|].
  exists g'. split; [done|]. apply H5. exists "POST". vm_compute. by eexists.
Defined.
