(* ===== verification/HttpServer.v ===== *)
(** * The HTTP front end

    [server/http_server.cpp]: what is read from a connection, which address counts
    as the client's, and what is written back.  Photon's HTTP server parses the
    requests and frames the responses: a request is what it hands over, and the
    calls made on its response are the result. *)
From S2P Require Import Prelude Numbers Capability WebSocket GatewayTypes.
#[local] Open Scope Z_scope.

(** ** What Photon hands over *)

(** The peer of a socket; [inet_ntop] prints an IPv6 address as [text]. *)
Inductive PeerAddress :=
| V4 (x : Z)
| V6 (text : str).

Inductive Verb := VGet | VPost | VPut | VDelete | VPatch | VHead | VOptions | VOther.

Record PhotonRequest := mkPhotonRequest {
  rq_verb : Verb;
  rq_target : str;
  (** [req.headers[name]]: the value, or the empty string. *)
  rq_header : str -> str;
  (** The headers as they are iterated over. *)
  rq_headers : list (str * str);
  (** The peer of the socket stream, when there is one. *)
  rq_peer : option PeerAddress;
  (** The bytes each [read] finds; after the last one the connection has ended. *)
  rq_reads : list str;
  (** Whether [server_accept_websocket] completes the handshake. *)
  rq_accepts_websocket : bool;
}.

(** The calls on Photon's response. *)
Inductive WireOp :=
| SetResult (status : Z)
| Header (name value : str)
| ContentLength (n : nat)
| WriteBody (data : str)
| Send.

Record HttpServerConfig := mkHttpServerConfig {
  max_body_size : Z;
  trusted_proxy_cidrs : str;
  stream_timeout_ms : Z;
}.

Definition verb_to_sv (v : Verb) : str :=
  match v with
  | VGet => "GET" | VPost => "POST" | VPut => "PUT" | VDelete => "DELETE" | VPatch => "PATCH"
  | VHead => "HEAD" | VOptions => "OPTIONS" | VOther => "UNKNOWN"
  end.

(** ** IPv4 addresses *)

(** [inet_ntop(AF_INET, ...)]: the four octets in decimal. *)
Definition octet (k x : Z) : Z := x / 2 ^ k mod 256.

Definition print_ipv4 (x : Z) : str :=
  to_string (octet 24 x) ++ "." ++ to_string (octet 16 x) ++ "." ++ to_string (octet 8 x) ++ "."
    ++ to_string (octet 0 x).

Definition peer_ip (req : PhotonRequest) : str :=
  match rq_peer req with
  | None => []
  | Some (V4 x) => print_ipv4 x
  | Some (V6 text) => text
  end.

(** [inet_pton(AF_INET, ...)]: four decimal octets without leading zeros.  [seen]
    says whether the current octet [cur] has a digit, [octets] counts those begun, [acc]
    holds those finished. *)
Fixpoint pton_loop (octets : nat) (seen : bool) (cur acc : Z) (s : str) : option Z :=
  match s with
  | [] => if (octets <? 4)%nat then None else Some (acc * 256 + cur)
  | c :: s' =>
      if is_digit c then
        let new := cur * 10 + (Z.of_nat (code c) - 48) in
        if seen && (cur =? 0) then None
        else if 255 <? new then None
        else if negb seen then
          if (4 <? S octets)%nat then None else pton_loop (S octets) true new acc s'
        else pton_loop octets true new acc s'
      else if (c =? ".")%char && seen then
        if (octets =? 4)%nat then None else pton_loop octets false 0 (acc * 256 + cur) s'
      else None
  end.

(** The address as a 32-bit number in host order. *)
Definition inet_pton4 (s : str) : option Z := pton_loop 0 false 0 0 (cstr s).

Definition trim_spaces (s : str) : str :=
  drop_while_back (λ c, (c =? " ")%char) (drop_while (λ c, (c =? " ")%char) s).

(** One entry of the list of trusted networks. *)
Definition cidr_matches (peer_host : Z) (entry : str) : bool :=
  let entry := trim_spaces entry in
  let slash := sfind "/" entry in
  let address_text := upto slash entry in
  let prefix := match slash with None => 32 | Some i => atoi (drop (S i) entry) end in
  if (0 <=? prefix) && (prefix <=? 32) then
    match inet_pton4 address_text with
    | Some network =>
        let mask := if prefix =? 0 then 0 else u32 (Z.shiftl 0xffffffff (32 - prefix)) in
        Z.land peer_host mask =? Z.land network mask
    | None => false
    end
  else false.

(** The loop over the entries: each round takes the text up to the next comma and the
    comma, so that as many rounds as characters are enough. *)
Fixpoint cidr_loop (fuel : nat) (peer_host : Z) (cidrs : str) : bool :=
  match fuel, cidrs with
  | _, [] => false
  | O, _ => false
  | S fuel', _ =>
      let end_ := default (length cidrs) (sfind "," cidrs) in
      if cidr_matches peer_host (take end_ cidrs) then true
      else cidr_loop fuel' peer_host (drop (S end_) cidrs)
  end.

Definition ipv4_in_cidrs (ip cidrs : str) : bool :=
  match inet_pton4 ip with
  | None => false
  | Some peer_host => cidr_loop (length cidrs) peer_host cidrs
  end.

(** ** The client's address *)

Definition client_ip (config : HttpServerConfig) (req : PhotonRequest) : str :=
  let peer := peer_ip req in
  let trusted_proxy := ipv4_in_cidrs peer (trusted_proxy_cidrs config) in
  let xff := rq_header req "X-Forwarded-For" in
  if trusted_proxy && negb (empty xff) then
    drop_while_back (λ c, (c =? " ")%char) (upto (sfind "," xff) xff)
  else if trusted_proxy then
    let real_ip := rq_header req "X-Real-IP" in
    if negb (empty real_ip) then real_ip else peer
  else peer.

(** ** Reading the body *)

(** Up to [len] bytes; fewer when the connection ends first. *)
Fixpoint read_exactly (len : nat) (body : str) (reads : list str) : str :=
  if (length body <? len)%nat then
    match reads with
    | [] => body
    | r :: reads' =>
        if empty r then body
        else read_exactly len (body ++ take (len - length body) r) reads'
    end
  else body.

(** The bytes of a chunked body, as long as they fit. *)
Fixpoint read_chunked (max_body_size : Z) (body : str) (reads : list str) : option str :=
  match reads with
  | [] => Some body
  | r :: reads' =>
      if empty r then Some body
      else if max_body_size <? zlen body + zlen r then None
      else read_chunked max_body_size (body ++ r) reads'
  end.

(** A body, or the answer that refuses it. *)
Definition read_request_body (config : HttpServerConfig) (req : PhotonRequest) : list WireOp + str :=
  let content_length := rq_header req "Content-Length" in
  if negb (empty content_length) then
    match stoull content_length with
    | Err _ => inl [SetResult 400; Send]
    | Ok len =>
        if max_body_size config <? len then
          let err := q "{'error':'request too large'}" in
          inl [SetResult 413; Header "Content-Type" "application/json"; ContentLength (length err);
               WriteBody err]
        else inr (read_exactly (Z.to_nat len) [] (rq_reads req))
    end
  else if negb (empty (rq_header req "Transfer-Encoding")) then
    match read_chunked (max_body_size config) [] (rq_reads req) with
    | None => inl [SetResult 413; Send]
    | Some body => inr body
    end
  else inr [].

(** ** Requests for the router *)

Definition forwarded_headers (req : PhotonRequest) : list (str * str) :=
  List.filter (λ h, eq_any h.1 ["Accept" : str; "User-Agent" : str; "X-Request-ID" : str;
                                "Idempotency-Key" : str]) (rq_headers req).

Definition target_path (target : str) : str := upto (sfind "?" target) target.

Definition gateway_request (config : HttpServerConfig) (req : PhotonRequest) (body : str) : HttpRequest :=
  let path := target_path (rq_target req) in
  mkHttpRequest (verb_to_sv (rq_verb req)) path (drop (length path) (rq_target req)) body
    (rq_header req "Authorization") (rq_header req "X-Api-Key") (client_ip config req)
    (rq_header req "Content-Type") (rq_header req "Accept") (rq_header req "User-Agent")
    (rq_header req "X-Request-ID") (rq_header req "Idempotency-Key") (forwarded_headers req)
    (stream_timeout_ms config).

Definition websocket_request (config : HttpServerConfig) (req : PhotonRequest) : HttpRequest :=
  let path := target_path (rq_target req) in
  mkHttpRequest "GET" path (drop (length path) (rq_target req)) []
    (rq_header req "Authorization") (rq_header req "X-Api-Key") (client_ip config req)
    [] (rq_header req "Accept") (rq_header req "User-Agent")
    (rq_header req "X-Request-ID") (rq_header req "Idempotency-Key") (forwarded_headers req) 300000.

(** The callback that polls the socket: [recv(MSG_PEEK | MSG_DONTWAIT)] yields
    [received] and sets [errno]; [EAGAIN] (the same as [EWOULDBLOCK]) is 11, [EINTR] 4. *)
Definition client_disconnected (stream : bool) (fd received errno : Z) : bool :=
  if negb stream then false
  else if fd <? 0 then false
  else if received =? 0 then true
  else (received <? 0) && negb (errno =? 11) && negb (errno =? 4).

(** ** Writing the response *)

Definition response_headers (r : HttpResponse) : list WireOp :=
  map (λ h, Header h.1 h.2) (List.filter (λ h, negb (h.1 =$ "Content-Type")) (hr_headers r)).

(** [gw_resp.stream_write]: the head goes out with the first piece, as the response
    is then. *)
Definition stream_head (r : HttpResponse) : list WireOp :=
  [SetResult (hr_status_code r)] ++ response_headers r
  ++ [Header "Content-Type"
        (if empty (hr_content_type r) then "text/event-stream" else hr_content_type r)]
  ++ (if empty (hr_content_type r) || starts_with (hr_content_type r) "text/event-stream"
      then [Header "Transfer-Encoding" "chunked"; Header "Cache-Control" "no-cache";
            Header "Connection" "keep-alive"]
      else []).

Definition stream_write (headers_sent : bool) (r : HttpResponse) (data : str) : bool * list WireOp :=
  (true, (if headers_sent then [] else stream_head r) ++ [WriteBody data]).

Fixpoint stream_writes (headers_sent : bool) (writes : list (HttpResponse * str)) : bool * list WireOp :=
  match writes with
  | [] => (headers_sent, [])
  | (r, data) :: writes' =>
      let '(headers_sent, ops) := stream_write headers_sent r data in
      let '(headers_sent, ops') := stream_writes headers_sent writes' in
      (headers_sent, ops ++ ops')
  end.

(** The response of a handler that streamed nothing. *)
Definition plain_response (r : HttpResponse) : list WireOp :=
  [SetResult (hr_status_code r)] ++ response_headers r
  ++ [Header "Content-Type"
        (if empty (hr_content_type r) then "application/json" else hr_content_type r);
      ContentLength (length (hr_body r))]
  ++ (if negb (empty (hr_body r)) then [WriteBody (hr_body r)] else [Send]).

(** ** [http_handler] *)

Inductive Handled :=
| Answered (ops : list WireOp)
| Bridged (req : HttpRequest)
| Routed (req : HttpRequest) (ops : list WireOp).

Definition json_error (status : Z) (message : str) : list WireOp :=
  [SetResult status; Header "Content-Type" "application/json"; ContentLength (length message);
   WriteBody message].

Definition upgrade (config : HttpServerConfig) (req : PhotonRequest) : Handled :=
  let path := target_path (rq_target req) in
  let auth_hdr := rq_header req "Authorization" in
  let not_found := json_error 404 (q "{'error':{'type':'not_found_error','message':'Unknown or unsupported WebSocket endpoint'}}") in
  match match_capability "GET" path with
  | None => Answered not_found
  | Some matched =>
      if negb (realtime (spec matched)) then Answered not_found
      else
        let bearer_auth := starts_with auth_hdr "Bearer " && (7 <? length auth_hdr)%nat in
        if negb bearer_auth && empty (rq_header req "X-Api-Key") then
          Answered (json_error 401 (q "{'error':{'type':'authentication_error','message':'Missing API key'}}"))
        else
          let ws_query := if (length path <? length (rq_target req))%nat
                          then drop (length path) (rq_target req) else [] in
          if negb (is_safe_query_string ws_query) then
            Answered (json_error 400 (q "{'error':{'type':'invalid_request_error','message':'Malformed query string'}}"))
          else if negb (rq_accepts_websocket req) then Answered []
          else Bridged (websocket_request config req)
  end.

(** [router] is [Router::handle_request]: the pieces it streams, each with the
    response as it is then, and the response it leaves. *)
Definition http_handler (config : HttpServerConfig)
    (router : HttpRequest -> list (HttpResponse * str) * HttpResponse) (req : PhotonRequest) : Handled :=
  if is_websocket_upgrade (rq_header req "Upgrade") (rq_header req "Connection") then upgrade config req
  else
    match read_request_body config req with
    | inl ops => Answered ops
    | inr body =>
        let gw_req := gateway_request config req body in
        let '(writes, gw_resp) := router gw_req in
        let '(headers_sent, ops) := stream_writes false writes in
        Routed gw_req (ops ++ if headers_sent then [] else plain_response gw_resp)
    end.

(** ** Trusted networks *)

Definition print_cidr (n : Z * Z) : str := print_ipv4 n.1 ++ "/" ++ to_string n.2.

Fixpoint print_cidrs (l : list (Z * Z)) : str :=
  match l with
  | [] => []
  | [n] => print_cidr n
  | n :: l' => print_cidr n ++ "," ++ print_cidrs l'
  end.

(** The first [n.2] bits of the address are those of the network. *)
Definition in_network (x : Z) (n : Z * Z) : bool :=
  x / 2 ^ (32 - n.2) =? n.1 / 2 ^ (32 - n.2).

Definition network_ok (n : Z * Z) : Prop := 0 <= n.1 < 2 ^ 32 /\ 0 <= n.2 <= 32.

(** The digits of one octet. *)
Fixpoint octet_run (seen : bool) (cur : Z) (s : str) : option Z :=
  match s with
  | [] => if seen then Some cur else None
  | c :: s' =>
      if is_digit c then
        let new := cur * 10 + (Z.of_nat (code c) - 48) in
        if seen && (cur =? 0) then None else if 255 <? new then None else octet_run true new s'
      else None
  end.

Lemma octet_run_seen s : forall o cur acc rest v, octet_run true cur s = Some v ->
  pton_loop o true cur acc (s ++ rest) = pton_loop o true v acc rest.
Proof.
  induction s as [|c s IH]; intros o cur acc rest v H; simpl in *; [congruence|].
  destruct (is_digit c); [|done]. destruct (cur =? 0); [done|]. destruct (255 <? _); [done|]. by apply IH.
Qed.

Lemma octet_run_new s o acc rest v : (o < 4)%nat -> octet_run false 0 s = Some v ->
  pton_loop o false 0 acc (s ++ rest) = pton_loop (S o) true v acc rest.
Proof.
  intros Ho H. destruct s as [|c s]; [done|]. cbn [octet_run app pton_loop] in *.
  destruct (is_digit c); [|done]. cbn [andb negb] in *. destruct (255 <? _); [done|].
  rewrite (proj2 (Nat.ltb_ge 4 (S o))) by lia. by apply octet_run_seen.
Qed.

Lemma octet_range k x : 0 <= octet k x < 0 + 256.
Proof. apply Z.mod_pos_bound. lia. Qed.

Lemma octet_printed k x : octet_run false 0 (to_string (octet k x)) = Some (octet k x).
Proof.
  assert (forallb (λ v, bool_decide (octet_run false 0 (to_string v) = Some v)) (seqZ 0 256) = true) as H
    by (vm_compute; reflexivity).
  apply (bool_decide_eq_true_1 _), (forall_seqZ _ _ _ H), octet_range.
Qed.

Lemma pton_dot o cur acc rest : (o < 4)%nat ->
  pton_loop o true cur acc ("." ++ rest) = pton_loop o false 0 (acc * 256 + cur) rest.
Proof. intros Ho. simpl. by rewrite (proj2 (Nat.eqb_neq o 4)) by lia. Qed.

Lemma octets_sum x : 0 <= x < 2 ^ 32 ->
  ((octet 24 x * 256 + octet 16 x) * 256 + octet 8 x) * 256 + octet 0 x = x.
Proof.
  intros Hx. unfold octet. rewrite (Z.mod_small (x / 2 ^ 24)).
  2:{ split; [apply Z.div_pos; lia|]. apply Z.div_lt_upper_bound; lia. }
  replace (x / 2 ^ 24) with (x / 2 ^ 8 / 2 ^ 8 / 2 ^ 8) by (rewrite !Z.div_div by lia; done).
  replace (x / 2 ^ 16) with (x / 2 ^ 8 / 2 ^ 8) by (rewrite !Z.div_div by lia; done).
  change (2 ^ 8) with 256. change (2 ^ 0) with 1. rewrite Z.div_1_r.
  pose proof (Z.div_mod x 256). pose proof (Z.div_mod (x / 256) 256).
  pose proof (Z.div_mod (x / 256 / 256) 256). lia.
Qed.

Lemma pton_print x : 0 <= x < 2 ^ 32 -> pton_loop 0 false 0 0 (print_ipv4 x) = Some x.
Proof.
  intros Hx. unfold print_ipv4.
  rewrite (octet_run_new _ 0 _ _ (octet 24 x)) by (lia || apply octet_printed). rewrite pton_dot by lia.
  rewrite (octet_run_new _ 1 _ _ (octet 16 x)) by (lia || apply octet_printed). rewrite pton_dot by lia.
  rewrite (octet_run_new _ 2 _ _ (octet 8 x)) by (lia || apply octet_printed). rewrite pton_dot by lia.
  rewrite <- (app_nil_r (to_string (octet 0 x))).
  rewrite (octet_run_new _ 3 _ _ (octet 0 x)) by (lia || apply octet_printed).
  simpl. f_equal. rewrite <- (octets_sum x Hx) at 5. lia.
Qed.

(** The characters of a printed address. *)
Definition address_char (c : ascii) : bool := is_digit c || (c =? ".")%char.

Lemma printed_digits n : 0 <= n -> Forall (λ c, is_digit c = true) (to_string n).
Proof. intros H. apply to_string_printed. done. Qed.

Lemma print_ipv4_chars x : Forall (λ c, address_char c = true) (print_ipv4 x).
Proof.
  assert (forall k, Forall (λ c, address_char c = true) (to_string (octet k x))) as H.
  { intros k. eapply Forall_impl; [apply printed_digits, octet_range|]. intros c Hc. unfold address_char. by rewrite Hc. }
  unfold print_ipv4. rewrite !Forall_app. repeat split; try apply H; by repeat constructor.
Qed.

Lemma not_address c (P : ascii -> bool) s : Forall (λ c, P c = true) s -> P c = false -> c ∉ s.
Proof. intros Hs Hc Hin. rewrite Forall_forall in Hs. apply Hs in Hin. congruence. Qed.

Lemma inet_pton4_print x : 0 <= x < 2 ^ 32 -> inet_pton4 (print_ipv4 x) = Some x.
Proof.
  intros Hx. unfold inet_pton4. rewrite cstr_no_NUL; [by apply pton_print|].
  eapply not_address; [apply print_ipv4_chars|done].
Qed.

Lemma mask_shape n : 1 <= n < 1 + 32 -> u32 (Z.shiftl 0xffffffff (32 - n)) = Z.shiftl (Z.ones n) (32 - n).
Proof.
  assert (forallb (λ n, u32 (Z.shiftl 0xffffffff (32 - n)) =? Z.shiftl (Z.ones n) (32 - n)) (seqZ 1 32) = true)
    as H by (vm_compute; reflexivity).
  intros Hn. apply Z.eqb_eq. exact (forall_seqZ _ _ _ H n Hn).
Qed.

(** Under the mask of [n] bits an address keeps its first [n] bits. *)
Lemma land_mask x n : 0 <= x < 2 ^ 32 -> 1 <= n <= 32 ->
  Z.land x (Z.shiftl (Z.ones n) (32 - n)) = Z.shiftl (x / 2 ^ (32 - n)) (32 - n).
Proof.
  intros Hx Hn. apply Z.bits_inj'. intros i Hi.
  rewrite Z.land_spec, !Z.shiftl_spec by done. rewrite <- Z.shiftr_div_pow2 by lia.
  destruct (decide (i < 32 - n)).
  - rewrite !(Z.testbit_neg_r _ (i - (32 - n))) by lia. apply andb_false_r.
  - rewrite Z.shiftr_spec by lia. replace (i - (32 - n) + (32 - n)) with i by lia.
    destruct (decide (i < 32)).
    + rewrite Z.ones_spec_low by lia. apply andb_true_r.
    + rewrite Z.ones_spec_high by lia. rewrite andb_false_r. symmetry.
      destruct (decide (x = 0)) as [->|]; [apply Z.bits_0|].
      apply Z.bits_above_log2; [lia|]. assert (Z.log2 x < 32) by (apply Z.log2_lt_pow2; lia). lia.
Qed.

Lemma cidr_matches_spec p e n : 0 <= p < 2 ^ 32 -> network_ok (e, n) ->
  cidr_matches p (print_cidr (e, n)) = in_network p (e, n).
Proof.
  intros Hp [He Hn]. simpl in He, Hn. unfold cidr_matches, print_cidr. simpl fst. simpl snd.
  pose proof (print_ipv4_chars e) as Hc. pose proof (printed_digits n ltac:(lia)) as Hd.
  assert (Forall (λ c, (c =? " ")%char = false) (print_ipv4 e ++ "/" ++ to_string n)) as Hs.
  { rewrite !Forall_app. repeat split.
    - eapply Forall_impl; [exact Hc|]. intros c H. destruct (Ascii.eqb_spec c " "); [by subst|done].
    - by repeat constructor.
    - eapply Forall_impl; [exact Hd|]. intros c H. destruct (Ascii.eqb_spec c " "); [by subst|done]. }
  unfold trim_spaces. rewrite drop_while_none, drop_while_back_none by done.
  assert (sfind "/" (print_ipv4 e ++ "/" ++ to_string n) = Some (length (print_ipv4 e))) as ->.
  { apply sfind_char_first. by eapply not_address. }
  cbn [upto]. rewrite take_app_length, inet_pton4_print by done.
  replace (drop (S (length (print_ipv4 e))) (print_ipv4 e ++ "/" ++ to_string n)) with (to_string n).
  2:{ rewrite <- Nat.add_1_r, <- drop_drop, drop_app_length. done. }
  unfold atoi. pose proof (atoll_to_string n ltac:(lia)) as Ha. unfold atoll in Ha. rewrite Ha.
  rewrite i32_small by lia. rewrite (proj2 (Z.leb_le 0 n)), (proj2 (Z.leb_le n 32)) by lia. cbn [andb].
  unfold in_network. simpl fst. simpl snd. destruct (Z.eqb_spec n 0) as [->|Hz].
  - rewrite !Z.land_0_r. change (2 ^ (32 - 0)) with (2 ^ 32).
    rewrite !Z.div_small by lia. done.
  - rewrite mask_shape, !land_mask by lia. apply eq_true_iff_eq. rewrite !Z.eqb_eq. split; [|congruence].
    rewrite !Z.shiftl_mul_pow2 by lia. apply Z.mul_reg_r. pose proof (Z.pow_pos_nonneg 2 (32 - n)). lia.
Qed.

Lemma print_cidr_no_comma n : 0 <= n.2 -> ","%char ∉ print_cidr n.
Proof.
  intros Hn. unfold print_cidr. rewrite !not_elem_of_app. repeat split.
  - eapply not_address; [apply print_ipv4_chars|done].
  - by apply sfind_char_None.
  - eapply not_address; [by apply printed_digits|done].
Qed.

Lemma print_cidr_cons n : exists c s, print_cidr n = c :: s.
Proof.
  destruct (print_cidr n) as [|c s] eqn:E; [|by eexists _, _].
  unfold print_cidr in E. apply app_eq_nil in E as [_ E]. discriminate.
Qed.

Lemma cidr_loop_spec p l : 0 <= p < 2 ^ 32 -> Forall network_ok l ->
  forall fuel, (length (print_cidrs l) <= fuel)%nat -> cidr_loop fuel p (print_cidrs l) = existsb (in_network p) l.
Proof.
  intros Hp Hl. induction Hl as [|n l Hn Hl IH]; intros fuel Hf; [by destruct fuel|].
  destruct (print_cidr_cons n) as (c & s & Ec). destruct n as [e b].
  assert (","%char ∉ print_cidr (e, b)) as Hcomma by (apply print_cidr_no_comma, Hn).
  pose proof (cidr_matches_spec p e b Hp Hn) as Hm.
  destruct l as [|n' l'].
  - cbn [print_cidrs existsb] in *. destruct fuel as [|fuel]; [rewrite Ec in Hf; simpl in Hf; lia|].
    unfold cidr_loop. rewrite Ec. fold cidr_loop. rewrite <- Ec.
    assert (sfind "," (print_cidr (e, b)) = None) as -> by (by apply sfind_char_None). cbn [from_option id].
    rewrite firstn_all, Hm, drop_ge by lia. destruct (in_network p (e, b)); [done|]. by destruct fuel.
  - change (print_cidrs ((e, b) :: n' :: l')) with (print_cidr (e, b) ++ "," ++ print_cidrs (n' :: l')) in *.
    cbn [existsb]. rewrite !length_app in Hf. destruct fuel as [|fuel]; [rewrite Ec in Hf; simpl in Hf; lia|].
    assert (sfind "," (print_cidr (e, b) ++ "," ++ print_cidrs (n' :: l')) = Some (length (print_cidr (e, b))))
      as Hs by (by apply sfind_char_first).
    assert (print_cidr (e, b) ++ "," ++ print_cidrs (n' :: l') = c :: s ++ "," ++ print_cidrs (n' :: l')) as Ecs
      by (by rewrite Ec).
    unfold cidr_loop. rewrite Ecs. fold cidr_loop. rewrite <- Ecs, Hs. cbn [from_option id].
    rewrite take_app_length, Hm. destruct (in_network p (e, b)); [done|]. cbn [orb].
    rewrite <- Nat.add_1_r, <- drop_drop, drop_app_length. apply IH. simpl in Hf |- *. lia.
Qed.

Lemma ipv4_in_cidrs_print p l : 0 <= p < 2 ^ 32 -> Forall network_ok l ->
  ipv4_in_cidrs (print_ipv4 p) (print_cidrs l) = existsb (in_network p) l.
Proof. intros Hp Hl. unfold ipv4_in_cidrs. rewrite inet_pton4_print by done. by apply cidr_loop_spec. Qed.

(** ** Bodies and responses *)

Lemma read_exactly_bound len reads : forall body, (length body <= len)%nat ->
  (length (read_exactly len body reads) <= len)%nat.
Proof.
  induction reads as [|r reads IH]; intros body Hb; cbn [read_exactly]; split_if; try done.
  destruct (empty r); [done|]. apply IH. rewrite length_app, length_take. breflect. lia.
Qed.

(** With a client that sends all it announced, the body is what it sent. *)
Lemma read_exactly_all reads : forall body, Forall (λ r, r <> []) reads ->
  read_exactly (length (body ++ concat reads)) body reads = body ++ concat reads.
Proof.
  induction reads as [|r reads IH]; intros body Hne.
  - cbn [concat read_exactly]. rewrite app_nil_r. by split_if.
  - apply Forall_cons in Hne as [Hr Hne]. cbn [concat read_exactly].
    rewrite (proj2 (Nat.ltb_lt _ _)).
    2:{ rewrite !length_app. destruct r; [done|]. simpl. lia. }
    destruct r as [|x r]; [done|]. cbn [empty].
    rewrite take_ge by (rewrite !length_app; lia).
    replace (body ++ (x :: r) ++ concat reads) with ((body ++ x :: r) ++ concat reads)
      by (by rewrite <- app_assoc).
    by apply IH.
Qed.

Lemma read_chunked_bound m reads : forall body body', zlen body <= m ->
  read_chunked m body reads = Some body' -> zlen body' <= m.
Proof.
  induction reads as [|r reads IH]; intros body body' Hb; cbn [read_chunked]; [congruence|].
  destruct (empty r); [congruence|]. split_if; [done|]. apply IH.
  unfold zlen in *. rewrite length_app. apply Z.ltb_ge in Heqb. lia.
Qed.

Definition is_head (o : WireOp) : bool :=
  match o with SetResult _ | Header _ _ | ContentLength _ => true | _ => false end.

Definition body_of (ops : list WireOp) : str :=
  concat (map (λ o, match o with WriteBody d => d | _ => [] end) ops).

(** A response: its status, once and first, headers, then only pieces of the body. *)
Definition well_framed (ops : list WireOp) : Prop :=
  exists status head tail, ops = SetResult status :: head ++ tail
    /\ Forall (λ o, is_head o = true /\ forall s, o <> SetResult s) head
    /\ Forall (λ o, is_head o = false) tail /\ tail <> [].

Lemma headers_are_headers l : Forall (λ o, is_head o = true /\ forall s, o <> SetResult s) (map (λ h : str * str, Header h.1 h.2) l).
Proof. induction l; constructor; done. Qed.

Lemma stream_writes_sent writes : stream_writes true writes = (true, map (λ w, WriteBody w.2) writes).
Proof. induction writes as [|[r d] writes IH]; [done|]. cbn. by rewrite IH. Qed.

Lemma stream_writes_shape r d writes : exists head,
  stream_writes false ((r, d) :: writes)
  = (true, SetResult (hr_status_code r) :: head ++ map (λ w, WriteBody w.2) ((r, d) :: writes))
  /\ Forall (λ o, is_head o = true /\ forall s, o <> SetResult s) head.
Proof.
  cbn [stream_writes stream_write]. rewrite stream_writes_sent. exists (tl (stream_head r)). split.
  - rewrite <- app_assoc. done.
  - unfold stream_head. cbn [app tl]. apply Forall_app. split; [apply headers_are_headers|].
    constructor; [done|]. destruct (_ || _); by repeat constructor.
Qed.

Lemma body_of_head head : Forall (λ o, is_head o = true /\ forall s, o <> SetResult s) head -> body_of head = [].
Proof. induction 1 as [|o head [Ho _] _ IH]; [done|]. unfold body_of in *. simpl. rewrite IH. by destruct o. Qed.

Lemma body_of_app a b : body_of (a ++ b) = body_of a ++ body_of b.
Proof. unfold body_of. by rewrite map_app, concat_app. Qed.

Lemma body_of_writes (writes : list (HttpResponse * str)) :
  body_of (map (λ w, WriteBody w.2) writes) = concat (map snd writes).
Proof. unfold body_of. rewrite map_map. done. Qed.

Lemma writes_are_body (writes : list (HttpResponse * str)) :
  Forall (λ o, is_head o = false) (map (λ w, WriteBody w.2) writes).
Proof. induction writes; simpl; by constructor. Qed.

Lemma plain_response_framed r : well_framed (plain_response r) /\ body_of (plain_response r) = hr_body r.
Proof.
  unfold plain_response. split.
  - eexists (hr_status_code r), (response_headers r ++ [_; _]),
      (if negb (empty (hr_body r)) then [WriteBody (hr_body r)] else [Send]).
    split; [|split; [|split]].
    + rewrite <- app_assoc. done.
    + apply Forall_app. split; [apply headers_are_headers|by repeat constructor].
    + destruct (negb _); by repeat constructor.
    + by destruct (negb _).
  - rewrite !body_of_app. rewrite (body_of_head (response_headers r)) by apply headers_are_headers.
    unfold body_of. destruct (hr_body r) eqn:E; [done|]. simpl. by rewrite app_nil_r.
Qed.

(** ** Properties *)

(** C24: The trusted networks are read as CIDR notation means them: a peer is trusted
    exactly when its first bits are those of one of the networks, for every list of
    networks and every address. *)
Theorem trusted_networks_exact (peer : Z) (networks : list (Z * Z))
  (Hpeer : 0 <= peer < 2 ^ 32) (Hnetworks : Forall network_ok networks) :
  ipv4_in_cidrs (print_ipv4 peer) (print_cidrs networks) = existsb (in_network peer) networks.
Proof. by apply ipv4_in_cidrs_print. Qed.

(** The headers that name another client are believed of a trusted proxy only: a
    peer outside the configured networks is the client, whatever it sends. *)
Theorem forwarded_address_only_from_proxies config req (peer : Z) (networks : list (Z * Z))
  (Hpeer : rq_peer req = Some (V4 peer)) (Hrange : 0 <= peer < 2 ^ 32)
  (Hnetworks : Forall network_ok networks) (Hconfig : trusted_proxy_cidrs config = print_cidrs networks)
  (Houtside : existsb (in_network peer) networks = false) :
  client_ip config req = print_ipv4 peer.
Proof.
  unfold client_ip, peer_ip. rewrite Hpeer, Hconfig, ipv4_in_cidrs_print by done. by rewrite Houtside.
Qed.


(** A WebSocket is opened only on a realtime route, with a safe query string and
    with an [Authorization] or [X-Api-Key] header that holds something. *)
Theorem bridged_request_checked config router req ws_req
  (Hbridged : http_handler config router req = Bridged ws_req) :
  (exists matched, match_capability "GET" (hq_path ws_req) = Some matched /\ realtime (spec matched) = true)
  /\ is_safe_query_string (hq_query ws_req) = true
  /\ (hq_x_api_key ws_req <> [] \/ exists key, key <> [] /\ hq_authorization ws_req = "Bearer " ++ key).
Proof.
  unfold http_handler in Hbridged. destruct (is_websocket_upgrade _ _).
  2:{ destruct (read_request_body config req); [done|]. by repeat case_match. }
  unfold upgrade in Hbridged.
  destruct (match_capability "GET" (target_path (rq_target req))) as [matched|] eqn:Em; [|done].
  destruct (realtime (spec matched)) eqn:Er; [|done]. cbn [negb] in Hbridged.
  destruct (negb _ && empty _) eqn:Ea; [done|].
  destruct (is_safe_query_string _) eqn:Eq; [|done]. cbn [negb] in Hbridged.
  destruct (rq_accepts_websocket req); [|done]. injection Hbridged as <-.
  cbn [hq_path hq_query hq_x_api_key hq_authorization websocket_request].
  split; [by exists matched|]. split.
  - destruct (length _ <? length _)%nat eqn:El in Eq; [done|]. apply Nat.ltb_ge in El.
    by rewrite drop_ge.
  - apply andb_false_iff in Ea as [Ea|Ea].
    + right. apply negb_false_iff, andb_true_iff in Ea as [Hb Hl%Nat.ltb_lt].
      apply starts_with_spec in Hb as [key Hk]. exists key. split; [|done]. intros ->.
      rewrite Hk in Hl. simpl in Hl. lia.
    + left. by destruct (rq_header req "X-Api-Key").
Qed.

(** A network whose prefix length is missing or is no number is read with the
    length 0: every peer is then trusted. *)
Theorem unreadable_prefix_trusts_everyone (peer network : Z) (text : str)
  (Hpeer : 0 <= peer < 2 ^ 32) (Hnetwork : 0 <= network < 2 ^ 32)
  (Htext : Forall (λ c, is_lower c = true) text) :
  ipv4_in_cidrs (print_ipv4 peer) (print_ipv4 network ++ "/" ++ text) = true.
Proof.
  pose proof (print_ipv4_chars network) as Hc. set (e := print_ipv4 network ++ "/" ++ text).
  assert (forall c, is_lower c = false -> address_char c = false -> c <> "/"%char -> c ∉ e) as Hnot.
  { intros c Hl Ha Hs. unfold e. rewrite !not_elem_of_app. repeat split.
    - by eapply not_address.
    - by intros Hin%list_elem_of_singleton.
    - by eapply (not_address c is_lower). }
  assert (exists c s, e = c :: s) as (c0 & s0 & Ee).
  { destruct e as [|c s] eqn:E; [|by eexists _, _]. unfold e in E. apply app_eq_nil in E as [_ E]. done. }
  unfold ipv4_in_cidrs. rewrite inet_pton4_print by done. rewrite Ee. simpl length.
  unfold cidr_loop. fold cidr_loop. rewrite <- Ee.
  assert (sfind "," e = None) as -> by (apply sfind_char_None; by apply Hnot). cbn [from_option id].
  rewrite firstn_all. assert (cidr_matches peer e = true) as ->; [|done].
  assert (Forall (λ c, (c =? " ")%char = false) e) as Hs.
  { apply Forall_forall. intros c Hin. destruct (Ascii.eqb_spec c " "); [|done]. subst. by apply Hnot in Hin. }
  unfold cidr_matches, trim_spaces. rewrite drop_while_none, drop_while_back_none by done.
  assert (sfind "/" e = Some (length (print_ipv4 network))) as ->.
  { apply sfind_char_first. by eapply not_address. }
  cbn [upto]. unfold e. rewrite take_app_length, inet_pton4_print by done.
  replace (drop _ _) with text by (rewrite <- Nat.add_1_r, <- drop_drop, drop_app_length; done).
  replace (atoi text) with 0; [by rewrite !Z.land_0_r|].
  destruct text as [|c text]; [done|]. apply Forall_cons in Htext as [Hlow _].
  revert Hlow. clear. unfold atoi, strtol. intros Hl.
  assert ((c =? NUL)%char = false /\ is_space c = false /\ (c =? "-")%char = false /\ (c =? "+")%char = false
    /\ is_digit c = false) as (H1 & H2 & H3 & H4 & H5).
  { generalize (forall_chars (λ c, implb (is_lower c) (negb (c =? NUL)%char && negb (is_space c)
      && negb (c =? "-")%char && negb (c =? "+")%char && negb (is_digit c))) eq_refl c). rewrite Hl. simpl.
    rewrite !andb_true_iff, !negb_true_iff. tauto. }
  simpl. rewrite H1. simpl. rewrite H2. simpl. rewrite H3, H4. simpl. by rewrite H5.
Qed.

(** *** Witnesses *)

Definition sample_config : HttpServerConfig :=
  mkHttpServerConfig 1024 (print_cidrs [(0x0A000000, 8); (0xC0A80000, 16)]) 300000.

Definition sample_headers (content_length upgrade : str) (name : str) : str :=
  if name =$ "Content-Length" then content_length
  else if name =$ "Upgrade" then upgrade
  else if name =$ "Connection" then (if empty upgrade then [] else "Upgrade")
  else if name =$ "Authorization" then "Bearer k"
  else if name =$ "X-Forwarded-For" then "1.2.3.4, 10.0.0.9"
  else [].

Definition sample_request (target content_length upgrade : str) (peer : Z) : PhotonRequest :=
  mkPhotonRequest VPost target (sample_headers content_length upgrade) [] (Some (V4 peer)) [lit "{"; lit "}"] true.

Definition sample_router (req : HttpRequest) : list (HttpResponse * str) * HttpResponse :=
  ([], mkHttpResponse 200 (hq_client_ip req) "text/plain" [] false).

Lemma trusted_networks_exact_witness :
  ipv4_in_cidrs (print_ipv4 0xC0A80102) (print_cidrs [(0x0A000000, 8); (0xC0A80000, 16)]) = true.
Proof. rewrite trusted_networks_exact; [done|done|]. by repeat constructor. Defined.

Lemma forwarded_address_only_from_proxies_witness :
  client_ip sample_config (sample_request "/v1/messages" "2" [] 0x08080808) = "8.8.8.8".
Proof.
  rewrite (forwarded_address_only_from_proxies sample_config (sample_request "/v1/messages" "2" [] 0x08080808)
    0x08080808 [(0x0A000000, 8); (0xC0A80000, 16)]); [done|done|done| |done|done].
  by repeat constructor.
Defined.


Lemma bridged_request_checked_witness :
  exists ws_req, http_handler sample_config sample_router (sample_request "/v1/responses?model=m" [] "websocket" 0x08080808)
    = Bridged ws_req /\ is_safe_query_string (hq_query ws_req) = true.
Proof.
  destruct (http_handler sample_config sample_router (sample_request "/v1/responses?model=m" [] "websocket" 0x08080808))
    as [|w|] eqn:E; [vm_compute in E; discriminate| |vm_compute in E; discriminate].
  exists w. split; [done|]. apply (bridged_request_checked _ _ _ _ E).
Defined.

Lemma unreadable_prefix_trusts_everyone_witness :
  ipv4_in_cidrs (print_ipv4 0x08080808) (print_ipv4 0x0A000000 ++ "/" ++ "eight") = true.
Proof. apply unreadable_prefix_trusts_everyone; [done|done|]. by repeat constructor. Defined.
