(* ===== verification/RealtimeSession.v ===== *)
(** * A realtime session

    The two threads of [GatewayHandler::bridge_realtime] that copy frames between the
    client and the provider, and the atomics they share, as a step relation: every
    read or write of a shared variable and every call that blocks is a step, and the
    steps of the two threads interleave in any order.  What the sockets yield is the
    [Input] of a step. *)
From S2P Require Import Prelude Json.
#[local] Open Scope Z_scope.

(** ** Frames *)

Inductive Opcode := OpContinuation | OpText | OpBinary | OpClose | OpPing | OpPong.

#[global] Instance Opcode_eq_dec : EqDecision Opcode.
Proof. solve_decision. Defined.

(** [recv_frame]: a failure or a timeout ([n < 0]), or a frame of [n] bytes. *)
Inductive Recv :=
| RecvError
| RecvFrame (opcode : Opcode) (data : str).

Record Frame := mkFrame { f_opcode : Opcode; f_data : str }.

Definition size (f : Frame) : Z := Z.of_nat (length (f_data f)).

(** A receive buffer holds 1 MiB. *)
Definition kMaxFrame : Z := 1024 * 1024.

(** ** Usage *)

Record Tokens := mkTokens { t_input : Z; t_output : Z; t_cache : Z; t_reasoning : Z }.

Definition zero_tokens : Tokens := mkTokens 0 0 0 0.

(** The first of the keys that holds an [int] or an [unsigned]. *)
Fixpoint read_tokens (usage : json) (keys : list str) : Z :=
  match keys with
  | [] => 0
  | key :: keys' =>
      match member usage key with
      | None => read_tokens usage keys'
      | Some value =>
          if IsInt value then Z.max 0 (get_int value)
          else if IsUint value then i32 (get_int value)
          else read_tokens usage keys'
      end
  end.

Definition frame_usage {RJ : RapidJson} (frame : str) : option json :=
  match Parse frame with
  | Some document =>
      if negb (IsObject document) then None
      else if has document "usage" IsObject then member document "usage"
      else match member document "response" with
           | Some response =>
               if IsObject response && has response "usage" IsObject then member response "usage" else None
           | None => None
           end
  | None => None
  end.

Definition accumulate_realtime_usage {RJ : RapidJson} (frame : str) (t : Tokens) : Tokens :=
  match frame_usage frame with
  | None => t
  | Some usage =>
      mkTokens
        (Z.max (t_input t) (read_tokens usage ["input_tokens" : str; "prompt_tokens" : str]))
        (Z.max (t_output t) (read_tokens usage ["output_tokens" : str; "completion_tokens" : str]))
        (Z.max (t_cache t) (read_tokens usage ["cache_read_input_tokens" : str; "cached_tokens" : str]))
        (Z.max (t_reasoning t) (read_tokens usage ["reasoning_tokens" : str]))
  end.

(** ** The shared state and the two program counters *)

Inductive UpPc :=
| UTop
| URecv
| UCount (f : Frame)
| UCaps (f : Frame)
| UCheck (f : Frame)
| USend (f : Frame)
| UEvidence
| UStop
| UEnd.

Inductive ClPc :=
| CTop
| CRecv
| CCount (f : Frame)
| CCaps (f : Frame)
| CCheck (f : Frame)
| CSend (f : Frame)
| CStop
| CJoin
| CEnd.

(** [s_to_client] and [s_to_upstream] are the frames handed to the sends of each side. *)
Record Session := mkSession {
  s_done : bool;
  s_client_disconnected : bool;
  s_frames : Z;
  s_bytes : Z;
  s_tokens : Tokens;
  s_output_evidence_recorded : bool;
  s_cap_exceeded : bool;
  s_up : UpPc;
  s_cl : ClPc;
  s_to_client : list Frame;
  s_to_upstream : list Frame;
}.

Definition set_s_done (v : bool) (r : Session) : Session :=
  mkSession v (s_client_disconnected r) (s_frames r) (s_bytes r) (s_tokens r)
    (s_output_evidence_recorded r) (s_cap_exceeded r) (s_up r) (s_cl r) (s_to_client r)
    (s_to_upstream r).
Definition set_s_client_disconnected (v : bool) (r : Session) : Session :=
  mkSession (s_done r) v (s_frames r) (s_bytes r) (s_tokens r) (s_output_evidence_recorded r)
    (s_cap_exceeded r) (s_up r) (s_cl r) (s_to_client r) (s_to_upstream r).
Definition set_s_frames (v : Z) (r : Session) : Session :=
  mkSession (s_done r) (s_client_disconnected r) v (s_bytes r) (s_tokens r)
    (s_output_evidence_recorded r) (s_cap_exceeded r) (s_up r) (s_cl r) (s_to_client r)
    (s_to_upstream r).
Definition set_s_bytes (v : Z) (r : Session) : Session :=
  mkSession (s_done r) (s_client_disconnected r) (s_frames r) v (s_tokens r)
    (s_output_evidence_recorded r) (s_cap_exceeded r) (s_up r) (s_cl r) (s_to_client r)
    (s_to_upstream r).
Definition set_s_tokens (v : Tokens) (r : Session) : Session :=
  mkSession (s_done r) (s_client_disconnected r) (s_frames r) (s_bytes r) v
    (s_output_evidence_recorded r) (s_cap_exceeded r) (s_up r) (s_cl r) (s_to_client r)
    (s_to_upstream r).
Definition set_s_output_evidence_recorded (v : bool) (r : Session) : Session :=
  mkSession (s_done r) (s_client_disconnected r) (s_frames r) (s_bytes r) (s_tokens r) v
    (s_cap_exceeded r) (s_up r) (s_cl r) (s_to_client r) (s_to_upstream r).
Definition set_s_cap_exceeded (v : bool) (r : Session) : Session :=
  mkSession (s_done r) (s_client_disconnected r) (s_frames r) (s_bytes r) (s_tokens r)
    (s_output_evidence_recorded r) v (s_up r) (s_cl r) (s_to_client r) (s_to_upstream r).
Definition set_s_up (v : UpPc) (r : Session) : Session :=
  mkSession (s_done r) (s_client_disconnected r) (s_frames r) (s_bytes r) (s_tokens r)
    (s_output_evidence_recorded r) (s_cap_exceeded r) v (s_cl r) (s_to_client r)
    (s_to_upstream r).
Definition set_s_cl (v : ClPc) (r : Session) : Session :=
  mkSession (s_done r) (s_client_disconnected r) (s_frames r) (s_bytes r) (s_tokens r)
    (s_output_evidence_recorded r) (s_cap_exceeded r) (s_up r) v (s_to_client r)
    (s_to_upstream r).
Definition set_s_to_client (v : list Frame) (r : Session) : Session :=
  mkSession (s_done r) (s_client_disconnected r) (s_frames r) (s_bytes r) (s_tokens r)
    (s_output_evidence_recorded r) (s_cap_exceeded r) (s_up r) (s_cl r) v (s_to_upstream r).
Definition set_s_to_upstream (v : list Frame) (r : Session) : Session :=
  mkSession (s_done r) (s_client_disconnected r) (s_frames r) (s_bytes r) (s_tokens r)
    (s_output_evidence_recorded r) (s_cap_exceeded r) (s_up r) (s_cl r) (s_to_client r) v.

(** The session after the handshake and the client's first frame. *)
Definition start_session (first_size : Z) : Session :=
  mkSession false false 1 first_size zero_tokens false false UTop CTop [] [].

(** ** Steps *)

(** The three limits of a session, from the environment of the process. *)
Record Caps := mkCaps { kMaxSessionBytes : Z; kMaxSessionFrames : Z; kMaxSessionDurationSec : Z }.

(** What a step finds: a received frame, the result of a send, the milliseconds
    since the session began. *)
Record Input := mkInput { in_recv : Recv; in_sent : Z; in_elapsed : Z }.

Definition fits (i : Input) : Prop :=
  match in_recv i with RecvFrame _ data => Z.of_nat (length data) <= kMaxFrame | RecvError => True end.

Definition is_data (o : Opcode) : bool := match o with OpText | OpBinary => true | _ => false end.
Definition is_text (o : Opcode) : bool := match o with OpText => true | _ => false end.
Definition is_close (o : Opcode) : bool := match o with OpClose => true | _ => false end.

Definition check_session_caps (caps : Caps) (new_bytes elapsed : Z) (s : Session) : Session :=
  let bytes := i64 (s_bytes s + new_bytes) in
  let s := set_s_bytes bytes s in
  if (kMaxSessionBytes caps <? bytes) || (kMaxSessionFrames caps <? s_frames s)
     || (kMaxSessionDurationSec caps * 1000 <? elapsed)
  then set_s_done true (set_s_cap_exceeded true s) else s.

(** The thread that reads the provider. *)
Definition up_step {RJ : RapidJson} (caps : Caps) (i : Input) (s : Session) : option Session :=
  match s_up s with
  | UTop => Some (set_s_up (if s_done s then UStop else URecv) s)
  | URecv =>
      Some (set_s_up
        (match in_recv i with
         | RecvError => UStop
         | RecvFrame opcode data =>
             if empty data || is_close opcode then UStop else UCount (mkFrame opcode data)
         end) s)
  | UCount f => Some (set_s_up (UCaps f) (set_s_frames (i32 (s_frames s + 1)) s))
  | UCaps f => Some (set_s_up (UCheck f) (check_session_caps caps (size f) (in_elapsed i) s))
  | UCheck f => Some (set_s_up (if s_done s then UStop else USend f) s)
  | USend f =>
      let s := if is_text (f_opcode f)
               then set_s_tokens (accumulate_realtime_usage (f_data f) (s_tokens s)) s else s in
      let sent := if is_data (f_opcode f) then in_sent i else -1 in
      let s := if is_data (f_opcode f) then set_s_to_client (s_to_client s ++ [f]) s else s in
      if (0 <? sent) && negb (s_output_evidence_recorded s)
      then Some (set_s_up UEvidence (set_s_output_evidence_recorded true s))
      else Some (set_s_up UTop s)
  | UEvidence => Some (set_s_up UTop s)
  | UStop => Some (set_s_up UEnd (set_s_done true s))
  | UEnd => None
  end.

(** The thread that reads the client; it joins the other one at its end. *)
Definition cl_step (caps : Caps) (i : Input) (s : Session) : option Session :=
  match s_cl s with
  | CTop => Some (set_s_cl (if s_done s then CStop else CRecv) s)
  | CRecv =>
      match in_recv i with
      | RecvError => Some (set_s_cl CStop (set_s_client_disconnected true s))
      | RecvFrame opcode data =>
          if is_close opcode then Some (set_s_cl CStop (set_s_client_disconnected true s))
          else if empty data then Some (set_s_cl CStop s)
          else Some (set_s_cl (CCount (mkFrame opcode data)) s)
      end
  | CCount f => Some (set_s_cl (CCaps f) (set_s_frames (i32 (s_frames s + 1)) s))
  | CCaps f => Some (set_s_cl (CCheck f) (check_session_caps caps (size f) (in_elapsed i) s))
  | CCheck f => Some (set_s_cl (if s_done s then CStop else CSend f) s)
  | CSend f =>
      let s := if is_data (f_opcode f) then set_s_to_upstream (s_to_upstream s ++ [f]) s else s in
      Some (set_s_cl CTop s)
  | CStop => Some (set_s_cl CJoin (set_s_done true s))
  | CJoin => match s_up s with UEnd => Some (set_s_cl CEnd s) | _ => None end
  | CEnd => None
  end.

(** Which thread runs. *)
Inductive Thread := Up | Cl.

Definition session_step {RJ : RapidJson} (caps : Caps) (t : Thread) (i : Input) (s : Session) : option Session :=
  match t with Up => up_step caps i s | Cl => cl_step caps i s end.

Section Reachable.
Context {RJ : RapidJson} (caps : Caps).

Inductive reachable (s0 : Session) : Session -> Prop :=
| reach_start : reachable s0 s0
| reach_step s s' t i : reachable s0 s -> fits i -> session_step caps t i s = Some s' -> reachable s0 s'.
End Reachable.

(** ** The limits hold for what is forwarded *)

Definition weigh (w : Frame -> Z) (l : list Frame) : Z := foldr (λ f n, w f + n) 0 l.

Lemma weigh_snoc w l f : weigh w (l ++ [f]) = weigh w l + w f.
Proof. induction l as [|g l IH]; simpl; [lia|]. rewrite IH. lia. Qed.

(** A frame a thread holds and will send: past its check, or at its check while the
    session goes on. *)
Definition held_up (w : Frame -> Z) (s : Session) : Z :=
  match s_up s with USend f => w f | UCheck f => if s_done s then 0 else w f | _ => 0 end.
Definition held_cl (w : Frame -> Z) (s : Session) : Z :=
  match s_cl s with CSend f => w f | CCheck f => if s_done s then 0 else w f | _ => 0 end.

(** What was or will be forwarded, weighed. *)
Definition passed (w : Frame -> Z) (s : Session) : Z :=
  weigh w (s_to_client s) + weigh w (s_to_upstream s) + held_up w s + held_cl w s.

Definition one (_ : Frame) : Z := 1.

(** The frames counted but not yet held against the limits. *)
Definition counting (s : Session) : Z :=
  match s_up s with UCaps _ => 1 | _ => 0 end + match s_cl s with CCaps _ => 1 | _ => 0 end.

Definition frame_fits (f : Frame) : Prop := size f <= kMaxFrame.
Definition pcs_fit (s : Session) : Prop :=
  match s_up s with UCount f | UCaps f => frame_fits f | _ => True end
  /\ match s_cl s with CCount f | CCaps f => frame_fits f | _ => True end.

Lemma i64_small z : - 2 ^ 63 <= z < 2 ^ 63 -> i64 z = z.
Proof. intros H. unfold i64. rewrite Z.mod_small; lia. Qed.

Lemma frame_size_nonneg f : 0 <= size f.
Proof. unfold size. lia. Qed.

Section Limits.
Context {RJ : RapidJson} (caps : Caps) (first : Z).
Hypothesis Hbytes : kMaxSessionBytes caps < 2 ^ 62.
Hypothesis Hframes : kMaxSessionFrames caps < 2 ^ 30.
Hypothesis Hfirst : 0 <= first.

Definition within (s : Session) : Prop :=
  pcs_fit s
  /\ first + passed size s <= kMaxSessionBytes caps
  /\ 1 + passed one s <= kMaxSessionFrames caps
  /\ (s_done s = false ->
      0 <= s_bytes s /\ first + passed size s <= s_bytes s <= kMaxSessionBytes caps
      /\ 1 + passed one s + counting s <= s_frames s <= kMaxSessionFrames caps + counting s
      /\ 0 <= s_frames s).

Lemma within_start : first <= kMaxSessionBytes caps -> 1 <= kMaxSessionFrames caps ->
  within (start_session first).
Proof. intros H1 H2. unfold within, passed, counting, pcs_fit, held_up, held_cl. simpl. split; [done|]. lia. Qed.

#[local] Ltac limits :=
  try match goal with d : bool |- context [mkSession ?d _ _ _ _ _ _ _ _ _ _] => is_var d; destruct d end;
  unfold within, passed, counting, pcs_fit, held_up, held_cl in *; cbn -[weigh] in *;
  repeat match goal with
  | H : _ /\ _ |- _ => destruct H
  | |- context [match ?x with _ => _ end] => is_var x; destruct x
  | H : context [match ?x with _ => _ end] |- _ => is_var x; destruct x
  end;
  repeat match goal with
  | f : Frame |- _ =>
      lazymatch goal with H : 0 <= size f |- _ => fail | _ => pose proof (frame_size_nonneg f) end
  end;
  unfold frame_fits, one in *; cbn -[weigh] in *;
  repeat match goal with
  | H : ?a = ?a -> _ |- _ => specialize (H eq_refl)
  | H : true = false -> _ |- _ => clear H
  | H : _ /\ _ |- _ => destruct H
  | |- _ /\ _ => split
  | |- true = false -> _ => intros [=]
  | |- _ -> _ => intros _
  end; rewrite ?weigh_snoc; try done; try lia.

(** The check of the limits by either thread, for a frame that is then held. *)
Lemma check_caps_cases new elapsed s : 0 <= s_bytes s <= kMaxSessionBytes caps -> 0 <= new <= kMaxFrame ->
  check_session_caps caps new elapsed s = set_s_bytes (s_bytes s + new) s
    /\ s_bytes s + new <= kMaxSessionBytes caps /\ s_frames s <= kMaxSessionFrames caps
  \/ exists b, check_session_caps caps new elapsed s
        = set_s_done true (set_s_cap_exceeded true (set_s_bytes b s)).
Proof.
  intros Hb Hn. unfold check_session_caps. rewrite i64_small by (unfold kMaxFrame in *; lia).
  destruct (_ || _) eqn:E; [right; by eexists|left]. split; [done|]. simpl in E.
  apply orb_false_iff in E as [[E1 E2]%orb_false_iff _]. apply Z.ltb_ge in E1, E2. auto.
Qed.

Lemma check_caps_done new elapsed s : s_done s = true ->
  exists b c, check_session_caps caps new elapsed s = set_s_cap_exceeded c (set_s_bytes b s).
Proof.
  intros Hd. unfold check_session_caps. exists (i64 (s_bytes s + new)).
  destruct (_ || _); [exists true|exists (s_cap_exceeded s)]; destruct s; simpl in *; by subst.
Qed.

Lemma within_up i s s' : fits i -> within s -> up_step caps i s = Some s' -> within s'.
Proof.
  intros Hi Hw H. unfold up_step in H. destruct s as [done dis fr by_ tok ev cap up cl tc tu]. simpl in H.
  destruct up as [| |f|f|f|f| | |]; try injection H as <-.
  - limits.
  - unfold fits in Hi. destruct (in_recv i) as [|op data]; [limits|].
    destruct (empty data || is_close op); limits.
  - destruct done; [limits|]. rewrite i32_small; limits.
  - destruct done.
    + match goal with |- context [check_session_caps caps ?n ?e ?s] =>
        destruct (check_caps_done n e s eq_refl) as (b & c & ->) end. limits.
    + match goal with |- context [check_session_caps caps ?n ?e ?s] =>
        destruct (check_caps_cases n e s) as [(-> & ? & ?)|[b ->]]; [limits|limits|limits|limits] end.
  - limits.
  - destruct (is_text (f_opcode f)), (is_data (f_opcode f)); simpl in H; destruct (0 <? in_sent i), ev; simpl in H;
      injection H as <-; limits.
  - limits.
  - limits.
  - done.
Qed.

Lemma within_cl i s s' : fits i -> within s -> cl_step caps i s = Some s' -> within s'.
Proof.
  intros Hi Hw H. unfold cl_step in H. destruct s as [done dis fr by_ tok ev cap up cl tc tu]. simpl in H.
  destruct cl as [| |f|f|f|f| | |]; try injection H as <-.
  - limits.
  - unfold fits in Hi. destruct (in_recv i) as [|op data]; [injection H as <-; limits|].
    destruct (is_close op); [injection H as <-; limits|].
    destruct (empty data); injection H as <-; limits.
  - destruct done; [limits|]. rewrite i32_small; limits.
  - destruct done.
    + match goal with |- context [check_session_caps caps ?n ?e ?s] =>
        destruct (check_caps_done n e s eq_refl) as (b & c & ->) end. limits.
    + match goal with |- context [check_session_caps caps ?n ?e ?s] =>
        destruct (check_caps_cases n e s) as [(-> & ? & ?)|[b ->]]; [limits|limits|limits|limits] end.
  - limits.
  - destruct (is_data (f_opcode f)); limits.
  - limits.
  - destruct up; try done. injection H as <-. limits.
  - done.
Qed.

Lemma within_reachable s0 s : reachable caps s0 s -> within s0 -> within s.
Proof.
  intros Hr H0. induction Hr as [|s s' t i _ IH Hi Hs]; [done|].
  destruct t; [by eapply within_up|by eapply within_cl].
Qed.
End Limits.

(** ** Usage *)

Section Usage.
Context {RJ : RapidJson} (caps : Caps).

(** The tokens a frame reports for the keys, as [int]s that are not negative. *)
Definition reported (keys : list str) (f : Frame) : Z :=
  if is_text (f_opcode f) then
    match frame_usage (f_data f) with Some usage => read_tokens usage keys | None => 0 end
  else 0.

Definition largest (w : Frame -> Z) (l : list Frame) : Z := foldr (λ f n, Z.max (w f) n) 0 l.

Lemma largest_snoc w l f : largest w (l ++ [f]) = Z.max (largest w l) (Z.max (w f) 0).
Proof. induction l as [|g l IH]; simpl; [lia|]. rewrite IH. lia. Qed.

Lemma largest_nonneg w l : 0 <= largest w l.
Proof. induction l; simpl; lia. Qed.

Definition largest_tokens (l : list Frame) : Tokens :=
  mkTokens (largest (reported ["input_tokens" : str; "prompt_tokens" : str]) l)
    (largest (reported ["output_tokens" : str; "completion_tokens" : str]) l)
    (largest (reported ["cache_read_input_tokens" : str; "cached_tokens" : str]) l)
    (largest (reported ["reasoning_tokens" : str]) l).

Lemma largest_tokens_text l f : is_text (f_opcode f) = true ->
  largest_tokens (l ++ [f]) = accumulate_realtime_usage (f_data f) (largest_tokens l).
Proof.
  intros Hf. unfold largest_tokens, accumulate_realtime_usage. rewrite !largest_snoc. unfold reported at 2 4 6 8.
  rewrite Hf. destruct (frame_usage (f_data f)) as [usage|]; cbn [t_input t_output t_cache t_reasoning].
  - f_equal; pose proof (largest_nonneg); match goal with |- Z.max ?a _ = _ => assert (0 <= a) by apply largest_nonneg end; lia.
  - f_equal; match goal with |- Z.max ?a _ = _ => assert (0 <= a) by apply largest_nonneg end; lia.
Qed.

Lemma largest_tokens_other l f : is_text (f_opcode f) = false -> largest_tokens (l ++ [f]) = largest_tokens l.
Proof.
  intros Hf. unfold largest_tokens. rewrite !largest_snoc. unfold reported at 2 4 6 8. rewrite Hf.
  f_equal; match goal with |- Z.max ?a _ = _ => assert (0 <= a) by apply largest_nonneg end; lia.
Qed.

Lemma is_text_data o : is_text o = true -> is_data o = true.
Proof. by destruct o. Qed.

Lemma check_caps_keeps new elapsed s :
  s_tokens (check_session_caps caps new elapsed s) = s_tokens s
  /\ s_to_client (check_session_caps caps new elapsed s) = s_to_client s
  /\ s_up (check_session_caps caps new elapsed s) = s_up s
  /\ s_cl (check_session_caps caps new elapsed s) = s_cl s
  /\ (s_done s = true -> s_done (check_session_caps caps new elapsed s) = true).
Proof. unfold check_session_caps. by destruct (_ || _). Qed.

Definition metered (s : Session) : Prop := s_tokens s = largest_tokens (s_to_client s).

Lemma metered_step t i s s' : metered s -> session_step caps t i s = Some s' -> metered s'.
Proof.
  unfold metered. intros Hm H. destruct t; simpl in H.
  - unfold up_step in H. destruct (s_up s) as [| |f|f|f|f| | |] eqn:Eu; try (injection H as <-; exact Hm); [| |done].
    + injection H as <-. cbn. destruct (check_caps_keeps (size f) (in_elapsed i) s) as (-> & -> & _). done.
    + destruct (is_text (f_opcode f)) eqn:Et.
      * rewrite (is_text_data _ Et) in H. destruct (_ && _); injection H as <-; cbn; by rewrite largest_tokens_text, Hm.
      * destruct (is_data (f_opcode f)); destruct (_ && _); injection H as <-; cbn; try done;
          by rewrite largest_tokens_other.
  - unfold cl_step in H. destruct (s_cl s) as [| |f|f|f|f| | |] eqn:Ec; try (injection H as <-; exact Hm).
    + by repeat case_match; injection H as <-.
    + injection H as <-. cbn. destruct (check_caps_keeps (size f) (in_elapsed i) s) as (-> & -> & _). done.
    + injection H as <-. cbn. by destruct (is_data (f_opcode f)).
    + destruct (s_up s); try done. by injection H as <-.
    + done.
Qed.

(** ** Shutdown *)

(** Steps left to each thread once the session is over. *)
Definition up_rank (p : UpPc) : nat :=
  match p with
  | UEnd => 0 | UStop => 1 | UTop => 2 | UCheck _ => 2 | UEvidence => 3 | UCaps _ => 3 | USend _ => 4
  | UCount _ => 4 | URecv => 5
  end.
Definition cl_rank (p : ClPc) : nat :=
  match p with
  | CEnd => 0 | CJoin => 1 | CStop => 2 | CTop => 3 | CCheck _ => 3 | CCaps _ => 4 | CSend _ => 4
  | CCount _ => 5 | CRecv => 6
  end.
Definition rank (s : Session) : nat := (up_rank (s_up s) + cl_rank (s_cl s))%nat.

Lemma shutdown_step t i s s' : s_done s = true -> session_step caps t i s = Some s' ->
  s_done s' = true /\ (rank s' < rank s)%nat.
Proof.
  intros Hd H. unfold rank. destruct t; simpl in H.
  - unfold up_step in H. destruct (s_up s) as [| |f|f|f|f| | |] eqn:Eu; try done.
    + rewrite Hd in H. injection H as <-. cbn. split; [done|lia].
    + injection H as <-. cbn. split; [done|]. repeat case_match; simpl; lia.
    + injection H as <-. cbn. split; [done|lia].
    + injection H as <-. cbn. destruct (check_caps_keeps (size f) (in_elapsed i) s) as (_ & _ & _ & -> & Hk).
      split; [by apply Hk|lia].
    + rewrite Hd in H. injection H as <-. cbn. split; [done|lia].
    + destruct (is_text _), (is_data _); simpl in H; destruct (0 <? in_sent i), (s_output_evidence_recorded s);
        simpl in H; injection H as <-; cbn; (split; [done|lia]).
    + injection H as <-. cbn. split; [done|lia].
    + injection H as <-. cbn. split; [done|lia].
  - unfold cl_step in H. destruct (s_cl s) as [| |f|f|f|f| | |] eqn:Ec; try done.
    + rewrite Hd in H. injection H as <-. cbn. split; [done|lia].
    + repeat case_match; injection H as <-; cbn; (split; [done|lia]).
    + injection H as <-. cbn. split; [done|lia].
    + injection H as <-. cbn. destruct (check_caps_keeps (size f) (in_elapsed i) s) as (_ & _ & -> & _ & Hk).
      split; [by apply Hk|lia].
    + rewrite Hd in H. injection H as <-. cbn. split; [done|lia].
    + injection H as <-. destruct (is_data _); cbn; (split; [done|lia]).
    + injection H as <-. cbn. split; [done|lia].
    + destruct (s_up s) eqn:Eu; try done. injection H as <-. cbn. rewrite Eu. split; [done|simpl; lia].
Qed.

Lemma session_live s : (forall t i, session_step caps t i s = None) -> s_up s = UEnd /\ s_cl s = CEnd.
Proof.
  intros H. pose proof (H Up (mkInput RecvError 0 0)) as Hu. pose proof (H Cl (mkInput RecvError 0 0)) as Hc.
  cbn in Hu, Hc. unfold up_step in Hu. unfold cl_step in Hc.
  destruct (s_up s) as [| |f|f|f|f| | |]; try done.
  - by destruct (_ && _).
  - by destruct (s_cl s).
Qed.

(** A schedule: which thread runs next and what it finds. *)
Fixpoint run_session (schedule : list (Thread * Input)) (s : Session) : option Session :=
  match schedule with
  | [] => Some s
  | (t, i) :: schedule' => s' ← session_step caps t i s; run_session schedule' s'
  end.

Lemma run_session_reachable schedule s s' : Forall (λ p, fits p.2) schedule ->
  run_session schedule s = Some s' -> reachable caps s s'.
Proof.
  intros Hf. assert (forall s0, reachable caps s0 s -> run_session schedule s = Some s' -> reachable caps s0 s') as H.
  { revert s. induction Hf as [|[t i] l Hi Hl IH]; intros s s0 Hr E; simpl in E; [by injection E as <-|].
    destruct (session_step caps t i s) as [s1|] eqn:Es; [|done].
    eapply IH; [|exact E]. by econstructor. }
  apply H. constructor.
Qed.

Lemma shutdown_run schedule : forall s s', s_done s = true -> run_session schedule s = Some s' ->
  s_done s' = true /\ (length schedule + rank s' <= rank s)%nat.
Proof.
  induction schedule as [|[t i] l IH]; intros s s' Hd E; simpl in E; [injection E as <-; simpl; split; [done|lia]|].
  destruct (session_step caps t i s) as [s1|] eqn:Es; [|done].
  destruct (shutdown_step _ _ _ _ Hd Es) as [Hd1 Hr1]. destruct (IH s1 s' Hd1 E) as [Hd2 Hr2].
  split; [done|]. simpl. lia.
Qed.
End Usage.

(** ** Properties *)

(** C18: However the two threads interleave and whatever the peers send, the frames
    forwarded, the client's first one included, never exceed the limits of the
    session, neither in number nor in bytes: a limit that one thread reaches also
    stops the other one, and what is over it is not forwarded. *)
Theorem session_within_limits {RJ : RapidJson} (caps : Caps) (first : Z) (s : Session)
  (Hbytes : kMaxSessionBytes caps < 2 ^ 62) (Hframes : kMaxSessionFrames caps < 2 ^ 30)
  (Hfirst : 0 <= first <= kMaxSessionBytes caps) (Hone : 1 <= kMaxSessionFrames caps)
  (Hreach : reachable caps (start_session first) s) :
  first + weigh size (s_to_client s) + weigh size (s_to_upstream s) <= kMaxSessionBytes caps
  /\ 1 + Z.of_nat (length (s_to_client s)) + Z.of_nat (length (s_to_upstream s)) <= kMaxSessionFrames caps.
Proof.
  destruct (within_reachable caps first Hbytes Hframes _ _ Hreach) as (_ & Hb & Hf & _).
  { apply within_start; lia. }
  assert (forall l, weigh one l = Z.of_nat (length l)) as Hone'.
  { induction l; [done|]. simpl length. rewrite Nat2Z.inj_succ, <- IHl. simpl. unfold one at 1. lia. }
  unfold passed, held_up, held_cl in *. rewrite !Hone' in Hf.
  assert (0 <= match s_up s with USend f => size f | UCheck f => if s_done s then 0 else size f | _ => 0 end)
    by (repeat case_match; try lia; apply frame_size_nonneg).
  assert (0 <= match s_cl s with CSend f => size f | CCheck f => if s_done s then 0 else size f | _ => 0 end)
    by (repeat case_match; try lia; apply frame_size_nonneg).
  assert (0 <= match s_up s with USend f => one f | UCheck f => if s_done s then 0 else one f | _ => 0 end)
    by (unfold one; repeat case_match; lia).
  assert (0 <= match s_cl s with CSend f => one f | CCheck f => if s_done s then 0 else one f | _ => 0 end)
    by (unfold one; repeat case_match; lia).
  lia.
Qed.

(** The tokens a session is billed for are, for each kind, the largest number any
    text frame forwarded to the client has reported. *)
Theorem session_usage_is_largest {RJ : RapidJson} (caps : Caps) (first : Z) (s : Session)
  (Hreach : reachable caps (start_session first) s) :
  s_tokens s = largest_tokens (s_to_client s).
Proof.
  assert (metered (start_session first)) as H0 by done. revert H0.
  induction Hreach as [|s1 s2 t i _ IH _ Hs]; intros H0; [done|]. eapply metered_step; [by apply IH|exact Hs].
Qed.

(** C32: Once a session is over, by either thread or by a limit, it ends: at most eleven
    more steps are possible in any order, and they lead nowhere but to the end of
    both threads. *)
Theorem session_shuts_down {RJ : RapidJson} (caps : Caps) (s s' : Session) (schedule : list (Thread * Input))
  (Hdone : s_done s = true) (Hrun : run_session caps schedule s = Some s') :
  (length schedule <= 11)%nat
  /\ ((forall t i, session_step caps t i s' = None) -> s_up s' = UEnd /\ s_cl s' = CEnd).
Proof.
  destruct (shutdown_run caps _ _ _ Hdone Hrun) as [_ Hr]. split; [|apply session_live].
  assert (rank s <= 11)%nat; [|lia]. unfold rank, up_rank, cl_rank. repeat case_match; lia.
Qed.

(** *** Witnesses *)

(** RapidJSON on the one frame that reports usage. *)
Definition usage_json : RapidJson := {|
  Parse := λ s, if s =$ "hello"
                then Some (JObject [("usage" : str, JObject [("input_tokens" : str, JInt 7)])]) else None;
  Write := λ _, [] |}.

Definition sample_caps : Caps := mkCaps 10 65536 1800.

Definition got (data : str) : Input := mkInput (RecvFrame OpText data) 1 0.

(** The provider sends five bytes, the client two more than are left. *)
Definition sample_schedule : list (Thread * Input) :=
  map (Up,.) (repeat (got "hello") 7) ++ map (Cl,.) (repeat (got "12345") 5).

Definition sample_end : Session :=
  default (start_session 2) (run_session (RJ := usage_json) sample_caps sample_schedule (start_session 2)).

Lemma sample_end_reached : reachable (RJ := usage_json) sample_caps (start_session 2) sample_end.
Proof.
  apply (run_session_reachable (RJ := usage_json) sample_caps sample_schedule); [by repeat constructor|].
  vm_compute. reflexivity.
Qed.

Lemma session_within_limits_witness :
  s_cap_exceeded sample_end = true /\ length (s_to_client sample_end) = 1%nat
  /\ 2 + weigh size (s_to_client sample_end) + weigh size (s_to_upstream sample_end) <= 10.
Proof.
  split; [by vm_compute|]. split; [by vm_compute|].
  apply (session_within_limits (RJ := usage_json) sample_caps 2 sample_end); [done|done|done|done|].
  apply sample_end_reached.
Defined.

Lemma session_usage_is_largest_witness :
  t_input (s_tokens sample_end) = 7.
Proof.
  rewrite (session_usage_is_largest (RJ := usage_json) sample_caps 2 sample_end sample_end_reached).
  vm_compute. reflexivity.
Defined.

Definition sample_shutdown : list (Thread * Input) :=
  [(Cl, got "x"); (Up, got "x"); (Up, got "x"); (Cl, got "x")].

Lemma session_shuts_down_witness :
  exists s', run_session (RJ := usage_json) sample_caps sample_shutdown sample_end = Some s'
    /\ (length sample_shutdown <= 11)%nat /\ s_cl s' = CEnd.
Proof.
  set (s' := default sample_end (run_session (RJ := usage_json) sample_caps sample_shutdown sample_end)).
  assert (run_session (RJ := usage_json) sample_caps sample_shutdown sample_end = Some s') as E
    by (vm_compute; reflexivity).
  exists s'. split; [exact E|].
  destruct (session_shuts_down (RJ := usage_json) sample_caps sample_end s' sample_shutdown) as [H _];
    [vm_compute; reflexivity|exact E|].
  split; [exact H|]. vm_compute. reflexivity.
Defined.
